(** * streamplay: job state and log reconciliation pipeline

    A shallow embedding of the synchronisation core of the repository:

    - [db/duckdb_client.py]      ([get_conn], [upsert_job], [insert_job_logs],
                                  [get_job_by_id], [get_job_logs]),
    - [web/db_sync.py]           ([_sync_logs_for_job], [_sync_jobs_and_logs_once],
                                  [_scan_and_sync]),
    - [web/bench_runner.py]      ([start_job], [get_job], [list_jobs]),
    - [simulator/worker.py]      ([log_line], [set_job_field], [process_job]),
    - [duckdb_batch_writer.py]   ([insert_batch], [batched_writer_task]),
    - [web/log_listener.py]      ([_listener_loop]).

    Python code is effectful and may raise: every function of the source is a
    computation in a state-and-exception monad over the state of the process
    it runs in.  Redis and DuckDB are modelled by their command semantics; a
    fault schedule in the state decides which client calls fail with a
    connection or I/O error. *)

From Stdlib Require Import ZArith NArith Lia Bool List Ascii String.
From Stdlib Require Import DecimalN DecimalFacts PrimFloat.
From stdpp Require Import base option list gmap fin_maps.

Set Warnings "-register-all".
Open Scope Z_scope.

(** ** Python values *)

Module Py.

(** A [str] is a sequence of Unicode code points. *)
Abbreviation pystr := (list N).

(** ASCII literals of the source, as code points. *)
Fixpoint lit (s : string) : pystr :=
  match s with
  | EmptyString => []
  | String a r => N_of_ascii a :: lit r
  end.

(** Exceptions raised by the modelled code: Python's own, those of the
    Redis client ([ConnectionError], [ResponseError] for a command refused by
    the server) and those of DuckDB.  All of them are subclasses of
    [Exception]; signals deriving from [BaseException] only ([SystemExit],
    [KeyboardInterrupt]) are not raised by any modelled operation. *)
Inductive exn :=
| ValueError | TypeError | KeyError | AttributeError
| ConnectionError | ResponseError
| TransactionException | ConstraintException | ConversionException
| IOException.

Inductive result (A : Type) :=
| Ok (a : A)
| Raise (e : exn).
Arguments Ok {A} a.
Arguments Raise {A} e.

Definition raises {A} (r : result A) : bool :=
  match r with Ok _ => false | Raise _ => true end.

(** Values exchanged as JSON: what [json.loads] returns and [json.dumps]
    accepts.  [JNull] is [None]; a [dict] keeps its items in insertion order
    and its keys are strings. *)
Inductive json :=
| JNull
| JBool (b : bool)
| JInt (z : Z)
| JFloat (f : float)
| JStr (s : pystr)
| JList (l : list json)
| JDict (d : list (pystr * json)).

(** [bool(v)]: the truth value tested by [if v], [not v], [a and b], [a or b]. *)
Definition truthy (v : json) : bool :=
  match v with
  | JNull => false
  | JBool b => b
  | JInt z => negb (z =? 0)
  | JFloat f => negb (PrimFloat.eqb f 0%float)
  | JStr s => match s with [] => false | _ => true end
  | JList l => match l with [] => false | _ => true end
  | JDict d => match d with [] => false | _ => true end
  end.

Definition str_truthy (s : pystr) : bool :=
  match s with [] => false | _ => true end.

(** [d.get(k)] on a [dict] with string keys: the value, or [None]. *)
Fixpoint dict_get (d : list (pystr * json)) (k : pystr) : json :=
  match d with
  | [] => JNull
  | (k', v) :: r => if decide (k' = k) then v else dict_get r k
  end.

(** [payload.get(k)]: only a [dict] has the method; on any other JSON value
    the attribute lookup raises [AttributeError]. *)
Definition py_get (payload : json) (k : pystr) : result json :=
  match payload with
  | JDict d => Ok (dict_get d k)
  | _ => Raise AttributeError
  end.

(** *** The interpreter's library

    The Unicode character database, the [json] module and the time zone
    belong to the interpreter and its process, not to the repository: they
    are parameters of the model.
    The ASCII range is fixed below; the fields describe code points from
    U+0080 on.
    - [uc_decimal c]: the digit value when [c] is a decimal digit
      (general category Nd), as accepted by [int()].
    - [uc_digit c]: [c] has Numeric_Type=Digit without being decimal
      (superscripts, circled digits): [str.isdigit] accepts it, [int()] does
      not.
    - [uc_space c]: [c] is whitespace, stripped by [int()].
    - [json_loads s]: [json.loads(s)], [None] when it raises.
    - [json_dumps v]: [json.dumps(v)], [None] when it raises.
    - [py_str v]: [str(v)].
    - [utc_as_local t]: [int(datetime.utcnow().timestamp())] at the second
      [t] of [time.time()].  [utcnow()] is a naive time, which [timestamp()]
      reads as a time of the zone of the process: the value is [t] less the
      offset of that zone, and [t] itself only when the zone is UTC. *)
Record runtime := {
  uc_decimal : N -> option N;
  uc_digit : N -> bool;
  uc_space : N -> bool;
  json_loads : pystr -> option json;
  json_dumps : json -> option pystr;
  py_str : json -> pystr;
  utc_as_local : Z -> Z
}.

Section Text.
Context (rt : runtime).

(** Digit value of a decimal digit character. *)
Definition decimal_value (c : N) : option N :=
  if (c <? 128)%N
  then if ((48 <=? c) && (c <=? 57))%N then Some (c - 48)%N else None
  else uc_decimal rt c.

(** Characters accepted by [str.isdigit]. *)
Definition isdigit_char (c : N) : bool :=
  match decimal_value c with
  | Some _ => true
  | None => if (c <? 128)%N then false else uc_digit rt c
  end.

(** [s.isdigit()]: at least one character and all of them digits. *)
Definition isdigit (s : pystr) : bool :=
  match s with
  | [] => false
  | _ => forallb isdigit_char s
  end.

(** Whitespace stripped by [int()]: in ASCII, TAB LF VT FF CR and SPACE
    only (the separators FS GS RS US, U+001C to U+001F, are whitespace for
    [str.isspace] but are not stripped by [int()]); from U+0080 on, the
    whitespace of the Unicode database. *)
Definition isspace_char (c : N) : bool :=
  if (c <? 128)%N
  then (((9 <=? c) && (c <=? 13)) || (c =? 32))%N
  else uc_space rt c.

Fixpoint lstrip (s : pystr) : pystr :=
  match s with
  | c :: r => if isspace_char c then lstrip r else s
  | [] => []
  end.

Definition strip (s : pystr) : pystr := rev (lstrip (rev (lstrip s))).

Definition digit_of_value (d : N) (u : Decimal.uint) : Decimal.uint :=
  match d with
  | 0%N => Decimal.D0 u | 1%N => Decimal.D1 u | 2%N => Decimal.D2 u
  | 3%N => Decimal.D3 u | 4%N => Decimal.D4 u | 5%N => Decimal.D5 u
  | 6%N => Decimal.D6 u | 7%N => Decimal.D7 u | 8%N => Decimal.D8 u
  | _ => Decimal.D9 u
  end.

(** The digits of a base-10 literal: decimal digits, with single
    underscores allowed between two digits.  [after_digit] tells whether the
    previous character was a digit. *)
Fixpoint int_digits (after_digit : bool) (s : pystr) : option Decimal.uint :=
  match s with
  | [] => if after_digit then Some Decimal.Nil else None
  | c :: r =>
      if (c =? 95)%N
      then if after_digit then int_digits false r else None
      else match decimal_value c with
           | Some d => digit_of_value d <$> int_digits true r
           | None => None
           end
  end.

(** [int(s)] for a [str]: surrounding whitespace, an optional sign, a
    base-10 literal.  [None] stands for [ValueError].  Integers are
    unbounded; the interpreter's optional cap on the number of digits of a
    conversion is not modelled. *)
Definition int_of_str (s : pystr) : option Z :=
  match strip s with
  | [] => None
  | c :: r =>
      if (c =? 43)%N then Z.of_N ∘ N.of_uint <$> int_digits false r
      else if (c =? 45)%N then Z.opp ∘ Z.of_N ∘ N.of_uint <$> int_digits false r
      else Z.of_N ∘ N.of_uint <$> int_digits false (c :: r)
  end.

Definition int (s : pystr) : result Z :=
  match int_of_str s with
  | Some z => Ok z
  | None => Raise ValueError
  end.

End Text.

(** [str(n)] for an [int]. *)
Fixpoint uint_digits (u : Decimal.uint) : pystr :=
  match u with
  | Decimal.Nil => []
  | Decimal.D0 r => 48%N :: uint_digits r
  | Decimal.D1 r => 49%N :: uint_digits r
  | Decimal.D2 r => 50%N :: uint_digits r
  | Decimal.D3 r => 51%N :: uint_digits r
  | Decimal.D4 r => 52%N :: uint_digits r
  | Decimal.D5 r => 53%N :: uint_digits r
  | Decimal.D6 r => 54%N :: uint_digits r
  | Decimal.D7 r => 55%N :: uint_digits r
  | Decimal.D8 r => 56%N :: uint_digits r
  | Decimal.D9 r => 57%N :: uint_digits r
  end.

Definition str_of_int (z : Z) : pystr :=
  match z with
  | Zneg p => 45%N :: uint_digits (Pos.to_uint p)
  | _ => uint_digits (N.to_uint (Z.to_N z))
  end.

(** [s.replace(old, "")]: every occurrence of [old], scanned from the left
    without overlap, is removed.  [skip] counts the characters of the current
    occurrence still to drop. *)
Fixpoint is_prefix (p s : pystr) : bool :=
  match p, s with
  | [], _ => true
  | a :: p', b :: s' => (a =? b)%N && is_prefix p' s'
  | _ :: _, [] => false
  end.

Fixpoint remove_all_from (old : pystr) (skip : nat) (s : pystr) : pystr :=
  match s with
  | [] => []
  | c :: r =>
      match skip with
      | S k => remove_all_from old k r
      | O => if is_prefix old s
             then remove_all_from old (Nat.pred (length old)) r
             else c :: remove_all_from old O r
      end
  end.

Definition replace_with_empty (old s : pystr) : pystr :=
  match old with
  | [] => s
  | _ => remove_all_from old O s
  end.

End Py.

Import Py.

(** ** Computations: state and exceptions *)

Module Eff.

(** A computation over a state [W] returns a value or raises, and leaves a
    state in both cases: what was written before a [raise] stays written. *)
Definition M (W A : Type) : Type := W -> result A * W.

Definition ret {W A} (a : A) : M W A := fun w => (Ok a, w).

Definition bind {W A B} (m : M W A) (k : A -> M W B) : M W B :=
  fun w => match m w with
           | (Ok a, w') => k a w'
           | (Raise e, w') => (Raise e, w')
           end.

Definition raise {W A} (e : exn) : M W A := fun w => (Raise e, w).

(** [try: m  except Exception as e: h e]. *)
Definition try_except {W A} (m : M W A) (h : exn -> M W A) : M W A :=
  fun w => match m w with
           | (Ok a, w') => (Ok a, w')
           | (Raise e, w') => h e w'
           end.

Definition lift {W A} (r : result A) : M W A := fun w => (r, w).

Definition gets {W A} (f : W -> A) : M W A := fun w => (Ok (f w), w).

Definition modify {W} (f : W -> W) : M W unit := fun w => (Ok tt, f w).

(** [for x in l: body x], left to right; an exception escaping a body ends
    the loop. *)
Fixpoint for_each {W A} (l : list A) (body : A -> M W unit) : M W unit :=
  match l with
  | [] => ret tt
  | x :: r => bind (body x) (fun _ => for_each r body)
  end.

End Eff.

Import Eff.

Declare Scope eff_scope.
Delimit Scope eff_scope with eff.
Notation "x <- m ;; k" := (bind m (fun x => k))
  (at level 100, m at next level, right associativity) : eff_scope.
Notation "m ;; k" := (bind m (fun _ => k))
  (at level 100, right associativity) : eff_scope.
Open Scope eff_scope.

(** ** Redis *)

Module Redis.

(** A key holds a string, a list or a hash.  A command on a key of another
    type is refused ([WRONGTYPE]), which the client raises as
    [ResponseError]. *)
Inductive rval :=
| RString (s : pystr)
| RList (l : list pystr)
| RHash (h : gmap pystr pystr).

Record server := {
  keyspace : gmap pystr rval;
  published : list (pystr * pystr)
}.

Definition with_keyspace (ks : gmap pystr rval) (s : server) : server :=
  {| keyspace := ks; published := published s |}.

(** The index arithmetic shared by LRANGE and LTRIM: negative indexes count
    from the end, the range is clamped to the list, and [None] is the empty
    range. *)
Definition norm_range (llen start stop : Z) : option (Z * Z) :=
  let start := if start <? 0 then llen + start else start in
  let stop := if stop <? 0 then llen + stop else stop in
  let start := if start <? 0 then 0 else start in
  if (stop <? start) || (llen <=? start) then None
  else Some (start, if llen <=? stop then llen - 1 else stop).

Definition range {A} (l : list A) (start stop : Z) : list A :=
  match norm_range (Z.of_nat (length l)) start stop with
  | None => []
  | Some (a, b) => take (Z.to_nat (b - a + 1)) (drop (Z.to_nat a) l)
  end.

Definition GET (k : pystr) (s : server) : result (option pystr) * server :=
  match keyspace s !! k with
  | None => (Ok None, s)
  | Some (RString v) => (Ok (Some v), s)
  | Some _ => (Raise ResponseError, s)
  end.

Definition SET (k v : pystr) (s : server) : result unit * server :=
  (Ok tt, with_keyspace (<[k := RString v]> (keyspace s)) s).

Definition LLEN (k : pystr) (s : server) : result Z * server :=
  match keyspace s !! k with
  | None => (Ok 0, s)
  | Some (RList l) => (Ok (Z.of_nat (length l)), s)
  | Some _ => (Raise ResponseError, s)
  end.

Definition LRANGE (k : pystr) (start stop : Z) (s : server)
  : result (list pystr) * server :=
  match keyspace s !! k with
  | None => (Ok [], s)
  | Some (RList l) => (Ok (range l start stop), s)
  | Some _ => (Raise ResponseError, s)
  end.

Definition RPUSH (k v : pystr) (s : server) : result Z * server :=
  match keyspace s !! k with
  | None => (Ok 1, with_keyspace (<[k := RList [v]]> (keyspace s)) s)
  | Some (RList l) =>
      (Ok (Z.of_nat (length l) + 1),
       with_keyspace (<[k := RList (l ++ [v])]> (keyspace s)) s)
  | Some _ => (Raise ResponseError, s)
  end.

(** A list that becomes empty is deleted. *)
Definition LTRIM (k : pystr) (start stop : Z) (s : server)
  : result unit * server :=
  match keyspace s !! k with
  | None => (Ok tt, s)
  | Some (RList l) =>
      match range l start stop with
      | [] => (Ok tt, with_keyspace (delete k (keyspace s)) s)
      | l' => (Ok tt, with_keyspace (<[k := RList l']> (keyspace s)) s)
      end
  | Some _ => (Raise ResponseError, s)
  end.

Definition HGETALL (k : pystr) (s : server)
  : result (gmap pystr pystr) * server :=
  match keyspace s !! k with
  | None => (Ok ∅, s)
  | Some (RHash h) => (Ok h, s)
  | Some _ => (Raise ResponseError, s)
  end.

(** [KEYS prefix*] for a prefix without glob characters.  The order of the
    reply is the server's. *)
Definition KEYS_prefix (prefix : pystr) (s : server)
  : result (list pystr) * server :=
  (Ok (List.filter (is_prefix prefix) (map_to_list (keyspace s)).*1), s).

Definition PUBLISH (channel msg : pystr) (s : server) : result Z * server :=
  (Ok 0, {| keyspace := keyspace s; published := published s ++ [(channel, msg)] |}).

(** [HSET key field value ...]: the fields are written into the hash of the
    key, which is created when the key is absent; the reply is the number of
    fields that were not in the hash. *)
Definition set_fields (fields : list (pystr * pystr)) (h : gmap pystr pystr)
  : gmap pystr pystr :=
  fold_left (fun h fv => <[fv.1 := fv.2]> h) fields h.

Definition HSET (k : pystr) (fields : list (pystr * pystr)) (s : server)
  : result Z * server :=
  let put h :=
    (Ok (Z.of_nat (size (set_fields fields h)) - Z.of_nat (size h)),
     with_keyspace (<[k := RHash (set_fields fields h)]> (keyspace s)) s) in
  match keyspace s !! k with
  | None => put ∅
  | Some (RHash h) => put h
  | Some _ => (Raise ResponseError, s)
  end.

(** [EXISTS key]: 1 when the key holds a value, of any type, 0 otherwise. *)
Definition EXISTS (k : pystr) (s : server) : result Z * server :=
  (Ok (match keyspace s !! k with Some _ => 1 | None => 0 end), s).

End Redis.

(** ** DuckDB *)

Module DuckDB.

(** Rows of the two tables created by [_ensure_schema].  [NULL] is [None];
    a primary-key column is never [NULL]. *)
Record job_row := {
  j_id : pystr;                 (* VARCHAR PRIMARY KEY *)
  j_status : option pystr;      (* VARCHAR *)
  j_created_at : option Z;      (* BIGINT *)
  j_started_at : option Z;      (* BIGINT *)
  j_finished_at : option Z;     (* BIGINT *)
  j_exit_code : option Z;       (* INTEGER *)
  j_result_path : option pystr; (* VARCHAR *)
  j_error : option pystr;       (* VARCHAR *)
  j_params : option pystr;      (* VARCHAR *)
  j_last_updated : option Z     (* BIGINT *)
}.

Record log_row := {
  l_job_id : pystr;             (* VARCHAR, PRIMARY KEY (job_id, seq) *)
  l_seq : Z;                    (* BIGINT,  PRIMARY KEY (job_id, seq) *)
  l_ts : option Z;              (* BIGINT *)
  l_line : option pystr         (* VARCHAR *)
}.

Record tables := {
  jobs : list job_row;
  job_logs : list log_row
}.

(** A connection: the committed tables, and the working copy of the open
    transaction if there is one.  Statements outside a transaction commit
    at once. *)
Record conn := {
  committed : tables;
  txn : option tables
}.

Definition view (c : conn) : tables :=
  match txn c with Some t => t | None => committed c end.

Definition write (t : tables) (c : conn) : conn :=
  match txn c with
  | Some _ => {| committed := committed c; txn := Some t |}
  | None => {| committed := t; txn := None |}
  end.

(** Ranges of the integer column types. *)
Definition fits_bigint (z : Z) : bool := (- 2 ^ 63 <=? z) && (z <? 2 ^ 63).
Definition fits_integer (z : Z) : bool := (- 2 ^ 31 <=? z) && (z <? 2 ^ 31).

Definition opt_fits (fits : Z -> bool) (o : option Z) : bool :=
  match o with Some z => fits z | None => true end.

Definition job_row_fits (r : job_row) : bool :=
  opt_fits fits_bigint (j_created_at r) && opt_fits fits_bigint (j_started_at r)
  && opt_fits fits_bigint (j_finished_at r) && opt_fits fits_integer (j_exit_code r)
  && opt_fits fits_bigint (j_last_updated r).

Definition log_row_fits (r : log_row) : bool :=
  fits_bigint (l_seq r) && opt_fits fits_bigint (l_ts r).

Definition has_job (id : pystr) (t : tables) : bool :=
  existsb (fun r => bool_decide (j_id r = id)) (jobs t).

Definition has_log (job_id : pystr) (seq : Z) (t : tables) : bool :=
  existsb (fun r => bool_decide (l_job_id r = job_id) && (l_seq r =? seq))
          (job_logs t).

(** [INSERT INTO job_logs ... VALUES (?, ?, ?, ?)] for one row. *)
Definition insert_log (r : log_row) (t : tables) : result tables :=
  if negb (log_row_fits r) then Raise ConversionException
  else if has_log (l_job_id r) (l_seq r) t then Raise ConstraintException
  else Ok {| jobs := jobs t; job_logs := job_logs t ++ [r] |}.

(** [executemany]: the rows one after the other; the first failure raises
    and leaves the earlier rows in the working copy. *)
Fixpoint insert_logs (rows : list log_row) (t : tables) : result unit * tables :=
  match rows with
  | [] => (Ok tt, t)
  | r :: rest =>
      match insert_log r t with
      | Ok t' => insert_logs rest t'
      | Raise e => (Raise e, t)
      end
  end.

Inductive stmt :=
| BEGIN_TRANSACTION
| COMMIT
| ROLLBACK
| DELETE_FROM_jobs (id : pystr)           (* DELETE FROM jobs WHERE id = ? *)
| INSERT_INTO_jobs (r : job_row)          (* INSERT INTO jobs (...) VALUES (...) *)
| INSERT_INTO_job_logs (rows : list log_row).  (* executemany *)

Definition run (s : stmt) (c : conn) : result unit * conn :=
  match s with
  | BEGIN_TRANSACTION =>
      match txn c with
      | Some _ => (Raise TransactionException, c)
      | None => (Ok tt, {| committed := committed c; txn := Some (committed c) |})
      end
  | COMMIT =>
      match txn c with
      | Some t => (Ok tt, {| committed := t; txn := None |})
      | None => (Raise TransactionException, c)
      end
  | ROLLBACK =>
      match txn c with
      | Some _ => (Ok tt, {| committed := committed c; txn := None |})
      | None => (Raise TransactionException, c)
      end
  | DELETE_FROM_jobs id =>
      let t := view c in
      (Ok tt, write {| jobs := List.filter (fun r => negb (bool_decide (j_id r = id))) (jobs t);
                       job_logs := job_logs t |} c)
  | INSERT_INTO_jobs r =>
      let t := view c in
      if negb (job_row_fits r) then (Raise ConversionException, c)
      else if has_job (j_id r) t then (Raise ConstraintException, c)
      else (Ok tt, write {| jobs := jobs t ++ [r]; job_logs := job_logs t |} c)
  | INSERT_INTO_job_logs rows =>
      let '(r, t) := insert_logs rows (view c) in (r, write t c)
  end.

(** [SELECT seq FROM job_logs WHERE job_id = ? AND seq BETWEEN ? AND ?]. *)
Definition select_seqs (job_id : pystr) (lo hi : Z) (c : conn) : list Z :=
  l_seq <$> List.filter
    (fun r => bool_decide (l_job_id r = job_id) && (lo <=? l_seq r) && (l_seq r <=? hi))
    (job_logs (view c)).

(** [SELECT ... FROM jobs WHERE id = ?] followed by [fetchone()]: the first
    row of the id, [None] when there is none. *)
Definition select_job (id : pystr) (c : conn) : option job_row :=
  List.find (fun r => bool_decide (j_id r = id)) (jobs (view c)).

(** [ORDER BY seq ASC], as an insertion sort.  The order of rows with the
    same [seq] is not specified by the database; within one job the primary
    key excludes them. *)
Fixpoint insert_by_seq (r : log_row) (l : list log_row) : list log_row :=
  match l with
  | [] => [r]
  | x :: l' => if l_seq r <? l_seq x then r :: l else x :: insert_by_seq r l'
  end.

Definition order_by_seq (l : list log_row) : list log_row :=
  fold_right insert_by_seq [] l.

(** [SELECT seq, ts, line FROM job_logs WHERE job_id = ? AND seq >= ?
    ORDER BY seq ASC LIMIT ?], for a limit that is not negative. *)
Definition select_logs (job_id : pystr) (offset : Z) (limit : N) (c : conn)
  : list log_row :=
  take (N.to_nat limit)
       (order_by_seq
          (List.filter (fun r => bool_decide (l_job_id r = job_id) && (offset <=? l_seq r))
                       (job_logs (view c)))).

End DuckDB.

(** ** The web process

    [db_sync] and [duckdb_client] run in the web process: its state is the
    Redis server it talks to, the DuckDB connection, the wall clock, and the
    schedule of faults.  The head of a schedule tells whether the next client
    call fails before reaching the server; an exhausted schedule means no
    further fault. *)

Record world := {
  redis : Redis.server;
  redis_faults : list bool;
  duck : DuckDB.conn;
  duck_faults : list bool;
  clock : Z
}.

Definition next_fault (fs : list bool) : bool * list bool :=
  match fs with
  | [] => (false, [])
  | b :: r => (b, r)
  end.

(** A call of the Redis client. *)
Definition redis_call {A} (cmd : Redis.server -> result A * Redis.server)
  : M world A :=
  fun w =>
    let '(fault, fs) := next_fault (redis_faults w) in
    if fault
    then (Raise ConnectionError,
          {| redis := redis w; redis_faults := fs; duck := duck w;
             duck_faults := duck_faults w; clock := clock w |})
    else let '(r, s) := cmd (redis w) in
         (r, {| redis := s; redis_faults := fs; duck := duck w;
                duck_faults := duck_faults w; clock := clock w |}).

(** [conn.execute(sql, params)] and [conn.executemany(sql, params)]. *)
Definition duck_call {A} (op : DuckDB.conn -> result A * DuckDB.conn)
  : M world A :=
  fun w =>
    let '(fault, fs) := next_fault (duck_faults w) in
    if fault
    then (Raise IOException,
          {| redis := redis w; redis_faults := redis_faults w; duck := duck w;
             duck_faults := fs; clock := clock w |})
    else let '(r, c) := op (duck w) in
         (r, {| redis := redis w; redis_faults := redis_faults w; duck := c;
                duck_faults := fs; clock := clock w |}).

Definition execute (s : DuckDB.stmt) : M world unit := duck_call (DuckDB.run s).

(** [int(time.time())]: the second the clock of the process shows.  The
    clock does not move during a call of a function of the source; between
    two calls it is moved by [at_time] and [sleep] below. *)
Definition now_ts : M world Z := gets clock.

(** [int(datetime.utcnow().timestamp())]. *)
Definition utcnow_ts (rt : runtime) : M world Z :=
  gets (fun w => utc_as_local rt (clock w)).

(** The process at the second [t]. *)
Definition at_time (t : Z) (w : world) : world :=
  {| redis := redis w; redis_faults := redis_faults w; duck := duck w;
     duck_faults := duck_faults w; clock := t |}.

(** [time.sleep(secs)], returning when [elapsed] seconds have passed. *)
Definition sleep (elapsed : Z) : M world unit :=
  modify (fun w => at_time (clock w + elapsed) w).

(** ** db/duckdb_client.py *)

Module duckdb_client.

(** The [job] dictionary passed to [upsert_job], with the keys of its
    docstring and the value types its only caller builds. *)
Record job := {
  id : pystr;
  status : option pystr;
  created_at : option Z;
  started_at : option Z;
  finished_at : option Z;
  exit_code : option Z;
  result_path : option pystr;
  error : option pystr;
  params : json
}.

(** [get_conn()].  The first use creates the directory of the database
    file, connects and creates the two tables if they are missing
    ([_ensure_schema]), and any of these can raise; a later use returns the
    connection of the module.  The call is a client call like the
    statements: it raises when the schedule of faults says so and otherwise
    leaves the connection, whose tables are those of the database file, as it
    is.  The state of the connection is the [duck] field of the process. *)
Definition get_conn : M world unit := duck_call (fun c => (Ok tt, c)).

Section WithRuntime.
Context (rt : runtime).

(** The [params] column: [None] stays [NULL], a string is stored as it is,
    any other value through [json.dumps], or [str] when that raises. *)
Definition params_column (p : json) : option pystr :=
  match p with
  | JNull => None
  | JStr s => Some s
  | v => Some (match json_dumps rt v with
               | Some s => s
               | None => py_str rt v
               end)
  end.

(** [int(v or 0)] for an optional integer. *)
Definition int_or_0 (v : option Z) : Z :=
  match v with
  | Some z => z
  | None => 0
  end.

(** The tuple of values bound to the INSERT statement. *)
Definition job_values (j : job) (now : Z) : DuckDB.job_row :=
  {| DuckDB.j_id := id j;
     DuckDB.j_status := status j;
     DuckDB.j_created_at := Some (int_or_0 (created_at j));
     DuckDB.j_started_at := Some (int_or_0 (started_at j));
     DuckDB.j_finished_at := Some (int_or_0 (finished_at j));
     DuckDB.j_exit_code := exit_code j;
     DuckDB.j_result_path := result_path j;
     DuckDB.j_error := error j;
     DuckDB.j_params := params_column (params j);
     DuckDB.j_last_updated := Some now |}.

Definition upsert_job (j : job) : M world unit :=
  get_conn ;;
  now <- utcnow_ts rt ;;
  execute DuckDB.BEGIN_TRANSACTION ;;
  try_except
    (execute (DuckDB.DELETE_FROM_jobs (id j)) ;;
     execute (DuckDB.INSERT_INTO_jobs (job_values j now)) ;;
     execute DuckDB.COMMIT)
    (fun e => execute DuckDB.ROLLBACK ;; raise e).

End WithRuntime.

(** [min(seqs)] and [max(seqs)] of a non-empty list. *)
Definition list_min (x : Z) (l : list Z) : Z := fold_left Z.min l x.
Definition list_max (x : Z) (l : list Z) : Z := fold_left Z.max l x.

(** The tuple bound to one INSERT of [executemany]. *)
Definition log_values (job_id : pystr) (r : Z * Z * pystr) : DuckDB.log_row :=
  let '(seq, ts, line) := r in
  {| DuckDB.l_job_id := job_id; DuckDB.l_seq := seq;
     DuckDB.l_ts := Some ts; DuckDB.l_line := Some line |}.

Definition insert_job_logs (job_id : pystr) (rows : list (Z * Z * pystr))
  : M world Z :=
  match rows with
  | [] => ret 0
  | r0 :: _ =>
      get_conn ;;
      let seqs := (fun r => r.1.1) <$> rows in
      let min_seq := list_min (r0.1.1) seqs in
      let max_seq := list_max (r0.1.1) seqs in
      existing_seqs <-
        duck_call (fun c => (Ok (DuckDB.select_seqs job_id min_seq max_seq c), c)) ;;
      let to_insert :=
        List.filter (fun r => negb (bool_decide (r.1.1 ∈ existing_seqs))) rows in
      match to_insert with
      | [] => ret 0
      | _ =>
          execute DuckDB.BEGIN_TRANSACTION ;;
          try_except
            (execute (DuckDB.INSERT_INTO_job_logs (log_values job_id <$> to_insert)) ;;
             execute DuckDB.COMMIT ;;
             ret (Z.of_nat (length to_insert)))
            (fun e => execute DuckDB.ROLLBACK ;; raise e)
      end
  end.

(** The dictionaries returned by the readers. *)
Record stored_job := {
  s_id : pystr;
  s_status : option pystr;
  s_created_at : option Z;
  s_started_at : option Z;
  s_finished_at : option Z;
  s_exit_code : option Z;
  s_result_path : option pystr;
  s_error : option pystr;
  s_params : json;
  s_last_updated : option Z
}.

Record stored_line := {
  s_seq : Z;
  s_ts : option Z;
  s_line : option pystr
}.

Section Readers.
Context (rt : runtime).

(** The [params] entry: [None] for [NULL] and for the empty string, else the
    parsed JSON, or the text itself when it does not parse. *)
Definition read_params (p : option pystr) : json :=
  match p with
  | Some s => if str_truthy s
              then match json_loads rt s with Some v => v | None => JStr s end
              else JNull
  | None => JNull
  end.

Definition job_dict (r : DuckDB.job_row) : stored_job :=
  {| s_id := DuckDB.j_id r;
     s_status := DuckDB.j_status r;
     s_created_at := DuckDB.j_created_at r;
     s_started_at := DuckDB.j_started_at r;
     s_finished_at := DuckDB.j_finished_at r;
     s_exit_code := DuckDB.j_exit_code r;
     s_result_path := DuckDB.j_result_path r;
     s_error := DuckDB.j_error r;
     s_params := read_params (DuckDB.j_params r);
     s_last_updated := DuckDB.j_last_updated r |}.

Definition get_job_by_id (job_id : pystr) : M world (option stored_job) :=
  get_conn ;;
  try_except
    (res <- duck_call (fun c => (Ok (DuckDB.select_job job_id c), c)) ;;
     match res with
     | None => ret None
     | Some r => ret (Some (job_dict r))
     end)
    (fun _ => ret None).

End Readers.

(** [get_job_logs(job_id, offset, limit)] for a limit that is not
    negative. *)
Definition get_job_logs (job_id : pystr) (offset : Z) (limit : N)
  : M world (list stored_line) :=
  get_conn ;;
  rows <- duck_call (fun c => (Ok (DuckDB.select_logs job_id offset limit c), c)) ;;
  ret ((fun r => {| s_seq := DuckDB.l_seq r; s_ts := DuckDB.l_ts r;
                    s_line := DuckDB.l_line r |}) <$> rows).

End duckdb_client.

(** ** web/db_sync.py *)

Module db_sync.
Import duckdb_client.

Definition JOB_HASH_PREFIX : pystr := lit "bench_job:".
Definition JOB_LOG_PREFIX : pystr := lit "bench_job_log:".
Definition JOB_LOG_SYNC_PREFIX : pystr := lit "bench_job_log_sync:".

Section WithConfig.
Context (rt : runtime).
(** [int(os.getenv("DB_LOG_BATCH_LIMIT", "1000"))]. *)
Context (LOG_BATCH_LIMIT : Z).

(** [int(v) if v and v.isdigit() else 0]. *)
Definition parse_last_idx (last_idx_val : option pystr) : result Z :=
  match last_idx_val with
  | Some v => if str_truthy v && isdigit rt v then int rt v else Ok 0
  | None => Ok 0
  end.

Definition _sync_logs_for_job (job_id : pystr) : M world unit :=
  let log_key := JOB_LOG_PREFIX ++ job_id in
  let sync_key := JOB_LOG_SYNC_PREFIX ++ job_id in
  last_idx_val <- redis_call (Redis.GET sync_key) ;;
  last_idx <- lift (parse_last_idx last_idx_val) ;;
  llen <- try_except (redis_call (Redis.LLEN log_key)) (fun _ => ret 0) ;;
  if llen <=? last_idx then ret tt
  else
    let end_idx := Z.min (llen - 1) (last_idx + LOG_BATCH_LIMIT - 1) in
    new_entries <- try_except (redis_call (Redis.LRANGE log_key last_idx end_idx))
                              (fun _ => ret []) ;;
    match new_entries with
    | [] => ret tt
    | _ =>
        ts <- now_ts ;;
        let rows := imap (fun i line => (last_idx + Z.of_nat i, ts, line)) new_entries in
        inserted <- try_except (insert_job_logs job_id rows) (fun _ => ret 0) ;;
        let next_idx := last_idx + Z.of_nat (length new_entries) in
        try_except (redis_call (Redis.SET sync_key (str_of_int next_idx)))
                   (fun _ => ret tt)
    end.

(** [int(meta.get(f)) if meta.get(f) else None]. *)
Definition int_field (meta : gmap pystr pystr) (f : pystr) : result (option Z) :=
  match meta !! f with
  | Some v => if str_truthy v
              then match int rt v with Ok z => Ok (Some z) | Raise e => Raise e end
              else Ok None
  | None => Ok None
  end.

(** The [params] entry of the record: the parsed JSON, the raw string when
    it does not parse, [None] when absent or empty. *)
Definition params_field (meta : gmap pystr pystr) : json :=
  match meta !! lit "params" with
  | Some v => if str_truthy v
              then match json_loads rt v with Some p => p | None => JStr v end
              else JNull
  | None => JNull
  end.

(** The body of the loop over the job keys, inside its [try]. *)
Definition sync_one_job (k : pystr) : M world unit :=
  meta <- redis_call (Redis.HGETALL k) ;;
  if bool_decide (meta = ∅) then ret tt
  else
    let job_id := replace_with_empty JOB_HASH_PREFIX k in
    let params := params_field meta in
    c <- lift (int_field meta (lit "created_at")) ;;
    s <- lift (int_field meta (lit "started_at")) ;;
    f <- lift (int_field meta (lit "finished_at")) ;;
    x <- lift (int_field meta (lit "exit_code")) ;;
    let job_record :=
      {| id := job_id; status := meta !! lit "status";
         created_at := c; started_at := s; finished_at := f; exit_code := x;
         result_path := meta !! lit "result_path"; error := meta !! lit "error";
         params := params |} in
    upsert_job rt job_record ;;
    _sync_logs_for_job job_id.

Definition _sync_jobs_and_logs_once : M world unit :=
  try_except
    (keys <- redis_call (Redis.KEYS_prefix JOB_HASH_PREFIX) ;;
     for_each keys (fun k => try_except (sync_one_job k) (fun _ => ret tt)))
    (fun _ => ret tt).

(** [_scan_and_sync] while [_running] holds: a cycle, whose exceptions are
    passed over, then [time.sleep(SYNC_INTERVAL)].  [naps] gives, for each
    iteration the loop makes, the seconds that have passed when its sleep
    returns (at least [SYNC_INTERVAL]). *)
Fixpoint _scan_and_sync (naps : list Z) : M world unit :=
  match naps with
  | [] => ret tt
  | d :: rest =>
      try_except _sync_jobs_and_logs_once (fun _ => ret tt) ;;
      sleep d ;;
      _scan_and_sync rest
  end.

End WithConfig.
End db_sync.

(** ** web/bench_runner.py *)

Module bench_runner.

Definition JOB_QUEUE_KEY : pystr := lit "bench_jobs".

Section WithRuntime.
Context (rt : runtime).

(** [json.dumps(v)]. *)
Definition dumps (v : json) : result pystr :=
  match json_dumps rt v with
  | Some s => Ok s
  | None => Raise TypeError
  end.

(** [start_job(params)]; [job_id] is the value of [str(uuid.uuid4())]. *)
Definition start_job (job_id : pystr) (params : json) : M world pystr :=
  now <- now_ts ;;
  let job_key := db_sync.JOB_HASH_PREFIX ++ job_id in
  params_text <- lift (dumps params) ;;
  let job_meta :=
    [(lit "id", job_id); (lit "status", lit "queued");
     (lit "created_at", str_of_int now); (lit "started_at", []);
     (lit "finished_at", []); (lit "exit_code", []); (lit "result_path", []);
     (lit "error", []); (lit "params", params_text)] in
  redis_call (Redis.HSET job_key job_meta) ;;
  queue_item <- lift (dumps (JDict [(lit "id", JStr job_id); (lit "params", params)])) ;;
  redis_call (Redis.RPUSH JOB_QUEUE_KEY queue_item) ;;
  ret job_id.

(** The values of the dictionary [get_job] returns: the text of a field of
    the hash, a JSON value (the parsed parameters, the loaded result), the
    list of log lines. *)
Inductive job_value :=
| Text (s : pystr)
| Parsed (v : json)
| Lines (l : list pystr).

(** [get_job(job_id)].  [load path] is what the files of the web process
    give for [path]: the value [json.load] returns when
    [os.path.exists(path)] holds and the file can be read and parsed, [None]
    when the file is missing or reading it raises.  The path is read from the
    hash: the only field replaced before is [params]. *)
Definition get_job (load : pystr -> option json) (job_id : pystr)
  : M world (option (gmap pystr job_value)) :=
  let job_key := db_sync.JOB_HASH_PREFIX ++ job_id in
  found <- redis_call (Redis.EXISTS job_key) ;;
  if found =? 0 then ret None
  else
    hash <- redis_call (Redis.HGETALL job_key) ;;
    let meta : gmap pystr job_value := Text <$> hash in
    let meta :=
      match hash !! lit "params" with
      | Some p =>
          if str_truthy p
          then match json_loads rt p with
               | Some v => <[lit "params" := Parsed v]> meta
               | None => meta
               end
          else meta
      | None => meta
      end in
    let log_key := db_sync.JOB_LOG_PREFIX ++ job_id in
    found_log <- redis_call (Redis.EXISTS log_key) ;;
    logs <- (if found_log =? 0 then ret []
             else redis_call (Redis.LRANGE log_key 0 (-1))) ;;
    let result :=
      match hash !! lit "result_path" with
      | Some path => if str_truthy path then load path else None
      | None => None
      end in
    let meta := <[lit "log" := Lines logs]> meta in
    ret (Some (match result with
               | Some JNull | None => meta
               | Some v => <[lit "result" := Parsed v]> meta
               end)).

End WithRuntime.

Definition list_jobs : M world (list pystr) :=
  keys <- redis_call (Redis.KEYS_prefix db_sync.JOB_HASH_PREFIX) ;;
  ret (replace_with_empty db_sync.JOB_HASH_PREFIX <$> keys).

End bench_runner.

(** ** simulator/worker.py *)

Module simulator_worker.

(** The worker is another client of the same Redis server, with a fault
    schedule of its own. *)
Record worker := {
  server : Redis.server;
  faults : list bool
}.

Definition r_call {A} (cmd : Redis.server -> result A * Redis.server)
  : M worker A :=
  fun w =>
    let '(fault, fs) := next_fault (faults w) in
    if fault then (Raise ConnectionError, {| server := server w; faults := fs |})
    else let '(r, s) := cmd (server w) in (r, {| server := s; faults := fs |}).

Section WithRuntime.
Context (rt : runtime).

Definition log_line (job_id line : pystr) : M worker unit :=
  let key := db_sync.JOB_LOG_PREFIX ++ job_id in
  try_except
    (r_call (Redis.RPUSH key line) ;;
     r_call (Redis.LTRIM key (-2000) (-1)) ;;
     payload <- lift (match json_dumps rt (JDict [(lit "job_id", JStr job_id);
                                                 (lit "line", JStr line)]) with
                      | Some s => Ok s
                      | None => Raise TypeError
                      end) ;;
     r_call (Redis.PUBLISH (lit "bench_logs") payload) ;;
     ret tt)
    (fun _ => ret tt).

End WithRuntime.

(** [payload.get(k, default)]. *)
Definition py_get_default (payload : json) (k : pystr) (default : json) : result json :=
  match payload with
  | JDict d => Ok (if bool_decide (k ∈ d.*1) then dict_get d k else default)
  | _ => Raise AttributeError
  end.

Definition set_job_field (job_id field value : pystr) : M worker unit :=
  r_call (Redis.HSET (db_sync.JOB_HASH_PREFIX ++ job_id) [(field, value)]) ;;
  ret tt.

Definition RESULTS_DIR : pystr := lit "/simulator/bench_results".

(** What becomes of the simulator process of a job: it runs to its end,
    having printed the given lines (taken without their newline), returns a
    code and has or has not written the result file; or starting it or
    reading its output raises, after the given lines were read. *)
Inductive subprocess :=
| Exited (lines : list pystr) (returncode : Z) (result_written : bool)
| Crashed (lines : list pystr) (e : exn).

(** What one call of [process_job] gets from outside: the process, and the
    clock when the job starts and when it ends. *)
Record run := {
  child : subprocess;
  t_start : Z;
  t_end : Z
}.

Section ProcessJob.
Context (rt : runtime).
(** [str(e)] for an exception. *)
Context (exn_text : exn -> pystr).

(** [process_job(job_item)].  The command line is built from
    [params.get(...)], which needs [params] to be a dictionary and has no
    other effect than the process it starts. *)
Definition process_job (job_item : json) (env : run) : M worker unit :=
  id_value <- lift (py_get job_item (lit "id")) ;;
  params <- lift (py_get_default job_item (lit "params") (JDict [])) ;;
  job_id <- lift (match id_value with
                  | JStr s => Ok s
                  | _ => Raise TypeError    (* JOB_HASH_PREFIX + job_id *)
                  end) ;;
  set_job_field job_id (lit "status") (lit "running") ;;
  set_job_field job_id (lit "started_at") (str_of_int (t_start env)) ;;
  let out_path := RESULTS_DIR ++ lit "/bench_result_" ++ job_id ++ lit ".json" in
  lift (match params with
        | JDict _ => Ok tt
        | _ => Raise AttributeError
        end) ;;
  try_except
    (match child env with
     | Exited lines returncode result_written =>
         for_each lines (log_line rt job_id) ;;
         set_job_field job_id (lit "exit_code") (str_of_int returncode) ;;
         (if returncode =? 0
          then set_job_field job_id (lit "status") (lit "completed")
          else set_job_field job_id (lit "status") (lit "failed") ;;
               log_line rt job_id
                 (lit "Process exited with code " ++ str_of_int returncode)) ;;
         set_job_field job_id (lit "finished_at") (str_of_int (t_end env)) ;;
         if result_written
         then set_job_field job_id (lit "result_path") out_path
         else ret tt
     | Crashed lines e =>
         for_each lines (log_line rt job_id) ;;
         raise e
     end)
    (fun e =>
       set_job_field job_id (lit "status") (lit "failed") ;;
       set_job_field job_id (lit "error") (exn_text e) ;;
       set_job_field job_id (lit "finished_at") (str_of_int (t_end env)) ;;
       log_line rt job_id (lit "Worker error: " ++ exn_text e)).

End ProcessJob.
End simulator_worker.

(** ** duckdb_batch_writer.py *)

Module duckdb_batch_writer.

Definition BATCH_SIZE : Z := 500.
(** [FLUSH_INTERVAL = 2.0] seconds; times are counted in milliseconds. *)
Definition FLUSH_INTERVAL : Z := 2000.

(** An event dictionary, with the keys and value types of the schema given
    in the source; [None] is a missing key. *)
Record event := {
  session_id : option pystr;
  timestamp : option float;
  type : option pystr;
  payload : option json
}.

(** A row of the [events] table, without its generated [id]. *)
Record event_row := {
  e_session_id : pystr;
  e_ts : float;
  e_type : pystr;
  e_payload : pystr
}.

(** The state of the writer task: the [DuckDBWriter] (its table and the
    faults of its connection), the local variables of the task, the lines
    printed, and the arguments of every call of [writer.insert_batch] with
    the time of the call. *)
Record task := {
  events : list event_row;
  faults : list bool;
  buffer : list event;
  last_flush : Z;
  printed : list (string * option Z);
  flushes : list (Z * list event)
}.

Definition set_buffer (b : list event) (s : task) : task :=
  {| events := events s; faults := faults s; buffer := b;
     last_flush := last_flush s; printed := printed s; flushes := flushes s |}.

Definition set_last_flush (t : Z) (s : task) : task :=
  {| events := events s; faults := faults s; buffer := buffer s;
     last_flush := t; printed := printed s; flushes := flushes s |}.

Definition print (what : string) (n : option Z) : M task unit :=
  modify (fun s =>
    {| events := events s; faults := faults s; buffer := buffer s;
       last_flush := last_flush s; printed := printed s ++ [(what, n)];
       flushes := flushes s |}).

Definition record_flush (now : Z) (rows : list event) : M task unit :=
  modify (fun s =>
    {| events := events s; faults := faults s; buffer := buffer s;
       last_flush := last_flush s; printed := printed s;
       flushes := flushes s ++ [(now, rows)] |}).

Section WithRuntime.
Context (rt : runtime).

(** One tuple of [params]: [r["k"]] raises [KeyError] on a missing key,
    [r.get("payload", {})] does not. *)
Definition event_values (r : event) : result event_row :=
  match session_id r, timestamp r, type r with
  | Some s, Some t, Some k =>
      match json_dumps rt (default (JDict []) (payload r)) with
      | Some p => Ok {| e_session_id := s; e_ts := t; e_type := k; e_payload := p |}
      | None => Raise TypeError
      end
  | _, _, _ => Raise KeyError
  end.

Fixpoint all_values (rows : list event) : result (list event_row) :=
  match rows with
  | [] => Ok []
  | r :: rest =>
      match event_values r with
      | Ok v => match all_values rest with
                | Ok vs => Ok (v :: vs)
                | Raise e => Raise e
                end
      | Raise e => Raise e
      end
  end.

(** [conn.executemany("INSERT INTO events ...", params)]. *)
Definition executemany (params : list event_row) : M task unit :=
  fun s =>
    let '(fault, fs) := next_fault (faults s) in
    if fault
    then (Raise IOException,
          {| events := events s; faults := fs; buffer := buffer s;
             last_flush := last_flush s; printed := printed s; flushes := flushes s |})
    else (Ok tt,
          {| events := events s ++ params; faults := fs; buffer := buffer s;
             last_flush := last_flush s; printed := printed s; flushes := flushes s |}).

(** [DuckDBWriter.insert_batch]: [None] for an empty batch, else the number
    of rows written. *)
Definition insert_batch (rows : list event) : M task (option Z) :=
  match rows with
  | [] => ret None
  | _ =>
      params <- lift (all_values rows) ;;
      executemany params ;;
      ret (Some (Z.of_nat (length params)))
  end.

(** What wakes the task up in [await asyncio.wait_for(queue.get(),
    timeout=FLUSH_INTERVAL)], and when: an item of the queue, or the
    timeout. *)
Inductive wake :=
| Item (now : Z) (evt : event)
| Timeout (now : Z).

(** [writer.insert_batch(buffer)], the print, [buffer.clear()] and
    [last_flush = time.time()]. *)
Definition flush (now : Z) (what : string) : M task unit :=
  buf <- gets buffer ;;
  record_flush now buf ;;
  n <- insert_batch buf ;;
  print what n ;;
  modify (set_buffer []) ;;
  modify (set_last_flush now).

(** One iteration of [while True].  An exception raised while handling the
    timeout is raised inside an [except] clause: the sibling clause
    [except Exception] does not apply to it and it leaves the loop. *)
Definition iteration (w : wake) : M task unit :=
  match w with
  | Item now evt =>
      try_except
        (modify (fun s => set_buffer (buffer s ++ [evt]) s) ;;
         buf <- gets buffer ;;
         (if BATCH_SIZE <=? Z.of_nat (length buf)
          then flush now "Flushed batch size"
          else ret tt) ;;
         ret tt (* queue.task_done() *))
        (fun _ => print "Writer error:" None)
  | Timeout now =>
      buf <- gets buffer ;;
      match buf with
      | [] => ret tt
      | _ => flush now "Flushed on timeout"
      end
  end.

(** The task over the wake-ups it gets; it ends only by an exception. *)
Definition batched_writer_task (ws : list wake) : M task unit :=
  for_each ws iteration.

End WithRuntime.

(** The wake-ups produced by a queue fed at the given times (non-decreasing,
    in milliseconds): the wait that starts at [now] gets the next item when
    it is put before [now + FLUSH_INTERVAL], and times out otherwise.
    Handling a wake-up takes no time.  [n] bounds the number of waits. *)
Fixpoint wake_ups (n : nat) (now : Z) (puts : list (Z * event)) : list wake :=
  match n with
  | O => []
  | S n' =>
      match puts with
      | (at_, evt) :: rest =>
          if at_ <? now + FLUSH_INTERVAL
          then Item (Z.max at_ now) evt :: wake_ups n' (Z.max at_ now) rest
          else Timeout (now + FLUSH_INTERVAL) :: wake_ups n' (now + FLUSH_INTERVAL) puts
      | [] => Timeout (now + FLUSH_INTERVAL) :: wake_ups n' (now + FLUSH_INTERVAL) []
      end
  end.

End duckdb_batch_writer.

(** ** web/log_listener.py *)

Module log_listener.

(** A message of the pub/sub connection: the dictionary built by the Redis
    client, with its [type] and [data] entries. *)
Record message := {
  mtype : pystr;
  data : json
}.

(** What the loop meets: the next item of [ps.listen()], or a call of
    [stop_redis_listener] from another thread before it. *)
Inductive input :=
| Listen (m : option message)
| Stop.

Section WithCallback.
Context (rt : runtime).
(** The subscriber behind the callback and the callback itself: called with
    [(job_id, line)], it changes the subscriber and returns or raises. *)
Context {Sub : Type}.

Record listener := {
  _running : bool;
  _emit_cb : option (json -> json -> M Sub unit);
  subscriber : Sub;
  emitted : list (json * json)      (* the calls made to the callback *)
}.

Definition set_running (b : bool) (s : listener) : listener :=
  {| _running := b; _emit_cb := _emit_cb s; subscriber := subscriber s;
     emitted := emitted s |}.

Definition register_emit_callback (cb : json -> json -> M Sub unit)
  : M listener unit :=
  modify (fun s => {| _running := _running s; _emit_cb := Some cb;
                      subscriber := subscriber s; emitted := emitted s |}).

(** [_emit_cb(job_id, line)]. *)
Definition call_cb (cb : json -> json -> M Sub unit) (job_id line : json)
  : M listener unit :=
  fun s =>
    let '(r, sub) := cb job_id line (subscriber s) in
    (r, {| _running := _running s; _emit_cb := _emit_cb s; subscriber := sub;
           emitted := emitted s ++ [(job_id, line)] |}).

(** [json.loads(data)]: [TypeError] when [data] is not text, [ValueError]
    when it does not parse. *)
Definition loads (d : json) : result json :=
  match d with
  | JStr s => match json_loads rt s with
              | Some v => Ok v
              | None => Raise ValueError
              end
  | _ => Raise TypeError
  end.

Definition is_None (v : json) : bool :=
  match v with JNull => true | _ => false end.

(** The body of the [for] loop after the [_running] test. *)
Definition on_message (m : option message) : M listener unit :=
  match m with
  | None => ret tt
  | Some msg =>
      if negb (bool_decide (mtype msg = lit "message")) then ret tt
      else if negb (truthy (data msg)) then ret tt
      else
        try_except
          (payload <- lift (loads (data msg)) ;;
           job_id <- lift (py_get payload (lit "job_id")) ;;
           line <- lift (py_get payload (lit "line")) ;;
           cb <- gets _emit_cb ;;
           match cb with
           | Some f =>
               if truthy job_id && negb (is_None line)
               then try_except (call_cb f job_id line) (fun _ => ret tt)
               else ret tt
           | None => ret tt
           end)
          (fun _ => ret tt)
  end.

(** [for message in ps.listen()]: [break] when [_running] is false. *)
Fixpoint listen (inputs : list input) : M listener unit :=
  match inputs with
  | [] => ret tt
  | Stop :: rest => modify (set_running false) ;; listen rest
  | Listen m :: rest =>
      running <- gets _running ;;
      if negb running then ret tt
      else on_message m ;; listen rest
  end.

(** The [finally] clause runs on every exit and lets an exception through. *)
Definition _listener_loop (inputs : list input) : M listener unit :=
  fun s =>
    let '(r, s') := (modify (set_running true) ;; listen inputs) s in
    (r, set_running false s').

End WithCallback.
End log_listener.

(** ** A runtime for the examples

    The concrete inputs of the examples are run with this instance of the
    interpreter's library.  Its Unicode data is that of the Latin-1
    supplement (U+0080 to U+00FF): no decimal digit; SUPERSCRIPT TWO, THREE
    and ONE (U+00B2, U+00B3, U+00B9) are digits that are not decimal; NEXT
    LINE (U+0085) and NO-BREAK SPACE (U+00A0) are whitespace.  Its
    serialiser covers JSON values without floating-point numbers, and its
    parser the texts listed in [parses].  Its process runs in a zone eight
    hours east of UTC. *)

Module Sample.

Definition hex_digit (n : N) : N :=
  if (n <? 10)%N then (48 + n)%N else (87 + n)%N.

Definition hex4 (c : N) : pystr :=
  [hex_digit (c / 4096 mod 16); hex_digit (c / 256 mod 16);
   hex_digit (c / 16 mod 16); hex_digit (c mod 16)]%N.

Definition escape_char (c : N) : pystr :=
  if (c =? 34)%N then lit "\" ++ [34%N]
  else if (c =? 92)%N then lit "\\"
  else if (c =? 10)%N then lit "\n"
  else if (c =? 13)%N then lit "\r"
  else if (c =? 9)%N then lit "\t"
  else if (c =? 8)%N then lit "\b"
  else if (c =? 12)%N then lit "\f"
  else if ((32 <=? c) && (c <? 128))%N then [c]
  else if (c <? 65536)%N then lit "\u" ++ hex4 c
  else lit "\u" ++ hex4 (55296 + (c - 65536) / 1024)
       ++ lit "\u" ++ hex4 (56320 + (c - 65536) mod 1024).

Definition quote (s : pystr) : pystr :=
  34%N :: concat (escape_char <$> s) ++ [34%N].

Fixpoint dumps (v : json) : option pystr :=
  match v with
  | JNull => Some (lit "null")
  | JBool true => Some (lit "true")
  | JBool false => Some (lit "false")
  | JInt z => Some (str_of_int z)
  | JFloat _ => None
  | JStr s => Some (quote s)
  | JList l =>
      (fun body => lit "[" ++ body ++ lit "]") <$>
      (fix items (l : list json) : option pystr :=
         match l with
         | [] => Some []
         | x :: r =>
             match dumps x, items r with
             | Some a, Some b =>
                 Some (match r with [] => a | _ => a ++ lit ", " ++ b end)
             | _, _ => None
             end
         end) l
  | JDict d =>
      (fun body => lit "{" ++ body ++ lit "}") <$>
      (fix items (d : list (pystr * json)) : option pystr :=
         match d with
         | [] => Some []
         | (k, x) :: r =>
             match dumps x, items r with
             | Some a, Some b =>
                 Some (match r with
                       | [] => quote k ++ lit ": " ++ a
                       | _ => quote k ++ lit ": " ++ a ++ lit ", " ++ b
                       end)
             | _, _ => None
             end
         end) d
  end.

(** The JSON values whose serialisations the sample parser recognises. *)
Definition parses : list json :=
  [ JDict [(lit "job_id", JStr (lit "j1")); (lit "line", JStr (lit "hello"))];
    JDict [(lit "job_id", JStr (lit "j1")); (lit "line", JStr (lit "world"))];
    JDict [(lit "job_id", JStr (lit "j1")); (lit "line", JStr [])];
    JDict [(lit "job_id", JStr []); (lit "line", JStr (lit "hello"))];
    JDict [(lit "job_id", JStr (lit "j1"))];
    JDict [(lit "line", JStr (lit "hello"))];
    JDict [(lit "job_id", JInt 0); (lit "line", JStr (lit "hello"))];
    JDict [(lit "job_id", JStr (lit "j1")); (lit "line", JNull)];
    JDict [(lit "mode", JStr (lit "http")); (lit "concurrency", JInt 5)];
    JList [JInt 1; JInt 2];
    JInt 7;
    JNull ].

Fixpoint loads_in (table : list json) (s : pystr) : option json :=
  match table with
  | [] => None
  | v :: r => if bool_decide (dumps v = Some s) then Some v else loads_in r s
  end.

Definition rt : runtime :=
  {| uc_decimal := fun _ => None;
     uc_digit := fun c => bool_decide (c ∈ [178; 179; 185]%N);
     uc_space := fun c => bool_decide (c ∈ [133; 160]%N);
     json_loads := loads_in parses;
     json_dumps := dumps;
     py_str := fun v => default [] (dumps v);
     utc_as_local := fun t => t - 28800 |}.

End Sample.

(** * Vocabulary of the statements *)

Import duckdb_client db_sync.

Definition ascii_digit (c : N) : Prop := (48 <= c <= 57)%N.

(** The list stored under a key; an absent key is the empty list. *)
Definition list_at (s : Redis.server) (k : pystr) : option (list pystr) :=
  match Redis.keyspace s !! k with
  | None => Some []
  | Some (Redis.RList l) => Some l
  | Some _ => None
  end.

(** The watermark of a job as [_sync_logs_for_job] reads it: the value of
    its first two statements. *)
Definition watermark (rt : runtime) (s : Redis.server) (job_id : pystr) : result Z :=
  match (Redis.GET (JOB_LOG_SYNC_PREFIX ++ job_id) s).1 with
  | Ok v => parse_last_idx rt v
  | Raise e => Raise e
  end.

(** The state in which the watermark key of a job holds [str(z)]. *)
Definition set_watermark (job_id : pystr) (z : Z) (w : world) : world :=
  {| redis := Redis.with_keyspace
                (<[JOB_LOG_SYNC_PREFIX ++ job_id := Redis.RString (str_of_int z)]>
                   (Redis.keyspace (redis w))) (redis w);
     redis_faults := redis_faults w; duck := duck w;
     duck_faults := duck_faults w; clock := clock w |}.

(** The number of entries one call reads from a list of length [llen] at
    watermark [wm], and the rows it builds from them. *)
Definition batch_length (limit llen wm : Z) : nat :=
  Z.to_nat (Z.min llen (wm + limit) - wm).

Definition batch_rows (limit : Z) (l : list pystr) (wm ts : Z) : list (Z * Z * pystr) :=
  imap (fun i line => (wm + Z.of_nat i, ts, line))
       (take (batch_length limit (Z.of_nat (length l)) wm) (drop (Z.to_nat wm) l)).

(** Computations that leave the Redis side and the clock of the process
    alone. *)
Definition duck_only {A} (m : M world A) : Prop :=
  forall w, redis (m w).2 = redis w /\ redis_faults (m w).2 = redis_faults w
            /\ clock (m w).2 = clock w.

(** The primary key of a [job_logs] row. *)
Definition log_key (r : DuckDB.log_row) : pystr * Z := (DuckDB.l_job_id r, DuckDB.l_seq r).

(** The primary keys hold: no two [jobs] rows with the same [id], no two
    [job_logs] rows with the same [(job_id, seq)]; in the committed tables
    and in the working copy of an open transaction. *)
Definition tables_ok (t : DuckDB.tables) : Prop :=
  NoDup (DuckDB.j_id <$> DuckDB.jobs t) /\ NoDup (log_key <$> DuckDB.job_logs t).

Definition conn_ok (c : DuckDB.conn) : Prop :=
  tables_ok (DuckDB.committed c) /\
  forall t, DuckDB.txn c = Some t -> tables_ok t.

(** A computation keeps a property of the state, whether it returns or
    raises. *)
Definition preserves {W A} (P : W -> Prop) (m : M W A) : Prop :=
  forall w, P w -> P (m w).2.

(** The primary keys hold in the connection of the process. *)
Definition world_ok (w : world) : Prop := conn_ok (duck w).

(** The state in which rows have been appended to the committed [job_logs]. *)
Definition add_logs (rows : list DuckDB.log_row) (w : world) : world :=
  {| redis := redis w; redis_faults := redis_faults w;
     duck := {| DuckDB.committed :=
                  {| DuckDB.jobs := DuckDB.jobs (DuckDB.committed (duck w));
                     DuckDB.job_logs := DuckDB.job_logs (DuckDB.committed (duck w)) ++ rows |};
                DuckDB.txn := DuckDB.txn (duck w) |};
     duck_faults := duck_faults w; clock := clock w |}.

(** The rows of a batch whose [(job_id, seq)] is not in the table yet. *)
Definition new_rows (job_id : pystr) (rows : list (Z * Z * pystr)) (c : DuckDB.conn)
  : list (Z * Z * pystr) :=
  List.filter (fun r => negb (DuckDB.has_log job_id r.1.1 (DuckDB.view c))) rows.

(** The values of a batch fit their columns. *)
Definition rows_fit (rows : list (Z * Z * pystr)) : Prop :=
  Forall (fun r => DuckDB.fits_bigint r.1.1 = true /\ DuckDB.fits_bigint r.1.2 = true) rows.

(** The [jobs] rows of an id. *)
Definition jobs_with (id : pystr) (t : DuckDB.tables) : list DuckDB.job_row :=
  List.filter (fun r => bool_decide (DuckDB.j_id r = id)) (DuckDB.jobs t).

(** The tables after the rows of [r]'s id have been deleted and [r]
    inserted, and the state of the process with these tables committed. *)
Definition replace_job (r : DuckDB.job_row) (t : DuckDB.tables) : DuckDB.tables :=
  {| DuckDB.jobs :=
       List.filter (fun r' => negb (bool_decide (DuckDB.j_id r' = DuckDB.j_id r)))
                   (DuckDB.jobs t) ++ [r];
     DuckDB.job_logs := DuckDB.job_logs t |}.

Definition put_job (r : DuckDB.job_row) (w : world) : world :=
  {| redis := redis w; redis_faults := redis_faults w;
     duck := {| DuckDB.committed := replace_job r (DuckDB.committed (duck w));
                DuckDB.txn := DuckDB.txn (duck w) |};
     duck_faults := duck_faults w; clock := clock w |}.

(** [upsert_job] for each record in turn, as the reconciler calls it: an
    exception of one call does not stop the next. *)
Definition upsert_each (rt : runtime) (js : list job) : M world unit :=
  for_each js (fun j => try_except (upsert_job rt j) (fun _ => ret tt)).

(** A process that starts with an empty Redis server, empty tables, no
    fault scheduled, at time [now]. *)
Definition fresh_world (now : Z) : world :=
  {| redis := {| Redis.keyspace := ∅; Redis.published := [] |};
     redis_faults := [];
     duck := {| DuckDB.committed := {| DuckDB.jobs := []; DuckDB.job_logs := [] |};
                DuckDB.txn := None |};
     duck_faults := [];
     clock := now |}.

(** The state after the lines have been pushed to the log list of a job. *)
Definition appended (job_id : pystr) (lines : list pystr) (w : world) : world :=
  {| redis := fold_left (fun s line => (Redis.RPUSH (JOB_LOG_PREFIX ++ job_id) line s).2)
                        lines (redis w);
     redis_faults := redis_faults w; duck := duck w;
     duck_faults := duck_faults w; clock := clock w |}.

(** A [job_logs] row. *)
Definition log_row (job_id : pystr) (seq ts : Z) (line : pystr) : DuckDB.log_row :=
  {| DuckDB.l_job_id := job_id; DuckDB.l_seq := seq;
     DuckDB.l_ts := Some ts; DuckDB.l_line := Some line |}.

(** A sequence of [insert_job_logs] calls, each under the [try] of its
    caller. *)
Definition insert_each (calls : list (pystr * list (Z * Z * pystr))) : M world unit :=
  for_each calls
    (fun c => try_except (insert_job_logs c.1 c.2 ;; ret tt) (fun _ => ret tt)).

(** The state of a process that lost the watermarks written since [w0]
    (a restart before they were persisted) but kept its tables. *)
Definition restarted (w0 w : world) : world :=
  {| redis := redis w0; redis_faults := redis_faults w; duck := duck w;
     duck_faults := duck_faults w; clock := clock w |}.

(** A job record with the given id and status, created at [t], no other
    field set. *)
Definition job_in_state (job_id : pystr) (st : string) (t : Z) : job :=
  {| id := job_id; status := Some (lit st); created_at := Some t;
     started_at := None; finished_at := None; exit_code := None;
     result_path := None; error := None; params := JNull |}.

(** The state in which a key holds a hash with the given fields. *)
Definition with_hash (k : pystr) (fields : list (pystr * pystr)) (w : world) : world :=
  {| redis := Redis.with_keyspace
                (<[k := Redis.RHash (list_to_map fields)]> (Redis.keyspace (redis w)))
                (redis w);
     redis_faults := redis_faults w; duck := duck w;
     duck_faults := duck_faults w; clock := clock w |}.

(** The record [_sync_jobs_and_logs_once] builds for the hash [meta] of the
    key [k], given the values of its four integer fields. *)
Definition job_record (rt : runtime) (k : pystr) (meta : gmap pystr pystr)
    (c s f x : option Z) : job :=
  {| id := replace_with_empty JOB_HASH_PREFIX k;
     status := meta !! lit "status";
     created_at := c; started_at := s; finished_at := f; exit_code := x;
     result_path := meta !! lit "result_path";
     error := meta !! lit "error";
     params := params_field rt meta |}.

(** The loop of [_sync_jobs_and_logs_once] over given keys. *)
Definition sync_keys (rt : runtime) (limit : Z) (keys : list pystr) : M world unit :=
  for_each keys (fun k => try_except (sync_one_job rt limit k) (fun _ => ret tt)).

(** The [jobs] rows seen by the connection are [J], in the committed tables
    and in the open transaction if there is one. *)
Definition jobs_are (J : list DuckDB.job_row) (w : world) : Prop :=
  DuckDB.jobs (DuckDB.committed (duck w)) = J /\
  forall t, DuckDB.txn (duck w) = Some t -> DuckDB.jobs t = J.

(** The hash of a job whose [created_at] is not a number, and a hash with
    empty optional fields and parameters that are not JSON. *)
Definition malformed_hash : list (pystr * pystr) :=
  [(lit "status", lit "running"); (lit "created_at", lit "abc")].

Definition sparse_hash : list (pystr * pystr) :=
  [(lit "status", lit "queued"); (lit "created_at", lit "1700000000");
   (lit "started_at", []); (lit "exit_code", []); (lit "params", lit "{not json")].

(** The text of the [i]-th line a job produces, in the examples. *)
Definition line_text (i : nat) : pystr := str_of_int (Z.of_nat i).

(** The worker logs the lines numbered [from], ..., [from + count - 1] of a
    job, without fault on its side. *)
Definition produce (rt : runtime) (job_id : pystr) (from count : nat) (w : world) : world :=
  {| redis :=
       fold_left
         (fun s i =>
            simulator_worker.server
              (simulator_worker.log_line rt job_id (line_text i)
                 {| simulator_worker.server := s; simulator_worker.faults := [] |}).2)
         (seq from count) (redis w);
     redis_faults := redis_faults w; duck := duck w;
     duck_faults := duck_faults w; clock := clock w |}.

(** The rows of sequence numbers [from], ..., [from + count - 1] in which
    the row of number [s] holds the line produced as number [s + shift]. *)
Definition shifted_rows (job_id : pystr) (ts : Z) (from count shift : nat)
  : list DuckDB.log_row :=
  (fun s => log_row job_id (Z.of_nat s) ts (line_text (s + shift))) <$> seq from count.

(** A job logs 100 lines, the sync runs, the job logs 2400 more lines. *)
Definition trimmed_world : world :=
  let j1 := lit "j1" in
  let w1 := produce Sample.rt j1 0 100 (fresh_world 1700000000) in
  let w2 := (_sync_logs_for_job Sample.rt 1000 j1 w1).2 in
  produce Sample.rt j1 100 2400 w2.

(** Some row of the table holds the line. *)
Definition holds_line (t : DuckDB.tables) (line : pystr) : bool :=
  existsb (fun r => bool_decide (DuckDB.l_line r = Some line)) (DuckDB.job_logs t).

(** What LTRIM key -2000 -1 keeps of a list. *)
Definition last_2000 (l : list pystr) : list pystr := drop (length l - 2000) l.

(** The state in which the watermark key of a job holds the string [v]. *)
Definition with_raw_watermark (job_id v : pystr) (w : world) : world :=
  {| redis := Redis.with_keyspace
                (<[JOB_LOG_SYNC_PREFIX ++ job_id := Redis.RString v]>
                   (Redis.keyspace (redis w))) (redis w);
     redis_faults := redis_faults w; duck := duck w;
     duck_faults := duck_faults w; clock := clock w |}.

(** SUPERSCRIPT TWO, U+00B2. *)
Definition superscript_two : pystr := [178%N].

Import log_listener.

(** A broadcast message whose payload is the text [text]. *)
Definition broadcast (text : pystr) : option message :=
  Some {| mtype := lit "message"; data := JStr text |}.

(** The state of the listener after [_emit_cb(job_id, line)] was called. *)
Definition after_emit {Sub} (f : json -> json -> M Sub unit) (job_id line : json)
    (s : @listener Sub) : @listener Sub :=
  (call_cb f job_id line s).2.

(** The JSON text of a value, in the examples. *)
Definition sample_text (v : json) : pystr := default [] (Sample.dumps v).

(** A subscriber that records what it is sent, and two callbacks for it:
    one that returns, one that raises after recording. *)
Definition recording_cb : json -> json -> M (list (json * json)) unit :=
  fun job_id line sub => (Ok tt, sub ++ [(job_id, line)]).

Definition failing_cb : json -> json -> M (list (json * json)) unit :=
  fun job_id line sub => (Raise TypeError, sub ++ [(job_id, line)]).

Definition listening (cb : option (json -> json -> M (list (json * json)) unit))
  : @listener (list (json * json)) :=
  {| _running := true; _emit_cb := cb; subscriber := []; emitted := [] |}.

Import duckdb_batch_writer.

(** The writer task when it starts at time [now]: empty table, empty
    buffer, and the given faults of the database. *)
Definition starting_task (now : Z) (fs : list bool) : task :=
  {| events := []; faults := fs; buffer := []; last_flush := now;
     printed := []; flushes := [] |}.

(** The wake-ups of a task that gets the given items at the given times. *)
Definition items (tes : list (Z * event)) : list wake :=
  (fun p => Item p.1 p.2) <$> tes.

(** The state after a flush at time [now] that wrote [params]. *)
Definition flushed (now : Z) (what : string) (params : list event_row) (s : task) : task :=
  {| events := events s ++ params; faults := faults s; buffer := [];
     last_flush := now;
     printed := printed s ++ [(what, Some (Z.of_nat (length params)))];
     flushes := flushes s ++ [(now, buffer s)] |}.

(** The items of a queue are put at intervals shorter than
    [FLUSH_INTERVAL], the first one less than [FLUSH_INTERVAL] after [now]. *)
Fixpoint steady (now : Z) (puts : list (Z * event)) : Prop :=
  match puts with
  | [] => True
  | (at_, _) :: rest => at_ < now + FLUSH_INTERVAL /\ steady (Z.max at_ now) rest
  end.

(** The times at which a task waiting from [now] gets these items. *)
Fixpoint got_at (now : Z) (puts : list (Z * event)) : list (Z * event) :=
  match puts with
  | [] => []
  | (at_, evt) :: rest => (Z.max at_ now, evt) :: got_at (Z.max at_ now) rest
  end.

(** An event of the examples. *)
Definition click (i : Z) : event :=
  {| session_id := Some (lit "session-0"); timestamp := Some 0%float;
     type := Some (lit "click"); payload := Some (JInt i) |}.

(** [n] calls of [_sync_logs_for_job] for one job, one after the other. *)
Fixpoint sync_times (rt : runtime) (limit : Z) (job_id : pystr) (n : nat) (w : world)
  : world :=
  match n with
  | O => w
  | S n' => sync_times rt limit job_id n' (_sync_logs_for_job rt limit job_id w).2
  end.

(** The rows that hold the given lines under the sequence numbers [from],
    [from + 1], ... *)
Definition list_rows (job_id : pystr) (ts from : Z) (lines : list pystr)
  : list DuckDB.log_row :=
  imap (fun i line => log_row job_id (from + Z.of_nat i) ts line) lines.

(** No row of the job in the table has a sequence number from [wm] on. *)
Definition rows_below (job_id : pystr) (wm : Z) (t : DuckDB.tables) : Prop :=
  forall r, r ∈ DuckDB.job_logs t -> DuckDB.l_job_id r = job_id -> DuckDB.l_seq r < wm.

(** The events the task gets from the queue over a run. *)
Definition received (ws : list wake) : list event :=
  ws ≫= (fun w => match w with Item _ evt => [evt] | Timeout _ => [] end).

(** What a received item asks the callback to be called with, if anything:
    the [job_id] and [line] of a broadcast message whose data is the JSON
    text of a dictionary with a true [job_id] and a [line] that is not
    [None]. *)
Definition delivery (rt : runtime) (m : option message) : option (json * json) :=
  match m with
  | Some {| mtype := t; data := JStr text |} =>
      if bool_decide (t = lit "message") then
        match text, json_loads rt text with
        | _ :: _, Some (JDict d) =>
            let job_id := dict_get d (lit "job_id") in
            let line := dict_get d (lit "line") in
            if truthy job_id && negb (is_None line) then Some (job_id, line) else None
        | _, _ => None
        end
      else None
  | _ => None
  end.

(** The hash [start_job] writes for a job. *)
Definition job_meta (job_id : pystr) (now : Z) (params_text : pystr) : gmap pystr pystr :=
  Redis.set_fields
    [(lit "id", job_id); (lit "status", lit "queued");
     (lit "created_at", str_of_int now); (lit "started_at", []);
     (lit "finished_at", []); (lit "exit_code", []); (lit "result_path", []);
     (lit "error", []); (lit "params", params_text)] ∅.

(** The process after [start_job] has written the hash of the job and
    queued the item behind the items [queue] already waiting. *)
Definition started (job_id params_text item : pystr) (queue : list pystr) (w : world)
  : world :=
  {| redis := Redis.with_keyspace
                (<[bench_runner.JOB_QUEUE_KEY := Redis.RList (queue ++ [item])]>
                   (<[JOB_HASH_PREFIX ++ job_id :=
                        Redis.RHash (job_meta job_id (clock w) params_text)]>
                      (Redis.keyspace (redis w))))
                (redis w);
     redis_faults := redis_faults w; duck := duck w;
     duck_faults := duck_faults w; clock := clock w |}.

(** No job has a hash yet. *)
Definition no_job_key (s : Redis.server) : Prop :=
  forall k, is_Some (Redis.keyspace s !! k) -> is_prefix JOB_HASH_PREFIX k = false.

(** The dictionaries [get_job_logs] returns for the lines of a list stored
    under their indices. *)
Definition stored_lines (ts : Z) (lines : list pystr) : list stored_line :=
  imap (fun i line => {| s_seq := Z.of_nat i; s_ts := Some ts; s_line := Some line |}) lines.

(** The dictionary made of a [job_logs] row. *)
Definition line_dict (r : DuckDB.log_row) : stored_line :=
  {| s_seq := DuckDB.l_seq r; s_ts := DuckDB.l_ts r; s_line := DuckDB.l_line r |}.

(** Strictly increasing numbers. *)
Fixpoint ascending (l : list Z) : Prop :=
  match l with
  | [] => True
  | x :: r => Forall (fun y => x < y) r /\ ascending r
  end.

(** The worker logs the lines of a job one after the other, without fault
    on its side. *)
Definition logged (rt : runtime) (job_id : pystr) (lines : list pystr) (w : world) : world :=
  {| redis :=
       fold_left
         (fun s line =>
            simulator_worker.server
              (simulator_worker.log_line rt job_id line
                 {| simulator_worker.server := s; simulator_worker.faults := [] |}).2)
         lines (redis w);
     redis_faults := redis_faults w; duck := duck w;
     duck_faults := duck_faults w; clock := clock w |}.

(** The hash of a job has the given status. *)
Definition status_is (job_id st : pystr) (s : Redis.server) : Prop :=
  exists meta, Redis.keyspace s !! (JOB_HASH_PREFIX ++ job_id) = Some (Redis.RHash meta)
               /\ meta !! lit "status" = Some st.

(** The worker's view of Redis while it handles a job without fault: the
    hash of the job is [meta], its log list is [l], and no other key has
    changed since the server was [s0]. *)
Definition handling (job_id : pystr) (s0 : Redis.server) (meta : gmap pystr pystr)
    (l : list pystr) (w : simulator_worker.worker) : Prop :=
  simulator_worker.faults w = [] /\
  Redis.keyspace (simulator_worker.server w) !! (JOB_HASH_PREFIX ++ job_id)
  = Some (Redis.RHash meta) /\
  list_at (simulator_worker.server w) (JOB_LOG_PREFIX ++ job_id) = Some l /\
  forall k, k <> JOB_HASH_PREFIX ++ job_id -> k <> JOB_LOG_PREFIX ++ job_id ->
    Redis.keyspace (simulator_worker.server w) !! k = Redis.keyspace s0 !! k.

(** The process after the worker has handled an item, without fault on the
    worker's side. *)
Definition worked (rt : runtime) (exn_text : exn -> pystr) (job_item : json)
    (env : simulator_worker.run) (w : world) : world :=
  {| redis := simulator_worker.server
                (simulator_worker.process_job rt exn_text job_item env
                   {| simulator_worker.server := redis w;
                      simulator_worker.faults := [] |}).2;
     redis_faults := redis_faults w; duck := duck w;
     duck_faults := duck_faults w; clock := clock w |}.

(** The process is ready for a cycle in which one job has a hash: Redis
    and the database are not scheduled to fail, no transaction is open, the
    hash of the job is [meta], [KEYS bench_job:*] finds the key of that hash
    and no other, and the log list of the job is [l]. *)
Definition one_job (job_id : pystr) (meta : gmap pystr pystr) (l : list pystr) (w : world)
  : Prop :=
  redis_faults w = [] /\ duck_faults w = [] /\ DuckDB.txn (duck w) = None /\
  Redis.keyspace (redis w) !! (JOB_HASH_PREFIX ++ job_id) = Some (Redis.RHash meta) /\
  Redis.KEYS_prefix JOB_HASH_PREFIX (redis w) = (Ok [JOB_HASH_PREFIX ++ job_id], redis w) /\
  list_at (redis w) (JOB_LOG_PREFIX ++ job_id) = Some l.

(** The seconds at which the cycles of [_scan_and_sync] run, when the first
    runs at [t] and the sleeps return after [naps]. *)
Fixpoint cycle_times (t : Z) (naps : list Z) : list Z :=
  match naps with
  | [] => []
  | d :: rest => t :: cycle_times (t + d) rest
  end.

(** The rows that cycles at the given seconds make of the list [l] of a job
    read from the watermark [wm] on: each cycle takes the next batch, numbers
    its entries by their index in the list and stamps them with its own
    second. *)
Fixpoint cycle_rows (limit : Z) (job_id : pystr) (l : list pystr) (wm : Z)
    (times : list Z) : list DuckDB.log_row :=
  match times with
  | [] => []
  | t :: rest =>
      let k := batch_length limit (Z.of_nat (length l)) wm in
      list_rows job_id t wm (take k (drop (Z.to_nat wm) l))
      ++ cycle_rows limit job_id l (wm + Z.of_nat k) rest
  end.

(** * Properties *)

Opaque JOB_HASH_PREFIX JOB_LOG_PREFIX JOB_LOG_SYNC_PREFIX.

(** ** Text conversions *)

Section TextFacts.
Context (rt : runtime).

Lemma uint_digits_ascii (u : Decimal.uint) : Forall ascii_digit (uint_digits u).
Proof.
  induction u; simpl; constructor; auto; unfold ascii_digit; lia.
Qed.

Lemma ascii_digit_isdigit (c : N) : ascii_digit c -> isdigit_char rt c = true.
Proof.
  unfold ascii_digit, isdigit_char, decimal_value. intros [Hlo Hhi].
  replace (c <? 128)%N with true by (symmetry; apply N.ltb_lt; lia).
  replace (48 <=? c)%N with true by (symmetry; apply N.leb_le; lia).
  replace (c <=? 57)%N with true by (symmetry; apply N.leb_le; lia).
  reflexivity.
Qed.

Lemma ascii_digit_not_space (c : N) : ascii_digit c -> isspace_char rt c = false.
Proof.
  unfold ascii_digit, isspace_char. intros [Hlo Hhi].
  replace (c <? 128)%N with true by (symmetry; apply N.ltb_lt; lia).
  replace (c <=? 13)%N with false by (symmetry; apply N.leb_gt; lia).
  replace (c =? 32)%N with false by (symmetry; apply N.eqb_neq; lia).
  rewrite !andb_false_r. reflexivity.
Qed.

Lemma lstrip_keeps_last (c : N) (s : pystr) :
  isspace_char rt c = false -> exists t, lstrip rt (s ++ [c]) = t ++ [c].
Proof.
  intros Hsp. induction s as [|a t IH]; cbn [app lstrip].
  - rewrite Hsp. now exists [].
  - destruct (isspace_char rt a); [exact IH|]. now exists (a :: t).
Qed.

(** [int()] does not strip the separators U+001C to U+001F: a text that
    starts or ends with one is rejected, whatever the rest. *)
Lemma int_rejects_separator (c : N) (s : pystr) :
  (28 <= c <= 31)%N -> int_of_str rt (c :: s) = None /\ int_of_str rt (s ++ [c]) = None.
Proof.
  intros Hc.
  assert (Hsp : isspace_char rt c = false).
  { unfold isspace_char.
    replace (c <? 128)%N with true by (symmetry; apply N.ltb_lt; lia).
    replace (c <=? 13)%N with false by (symmetry; apply N.leb_gt; lia).
    replace (c =? 32)%N with false by (symmetry; apply N.eqb_neq; lia).
    rewrite andb_false_r. reflexivity. }
  assert (Hdv : decimal_value rt c = None).
  { unfold decimal_value.
    replace (c <? 128)%N with true by (symmetry; apply N.ltb_lt; lia).
    replace (48 <=? c)%N with false by (symmetry; apply N.leb_gt; lia).
    reflexivity. }
  assert (H43 : (c =? 43)%N = false) by (apply N.eqb_neq; lia).
  assert (H45 : (c =? 45)%N = false) by (apply N.eqb_neq; lia).
  assert (H95 : (c =? 95)%N = false) by (apply N.eqb_neq; lia).
  assert (Hend : forall b t, int_digits rt b (t ++ [c]) = None).
  { intros b t. revert b. induction t as [|a t IH]; intros b; cbn [app int_digits].
    - now rewrite H95, Hdv.
    - destruct (a =? 95)%N; [destruct b; [apply IH|reflexivity]|].
      destruct (decimal_value rt a); [|reflexivity]. now rewrite IH. }
  assert (Hstart : forall t, int_digits rt false (c :: t) = None).
  { intros t. cbn [int_digits]. now rewrite H95, Hdv. }
  split.
  - unfold int_of_str, strip. cbn [lstrip]. rewrite Hsp. cbn [rev].
    destruct (lstrip_keeps_last c (rev s) Hsp) as (t & ->).
    rewrite rev_app_distr. cbn [rev app]. now rewrite H43, H45, Hstart.
  - unfold int_of_str, strip.
    destruct (lstrip_keeps_last c s Hsp) as (t & ->).
    rewrite rev_app_distr. cbn [rev app lstrip]. rewrite Hsp. cbn [rev].
    rewrite rev_involutive.
    destruct t as [|c0 t]; cbn [app].
    + now rewrite H43, H45, Hstart.
    + destruct (c0 =? 43)%N; [now rewrite Hend|].
      destruct (c0 =? 45)%N; [now rewrite Hend|].
      change (c0 :: t ++ [c]) with ((c0 :: t) ++ [c]). now rewrite Hend.
Qed.

Lemma lstrip_no_space (s : pystr) :
  Forall (fun c => isspace_char rt c = false) s -> lstrip rt s = s.
Proof.
  destruct 1 as [|c r Hc _]; simpl; [reflexivity|]. now rewrite Hc.
Qed.

Lemma strip_no_space (s : pystr) :
  Forall (fun c => isspace_char rt c = false) s -> strip rt s = s.
Proof.
  intros H. unfold strip. rewrite (lstrip_no_space s H).
  rewrite lstrip_no_space.
  - apply rev_involutive.
  - apply Forall_forall. intros c Hc. rewrite Forall_forall in H.
    apply H. apply list_elem_of_In, in_rev. now apply list_elem_of_In.
Qed.

Lemma int_digits_uint_digits (u : Decimal.uint) (b : bool) :
  u <> Decimal.Nil \/ b = true ->
  int_digits rt b (uint_digits u) = Some u.
Proof.
  revert b. induction u; intros b Hb; simpl;
    try (rewrite IHu by (right; reflexivity); reflexivity).
  destruct Hb as [Hb | ->]; [congruence | reflexivity].
Qed.

Lemma to_uint_not_Nil (n : N) : N.to_uint n <> Decimal.Nil.
Proof.
  intros H. pose proof (DecimalN.Unsigned.of_to n) as Hn. rewrite H in Hn.
  subst n. discriminate H.
Qed.

Lemma pos_to_uint_not_Nil (p : positive) : Pos.to_uint p <> Decimal.Nil.
Proof. exact (to_uint_not_Nil (Npos p)). Qed.

Lemma uint_digits_head (u : Decimal.uint) :
  u <> Decimal.Nil ->
  exists c r, uint_digits u = c :: r /\ ascii_digit c.
Proof.
  intros Hu. pose proof (uint_digits_ascii u) as HF.
  destruct u; [congruence| simpl in *; inversion_clear HF; eauto ..].
Qed.

Lemma int_of_digits (u : Decimal.uint) :
  u <> Decimal.Nil ->
  int_of_str rt (uint_digits u) = Some (Z.of_N (N.of_uint u)).
Proof.
  intros Hu. unfold int_of_str.
  rewrite strip_no_space.
  2:{ eapply Forall_impl; [apply uint_digits_ascii|]. apply ascii_digit_not_space. }
  pose proof (int_digits_uint_digits u false (or_introl Hu)) as Hd.
  destruct (uint_digits_head u Hu) as (c & r & Heq & Hc).
  rewrite Heq in *. unfold ascii_digit in Hc.
  replace (c =? 43)%N with false by (symmetry; apply N.eqb_neq; lia).
  replace (c =? 45)%N with false by (symmetry; apply N.eqb_neq; lia).
  rewrite Hd. reflexivity.
Qed.

(** [int(str(z)) == z]. *)
Lemma int_of_str_of_int (z : Z) : int_of_str rt (str_of_int z) = Some z.
Proof.
  destruct z as [|p|p]; simpl.
  - reflexivity.
  - change (Pos.to_uint p) with (N.to_uint (Npos p)).
    rewrite int_of_digits by apply to_uint_not_Nil.
    now rewrite DecimalN.Unsigned.of_to.
  - unfold int_of_str. rewrite strip_no_space.
    2:{ constructor; [reflexivity|].
        eapply Forall_impl; [apply uint_digits_ascii|]. apply ascii_digit_not_space. }
    change ((45 =? 43)%N) with false. change ((45 =? 45)%N) with true. cbv iota.
    rewrite int_digits_uint_digits by (left; apply pos_to_uint_not_Nil).
    simpl. change (Pos.to_uint p) with (N.to_uint (Npos p)).
    now rewrite DecimalN.Unsigned.of_to.
Qed.

Lemma isdigit_str_of_nonneg (z : Z) : 0 <= z -> isdigit rt (str_of_int z) = true.
Proof.
  intros Hz.
  assert (exists u, u <> Decimal.Nil /\ str_of_int z = uint_digits u) as (u & Hu & ->).
  { destruct z as [|p|p]; [| |lia].
    - exists (N.to_uint 0). split; [apply to_uint_not_Nil | reflexivity].
    - exists (N.to_uint (Npos p)). split; [apply to_uint_not_Nil | reflexivity]. }
  destruct (uint_digits_head u Hu) as (c & r & Heq & Hc).
  unfold isdigit. pose proof (uint_digits_ascii u) as HF. rewrite Heq in *.
  apply forallb_forall. intros x Hx. apply ascii_digit_isdigit.
  rewrite Forall_forall in HF. apply HF. now apply list_elem_of_In.
Qed.

Lemma elem_of_lstrip (s : pystr) (c : N) : c ∈ lstrip rt s -> c ∈ s.
Proof.
  induction s as [|a r IH]; simpl; [auto|].
  destruct (isspace_char rt a); [|auto].
  intros H. right. auto.
Qed.

Lemma elem_of_strip (s : pystr) (c : N) : c ∈ strip rt s -> c ∈ s.
Proof.
  unfold strip. intros H.
  apply list_elem_of_In, in_rev, list_elem_of_In, elem_of_lstrip in H.
  apply list_elem_of_In, in_rev, list_elem_of_In, elem_of_lstrip in H.
  exact H.
Qed.

(** A string accepted by [isdigit], when [int] accepts it too, is not
    negative. *)
Lemma int_of_isdigit_nonneg (s : pystr) (z : Z) :
  isdigit rt s = true -> int_of_str rt s = Some z -> 0 <= z.
Proof.
  intros Hd Hi. unfold int_of_str in Hi.
  destruct (strip rt s) as [|c r] eqn:Hs; [discriminate|].
  assert (Hc : isdigit_char rt c = true).
  { assert (c ∈ s) as Hin by (apply elem_of_strip; rewrite Hs; left).
    unfold isdigit in Hd. destruct s; [discriminate|].
    rewrite forallb_forall in Hd. apply Hd. now apply list_elem_of_In. }
  destruct (c =? 43)%N.
  { destruct (int_digits rt false r); simplify_eq/=. lia. }
  destruct (c =? 45)%N eqn:H45.
  { apply N.eqb_eq in H45. subst c. discriminate Hc. }
  destruct (int_digits rt false (c :: r)); simplify_eq/=. lia.
Qed.

End TextFacts.

(** ** The log sync: one call *)

Section SyncFacts.
Context (rt : runtime) (LIMIT : Z).

Lemma redis_call_ok {A} (cmd : Redis.server -> result A * Redis.server) w :
  redis_faults w = [] ->
  redis_call cmd w =
  ((cmd (redis w)).1,
   {| redis := (cmd (redis w)).2; redis_faults := []; duck := duck w;
      duck_faults := duck_faults w; clock := clock w |}).
Proof.
  intros H. unfold redis_call. rewrite H. simpl. destruct (cmd (redis w)); reflexivity.
Qed.


Lemma GET_state k s : (Redis.GET k s).2 = s.
Proof. unfold Redis.GET. destruct (Redis.keyspace s !! k) as [[]|]; reflexivity. Qed.

Lemma LLEN_list_at k s l :
  list_at s k = Some l -> Redis.LLEN k s = (Ok (Z.of_nat (length l)), s).
Proof.
  unfold list_at, Redis.LLEN.
  destruct (Redis.keyspace s !! k) as [[]|]; intros; simplify_eq; reflexivity.
Qed.

Lemma range_nil {A} (a b : Z) : Redis.range (A:=A) [] a b = [].
Proof.
  unfold Redis.range. destruct (Redis.norm_range _ a b) as [[x y]|] eqn:E; [|reflexivity].
  rewrite drop_nil, take_nil. reflexivity.
Qed.

Lemma LRANGE_list_at k s l a b :
  list_at s k = Some l -> Redis.LRANGE k a b s = (Ok (Redis.range l a b), s).
Proof.
  unfold list_at, Redis.LRANGE.
  destruct (Redis.keyspace s !! k) as [[]|]; intros; simplify_eq;
    rewrite ?range_nil; reflexivity.
Qed.

Lemma sync_noop job w l wm :
  redis_faults w = [] ->
  list_at (redis w) (JOB_LOG_PREFIX ++ job) = Some l ->
  watermark rt (redis w) job = Ok wm ->
  Z.of_nat (length l) <= wm ->
  _sync_logs_for_job rt LIMIT job w = (Ok tt, w).
Proof.
  intros Hf Hl Hw Hle.
  destruct w as [rd rf dk df ck]. cbn [redis redis_faults] in *. subst rf.
  unfold _sync_logs_for_job, bind, try_except, lift.
  rewrite redis_call_ok by reflexivity. cbn [redis redis_faults duck duck_faults clock].
  unfold watermark in Hw. rewrite GET_state.
  destruct (Redis.GET _ rd).1 as [v|e]; [|discriminate].
  rewrite Hw.
  rewrite redis_call_ok by reflexivity. cbn [redis redis_faults duck duck_faults clock].
  rewrite (LLEN_list_at _ _ _ Hl). cbn [fst snd].
  replace (Z.of_nat (length l) <=? wm) with true by (symmetry; apply Z.leb_le; lia).
  reflexivity.
Qed.


Lemma duck_only_ret {A} (a : A) : duck_only (ret a).
Proof. intros w. auto. Qed.

Lemma duck_only_raise {A} e : duck_only (raise (A:=A) e).
Proof. intros w. auto. Qed.

Lemma duck_only_bind {A B} (m : M world A) (k : A -> M world B) :
  duck_only m -> (forall a, duck_only (k a)) -> duck_only (bind m k).
Proof.
  intros Hm Hk w. unfold bind. specialize (Hm w).
  destruct (m w) as [[a|e] w1]; cbn [snd] in *; [|exact Hm].
  destruct (Hk a w1) as (-> & -> & ->). exact Hm.
Qed.

Lemma duck_only_try {A} (m : M world A) (h : exn -> M world A) :
  duck_only m -> (forall e, duck_only (h e)) -> duck_only (try_except m h).
Proof.
  intros Hm Hh w. unfold try_except. specialize (Hm w).
  destruct (m w) as [[a|e] w1]; cbn [snd] in *; [exact Hm|].
  destruct (Hh e w1) as (-> & -> & ->). exact Hm.
Qed.

Lemma duck_only_call {A} (op : DuckDB.conn -> result A * DuckDB.conn) :
  duck_only (duck_call op).
Proof.
  intros w. unfold duck_call. destruct (next_fault (duck_faults w)) as [[] fs].
  - auto.
  - destruct (op (duck w)); auto.
Qed.

Lemma duck_only_gets {A} (f : world -> A) : duck_only (gets f).
Proof. intros w. auto. Qed.

Lemma duck_only_insert_job_logs job rows : duck_only (insert_job_logs job rows).
Proof.
  unfold insert_job_logs, get_conn, execute. destruct rows as [|r0 rest].
  { apply duck_only_ret. }
  repeat first
    [ apply duck_only_bind; [|intros ?]
    | apply duck_only_try; [|intros ?]
    | apply duck_only_call | apply duck_only_ret | apply duck_only_raise
    | match goal with |- duck_only (match ?x with _ => _ end) => destruct x end ].
Qed.

Lemma duck_only_upsert_job j : duck_only (upsert_job rt j).
Proof.
  unfold upsert_job, get_conn, execute, now_ts.
  repeat first
    [ apply duck_only_bind; [|intros ?]
    | apply duck_only_try; [|intros ?]
    | apply duck_only_call | apply duck_only_ret | apply duck_only_raise
    | apply duck_only_gets ].
Qed.

Lemma range_inside {A} (l : list A) (a b : Z) :
  0 <= a < Z.of_nat (length l) -> a <= b < Z.of_nat (length l) ->
  Redis.range l a b = take (Z.to_nat (b - a + 1)) (drop (Z.to_nat a) l).
Proof.
  intros Ha Hb. unfold Redis.range, Redis.norm_range. cbv zeta.
  assert (Ea : (a <? 0) = false) by (apply Z.ltb_ge; lia).
  assert (Eb : (b <? 0) = false) by (apply Z.ltb_ge; lia).
  assert (Eba : (b <? a) = false) by (apply Z.ltb_ge; lia).
  assert (Ela : (Z.of_nat (length l) <=? a) = false) by (apply Z.leb_gt; lia).
  assert (Elb : (Z.of_nat (length l) <=? b) = false) by (apply Z.leb_gt; lia).
  rewrite Ea, Eb. cbv iota. rewrite Ea. cbv iota. rewrite Eba, Ela. cbn [orb].
  rewrite Elb. reflexivity.
Qed.

Lemma watermark_nonneg s job wm : watermark rt s job = Ok wm -> 0 <= wm.
Proof.
  unfold watermark, parse_last_idx, int.
  destruct (Redis.GET _ s).1 as [[v|]|]; try discriminate; [|intros; simplify_eq; lia].
  destruct (str_truthy v && isdigit rt v) eqn:E; [|intros; simplify_eq; lia].
  apply andb_true_iff in E as [_ E].
  destruct (int_of_str rt v) eqn:Hi; [|discriminate].
  intros; simplify_eq. eapply int_of_isdigit_nonneg; eauto.
Qed.

Lemma sync_reads job w l wm :
  0 < LIMIT ->
  redis_faults w = [] ->
  list_at (redis w) (JOB_LOG_PREFIX ++ job) = Some l ->
  watermark rt (redis w) job = Ok wm ->
  wm < Z.of_nat (length l) ->
  _sync_logs_for_job rt LIMIT job w =
  (Ok tt,
   set_watermark job (wm + Z.of_nat (batch_length LIMIT (Z.of_nat (length l)) wm))
     (insert_job_logs job (batch_rows LIMIT l wm (clock w)) w).2).
Proof.
  intros HL Hf Hl Hw Hlt. pose proof (watermark_nonneg _ _ _ Hw) as H0.
  destruct w as [rd rf dk df ck]. cbn [redis redis_faults clock] in *. subst rf.
  unfold _sync_logs_for_job, bind, try_except, lift.
  rewrite redis_call_ok by reflexivity. cbn [redis redis_faults duck duck_faults clock].
  unfold watermark in Hw. rewrite GET_state.
  destruct (Redis.GET _ rd).1 as [v|e]; [|discriminate].
  rewrite Hw.
  rewrite redis_call_ok by reflexivity. cbn [redis redis_faults duck duck_faults clock].
  rewrite (LLEN_list_at _ _ _ Hl). cbn [fst snd].
  replace (Z.of_nat (length l) <=? wm) with false by (symmetry; apply Z.leb_gt; lia).
  rewrite redis_call_ok by reflexivity. cbn [redis redis_faults duck duck_faults clock].
  rewrite (LRANGE_list_at _ _ _ _ _ Hl). cbn [fst snd].
  rewrite range_inside by lia.
  replace (Z.to_nat (Z.min (Z.of_nat (length l) - 1) (wm + LIMIT - 1) - wm + 1))
    with (batch_length LIMIT (Z.of_nat (length l)) wm) by (unfold batch_length; lia).
  set (n := batch_length LIMIT (Z.of_nat (length l)) wm).
  assert (Hlen : length (take n (drop (Z.to_nat wm) l)) = n).
  { rewrite length_take, length_drop. unfold n, batch_length. lia. }
  assert (Hn : (0 < n)%nat) by (unfold n, batch_length; lia).
  destruct (take n (drop (Z.to_nat wm) l)) as [|e0 er] eqn:He; [cbn in Hlen; lia|].
  rewrite <- He in *. clear He e0 er.
  unfold now_ts, gets. cbn [clock].
  unfold batch_rows. fold n. rewrite Hlen.
  set (entries := take n (drop (Z.to_nat wm) l)).
  set (rows := imap _ entries).
  set (w0 := {| redis := rd; redis_faults := []; duck := dk; duck_faults := df; clock := ck |}).
  destruct (duck_only_insert_job_logs job rows w0) as (Hr & Hrf & Hck).
  destruct (insert_job_logs job rows w0) as [r w2]. cbn [snd] in *.
  assert (Hset : redis_call (Redis.SET (JOB_LOG_SYNC_PREFIX ++ job)
                               (str_of_int (wm + Z.of_nat n))) w2
                 = (Ok tt, set_watermark job (wm + Z.of_nat n) w2)).
  { rewrite redis_call_ok by exact Hrf. unfold Redis.SET, set_watermark. cbn [fst snd].
    rewrite Hrf. reflexivity. }
  destruct r; unfold ret; rewrite Hset; reflexivity.
Qed.

End SyncFacts.

(** ** The primary keys are kept *)

Section Preserve.
Context {W : Type} (P : W -> Prop).

Lemma preserves_ret {A} (a : A) : preserves P (ret a).
Proof. intros w H. exact H. Qed.

Lemma preserves_raise {A} e : preserves P (raise (A:=A) e).
Proof. intros w H. exact H. Qed.

Lemma preserves_lift {A} (r : result A) : preserves P (lift r).
Proof. intros w H. exact H. Qed.

Lemma preserves_gets {A} (f : W -> A) : preserves P (gets f).
Proof. intros w H. exact H. Qed.

Lemma preserves_bind {A B} (m : M W A) (k : A -> M W B) :
  preserves P m -> (forall a, preserves P (k a)) -> preserves P (bind m k).
Proof.
  intros Hm Hk w H. unfold bind. specialize (Hm w H).
  destruct (m w) as [[a|e] w1]; cbn [snd] in *; [|exact Hm].
  apply Hk, Hm.
Qed.

Lemma preserves_try {A} (m : M W A) (h : exn -> M W A) :
  preserves P m -> (forall e, preserves P (h e)) -> preserves P (try_except m h).
Proof.
  intros Hm Hh w H. unfold try_except. specialize (Hm w H).
  destruct (m w) as [[a|e] w1]; cbn [snd] in *; [exact Hm|].
  apply Hh, Hm.
Qed.

Lemma preserves_for_each {A} (l : list A) (body : A -> M W unit) :
  (forall x, preserves P (body x)) -> preserves P (for_each l body).
Proof.
  intros Hb. induction l as [|x r IH]; cbn [for_each].
  - apply preserves_ret.
  - apply preserves_bind; [apply Hb | intros _; exact IH].
Qed.

End Preserve.

Lemma filter_NoDup_fmap {A B} (f : A -> B) (p : A -> bool) (l : list A) :
  NoDup (f <$> l) -> NoDup (f <$> List.filter p l).
Proof.
  induction l as [|x r IH]; cbn; [auto|].
  intros H. apply NoDup_cons in H as [Hx Hr].
  destruct (p x); cbn; [|auto].
  apply NoDup_cons. split; [|auto].
  intros Hin. apply Hx.
  apply list_elem_of_fmap in Hin as (y & -> & Hy).
  apply list_elem_of_fmap. exists y. split; [reflexivity|].
  apply list_elem_of_In in Hy. apply filter_In in Hy as [Hy _].
  now apply list_elem_of_In.
Qed.

Lemma has_job_false id t :
  DuckDB.has_job id t = false -> id ∉ DuckDB.j_id <$> DuckDB.jobs t.
Proof.
  unfold DuckDB.has_job. intros H Hin.
  apply list_elem_of_fmap in Hin as (r & -> & Hr).
  apply not_true_iff_false in H. apply H.
  apply existsb_exists. exists r. split; [now apply list_elem_of_In|].
  now apply bool_decide_eq_true.
Qed.

Lemma has_log_false job seq t :
  DuckDB.has_log job seq t = false -> (job, seq) ∉ log_key <$> DuckDB.job_logs t.
Proof.
  unfold DuckDB.has_log. intros H Hin.
  apply list_elem_of_fmap in Hin as (r & Hk & Hr).
  apply not_true_iff_false in H. apply H.
  apply existsb_exists. exists r. split; [now apply list_elem_of_In|].
  unfold log_key in Hk. simplify_eq.
  rewrite bool_decide_eq_true_2 by reflexivity. cbn. apply Z.eqb_refl.
Qed.

Lemma has_log_true job seq t :
  DuckDB.has_log job seq t = true -> (job, seq) ∈ log_key <$> DuckDB.job_logs t.
Proof.
  unfold DuckDB.has_log. intros H.
  apply existsb_exists in H as (r & Hr & Hk).
  apply andb_true_iff in Hk as [Hj Hs].
  apply bool_decide_eq_true in Hj. apply Z.eqb_eq in Hs.
  apply list_elem_of_fmap. exists r. split; [|now apply list_elem_of_In].
  unfold log_key. congruence.
Qed.

Lemma insert_log_ok r t t' :
  tables_ok t -> DuckDB.insert_log r t = Ok t' -> tables_ok t'.
Proof.
  unfold DuckDB.insert_log. intros [Hj Hl].
  destruct (negb (DuckDB.log_row_fits r)); [discriminate|].
  destruct (DuckDB.has_log _ _ t) eqn:Hh; [discriminate|].
  intros; simplify_eq. split; cbn; [exact Hj|].
  rewrite fmap_app. apply NoDup_app. split; [exact Hl|]. split.
  - intros k Hk Hin. cbn in Hin. apply list_elem_of_singleton in Hin. subst k.
    apply has_log_false in Hh. contradiction.
  - cbn. apply NoDup_singleton.
Qed.

Lemma insert_logs_ok rows t :
  tables_ok t -> tables_ok (DuckDB.insert_logs rows t).2.
Proof.
  revert t. induction rows as [|r rest IH]; intros t Ht; cbn; [exact Ht|].
  destruct (DuckDB.insert_log r t) as [t'|e] eqn:E; cbn; [|exact Ht].
  apply IH. eapply insert_log_ok; eauto.
Qed.

Lemma write_ok t c : conn_ok c -> tables_ok t -> conn_ok (DuckDB.write t c).
Proof.
  intros [Hc Ht] Hok. unfold DuckDB.write.
  destruct (DuckDB.txn c) eqn:E; split; cbn; auto; intros; simplify_eq; auto.
Qed.

Lemma view_ok c : conn_ok c -> tables_ok (DuckDB.view c).
Proof.
  intros [Hc Ht]. unfold DuckDB.view. destruct (DuckDB.txn c); auto.
Qed.

Lemma run_ok s c : conn_ok c -> conn_ok (DuckDB.run s c).2.
Proof.
  intros Hc. pose proof (view_ok c Hc) as Hv. destruct Hc as [Hcm Ht].
  destruct s; cbn [DuckDB.run].
  - destruct (DuckDB.txn c) eqn:E; cbn; split; cbn; auto; intros; simplify_eq; auto.
  - destruct (DuckDB.txn c) eqn:E; cbn; split; cbn; auto; intros; simplify_eq; auto.
  - destruct (DuckDB.txn c) eqn:E; cbn; split; cbn; auto; intros; simplify_eq; auto.
  - cbn. apply write_ok; [split; auto|]. destruct Hv as [Hj Hl].
    split; cbn; [|exact Hl]. apply filter_NoDup_fmap, Hj.
  - destruct (negb (DuckDB.job_row_fits r)); [split; auto|].
    destruct (DuckDB.has_job _ _) eqn:Hh; [split; auto|]. cbn.
    apply write_ok; [split; auto|]. destruct Hv as [Hj Hl].
    split; cbn; [|exact Hl].
    rewrite fmap_app. apply NoDup_app. split; [exact Hj|]. split.
    + intros k Hk Hin. cbn in Hin. apply list_elem_of_singleton in Hin. subst k.
      apply has_job_false in Hh. contradiction.
    + cbn. apply NoDup_singleton.
  - pose proof (insert_logs_ok rows (DuckDB.view c) Hv) as Hi.
    destruct (DuckDB.insert_logs rows (DuckDB.view c)) as [r t]. cbn in *.
    apply write_ok; [split; auto|exact Hi].
Qed.

Lemma preserves_duck_call {A} (op : DuckDB.conn -> result A * DuckDB.conn) :
  (forall c, conn_ok c -> conn_ok (op c).2) -> preserves world_ok (duck_call op).
Proof.
  intros Hop w Hw. unfold duck_call, world_ok in *.
  destruct (next_fault (duck_faults w)) as [[] fs]; cbn; [exact Hw|].
  specialize (Hop (duck w) Hw). destruct (op (duck w)); exact Hop.
Qed.

Lemma preserves_redis_call {A} (cmd : Redis.server -> result A * Redis.server) :
  preserves world_ok (redis_call cmd).
Proof.
  intros w Hw. unfold redis_call, world_ok in *.
  destruct (next_fault (redis_faults w)) as [[] fs]; cbn; [exact Hw|].
  destruct (cmd (redis w)); exact Hw.
Qed.

Lemma preserves_execute s : preserves world_ok (execute s).
Proof. apply preserves_duck_call. intros c. apply run_ok. Qed.

Ltac preserve_step :=
  first
    [ apply preserves_bind; [|intros ?]
    | apply preserves_try; [|intros ?]
    | apply preserves_execute
    | apply preserves_redis_call
    | apply preserves_duck_call; intros ? ?; assumption
    | apply preserves_ret | apply preserves_raise
    | apply preserves_lift | apply preserves_gets
    | match goal with
      | |- preserves _ (match ?x with _ => _ end) => destruct x
      | |- preserves _ (if ?x then _ else _) => destruct x
      end ].

Lemma preserves_insert_job_logs job rows :
  preserves world_ok (insert_job_logs job rows).
Proof. unfold insert_job_logs, get_conn. repeat preserve_step. Qed.

Lemma preserves_upsert_job rt j : preserves world_ok (upsert_job rt j).
Proof. unfold upsert_job, get_conn, now_ts. repeat preserve_step. Qed.

Lemma preserves_sync_logs rt LIMIT job :
  preserves world_ok (_sync_logs_for_job rt LIMIT job).
Proof.
  unfold _sync_logs_for_job, now_ts.
  repeat first [apply preserves_insert_job_logs | preserve_step].
Qed.

Lemma preserves_sync_one_job rt LIMIT k :
  preserves world_ok (sync_one_job rt LIMIT k).
Proof.
  unfold sync_one_job.
  repeat first [apply preserves_upsert_job | apply preserves_sync_logs | preserve_step].
Qed.

Lemma preserves_sync_once rt LIMIT :
  preserves world_ok (_sync_jobs_and_logs_once rt LIMIT).
Proof.
  unfold _sync_jobs_and_logs_once.
  repeat first [apply preserves_for_each; intros ? | apply preserves_sync_one_job | preserve_step].
Qed.

(** ** [insert_job_logs]: rows already present are skipped *)

Lemma duck_call_ok {A} (op : DuckDB.conn -> result A * DuckDB.conn) w :
  duck_faults w = [] ->
  duck_call op w =
  ((op (duck w)).1,
   {| redis := redis w; redis_faults := redis_faults w; duck := (op (duck w)).2;
      duck_faults := []; clock := clock w |}).
Proof.
  intros H. unfold duck_call. rewrite H. simpl. destruct (op (duck w)); reflexivity.
Qed.

Lemma get_conn_ok w : duck_faults w = [] -> get_conn w = (Ok tt, w).
Proof.
  intros H. unfold get_conn. rewrite duck_call_ok by exact H.
  destruct w. cbn in *. now subst.
Qed.

Lemma add_logs_nil w : add_logs [] w = w.
Proof.
  destruct w as [rd rf [[jb lg] tx] df ck]. unfold add_logs. cbn.
  rewrite app_nil_r. reflexivity.
Qed.

Lemma list_min_le_init l x : list_min x l <= x.
Proof.
  unfold list_min. revert x. induction l as [|a l IH]; intros x; cbn; [lia|].
  specialize (IH (Z.min x a)). lia.
Qed.

Lemma list_min_le l x y : y ∈ l -> list_min x l <= y.
Proof.
  unfold list_min. revert x. induction l as [|a l IH]; intros x Hy; cbn.
  - inversion Hy.
  - apply elem_of_cons in Hy as [->|Hy]; [|auto].
    pose proof (list_min_le_init l (Z.min x a)). unfold list_min in *. lia.
Qed.

Lemma list_max_ge_init l x : x <= list_max x l.
Proof.
  unfold list_max. revert x. induction l as [|a l IH]; intros x; cbn; [lia|].
  specialize (IH (Z.max x a)). lia.
Qed.

Lemma list_max_ge l x y : y ∈ l -> y <= list_max x l.
Proof.
  unfold list_max. revert x. induction l as [|a l IH]; intros x Hy; cbn.
  - inversion Hy.
  - apply elem_of_cons in Hy as [->|Hy]; [|auto].
    pose proof (list_max_ge_init l (Z.max x a)). unfold list_max in *. lia.
Qed.

Lemma select_seqs_spec job lo hi c seq :
  seq ∈ DuckDB.select_seqs job lo hi c <->
  lo <= seq <= hi /\ DuckDB.has_log job seq (DuckDB.view c) = true.
Proof.
  unfold DuckDB.select_seqs, DuckDB.has_log. rewrite list_elem_of_fmap. split.
  - intros (r & -> & Hr). apply list_elem_of_In, filter_In in Hr as [Hr Hp].
    apply andb_true_iff in Hp as [Hp Hhi]. apply andb_true_iff in Hp as [Hj Hlo].
    split; [lia|]. apply existsb_exists. exists r. split; [exact Hr|].
    rewrite Hj. cbn. apply Z.eqb_refl.
  - intros [Hb He]. apply existsb_exists in He as (r & Hr & Hp).
    apply andb_true_iff in Hp as [Hj Hs]. apply Z.eqb_eq in Hs. subst seq.
    exists r. split; [reflexivity|]. apply list_elem_of_In, filter_In. split; [exact Hr|].
    rewrite Hj. cbn. apply andb_true_iff. split; lia.
Qed.

Lemma has_log_app job seq jobs l1 l2 :
  DuckDB.has_log job seq {| DuckDB.jobs := jobs; DuckDB.job_logs := l1 ++ l2 |} =
  DuckDB.has_log job seq {| DuckDB.jobs := jobs; DuckDB.job_logs := l1 |}
  || DuckDB.has_log job seq {| DuckDB.jobs := jobs; DuckDB.job_logs := l2 |}.
Proof. unfold DuckDB.has_log. cbn. apply existsb_app. Qed.

Lemma insert_logs_fresh rows t :
  Forall (fun r => DuckDB.log_row_fits r = true) rows ->
  NoDup (log_key <$> rows) ->
  (forall r, r ∈ rows -> DuckDB.has_log (DuckDB.l_job_id r) (DuckDB.l_seq r) t = false) ->
  DuckDB.insert_logs rows t =
  (Ok tt, {| DuckDB.jobs := DuckDB.jobs t; DuckDB.job_logs := DuckDB.job_logs t ++ rows |}).
Proof.
  revert t. induction rows as [|r rest IH]; intros t Hfit Hnd Hnew; cbn.
  - rewrite app_nil_r. destruct t; reflexivity.
  - apply Forall_cons in Hfit as [Hr Hfit]. cbn in Hnd. apply NoDup_cons in Hnd as [Hnin Hnd].
    unfold DuckDB.insert_log. rewrite Hr. cbn [negb].
    rewrite (Hnew r) by left.
    rewrite IH; [cbn; rewrite <- app_assoc; reflexivity | exact Hfit | exact Hnd |].
    intros r' Hr'. destruct t as [jb lg]. cbn [DuckDB.jobs DuckDB.job_logs].
    rewrite has_log_app, (Hnew r') by (right; exact Hr'). cbn.
    rewrite orb_false_r.
    apply not_true_iff_false. intros Hk.
    apply andb_true_iff in Hk as [Hj Hs].
    apply bool_decide_eq_true in Hj. apply Z.eqb_eq in Hs.
    apply Hnin. apply list_elem_of_fmap. exists r'. split; [|exact Hr'].
    unfold log_key. congruence.
Qed.

Lemma filter_seen job rows (c : DuckDB.conn) r0 :
  List.filter
    (fun r => negb (bool_decide
       (r.1.1 ∈ DuckDB.select_seqs job (list_min r0 ((fun r => r.1.1) <$> rows))
                                       (list_max r0 ((fun r => r.1.1) <$> rows)) c)))
    rows
  = new_rows job rows c.
Proof.
  unfold new_rows. apply filter_ext_in. intros r Hr. f_equal.
  assert (Hin : r.1.1 ∈ (fun r => r.1.1) <$> rows).
  { apply list_elem_of_fmap. exists r. split; [reflexivity|now apply list_elem_of_In]. }
  pose proof (list_min_le _ r0 _ Hin). pose proof (list_max_ge _ r0 _ Hin).
  destruct (DuckDB.has_log job r.1.1 (DuckDB.view c)) eqn:E.
  - apply bool_decide_eq_true. apply select_seqs_spec. split; [lia|exact E].
  - apply bool_decide_eq_false. rewrite select_seqs_spec. intros [_ ?]. congruence.
Qed.

Lemma new_rows_values job rows c :
  NoDup ((fun r => r.1.1) <$> rows) -> rows_fit rows ->
  let rs := log_values job <$> new_rows job rows c in
  Forall (fun r => DuckDB.log_row_fits r = true) rs /\
  NoDup (log_key <$> rs) /\
  (forall r, r ∈ rs ->
     DuckDB.has_log (DuckDB.l_job_id r) (DuckDB.l_seq r) (DuckDB.view c) = false).
Proof.
  intros Hnd Hfit rs. subst rs. split; [|split].
  - apply Forall_fmap, Forall_forall. intros [[seq ts] line] Hr.
    apply list_elem_of_In, filter_In in Hr as [Hr _].
    unfold rows_fit in Hfit. rewrite Forall_forall in Hfit.
    destruct (Hfit _ (proj2 (list_elem_of_In _ _) Hr)) as [H1 H2]. cbn in *.
    unfold DuckDB.log_row_fits. cbn. now rewrite H1, H2.
  - rewrite <- list_fmap_compose.
    rewrite (list_fmap_ext _ ((fun s => (job, s)) ∘ (fun r : Z * Z * pystr => r.1.1)))
      by (intros ? [[??]?] ?; reflexivity).
    rewrite list_fmap_compose. apply NoDup_fmap_2.
    + intros x y H. congruence.
    + apply filter_NoDup_fmap, Hnd.
  - intros r Hr. apply list_elem_of_fmap in Hr as ([[seq ts] line] & -> & Hr).
    apply list_elem_of_In, filter_In in Hr as [_ Hr]. cbn in *.
    now apply negb_true_iff in Hr.
Qed.

Lemma insert_job_logs_skips job rows w :
  duck_faults w = [] -> DuckDB.txn (duck w) = None ->
  NoDup ((fun r => r.1.1) <$> rows) -> rows_fit rows ->
  insert_job_logs job rows w =
  (Ok (Z.of_nat (length (new_rows job rows (duck w)))),
   add_logs (log_values job <$> new_rows job rows (duck w)) w).
Proof.
  intros Hf Htx Hnd Hfit. destruct rows as [|r0 rest].
  { cbn. rewrite add_logs_nil. reflexivity. }
  destruct w as [rd rf [cm tx] df ck]. cbn in Hf, Htx. subst tx df.
  unfold insert_job_logs. set (rows := r0 :: rest) in *.
  unfold bind at 1. rewrite get_conn_ok by reflexivity. unfold bind at 1.
  rewrite duck_call_ok by reflexivity. cbn [fst snd duck duck_faults redis redis_faults clock].
  rewrite filter_seen.
  set (c0 := {| DuckDB.committed := cm; DuckDB.txn := None |}).
  destruct (new_rows_values job rows c0 Hnd Hfit) as (Hfits & Hkeys & Hfresh).
  change (DuckDB.view c0) with cm in Hfresh.
  remember (new_rows job rows c0) as nr eqn:Hnr.
  destruct nr as [|n0 nrest].
  { unfold ret. unfold add_logs. cbn. rewrite app_nil_r. destruct cm; reflexivity. }
  set (nr := n0 :: nrest) in *.
  unfold execute, bind, try_except, ret.
  rewrite duck_call_ok by reflexivity. cbn [duck duck_faults redis redis_faults clock fst snd].
  unfold c0 at 1 2. cbn [DuckDB.run DuckDB.txn DuckDB.committed fst snd].
  rewrite duck_call_ok by reflexivity. cbn [duck duck_faults redis redis_faults clock fst snd].
  cbn [DuckDB.run DuckDB.view DuckDB.txn DuckDB.committed].
  rewrite (insert_logs_fresh _ cm Hfits Hkeys Hfresh).
  cbn [fst snd DuckDB.write DuckDB.txn DuckDB.committed].
  rewrite duck_call_ok by reflexivity. cbn [duck duck_faults redis redis_faults clock fst snd].
  cbn [DuckDB.run DuckDB.txn fst snd].
  reflexivity.
Qed.

Lemma filter_none {A} (p : A -> bool) (l : list A) :
  (forall x, x ∈ l -> p x = false) -> List.filter p l = [].
Proof.
  induction l as [|a l IH]; intros H; cbn; [reflexivity|].
  rewrite (H a) by left. apply IH. intros x Hx. apply H. now right.
Qed.

Lemma new_rows_after job rows w :
  DuckDB.txn (duck w) = None ->
  new_rows job rows
    (duck (add_logs (log_values job <$> new_rows job rows (duck w)) w)) = [].
Proof.
  intros Htx. destruct w as [rd rf [cm tx] df ck]. cbn in Htx. subst tx.
  unfold add_logs. cbn [duck redis redis_faults duck_faults clock DuckDB.committed DuckDB.txn].
  unfold new_rows at 1. apply filter_none. intros [[seq ts] line] Hr.
  apply negb_false_iff. unfold DuckDB.view. cbn [DuckDB.txn DuckDB.committed fst].
  rewrite has_log_app. apply orb_true_iff.
  destruct (DuckDB.has_log job seq cm) eqn:E.
  - left. destruct cm. exact E.
  - right. unfold DuckDB.has_log. cbn [DuckDB.job_logs].
    apply existsb_exists. exists (log_values job (seq, ts, line)). split.
    + apply list_elem_of_In, list_elem_of_fmap. exists (seq, ts, line). split; [reflexivity|].
      apply list_elem_of_In, filter_In. split; [now apply list_elem_of_In|].
      cbn. unfold DuckDB.view. cbn. now rewrite E.
    + cbn. rewrite bool_decide_eq_true_2 by reflexivity. cbn. apply Z.eqb_refl.
Qed.

(** Replaying a batch inserts nothing and is not an error. *)
Lemma insert_job_logs_replay job rows w :
  duck_faults w = [] -> DuckDB.txn (duck w) = None ->
  NoDup ((fun r => r.1.1) <$> rows) -> rows_fit rows ->
  insert_job_logs job rows (insert_job_logs job rows w).2 =
  (Ok 0, (insert_job_logs job rows w).2).
Proof.
  intros Hf Htx Hnd Hfit.
  rewrite (insert_job_logs_skips job rows w Hf Htx Hnd Hfit). cbn [snd].
  rewrite insert_job_logs_skips; [|exact Hf|exact Htx|exact Hnd|exact Hfit].
  rewrite (new_rows_after job rows w Htx). cbn. rewrite add_logs_nil. reflexivity.
Qed.

(** ** [upsert_job]: replace or nothing *)

Section Upsert.
Context (rt : runtime).

Lemma has_job_deleted id (l : list DuckDB.job_row) lg :
  DuckDB.has_job id
    {| DuckDB.jobs := List.filter (fun r => negb (bool_decide (DuckDB.j_id r = id))) l;
       DuckDB.job_logs := lg |} = false.
Proof.
  unfold DuckDB.has_job. cbn. apply not_true_iff_false. intros H.
  apply existsb_exists in H as (r & Hr & Hid).
  apply filter_In in Hr as [_ Hr]. rewrite Hid in Hr. discriminate.
Qed.

(** Without fault, and with values that fit their columns, the call
    replaces the row. *)
Lemma upsert_job_replaces j w :
  duck_faults w = [] -> DuckDB.txn (duck w) = None ->
  DuckDB.job_row_fits (job_values rt j (utc_as_local rt (clock w))) = true ->
  upsert_job rt j w = (Ok tt, put_job (job_values rt j (utc_as_local rt (clock w))) w).
Proof.
  intros Hf Htx Hfit.
  destruct w as [rd rf [cm tx] df ck]. cbn in Hf, Htx, Hfit. subst tx df.
  unfold upsert_job, get_conn, utcnow_ts, execute, bind, try_except, ret, gets.
  rewrite duck_call_ok by reflexivity. cbn [duck duck_faults redis redis_faults clock fst snd].
  rewrite duck_call_ok by reflexivity. cbn [duck duck_faults redis redis_faults clock fst snd].
  cbn [DuckDB.run DuckDB.txn DuckDB.committed fst snd].
  rewrite duck_call_ok by reflexivity. cbn [duck duck_faults redis redis_faults clock fst snd].
  cbn [DuckDB.run DuckDB.view DuckDB.write DuckDB.txn DuckDB.committed fst snd].
  rewrite duck_call_ok by reflexivity. cbn [duck duck_faults redis redis_faults clock fst snd].
  cbn [DuckDB.run DuckDB.view DuckDB.write DuckDB.txn DuckDB.committed fst snd].
  rewrite Hfit. cbn [negb].
  change (DuckDB.j_id (job_values rt j (utc_as_local rt ck))) with (id j).
  rewrite has_job_deleted.
  cbn [DuckDB.run DuckDB.view DuckDB.write DuckDB.txn DuckDB.committed fst snd
       DuckDB.jobs DuckDB.job_logs].
  rewrite duck_call_ok by reflexivity. cbn [duck duck_faults redis redis_faults clock fst snd].
  cbn [DuckDB.run DuckDB.view DuckDB.write DuckDB.txn DuckDB.committed fst snd].
  reflexivity.
Qed.

Lemma jobs_with_replace r t : jobs_with (DuckDB.j_id r) (replace_job r t) = [r].
Proof.
  unfold jobs_with, replace_job. cbn. rewrite List.filter_app. cbn.
  rewrite bool_decide_eq_true_2 by reflexivity.
  rewrite filter_none; [reflexivity|].
  intros x Hx. apply list_elem_of_In, filter_In in Hx as [_ Hx].
  now apply negb_true_iff in Hx.
Qed.

Lemma jobs_with_replace_other r t id' :
  id' <> DuckDB.j_id r -> jobs_with id' (replace_job r t) = jobs_with id' t.
Proof.
  intros Hne. unfold jobs_with, replace_job. cbn. rewrite List.filter_app. cbn.
  rewrite bool_decide_eq_false_2 by congruence. rewrite app_nil_r.
  induction (DuckDB.jobs t) as [|x l IH]; cbn; [reflexivity|].
  destruct (bool_decide (DuckDB.j_id x = DuckDB.j_id r)) eqn:E; cbn.
  - apply bool_decide_eq_true in E.
    rewrite bool_decide_eq_false_2 by congruence. exact IH.
  - destruct (bool_decide (DuckDB.j_id x = id')); [f_equal|]; exact IH.
Qed.

(** A statement either raises and leaves the connection as it was, or
    returns and leaves it as the statement's semantics says. *)
Lemma execute_inv s w r w' :
  execute s w = (r, w') ->
  (forall rows, s <> DuckDB.INSERT_INTO_job_logs rows) ->
  clock w' = clock w /\
  ((exists e, r = Raise e /\ duck w' = duck w) \/
   (r = Ok tt /\ DuckDB.run s (duck w) = (Ok tt, duck w'))).
Proof.
  unfold execute, duck_call. intros H Hs.
  destruct (next_fault (duck_faults w)) as [[] fs].
  { simplify_eq. cbn. eauto. }
  destruct (DuckDB.run s (duck w)) as [[[]|e] c] eqn:E; simplify_eq; cbn; [eauto|].
  split; [reflexivity|]. left. exists e. split; [reflexivity|].
  destruct s; cbn in E;
    repeat match type of E with
           | context [match ?x with _ => _ end] => destruct x
           end; simplify_eq; try reflexivity.
  exfalso. eapply Hs. reflexivity.
Qed.

(** [get_conn] returns or raises, and leaves everything but the schedule
    of faults as it was. *)
Lemma get_conn_inv w r w' :
  get_conn w = (r, w') ->
  clock w' = clock w /\ duck w' = duck w /\ redis w' = redis w /\
  redis_faults w' = redis_faults w /\ (r = Ok tt \/ r = Raise IOException).
Proof.
  unfold get_conn, duck_call. intros H.
  destruct (next_fault (duck_faults w)) as [[] fs]; simplify_eq; cbn; auto 6.
Qed.

(** Whatever fails and whenever, the call either commits the replacement
    or leaves the committed tables as they were. *)
Lemma upsert_job_atomic j w :
  match (upsert_job rt j w).1 with
  | Ok _ =>
      DuckDB.committed (duck (upsert_job rt j w).2)
      = replace_job (job_values rt j (utc_as_local rt (clock w))) (DuckDB.committed (duck w))
      /\ DuckDB.txn (duck (upsert_job rt j w).2) = None
  | Raise _ =>
      DuckDB.committed (duck (upsert_job rt j w).2) = DuckDB.committed (duck w)
  end.
Proof.
  unfold upsert_job, utcnow_ts, bind, try_except, ret, gets, raise.
  destruct (get_conn w) as [r0 w0] eqn:E0.
  apply get_conn_inv in E0 as (Hc0 & Hd0 & _ & _ & Hr0).
  destruct Hr0 as [-> | ->]; [|cbn; now rewrite Hd0].
  rewrite <- Hd0, <- Hc0. clear Hd0 Hc0. revert w0. clear w. intros w.
  destruct (execute DuckDB.BEGIN_TRANSACTION w) as [r1 w1] eqn:E1.
  apply execute_inv in E1 as [Hc1 [(e & -> & Hd1) | [-> Hd1]]]; [| |done].
  { cbn. now rewrite Hd1. }
  cbn in Hd1. destruct (DuckDB.txn (duck w)) eqn:Htx; [discriminate|].
  injection Hd1 as Hd1.
  destruct (execute (DuckDB.DELETE_FROM_jobs (id j)) w1) as [r2 w2] eqn:E2.
  apply execute_inv in E2 as [Hc2 [(e & -> & Hd2) | [-> Hd2]]]; [| |done].
  { destruct (execute DuckDB.ROLLBACK w2) as [r5 w5] eqn:E5.
    apply execute_inv in E5 as [Hc5 [(e' & -> & Hd5) | [-> Hd5]]]; [| |done]; cbn.
    - now rewrite Hd5, Hd2, <- Hd1.
    - rewrite Hd2, <- Hd1 in Hd5. cbn in Hd5. injection Hd5 as <-. reflexivity. }
  rewrite <- Hd1 in Hd2. cbn in Hd2. injection Hd2 as Hd2.
  destruct (execute (DuckDB.INSERT_INTO_jobs (job_values rt j (utc_as_local rt (clock w)))) w2) as [r3 w3] eqn:E3.
  apply execute_inv in E3 as [Hc3 [(e & -> & Hd3) | [-> Hd3]]]; [| |done].
  { destruct (execute DuckDB.ROLLBACK w3) as [r5 w5] eqn:E5.
    apply execute_inv in E5 as [Hc5 [(e' & -> & Hd5) | [-> Hd5]]]; [| |done]; cbn.
    - now rewrite Hd5, Hd3, <- Hd2.
    - rewrite Hd3, <- Hd2 in Hd5. cbn in Hd5. injection Hd5 as <-. reflexivity. }
  rewrite <- Hd2 in Hd3. cbn in Hd3.
  destruct (negb (DuckDB.job_row_fits _)); [discriminate|].
  change (DuckDB.j_id (job_values rt j (utc_as_local rt (clock w)))) with (id j) in Hd3.
  unfold DuckDB.view in Hd3. cbn in Hd3.
  pose proof (has_job_deleted (id j) (DuckDB.jobs (DuckDB.committed (duck w)))
                (DuckDB.job_logs (DuckDB.committed (duck w)))) as Hh.
  unfold DuckDB.has_job in Hh. cbn in Hh. rewrite Hh in Hd3. clear Hh.
  injection Hd3 as Hd3.
  destruct (execute DuckDB.COMMIT w3) as [r4 w4] eqn:E4.
  apply execute_inv in E4 as [Hc4 [(e & -> & Hd4) | [-> Hd4]]]; [| |done].
  { destruct (execute DuckDB.ROLLBACK w4) as [r5 w5] eqn:E5.
    apply execute_inv in E5 as [Hc5 [(e' & -> & Hd5) | [-> Hd5]]]; [| |done]; cbn.
    - now rewrite Hd5, Hd4, <- Hd3.
    - rewrite Hd4, <- Hd3 in Hd5. cbn in Hd5. injection Hd5 as <-. reflexivity. }
  rewrite <- Hd3 in Hd4. cbn in Hd4. injection Hd4 as Hd4. cbn.
  rewrite <- Hd4. split; reflexivity.
Qed.

Lemma upsert_each_cons j0 js w :
  duck_faults w = [] -> DuckDB.txn (duck w) = None ->
  DuckDB.job_row_fits (job_values rt j0 (utc_as_local rt (clock w))) = true ->
  upsert_each rt (j0 :: js) w = upsert_each rt js (put_job (job_values rt j0 (utc_as_local rt (clock w))) w).
Proof.
  intros Hf Htx Hfit. unfold upsert_each. cbn [for_each].
  unfold bind at 1. unfold try_except at 1.
  rewrite (upsert_job_replaces j0 w Hf Htx Hfit). reflexivity.
Qed.

(** Any number of calls for one id, all without fault: the table ends with
    exactly one row for it, the one of the last call. *)
Lemma upsert_each_last (js : list job) (j : job) (w : world) :
  duck_faults w = [] -> DuckDB.txn (duck w) = None ->
  Forall (fun j' => id j' = id j /\
                    DuckDB.job_row_fits (job_values rt j' (utc_as_local rt (clock w))) = true) (js ++ [j]) ->
  (upsert_each rt (js ++ [j]) w).1 = Ok tt /\
  jobs_with (id j) (DuckDB.committed (duck (upsert_each rt (js ++ [j]) w).2))
  = [job_values rt j (utc_as_local rt (clock w))] /\
  (forall id', id' <> id j ->
     jobs_with id' (DuckDB.committed (duck (upsert_each rt (js ++ [j]) w).2))
     = jobs_with id' (DuckDB.committed (duck w))).
Proof.
  revert w. induction js as [|j0 js IH]; intros w Hf Htx Hall;
    cbn [app] in *; apply Forall_cons in Hall as [[Hid Hfit] Hall];
    rewrite (upsert_each_cons _ _ w Hf Htx Hfit).
  - unfold upsert_each, for_each, ret, put_job. cbn [fst snd duck DuckDB.committed].
    split; [reflexivity|]. split.
    + apply (jobs_with_replace (job_values rt j (utc_as_local rt (clock w)))).
    + intros id' Hne. now apply jobs_with_replace_other.
  - destruct (IH (put_job (job_values rt j0 (utc_as_local rt (clock w))) w) Hf Htx Hall) as (H1 & H2 & H3).
    split; [exact H1|]. split; [exact H2|].
    intros id' Hne. rewrite (H3 id' Hne). unfold put_job. cbn [duck DuckDB.committed].
    apply jobs_with_replace_other.
    change (DuckDB.j_id (job_values rt j0 (utc_as_local rt (clock w)))) with (id j0). congruence.
Qed.

End Upsert.

(** ** The log sync reads in batches (C1) *)

Section Wm.
Context (rt : runtime).

Lemma watermark_set job z w :
  0 <= z -> watermark rt (redis (set_watermark job z w)) job = Ok z.
Proof.
  intros Hz. unfold watermark, set_watermark, Redis.GET, Redis.with_keyspace.
  cbn [redis Redis.keyspace]. rewrite lookup_insert_eq. cbn [fst].
  unfold parse_last_idx. rewrite (isdigit_str_of_nonneg rt z Hz).
  assert (Hne : str_truthy (str_of_int z) = true).
  { pose proof (isdigit_str_of_nonneg rt z Hz) as H. unfold isdigit in H.
    destruct (str_of_int z); [discriminate|reflexivity]. }
  rewrite Hne. cbn [andb]. unfold int. now rewrite int_of_str_of_int.
Qed.

Lemma batch_rows_lookup LIMIT (l : list pystr) wm ts i :
  0 <= wm ->
  (i < batch_length LIMIT (Z.of_nat (length l)) wm)%nat ->
  exists line, l !! (Z.to_nat wm + i)%nat = Some line /\
               batch_rows LIMIT l wm ts !! i = Some (wm + Z.of_nat i, ts, line).
Proof.
  intros Hwm Hi. unfold batch_rows.
  assert (Hlt : (Z.to_nat wm + i < length l)%nat) by (unfold batch_length in Hi; lia).
  destruct (lookup_lt_is_Some_2 l _ Hlt) as [line Hline].
  exists line. split; [exact Hline|].
  rewrite list_lookup_imap, lookup_take_lt by exact Hi.
  rewrite lookup_drop, Hline. reflexivity.
Qed.

Lemma batch_rows_length LIMIT (l : list pystr) wm ts :
  0 <= wm ->
  length (batch_rows LIMIT l wm ts) = batch_length LIMIT (Z.of_nat (length l)) wm.
Proof.
  intros Hwm. unfold batch_rows. rewrite length_imap, length_take, length_drop.
  unfold batch_length. lia.
Qed.

End Wm.

(** C1: one call of [_sync_logs_for_job] on a list of length [L] at
    watermark [wm], with a positive batch limit and Redis answering: it
    returns; it changes nothing when [L <= wm]; otherwise it reads the
    entries of indices [wm .. min(L, wm + LOG_BATCH_LIMIT) - 1], gives each
    its list index as [seq], passes all of them to [insert_job_logs], and
    whatever the insert does sets the watermark to [wm] plus the number of
    entries read; the watermark never decreases.  With five lines pushed,
    a limit of 3 and no watermark yet, the first call sets it to 3 and stores
    seq 0, 1, 2; the second sets it to 5 and the table holds exactly the rows
    of seq 0 to 4. *)
Theorem sync_logs_for_job_batches :
  (forall (rt : runtime) (LOG_BATCH_LIMIT : Z) (job_id : pystr) (w : world)
          (l : list pystr) (wm : Z),
     0 < LOG_BATCH_LIMIT ->
     redis_faults w = [] ->
     list_at (redis w) (JOB_LOG_PREFIX ++ job_id) = Some l ->
     watermark rt (redis w) job_id = Ok wm ->
     let L := Z.of_nat (length l) in
     let n := batch_length LOG_BATCH_LIMIT L wm in
     let rows := batch_rows LOG_BATCH_LIMIT l wm (clock w) in
     let out := _sync_logs_for_job rt LOG_BATCH_LIMIT job_id w in
     out.1 = Ok tt /\
     (L <= wm -> out.2 = w) /\
     (wm < L ->
      Z.of_nat n = Z.min L (wm + LOG_BATCH_LIMIT) - wm /\
      length rows = n /\
      (forall i, (i < n)%nat ->
         exists line, l !! (Z.to_nat wm + i)%nat = Some line /\
                      rows !! i = Some (wm + Z.of_nat i, clock w, line)) /\
      out.2 = set_watermark job_id (wm + Z.of_nat n) (insert_job_logs job_id rows w).2 /\
      watermark rt (redis out.2) job_id = Ok (wm + Z.of_nat n)) /\
     (exists wm', watermark rt (redis out.2) job_id = Ok wm' /\ wm <= wm'))
  /\
  (forall (rt : runtime) (a b c d e : pystr),
     let j1 := lit "j1" in
     let w0 := appended j1 [a; b; c; d; e] (fresh_world 1700000000) in
     let w1 := (_sync_logs_for_job rt 3 j1 w0).2 in
     let w2 := (_sync_logs_for_job rt 3 j1 w1).2 in
     watermark rt (redis w0) j1 = Ok 0 /\
     watermark rt (redis w1) j1 = Ok 3 /\
     DuckDB.job_logs (DuckDB.committed (duck w1))
     = [log_row j1 0 1700000000 a; log_row j1 1 1700000000 b; log_row j1 2 1700000000 c] /\
     watermark rt (redis w2) j1 = Ok 5 /\
     DuckDB.job_logs (DuckDB.committed (duck w2))
     = [log_row j1 0 1700000000 a; log_row j1 1 1700000000 b; log_row j1 2 1700000000 c;
        log_row j1 3 1700000000 d; log_row j1 4 1700000000 e]).
Proof.
  split.
  - intros rt LIMIT job w l wm HL Hf Hl Hw L n rows out.
    pose proof (watermark_nonneg rt _ _ _ Hw) as H0.
    destruct (Z.le_gt_cases L wm) as [Hle | Hgt].
    + assert (Hout : out = (Ok tt, w)) by (apply (sync_noop rt LIMIT job w l wm); assumption).
      rewrite Hout. cbn [fst snd]. split; [reflexivity|]. split; [reflexivity|].
      split; [lia|]. exists wm. split; [exact Hw | lia].
    + assert (Hout : out = (Ok tt, set_watermark job (wm + Z.of_nat n)
                                     (insert_job_logs job rows w).2))
        by (apply (sync_reads rt LIMIT job w l wm); assumption || lia).
      rewrite Hout. cbn [fst snd].
      assert (Hwm' : watermark rt (redis (set_watermark job (wm + Z.of_nat n)
                                            (insert_job_logs job rows w).2)) job
                     = Ok (wm + Z.of_nat n)) by (apply watermark_set; lia).
      split; [reflexivity|]. split; [lia|]. split.
      * intros _. split; [unfold n, batch_length; lia|].
        split; [apply batch_rows_length; lia|].
        split; [intros i Hi; apply batch_rows_lookup; [lia|exact Hi]|].
        split; [reflexivity|exact Hwm'].
      * exists (wm + Z.of_nat n). split; [exact Hwm'|lia].
  - intros rt a b c d e. vm_compute. repeat split.
Qed.

Lemma sync_logs_for_job_batches_witness :
  let j1 := lit "j1" in
  let w := appended j1 [lit "a"; lit "b"; lit "c"; lit "d"; lit "e"] (fresh_world 1700000000) in
  (_sync_logs_for_job Sample.rt 3 j1 w).1 = Ok tt.
Proof.
  intros j1 w.
  refine (proj1 (proj1 sync_logs_for_job_batches Sample.rt 3 j1 w
                   [lit "a"; lit "b"; lit "c"; lit "d"; lit "e"] 0 _ _ _ _)).
  - lia.
  - reflexivity.
  - vm_compute. reflexivity.
  - vm_compute. reflexivity.
Defined.

(** The batch limit has to be positive for the slice of C1.  With a limit
    of 0 and a watermark of 0 the last index asked for is -1, which LRANGE
    counts from the end: the call reads the whole list. *)
Example zero_limit_reads_whole_list :
  let j1 := lit "j1" in
  let w0 := appended j1 [lit "a"; lit "b"; lit "c"] (fresh_world 1700000000) in
  watermark Sample.rt (redis (_sync_logs_for_job Sample.rt 0 j1 w0).2) j1 = Ok 3.
Proof. vm_compute. reflexivity. Qed.

(** ** No duplicate log row (C2) *)

Lemma preserves_insert_each calls : preserves world_ok (insert_each calls).
Proof.
  unfold insert_each.
  repeat first [apply preserves_for_each; intros ? | apply preserves_insert_job_logs
               | preserve_step].
Qed.

Lemma tables_ok_logs t job seq :
  tables_ok t ->
  (length (List.filter (fun r => bool_decide (log_key r = (job, seq))) (DuckDB.job_logs t)) <= 1)%nat.
Proof.
  intros [_ H]. induction (DuckDB.job_logs t) as [|r l IH]; cbn; [lia|].
  cbn in H. apply NoDup_cons in H as [Hr Hl]. specialize (IH Hl).
  destruct (bool_decide (log_key r = (job, seq))) eqn:E; [|exact IH].
  apply bool_decide_eq_true in E. cbn.
  rewrite filter_none; [cbn; lia|].
  intros x Hx. apply bool_decide_eq_false. intros Hk. apply Hr.
  apply list_elem_of_fmap. exists x. split; [congruence|exact Hx].
Qed.

Lemma batch_rows_seqs LIMIT (l : list pystr) wm ts :
  NoDup ((fun r => r.1.1) <$> batch_rows LIMIT l wm ts).
Proof.
  unfold batch_rows. apply NoDup_alt. intros i j x Hi Hj.
  rewrite list_lookup_fmap, list_lookup_imap in Hi, Hj.
  destruct (take _ _ !! i); [|discriminate]. destruct (take _ _ !! j); [|discriminate].
  cbn in *. simplify_eq. lia.
Qed.

Lemma batch_rows_fit LIMIT (l : list pystr) wm ts :
  0 <= wm -> Z.of_nat (length l) < 2 ^ 63 -> DuckDB.fits_bigint ts = true ->
  rows_fit (batch_rows LIMIT l wm ts).
Proof.
  intros Hwm HL Hts. unfold rows_fit, batch_rows. apply Forall_lookup.
  intros i [[seq t] line] Hi. rewrite list_lookup_imap in Hi.
  destruct (take _ _ !! i) eqn:E; [|discriminate]. cbn in Hi. simplify_eq. cbn.
  split; [|exact Hts].
  apply lookup_lt_Some in E. rewrite length_take, length_drop in E.
  unfold DuckDB.fits_bigint. apply andb_true_iff. split; [apply Z.leb_le|apply Z.ltb_lt]; lia.
Qed.

(** A second run over the same unread range, after a restart that lost the
    watermark, stores nothing new. *)
Lemma sync_logs_replay rt LIMIT job w l wm :
  0 < LIMIT -> redis_faults w = [] -> duck_faults w = [] -> DuckDB.txn (duck w) = None ->
  list_at (redis w) (JOB_LOG_PREFIX ++ job) = Some l ->
  watermark rt (redis w) job = Ok wm ->
  Z.of_nat (length l) < 2 ^ 63 -> DuckDB.fits_bigint (clock w) = true ->
  duck (_sync_logs_for_job rt LIMIT job
          (restarted w (_sync_logs_for_job rt LIMIT job w).2)).2
  = duck (_sync_logs_for_job rt LIMIT job w).2.
Proof.
  intros HL Hrf Hdf Htx Hl Hw Hlen Hck.
  pose proof (watermark_nonneg rt _ _ _ Hw) as H0.
  destruct (Z.le_gt_cases (Z.of_nat (length l)) wm) as [Hle | Hgt].
  { rewrite (sync_noop rt LIMIT job w l wm Hrf Hl Hw Hle). cbn [snd].
    rewrite (sync_noop rt LIMIT job _ l wm); [reflexivity|exact Hrf|exact Hl|exact Hw|exact Hle]. }
  assert (Hgt' : wm < Z.of_nat (length l)) by lia.
  set (rows := batch_rows LIMIT l wm (clock w)).
  pose proof (batch_rows_seqs LIMIT l wm (clock w)) as Hnd.
  pose proof (batch_rows_fit LIMIT l wm (clock w) H0 Hlen Hck) as Hfit.
  rewrite (sync_reads rt LIMIT job w l wm HL Hrf Hl Hw Hgt'). cbn [snd].
  fold rows. rewrite (insert_job_logs_skips job rows w Hdf Htx Hnd Hfit). cbn [snd].
  unfold restarted, set_watermark, add_logs.
  cbn [redis redis_faults duck duck_faults clock].
  rewrite sync_reads with (l := l) (wm := wm);
    [|exact HL|exact Hrf|exact Hl|exact Hw|exact Hgt'].
  cbn [snd clock]. fold rows.
  rewrite insert_job_logs_skips; [|exact Hdf|exact Htx|exact Hnd|exact Hfit].
  unfold set_watermark, add_logs.
  cbn [snd redis redis_faults duck duck_faults clock DuckDB.committed DuckDB.txn].
  pose proof (new_rows_after job rows w Htx) as Hna.
  unfold add_logs in Hna. cbn [duck] in Hna. rewrite Hna. cbn [fmap list_fmap].
  rewrite app_nil_r. reflexivity.
Qed.

(** C2: the [job_logs] table never holds two rows with the same
    [(job_id, seq)]: not after any sequence of [insert_job_logs] calls, with
    any batches and any faults, and not after the log sync has run twice over
    the same unread range.  A call without fault on a batch of distinct
    sequence numbers inserts exactly the rows whose [seq] is not in the table
    yet, returns their number instead of raising, and a replay of the batch
    inserts nothing, returns 0 and changes nothing; so does a second run of
    the log sync over the same range after a restart that lost the
    watermark: the tables stay as the first run left them. *)
Theorem insert_job_logs_no_duplicates :
  (forall (calls : list (pystr * list (Z * Z * pystr))) (w : world) (job_id : pystr) (seq : Z),
     world_ok w ->
     let t := DuckDB.committed (duck (insert_each calls w).2) in
     (length (List.filter (fun r => bool_decide (log_key r = (job_id, seq)))
                          (DuckDB.job_logs t)) <= 1)%nat)
  /\
  (forall (rt : runtime) (LOG_BATCH_LIMIT : Z) (job_id : pystr) (w : world)
          (job_id' : pystr) (seq : Z),
     world_ok w ->
     let w1 := (_sync_logs_for_job rt LOG_BATCH_LIMIT job_id w).2 in
     let w2 := (_sync_logs_for_job rt LOG_BATCH_LIMIT job_id (restarted w w1)).2 in
     (length (List.filter (fun r => bool_decide (log_key r = (job_id', seq)))
                          (DuckDB.job_logs (DuckDB.committed (duck w2)))) <= 1)%nat)
  /\
  (forall (job_id : pystr) (rows : list (Z * Z * pystr)) (w : world),
     duck_faults w = [] -> DuckDB.txn (duck w) = None ->
     NoDup ((fun r => r.1.1) <$> rows) -> rows_fit rows ->
     let fresh := new_rows job_id rows (duck w) in
     let out := insert_job_logs job_id rows w in
     out = (Ok (Z.of_nat (length fresh)), add_logs (log_values job_id <$> fresh) w) /\
     insert_job_logs job_id rows out.2 = (Ok 0, out.2))
  /\
  (forall (rt : runtime) (LOG_BATCH_LIMIT : Z) (job_id : pystr) (w : world)
          (l : list pystr) (wm : Z),
     0 < LOG_BATCH_LIMIT ->
     redis_faults w = [] -> duck_faults w = [] -> DuckDB.txn (duck w) = None ->
     list_at (redis w) (JOB_LOG_PREFIX ++ job_id) = Some l ->
     watermark rt (redis w) job_id = Ok wm ->
     Z.of_nat (length l) < 2 ^ 63 -> DuckDB.fits_bigint (clock w) = true ->
     let w1 := (_sync_logs_for_job rt LOG_BATCH_LIMIT job_id w).2 in
     duck (_sync_logs_for_job rt LOG_BATCH_LIMIT job_id (restarted w w1)).2 = duck w1).
Proof.
  split; [|split; [|split]]; [| | |intros; cbv zeta; apply sync_logs_replay with l wm; assumption].
  - intros calls w job seq Hw t. apply tables_ok_logs.
    apply (proj1 (preserves_insert_each calls w Hw)).
  - intros rt LIMIT job w job' seq Hw w1 w2. apply tables_ok_logs.
    refine (proj1 (preserves_sync_logs rt LIMIT job _ _)).
    unfold world_ok, restarted. cbn [duck].
    apply (preserves_sync_logs rt LIMIT job w Hw).
  - intros job rows w Hf Htx Hnd Hfit fresh out. split.
    + apply insert_job_logs_skips; assumption.
    + apply insert_job_logs_replay; assumption.
Qed.

Lemma insert_job_logs_no_duplicates_witness :
  let j1 := lit "j1" in
  let rows := [(0, 1700000000, lit "a"); (1, 1700000000, lit "b")] in
  let w := fresh_world 1700000000 in
  insert_job_logs j1 rows (insert_job_logs j1 rows w).2
  = (Ok 0, (insert_job_logs j1 rows w).2).
Proof.
  intros j1 rows w.
  refine (proj2 (proj1 (proj2 (proj2 insert_job_logs_no_duplicates)) j1 rows w _ _ _ _)).
  - reflexivity.
  - reflexivity.
  - unfold rows. cbn [fmap list_fmap fst]. 
    apply NoDup_cons. split; [|apply NoDup_singleton].
    intros H. apply list_elem_of_singleton in H. discriminate H.
  - unfold rows_fit, rows.
    repeat (apply Forall_cons; split; [split; vm_compute; reflexivity|]). constructor.
Defined.

(** ** One [jobs] row per id (C4) *)

Lemma preserves_upsert_each rt js : preserves world_ok (upsert_each rt js).
Proof.
  unfold upsert_each.
  repeat first [apply preserves_for_each; intros ? | apply preserves_upsert_job
               | preserve_step].
Qed.

Lemma tables_ok_jobs t id : tables_ok t -> (length (jobs_with id t) <= 1)%nat.
Proof.
  intros [H _]. unfold jobs_with. induction (DuckDB.jobs t) as [|r l IH]; cbn; [lia|].
  cbn in H. apply NoDup_cons in H as [Hr Hl]. specialize (IH Hl).
  destruct (bool_decide (DuckDB.j_id r = id)) eqn:E; [|exact IH].
  apply bool_decide_eq_true in E. cbn.
  rewrite filter_none; [cbn; lia|].
  intros x Hx. apply bool_decide_eq_false. intros Hk. apply Hr.
  apply list_elem_of_fmap. exists x. split; [congruence|exact Hx].
Qed.

(** C4: [upsert_job] commits a full-row replacement or nothing.  The row
    of a call is made of the values of that call only: the id and the status
    as given, the three times with 0 for a missing one, the exit code, the
    path and the error as given, the parameters as text ([None] stays
    [NULL], a string is kept, any other value is serialised), and the time
    of the call as [last_updated].  Whatever fails, a call that returns has
    committed the tables in which the rows of the id are deleted and that row
    inserted, and a call that raises has left the committed tables as they
    were ([ROLLBACK]); the tables of a call that returned hold exactly one
    row for the id, that row, and the rows of other ids are untouched.
    Without fault and with values in the range of their columns the call
    returns.  Hence after any number of such calls for one id the table
    holds exactly one row for it, with the values of the last call and none
    of an earlier one; and no sequence of calls, failing or not, leaves two
    rows with one id. *)
Theorem upsert_job_single_row :
  let row := fun (rt : runtime) (j : job) (now : Z) =>
    {| DuckDB.j_id := id j;
       DuckDB.j_status := status j;
       DuckDB.j_created_at := Some (default 0 (created_at j));
       DuckDB.j_started_at := Some (default 0 (started_at j));
       DuckDB.j_finished_at := Some (default 0 (finished_at j));
       DuckDB.j_exit_code := exit_code j;
       DuckDB.j_result_path := result_path j;
       DuckDB.j_error := error j;
       DuckDB.j_params := match params j with
                          | JNull => None
                          | JStr text => Some text
                          | v => Some (default (py_str rt v) (json_dumps rt v))
                          end;
       DuckDB.j_last_updated := Some now |} in
  (forall (rt : runtime) (j : job) (w : world),
     match (upsert_job rt j w).1 with
     | Ok _ =>
         DuckDB.committed (duck (upsert_job rt j w).2)
         = replace_job (row rt j (utc_as_local rt (clock w))) (DuckDB.committed (duck w))
         /\ DuckDB.txn (duck (upsert_job rt j w).2) = None
     | Raise _ =>
         DuckDB.committed (duck (upsert_job rt j w).2) = DuckDB.committed (duck w)
     end)
  /\
  (forall (r : DuckDB.job_row) (t : DuckDB.tables),
     jobs_with (DuckDB.j_id r) (replace_job r t) = [r] /\
     forall id', id' <> DuckDB.j_id r -> jobs_with id' (replace_job r t) = jobs_with id' t)
  /\
  (forall (rt : runtime) (j : job) (w : world),
     duck_faults w = [] -> DuckDB.txn (duck w) = None ->
     DuckDB.job_row_fits (row rt j (utc_as_local rt (clock w))) = true ->
     upsert_job rt j w = (Ok tt, put_job (row rt j (utc_as_local rt (clock w))) w))
  /\
  (forall (rt : runtime) (js : list job) (j : job) (w : world),
     duck_faults w = [] -> DuckDB.txn (duck w) = None ->
     Forall (fun j' => id j' = id j /\
                       DuckDB.job_row_fits (row rt j' (utc_as_local rt (clock w))) = true)
            (js ++ [j]) ->
     let t := DuckDB.committed (duck (upsert_each rt (js ++ [j]) w).2) in
     jobs_with (id j) t = [row rt j (utc_as_local rt (clock w))] /\
     forall id', id' <> id j -> jobs_with id' t = jobs_with id' (DuckDB.committed (duck w)))
  /\
  (forall (rt : runtime) (js : list job) (w : world) (job_id : pystr),
     world_ok w ->
     (length (jobs_with job_id (DuckDB.committed (duck (upsert_each rt js w).2))) <= 1)%nat).
Proof.
  intros row.
  assert (Hrow : forall rt j now, job_values rt j now = row rt j now).
  { intros rt j now. unfold job_values, row, params_column, int_or_0.
    destruct (params j), (created_at j), (started_at j), (finished_at j); reflexivity. }
  split; [|split; [|split; [|split]]].
  - intros rt j w. rewrite <- Hrow. apply upsert_job_atomic.
  - intros r t. split; [apply jobs_with_replace|].
    intros id' Hne. now apply jobs_with_replace_other.
  - intros rt j w. rewrite <- Hrow. apply upsert_job_replaces.
  - intros rt js j w Hf Htx Hall t.
    assert (Hall' : Forall (fun j' => id j' = id j /\
                      DuckDB.job_row_fits (job_values rt j' (utc_as_local rt (clock w))) = true)
                      (js ++ [j])).
    { eapply Forall_impl; [exact Hall|]. intros j' [H1 H2]. rewrite Hrow. auto. }
    destruct (upsert_each_last rt js j w Hf Htx Hall') as (_ & H2 & H3).
    rewrite <- Hrow. split; assumption.
  - intros rt js w job Hw. apply tables_ok_jobs.
    apply (proj1 (preserves_upsert_each rt js w Hw)).
Qed.

Lemma upsert_job_single_row_witness :
  let j1 := lit "j1" in
  let queued :=
    {| id := j1; status := Some (lit "queued"); created_at := Some 1700000000;
       started_at := None; finished_at := None; exit_code := None;
       result_path := None; error := Some (lit "waiting"); params := JNull |} in
  let running :=
    {| id := j1; status := Some (lit "running"); created_at := Some 1700000000;
       started_at := Some 1700000004; finished_at := None; exit_code := None;
       result_path := None; error := None; params := JStr (lit "fast") |} in
  let w := fresh_world 1700000005 in
  jobs_with j1 (DuckDB.committed (duck (upsert_each Sample.rt [queued; running] w).2))
  = [{| DuckDB.j_id := j1; DuckDB.j_status := Some (lit "running");
        DuckDB.j_created_at := Some 1700000000; DuckDB.j_started_at := Some 1700000004;
        DuckDB.j_finished_at := Some 0; DuckDB.j_exit_code := None;
        DuckDB.j_result_path := None; DuckDB.j_error := None;
        DuckDB.j_params := Some (lit "fast");
        DuckDB.j_last_updated := Some 1699971205 |}].
Proof.
  intros j1 queued running w.
  refine (proj1 (proj1 (proj2 (proj2 (proj2 upsert_job_single_row)))
                   Sample.rt [queued] running w _ _ _)).
  - reflexivity.
  - reflexivity.
  - repeat (apply List.Forall_cons; [split; vm_compute; reflexivity|]). constructor.
Defined.

(** ** The reconciler and malformed metadata (C5) *)

Section Reconcile.
Context (rt : runtime) (LIMIT : Z).

Lemma try_ret_ok {W A} (m : M W A) (a : A) w :
  exists a', (try_except m (fun _ => ret a) w).1 = Ok a'.
Proof. unfold try_except, ret. destruct (m w) as [[x|e] w']; cbn; eauto. Qed.

(** The cycle never raises. *)
Lemma sync_once_returns w : (_sync_jobs_and_logs_once rt LIMIT w).1 = Ok tt.
Proof.
  unfold _sync_jobs_and_logs_once.
  destruct (try_ret_ok
    (keys <- redis_call (Redis.KEYS_prefix JOB_HASH_PREFIX) ;;
     for_each keys (fun k => try_except (sync_one_job rt LIMIT k) (fun _ => ret tt))) tt w)
    as [[] H].
  exact H.
Qed.

Lemma int_field_raises meta f e : int_field rt meta f = Raise e -> e = ValueError.
Proof.
  unfold int_field, int. destruct (meta !! f) as [v|]; [|discriminate].
  destruct (str_truthy v); [|discriminate].
  destruct (int_of_str rt v); [discriminate|]. congruence.
Qed.

Lemma int_field_absent meta f :
  meta !! f = None \/ meta !! f = Some [] -> int_field rt meta f = Ok None.
Proof. unfold int_field. intros [-> | ->]; reflexivity. Qed.

Lemma int_field_malformed meta f v :
  meta !! f = Some v -> v <> [] -> int_of_str rt v = None ->
  int_field rt meta f = Raise ValueError.
Proof.
  unfold int_field, int. intros -> Hv ->. destruct v; [congruence|reflexivity].
Qed.

Lemma params_field_cases meta :
  match meta !! lit "params" with
  | None | Some [] => params_field rt meta = JNull
  | Some v => match json_loads rt v with
              | Some p => params_field rt meta = p
              | None => params_field rt meta = JStr v
              end
  end.
Proof.
  unfold params_field. destruct (meta !! lit "params") as [[|a v]|]; try reflexivity.
  cbn. destruct (json_loads rt (a :: v)); reflexivity.
Qed.

Lemma world_eta w :
  {| redis := redis w; redis_faults := redis_faults w; duck := duck w;
     duck_faults := duck_faults w; clock := clock w |} = w.
Proof. destruct w; reflexivity. Qed.

Lemma HGETALL_hash k s meta :
  Redis.keyspace s !! k = Some (Redis.RHash meta) -> Redis.HGETALL k s = (Ok meta, s).
Proof. unfold Redis.HGETALL. intros ->. reflexivity. Qed.

(** Well-formed integer fields: the record is built and passed on. *)
Lemma sync_one_job_upserts k w meta c s f x :
  redis_faults w = [] ->
  Redis.keyspace (redis w) !! k = Some (Redis.RHash meta) -> meta <> ∅ ->
  int_field rt meta (lit "created_at") = Ok c ->
  int_field rt meta (lit "started_at") = Ok s ->
  int_field rt meta (lit "finished_at") = Ok f ->
  int_field rt meta (lit "exit_code") = Ok x ->
  sync_one_job rt LIMIT k w =
  (upsert_job rt (job_record rt k meta c s f x) ;;
   _sync_logs_for_job rt LIMIT (replace_with_empty JOB_HASH_PREFIX k)) w.
Proof.
  intros Hf Hk Hne Hc Hs Hfi Hx. unfold sync_one_job.
  unfold bind at 1. rewrite redis_call_ok by exact Hf.
  rewrite (HGETALL_hash _ _ _ Hk). cbn [fst snd].
  rewrite <- Hf, world_eta.
  rewrite bool_decide_eq_false_2 by exact Hne.
  rewrite Hc, Hs, Hfi, Hx. reflexivity.
Qed.

(** A malformed integer field: the job is skipped, nothing is written. *)
Lemma sync_one_job_skips k w meta :
  redis_faults w = [] ->
  Redis.keyspace (redis w) !! k = Some (Redis.RHash meta) -> meta <> ∅ ->
  (exists f e, f ∈ [lit "created_at"; lit "started_at"; lit "finished_at"; lit "exit_code"]
               /\ int_field rt meta f = Raise e) ->
  sync_one_job rt LIMIT k w = (Raise ValueError, w).
Proof.
  intros Hf Hk Hne (f & e & Hin & He). unfold sync_one_job.
  unfold bind at 1. rewrite redis_call_ok by exact Hf.
  rewrite (HGETALL_hash _ _ _ Hk). cbn [fst snd].
  rewrite <- Hf, world_eta.
  rewrite bool_decide_eq_false_2 by exact Hne.
  unfold bind, lift.
  destruct (int_field rt meta (lit "created_at")) as [c|e1] eqn:E1;
    [|now rewrite (int_field_raises _ _ _ E1)].
  destruct (int_field rt meta (lit "started_at")) as [s|e2] eqn:E2;
    [|now rewrite (int_field_raises _ _ _ E2)].
  destruct (int_field rt meta (lit "finished_at")) as [fi|e3] eqn:E3;
    [|now rewrite (int_field_raises _ _ _ E3)].
  destruct (int_field rt meta (lit "exit_code")) as [x|e4] eqn:E4;
    [|now rewrite (int_field_raises _ _ _ E4)].
  exfalso. repeat (apply elem_of_cons in Hin as [-> | Hin]; [congruence|]).
  inversion Hin.
Qed.

Lemma sync_keys_skip k rest w :
  sync_one_job rt LIMIT k w = (Raise ValueError, w) ->
  sync_keys rt LIMIT (k :: rest) w = sync_keys rt LIMIT rest w.
Proof.
  intros H. unfold sync_keys. cbn [for_each]. unfold bind at 1, try_except at 1.
  rewrite H. reflexivity.
Qed.

Lemma insert_logs_jobs rows t : DuckDB.jobs (DuckDB.insert_logs rows t).2 = DuckDB.jobs t.
Proof.
  revert t. induction rows as [|r rest IH]; intros t; cbn; [reflexivity|].
  unfold DuckDB.insert_log.
  destruct (negb (DuckDB.log_row_fits r)); [reflexivity|].
  destruct (DuckDB.has_log _ _ t); [reflexivity|]. rewrite IH. reflexivity.
Qed.

Lemma preserves_jobs_execute J s :
  (forall id, s <> DuckDB.DELETE_FROM_jobs id) -> (forall r, s <> DuckDB.INSERT_INTO_jobs r) ->
  preserves (jobs_are J) (execute s).
Proof.
  intros Hd Hi w [Hc Ht]. unfold execute, duck_call, jobs_are in *.
  destruct (next_fault (duck_faults w)) as [[] fs]; cbn [snd duck]; [split; assumption|].
  destruct (duck w) as [cm tx]. cbn [DuckDB.committed DuckDB.txn] in *.
  destruct s; cbn [DuckDB.run]; try congruence.
  - destruct tx; cbn; split; auto; intros; simplify_eq; auto.
  - destruct tx; cbn; split; auto; intros; simplify_eq; auto.
  - destruct tx; cbn; split; auto; intros; simplify_eq; auto.
  - exfalso. eapply Hd. reflexivity.
  - exfalso. eapply Hi. reflexivity.
  - pose proof (insert_logs_jobs rows
                  (DuckDB.view {| DuckDB.committed := cm; DuckDB.txn := tx |})) as Hj.
    destruct (DuckDB.insert_logs rows _) as [r t]. cbn [snd] in Hj.
    unfold DuckDB.view, DuckDB.write in *. destruct tx as [t0|]; cbn in *.
    + split; [assumption|]. intros ? ?; simplify_eq. rewrite Hj. now apply Ht.
    + split; [congruence|]. intros; discriminate.
Qed.

Lemma preserves_jobs_redis {A} J (cmd : Redis.server -> result A * Redis.server) :
  preserves (jobs_are J) (redis_call cmd).
Proof.
  intros w Hw. unfold redis_call, jobs_are in *.
  destruct (next_fault (redis_faults w)) as [[] fs]; cbn; [exact Hw|].
  destruct (cmd (redis w)); exact Hw.
Qed.

Lemma preserves_jobs_select {A} J (q : DuckDB.conn -> A) :
  preserves (jobs_are J) (duck_call (fun c => (Ok (q c), c))).
Proof.
  intros w Hw. unfold duck_call, jobs_are in *.
  destruct (next_fault (duck_faults w)) as [[] fs]; cbn; exact Hw.
Qed.

Ltac keep_jobs_step :=
  first
    [ apply preserves_bind; [|intros ?]
    | apply preserves_try; [|intros ?]
    | apply preserves_jobs_execute; [intros ? ?; discriminate | intros ? ?; discriminate]
    | apply preserves_jobs_redis
    | apply preserves_jobs_select
    | apply preserves_ret | apply preserves_raise
    | apply preserves_lift | apply preserves_gets
    | match goal with
      | |- preserves _ (match ?x with _ => _ end) => destruct x
      | |- preserves _ (if ?x then _ else _) => destruct x
      end ].

(** The log sync leaves the [jobs] table alone. *)
Lemma preserves_jobs_sync_logs J job :
  preserves (jobs_are J) (_sync_logs_for_job rt LIMIT job).
Proof.
  unfold _sync_logs_for_job, now_ts, insert_job_logs, get_conn.
  repeat keep_jobs_step.
Qed.

(** With the database answering too, the row of the job is in the table
    when the body of the loop is over. *)
Lemma sync_one_job_row k w meta c s f x :
  redis_faults w = [] -> duck_faults w = [] -> DuckDB.txn (duck w) = None ->
  Redis.keyspace (redis w) !! k = Some (Redis.RHash meta) -> meta <> ∅ ->
  int_field rt meta (lit "created_at") = Ok c ->
  int_field rt meta (lit "started_at") = Ok s ->
  int_field rt meta (lit "finished_at") = Ok f ->
  int_field rt meta (lit "exit_code") = Ok x ->
  DuckDB.job_row_fits (job_values rt (job_record rt k meta c s f x) (utc_as_local rt (clock w))) = true ->
  jobs_with (replace_with_empty JOB_HASH_PREFIX k)
            (DuckDB.committed (duck (sync_one_job rt LIMIT k w).2))
  = [job_values rt (job_record rt k meta c s f x) (utc_as_local rt (clock w))].
Proof.
  intros Hrf Hdf Htx Hk Hne Hc Hs Hfi Hx Hfit.
  rewrite (sync_one_job_upserts k w meta c s f x Hrf Hk Hne Hc Hs Hfi Hx).
  unfold bind. rewrite (upsert_job_replaces rt _ w Hdf Htx Hfit).
  set (r := job_values rt (job_record rt k meta c s f x) (utc_as_local rt (clock w))).
  set (J := DuckDB.jobs (replace_job r (DuckDB.committed (duck w)))).
  assert (HJ : jobs_are J (put_job r w)).
  { unfold jobs_are, put_job. cbn [duck DuckDB.committed DuckDB.txn]. split; [reflexivity|].
    rewrite Htx. intros; discriminate. }
  destruct (preserves_jobs_sync_logs J (replace_with_empty JOB_HASH_PREFIX k) _ HJ) as [HJ' _].
  unfold jobs_with. rewrite HJ'.
  exact (jobs_with_replace r (DuckDB.committed (duck w))).
Qed.

End Reconcile.

(** C5 as the code has it: the reconciliation cycle never raises.  For a
    job whose four integer fields are absent, empty or accepted by [int],
    the record is built with [None] for the absent and empty ones, with the
    parsed [params], the raw string when they are not JSON, [None] when they
    are absent or empty, and it is passed to [upsert_job] and then to the log
    sync; with the database answering, the table holds afterwards exactly one
    row of the job: the status, the path and the error of the hash, the
    three times with 0 for an absent or empty one, the exit code or [NULL],
    and the parameters as text.
    A non-empty integer field that [int] rejects makes the body of the loop
    raise [ValueError] before [upsert_job]: the job is skipped, nothing is
    written for it, and the loop goes on with the next key. *)
Theorem reconciler_normalises_or_skips :
  (forall (rt : runtime) (LOG_BATCH_LIMIT : Z) (w : world),
     (_sync_jobs_and_logs_once rt LOG_BATCH_LIMIT w).1 = Ok tt)
  /\
  (forall (rt : runtime) (meta : gmap pystr pystr) (f : pystr),
     (meta !! f = None \/ meta !! f = Some [] -> int_field rt meta f = Ok None) /\
     match meta !! lit "params" with
     | None | Some [] => params_field rt meta = JNull
     | Some v => match json_loads rt v with
                 | Some p => params_field rt meta = p
                 | None => params_field rt meta = JStr v
                 end
     end)
  /\
  (forall (rt : runtime) (LOG_BATCH_LIMIT : Z) (k : pystr) (w : world)
          (meta : gmap pystr pystr) (c s f x : option Z),
     redis_faults w = [] ->
     Redis.keyspace (redis w) !! k = Some (Redis.RHash meta) -> meta <> ∅ ->
     int_field rt meta (lit "created_at") = Ok c ->
     int_field rt meta (lit "started_at") = Ok s ->
     int_field rt meta (lit "finished_at") = Ok f ->
     int_field rt meta (lit "exit_code") = Ok x ->
     let job_id := replace_with_empty JOB_HASH_PREFIX k in
     let record := job_record rt k meta c s f x in
     let row :=
       {| DuckDB.j_id := job_id;
          DuckDB.j_status := meta !! lit "status";
          DuckDB.j_created_at := Some (default 0 c);
          DuckDB.j_started_at := Some (default 0 s);
          DuckDB.j_finished_at := Some (default 0 f);
          DuckDB.j_exit_code := x;
          DuckDB.j_result_path := meta !! lit "result_path";
          DuckDB.j_error := meta !! lit "error";
          DuckDB.j_params := match params_field rt meta with
                             | JNull => None
                             | JStr text => Some text
                             | v => Some (default (py_str rt v) (json_dumps rt v))
                             end;
          DuckDB.j_last_updated := Some (utc_as_local rt (clock w)) |} in
     sync_one_job rt LOG_BATCH_LIMIT k w
     = (upsert_job rt record ;; _sync_logs_for_job rt LOG_BATCH_LIMIT job_id) w /\
     (duck_faults w = [] -> DuckDB.txn (duck w) = None ->
      DuckDB.job_row_fits row = true ->
      jobs_with job_id (DuckDB.committed (duck (sync_one_job rt LOG_BATCH_LIMIT k w).2))
      = [row]))
  /\
  (forall (rt : runtime) (LOG_BATCH_LIMIT : Z) (k : pystr) (rest : list pystr) (w : world)
          (meta : gmap pystr pystr) (f v : pystr),
     redis_faults w = [] ->
     Redis.keyspace (redis w) !! k = Some (Redis.RHash meta) -> meta <> ∅ ->
     f ∈ [lit "created_at"; lit "started_at"; lit "finished_at"; lit "exit_code"] ->
     meta !! f = Some v -> v <> [] -> int_of_str rt v = None ->
     sync_one_job rt LOG_BATCH_LIMIT k w = (Raise ValueError, w) /\
     sync_keys rt LOG_BATCH_LIMIT (k :: rest) w = sync_keys rt LOG_BATCH_LIMIT rest w).
Proof.
  split; [|split; [|split]].
  - intros. apply sync_once_returns.
  - intros rt meta f. split; [apply int_field_absent | apply params_field_cases].
  - intros rt LIMIT k w meta c s f x Hrf Hk Hne Hc Hs Hf Hx job_id record row.
    assert (Hrow : job_values rt record (utc_as_local rt (clock w)) = row).
    { unfold job_values, row, record, job_record, params_column, int_or_0.
      cbn [id status created_at started_at finished_at exit_code result_path error params].
      destruct (params_field rt meta), c, s, f; reflexivity. }
    split.
    + apply sync_one_job_upserts; assumption.
    + intros Hdf Htx Hfit. rewrite <- Hrow in *. apply sync_one_job_row; assumption.
  - intros rt LIMIT k rest w meta f v Hrf Hk Hne Hin Hv Hnv Hint.
    assert (H : sync_one_job rt LIMIT k w = (Raise ValueError, w)).
    { apply sync_one_job_skips with meta; try assumption.
      exists f, ValueError. split; [exact Hin|]. eapply int_field_malformed; eauto. }
    split; [exact H | now apply sync_keys_skip].
Qed.


Lemma reconciler_normalises_or_skips_witness :
  let k := lit "bench_job:j1" in
  let w := with_hash k sparse_hash (fresh_world 1700000005) in
  jobs_with (lit "j1") (DuckDB.committed (duck (sync_one_job Sample.rt 1000 k w).2))
  = [{| DuckDB.j_id := lit "j1"; DuckDB.j_status := Some (lit "queued");
        DuckDB.j_created_at := Some 1700000000; DuckDB.j_started_at := Some 0;
        DuckDB.j_finished_at := Some 0; DuckDB.j_exit_code := None;
        DuckDB.j_result_path := None; DuckDB.j_error := None;
        DuckDB.j_params := Some (lit "{not json");
        DuckDB.j_last_updated := Some 1699971205 |}].
Proof.
  intros k w.
  refine (proj2 (proj1 (proj2 (proj2 reconciler_normalises_or_skips))
                   Sample.rt 1000 k w (list_to_map sparse_hash)
                   (Some 1700000000) None None None _ _ _ _ _ _ _) _ _ _).
  - reflexivity.
  - vm_compute. reflexivity.
  - intros H. apply (f_equal (fun m : gmap pystr pystr => m !! lit "status")) in H.
    vm_compute in H. discriminate H.
  - vm_compute. reflexivity.
  - vm_compute. reflexivity.
  - vm_compute. reflexivity.
  - vm_compute. reflexivity.
  - reflexivity.
  - reflexivity.
  - vm_compute. reflexivity.
Defined.

(** C5 as stated fails: the hash of job [j1] has [created_at = "abc"];
    Redis and the database answer; the cycle returns, and has written
    nothing: the job has no row. *)
Lemma reconciler_skips_malformed_job :
  let w := with_hash (lit "bench_job:j1") malformed_hash (fresh_world 1700000005) in
  _sync_jobs_and_logs_once Sample.rt 1000 w = (Ok tt, w) /\
  DuckDB.jobs (DuckDB.committed (duck w)) = [].
Proof. vm_compute. split; reflexivity. Qed.

(** A field that starts with a separator [int()] does not strip: the hash
    of job [j1] has [created_at = "\x1c5"]; the job is skipped like the one
    above. *)
Example reconciler_skips_separator_field :
  let w := with_hash (lit "bench_job:j1")
             [(lit "status", lit "running"); (lit "created_at", [28; 53]%N)]
             (fresh_world 1700000005) in
  int Sample.rt [28; 53]%N = Raise ValueError /\
  _sync_jobs_and_logs_once Sample.rt 1000 w = (Ok tt, w) /\
  DuckDB.jobs (DuckDB.committed (duck w)) = [].
Proof. vm_compute. repeat split; reflexivity. Qed.

(** ** The log sync on a trimmed list (C6) *)

Lemma range_last_2000 (l : list pystr) :
  l <> [] -> Redis.range l (-2000) (-1) = last_2000 l.
Proof.
  intros Hne. assert (Hlen : (0 < length l)%nat) by (destruct l; [congruence|cbn; lia]).
  unfold Redis.range, Redis.norm_range, last_2000. cbv zeta.
  change (-2000 <? 0) with true. change (-1 <? 0) with true. cbv iota.
  set (L := Z.of_nat (length l)).
  destruct (Z.ltb_spec (L + -2000) 0) as [Hs|Hs].
  - replace (L + -1 <? 0) with false by (symmetry; apply Z.ltb_ge; lia).
    replace (L <=? 0) with false by (symmetry; apply Z.leb_gt; lia).
    cbn [orb].
    replace (L <=? L + -1) with false by (symmetry; apply Z.leb_gt; lia).
    replace (length l - 2000)%nat with 0%nat by lia.
    rewrite !drop_0. apply take_ge. lia.
  - replace (L + -1 <? L + -2000) with false by (symmetry; apply Z.ltb_ge; lia).
    replace (L <=? L + -2000) with false by (symmetry; apply Z.leb_gt; lia).
    cbn [orb].
    replace (L <=? L + -1) with false by (symmetry; apply Z.leb_gt; lia).
    replace (Z.to_nat (L + -2000)) with (length l - 2000)%nat by lia.
    apply take_ge. rewrite length_drop. lia.
Qed.

Lemma last_2000_length (l : list pystr) : (length (last_2000 l) <= 2000)%nat.
Proof. unfold last_2000. rewrite length_drop. lia. Qed.

(** [log_line] without fault: the list of the job becomes the last 2000
    entries of the list extended with the line, and no other key changes. *)
Lemma log_line_trims rt job line s l :
  list_at s (JOB_LOG_PREFIX ++ job) = Some l ->
  let out := simulator_worker.log_line rt job line
               {| simulator_worker.server := s; simulator_worker.faults := [] |} in
  out.1 = Ok tt /\
  list_at (simulator_worker.server out.2) (JOB_LOG_PREFIX ++ job)
  = Some (last_2000 (l ++ [line])) /\
  forall k, k <> JOB_LOG_PREFIX ++ job ->
    Redis.keyspace (simulator_worker.server out.2) !! k = Redis.keyspace s !! k.
Proof.
  intros Hl out. subst out.
  set (key := JOB_LOG_PREFIX ++ job) in *.
  set (l1 := l ++ [line]).
  assert (Hne : l1 <> []) by (unfold l1; destruct l; discriminate).
  set (ks2 := <[key := Redis.RList (last_2000 l1)]>
                (<[key := Redis.RList l1]> (Redis.keyspace s))).
  assert (Hks : Redis.keyspace
                  (simulator_worker.server
                     (simulator_worker.log_line rt job line
                        {| simulator_worker.server := s; simulator_worker.faults := [] |}).2)
                = ks2 /\
                (simulator_worker.log_line rt job line
                   {| simulator_worker.server := s; simulator_worker.faults := [] |}).1 = Ok tt).
  { unfold simulator_worker.log_line, try_except, bind, lift, ret, simulator_worker.r_call.
    fold key. cbn [next_fault simulator_worker.faults simulator_worker.server].
    assert (HP : Redis.RPUSH key line s
                 = ((Redis.RPUSH key line s).1,
                    Redis.with_keyspace (<[key := Redis.RList l1]> (Redis.keyspace s)) s)
                 /\ exists n, (Redis.RPUSH key line s).1 = Ok n).
    { unfold Redis.RPUSH, list_at in *. fold key in Hl.
      destruct (Redis.keyspace s !! key) as [[]|]; simplify_eq; cbn; eauto. }
    destruct HP as [HP [n Hn]]. rewrite HP, Hn.
    cbn [next_fault simulator_worker.faults simulator_worker.server].
    unfold Redis.LTRIM, Redis.with_keyspace. cbn [Redis.keyspace Redis.published].
    rewrite lookup_insert_eq. rewrite (range_last_2000 l1 Hne).
    destruct (last_2000 l1) as [|x0 xr] eqn:E.
    { exfalso. unfold last_2000 in E. apply (f_equal length) in E.
      rewrite length_drop in E. cbn in E.
      assert (0 < length l1)%nat by (destruct l1; [congruence|cbn; lia]). lia. }
    cbn [next_fault simulator_worker.faults simulator_worker.server].
    destruct (json_dumps rt _); cbn [simulator_worker.server Redis.keyspace snd fst
      next_fault simulator_worker.faults Redis.PUBLISH]; split; reflexivity. }
  destruct Hks as [Hks Hok]. split; [exact Hok|]. unfold list_at. rewrite Hks. split.
  - unfold ks2. rewrite lookup_insert_eq. reflexivity.
  - intros k Hk. unfold ks2. rewrite !lookup_insert_ne by congruence. reflexivity.
Qed.

(** The sync on a list that has lost its first [k] entries. *)
Lemma sync_on_trimmed rt LIMIT job w (produced : list pystr) (k : nat) wm :
  0 < LIMIT -> redis_faults w = [] ->
  list_at (redis w) (JOB_LOG_PREFIX ++ job) = Some (drop k produced) ->
  watermark rt (redis w) job = Ok wm ->
  let l := drop k produced in
  let n := batch_length LIMIT (Z.of_nat (length l)) wm in
  let rows := batch_rows LIMIT l wm (clock w) in
  let out := _sync_logs_for_job rt LIMIT job w in
  out.1 = Ok tt /\
  (wm < Z.of_nat (length l) ->
   out.2 = set_watermark job (wm + Z.of_nat n) (insert_job_logs job rows w).2 /\
   forall i, (i < n)%nat ->
     exists line, produced !! (k + Z.to_nat wm + i)%nat = Some line /\
                  rows !! i = Some (wm + Z.of_nat i, clock w, line)).
Proof.
  intros HL Hf Hl Hw l n rows out.
  pose proof (watermark_nonneg rt _ _ _ Hw) as H0.
  destruct (Z.le_gt_cases (Z.of_nat (length l)) wm) as [Hle | Hgt].
  - subst out. rewrite (sync_noop rt LIMIT job w l wm Hf Hl Hw Hle). split; [reflexivity|lia].
  - subst out. rewrite (sync_reads rt LIMIT job w l wm HL Hf Hl Hw); [|lia].
    split; [reflexivity|]. intros _. split; [reflexivity|].
    intros i Hi. destruct (batch_rows_lookup LIMIT l wm (clock w) i H0 Hi) as (line & H1 & H2).
    exists line. split; [|exact H2]. unfold l in H1. rewrite lookup_drop in H1.
    rewrite <- H1. f_equal. lia.
Qed.

(** The log sync and the trimmed list.  The worker keeps the last 2000 entries of the
    list.  On a list that has lost its first [k] entries the log sync still
    returns, and reads at the index of the watermark in the list as it is
    now: the row of [seq = wm + i] holds the line produced as number
    [k + wm + i].  Once the watermark has reached 2000 a call reads nothing,
    whatever the list holds.  Example: 2500 lines produced, the list trimmed
    to the lines 500..2499, watermark 100, batch limit 1000: the call stores
    the lines 600..1599 as seq 100..1099, the next one the lines 1600..2499
    as seq 1100..1999, and no row ever holds one of the lines 100..599. *)
Theorem sync_after_trim_reads_at_watermark_index :
  (forall (rt : runtime) (job_id line : pystr) (s : Redis.server) (l : list pystr),
     list_at s (JOB_LOG_PREFIX ++ job_id) = Some l ->
     let out := simulator_worker.log_line rt job_id line
                  {| simulator_worker.server := s; simulator_worker.faults := [] |} in
     out.1 = Ok tt /\
     list_at (simulator_worker.server out.2) (JOB_LOG_PREFIX ++ job_id)
     = Some (last_2000 (l ++ [line])) /\
     (length (last_2000 (l ++ [line])) <= 2000)%nat)
  /\
  (forall (rt : runtime) (LOG_BATCH_LIMIT : Z) (job_id : pystr) (w : world)
          (produced : list pystr) (k : nat) (wm : Z),
     0 < LOG_BATCH_LIMIT -> redis_faults w = [] ->
     list_at (redis w) (JOB_LOG_PREFIX ++ job_id) = Some (drop k produced) ->
     watermark rt (redis w) job_id = Ok wm ->
     let l := drop k produced in
     let n := batch_length LOG_BATCH_LIMIT (Z.of_nat (length l)) wm in
     let rows := batch_rows LOG_BATCH_LIMIT l wm (clock w) in
     let out := _sync_logs_for_job rt LOG_BATCH_LIMIT job_id w in
     out.1 = Ok tt /\
     (wm < Z.of_nat (length l) ->
      out.2 = set_watermark job_id (wm + Z.of_nat n) (insert_job_logs job_id rows w).2 /\
      forall i, (i < n)%nat ->
        exists line, produced !! (k + Z.to_nat wm + i)%nat = Some line /\
                     rows !! i = Some (wm + Z.of_nat i, clock w, line)))
  /\
  (forall (rt : runtime) (LOG_BATCH_LIMIT : Z) (job_id : pystr) (w : world)
          (x : list pystr) (wm : Z),
     redis_faults w = [] ->
     list_at (redis w) (JOB_LOG_PREFIX ++ job_id) = Some (last_2000 x) ->
     watermark rt (redis w) job_id = Ok wm -> 2000 <= wm ->
     _sync_logs_for_job rt LOG_BATCH_LIMIT job_id w = (Ok tt, w))
  /\
  (let j1 := lit "j1" in
   let ts := 1700000000 in
   let out1 := _sync_logs_for_job Sample.rt 1000 j1 trimmed_world in
   let out2 := _sync_logs_for_job Sample.rt 1000 j1 out1.2 in
   watermark Sample.rt (redis trimmed_world) j1 = Ok 100 /\
   list_at (redis trimmed_world) (JOB_LOG_PREFIX ++ j1) = Some (line_text <$> seq 500 2000) /\
   DuckDB.job_logs (DuckDB.committed (duck trimmed_world)) = shifted_rows j1 ts 0 100 0 /\
   out1.1 = Ok tt /\
   watermark Sample.rt (redis out1.2) j1 = Ok 1100 /\
   DuckDB.job_logs (DuckDB.committed (duck out1.2))
   = shifted_rows j1 ts 0 100 0 ++ shifted_rows j1 ts 100 1000 500 /\
   out2.1 = Ok tt /\
   watermark Sample.rt (redis out2.2) j1 = Ok 2000 /\
   DuckDB.job_logs (DuckDB.committed (duck out2.2))
   = shifted_rows j1 ts 0 100 0 ++ shifted_rows j1 ts 100 1900 500 /\
   forallb (fun p => negb (holds_line (DuckDB.committed (duck out2.2)) (line_text p)))
           (seq 100 500) = true).
Proof.
  split; [|split; [|split]].
  - intros rt job line s l Hl out.
    destruct (log_line_trims rt job line s l Hl) as (H1 & H2 & _).
    split; [exact H1|]. split; [exact H2|apply last_2000_length].
  - intros. apply sync_on_trimmed; assumption.
  - intros rt LIMIT job w x wm Hf Hl Hw Hwm.
    apply (sync_noop rt LIMIT job w (last_2000 x) wm Hf Hl Hw).
    pose proof (last_2000_length x). lia.
  - vm_compute. repeat split.
Qed.

Lemma sync_after_trim_reads_at_watermark_index_witness :
  (_sync_logs_for_job Sample.rt 1000 (lit "j1") trimmed_world).1 = Ok tt.
Proof.
  refine (proj1 (proj1 (proj2 sync_after_trim_reads_at_watermark_index)
                   Sample.rt 1000 (lit "j1") trimmed_world
                   (line_text <$> seq 0 2500) 500%nat 100 _ _ _ _)).
  - lia.
  - vm_compute. reflexivity.
  - vm_compute. reflexivity.
  - vm_compute. reflexivity.
Defined.

(** C6 at the failing input.  A job has produced 2500 lines, the worker
    has trimmed the list to the lines 500..2499, the watermark is 100 and
    the batch limit 1000.  The oldest entry available is the line 500, at
    index 0 of the list; the call does not read it, no row holds it; and
    the sequence numbers 100..499 are not absent from the table: each has a
    row, which holds the line produced 500 places later.  The sync, which
    is to ingest the newly appended lines under the indices of the list,
    does not know that the list has lost its head. *)
Lemma trimmed_list_not_read_from_oldest :
  let j1 := lit "j1" in
  let t := DuckDB.committed
             (duck (_sync_logs_for_job Sample.rt 1000 j1 trimmed_world).2) in
  (exists rest, list_at (redis trimmed_world) (JOB_LOG_PREFIX ++ j1)
                = Some (line_text 500 :: rest)) /\
  holds_line t (line_text 500) = false /\
  forallb (fun s => DuckDB.has_log j1 (Z.of_nat s) t) (seq 100 400) = true /\
  List.filter (fun r => (100 <=? DuckDB.l_seq r) && (DuckDB.l_seq r <=? 499))
              (DuckDB.job_logs t)
  = shifted_rows j1 1700000000 100 400 500.
Proof.
  intros j1 t.
  split.
  - exists (line_text <$> seq 501 1999). vm_compute. reflexivity.
  - vm_compute. repeat split.
Qed.

(** ** Reading the watermark (C9) *)

Section Watermark.
Context (rt : runtime).

(** An absent value, and a value that [isdigit] rejects, read as 0. *)
Lemma parse_last_idx_default (v : option pystr) :
  match v with Some s => isdigit rt s = false | None => True end ->
  parse_last_idx rt v = Ok 0.
Proof.
  unfold parse_last_idx. destruct v as [s|]; [|reflexivity].
  intros ->. now rewrite andb_false_r.
Qed.

Lemma int_digits_ascii (s : pystr) (b : bool) :
  Forall ascii_digit s -> s <> [] \/ b = true ->
  exists u, int_digits rt b s = Some u.
Proof.
  intros Hs. revert b. induction Hs as [|c r Hc Hr IH]; intros b Hb.
  - destruct Hb as [Hb | ->]; [congruence|]. cbn. eauto.
  - cbn. unfold ascii_digit in Hc.
    replace (c =? 95)%N with false by (symmetry; apply N.eqb_neq; lia).
    unfold decimal_value.
    replace (c <? 128)%N with true by (symmetry; apply N.ltb_lt; lia).
    replace (48 <=? c)%N with true by (symmetry; apply N.leb_le; lia).
    replace (c <=? 57)%N with true by (symmetry; apply N.leb_le; lia).
    cbn. destruct (IH true (or_intror eq_refl)) as [u ->]. cbn. eauto.
Qed.

Lemma isdigit_char_ascii (c : N) :
  (c < 128)%N -> isdigit_char rt c = true -> ascii_digit c.
Proof.
  unfold isdigit_char, decimal_value, ascii_digit. intros Hc.
  replace (c <? 128)%N with true by (symmetry; apply N.ltb_lt; lia).
  destruct ((48 <=? c)%N && (c <=? 57)%N) eqn:E; [|discriminate].
  apply andb_true_iff in E as [H1 H2]. apply N.leb_le in H1, H2. lia.
Qed.

(** On ASCII text the guard is exact: reading the watermark never raises. *)
Lemma parse_last_idx_ascii (s : pystr) :
  Forall (fun c => (c < 128)%N) s -> exists z, parse_last_idx rt (Some s) = Ok z.
Proof.
  intros Hs. unfold parse_last_idx.
  destruct (str_truthy s && isdigit rt s) eqn:E; [|eauto].
  apply andb_true_iff in E as [Hne Hd].
  assert (Hdig : Forall ascii_digit s).
  { unfold isdigit in Hd. destruct s as [|c0 r0]; [discriminate|].
    rewrite forallb_forall in Hd. apply Forall_forall. intros c Hc.
    apply isdigit_char_ascii.
    - rewrite Forall_forall in Hs. now apply Hs.
    - apply Hd. now apply list_elem_of_In. }
  unfold int, int_of_str. rewrite strip_no_space.
  2:{ eapply Forall_impl; [exact Hdig|]. apply ascii_digit_not_space. }
  destruct s as [|c r]; [discriminate|].
  pose proof (Forall_inv Hdig) as Hc. unfold ascii_digit in Hc.
  replace (c =? 43)%N with false by (symmetry; apply N.eqb_neq; lia).
  replace (c =? 45)%N with false by (symmetry; apply N.eqb_neq; lia).
  destruct (int_digits_ascii (c :: r) false Hdig) as [u ->]; [left; discriminate|].
  cbn. eauto.
Qed.

(** A character that is a digit without being decimal passes the guard and
    makes [int] raise. *)
Lemma parse_last_idx_digit_not_decimal (c : N) :
  (128 <= c)%N -> uc_decimal rt c = None -> uc_digit rt c = true ->
  uc_space rt c = false ->
  parse_last_idx rt (Some [c]) = Raise ValueError.
Proof.
  intros Hc Hdec Hdig Hsp. unfold parse_last_idx, isdigit, int, int_of_str, strip.
  cbn [str_truthy forallb lstrip rev app andb].
  assert (Hlt : (c <? 128)%N = false) by (apply N.ltb_ge; lia).
  unfold isdigit_char, isspace_char, decimal_value. rewrite Hlt, Hdec, Hdig, Hsp.
  cbn [andb lstrip rev app].
  unfold isspace_char. rewrite Hlt, Hsp. cbn [rev app].
  replace (c =? 43)%N with false by (symmetry; apply N.eqb_neq; lia).
  replace (c =? 45)%N with false by (symmetry; apply N.eqb_neq; lia).
  cbn [int_digits].
  replace (c =? 95)%N with false by (symmetry; apply N.eqb_neq; lia).
  unfold decimal_value. rewrite Hlt, Hdec. reflexivity.
Qed.

(** A stored value that [isdigit] rejects is read as watermark 0. *)
Lemma watermark_raw_default job v w :
  isdigit rt v = false ->
  watermark rt (redis (with_raw_watermark job v w)) job = Ok 0.
Proof.
  intros Hv. unfold watermark, with_raw_watermark, Redis.GET, Redis.with_keyspace.
  cbn [redis Redis.keyspace]. rewrite lookup_insert_eq. cbn [fst].
  now apply parse_last_idx_default.
Qed.

End Watermark.

(** C9 at the failing input.  The watermark key of job [j1] holds the
    one-character string SUPERSCRIPT TWO, which is not made of decimal
    digits; three lines wait in the list.  [isdigit] accepts the string,
    [int] rejects it: the call raises [ValueError] instead of reading from
    index 0; nothing is read, nothing is stored, the watermark stays. *)
Theorem superscript_watermark_raises :
  let j1 := lit "j1" in
  let w := with_raw_watermark j1 superscript_two
             (appended j1 [lit "a"; lit "b"; lit "c"] (fresh_world 1700000000)) in
  isdigit Sample.rt superscript_two = true /\
  int Sample.rt superscript_two = Raise ValueError /\
  _sync_logs_for_job Sample.rt 1000 j1 w = (Raise ValueError, w) /\
  DuckDB.job_logs (DuckDB.committed (duck w)) = [].
Proof. intros j1 w. vm_compute. repeat split. Qed.

(** ** The fan-out loop (C8, C10) *)

Section Listener.
Context (rt : runtime) {Sub : Type}.
Implicit Types (s : @listener Sub) (m : option message).

Lemma try_unit_ok {W} (m : M W unit) (w : W) :
  (try_except m (fun _ => ret tt) w).1 = Ok tt.
Proof. unfold try_except, ret. destruct (m w) as [[[]|e] w']; reflexivity. Qed.

(** Handling a message never raises. *)
Lemma on_message_returns m s : (on_message rt m s).1 = Ok tt.
Proof.
  unfold on_message. destruct m as [msg|]; [|reflexivity].
  destruct (negb (bool_decide (mtype msg = lit "message"))); [reflexivity|].
  destruct (negb (truthy (data msg))); [reflexivity|].
  apply try_unit_ok.
Qed.

(** It keeps [_running] and the registered callback. *)
Lemma on_message_keeps m s :
  _running (on_message rt m s).2 = _running s /\
  _emit_cb (on_message rt m s).2 = _emit_cb s.
Proof.
  unfold on_message. destruct m as [msg|]; [|split; reflexivity].
  destruct (negb (bool_decide (mtype msg = lit "message"))); [split; reflexivity|].
  destruct (negb (truthy (data msg))); [split; reflexivity|].
  unfold try_except, bind, lift, gets, ret.
  destruct (loads rt (data msg)) as [p|e]; [|split; reflexivity].
  destruct (py_get p (lit "job_id")) as [j|e]; [|split; reflexivity].
  destruct (py_get p (lit "line")) as [l|e]; [|split; reflexivity].
  destruct (_emit_cb s) as [f|] eqn:Ef; [|cbn; split; congruence].
  destruct (truthy j && negb (is_None l)); [|cbn; split; congruence].
  unfold call_cb. destruct (f j l (subscriber s)) as [[[]|e] sub]; cbn; split; congruence.
Qed.

Lemma listen_returns inputs s : (listen rt inputs s).1 = Ok tt.
Proof.
  revert s. induction inputs as [|[m|] rest IH]; intros s; cbn [listen].
  - reflexivity.
  - unfold bind, gets. destruct (negb (_running s)); [reflexivity|].
    pose proof (on_message_returns m s) as H.
    destruct (on_message rt m s) as [r s']. cbn in H. subst r. apply IH.
  - unfold bind, modify. apply IH.
Qed.

(** The loop never raises, and leaves [_running] false. *)
Lemma listener_loop_returns inputs s :
  (_listener_loop rt inputs s).1 = Ok tt /\ _running (_listener_loop rt inputs s).2 = false.
Proof.
  unfold _listener_loop, bind, modify.
  pose proof (listen_returns inputs (set_running true s)) as H.
  destruct (listen rt inputs (set_running true s)) as [r s']. cbn in *. auto.
Qed.

(** While running, the loop handles the message and goes on with the rest,
    whatever the message and the callback did. *)
Lemma listen_step m rest s :
  _running s = true ->
  listen rt (Listen m :: rest) s = listen rt rest (on_message rt m s).2.
Proof.
  intros Hr. cbn [listen]. unfold bind, gets. rewrite Hr. cbn [negb].
  pose proof (on_message_returns m s) as H.
  destruct (on_message rt m s) as [r s']. cbn in *. now subst r.
Qed.

(** Messages that are dropped: the state does not change, the callback is
    not called. *)
Lemma on_message_unparseable text s :
  json_loads rt text = None -> on_message rt (broadcast text) s = (Ok tt, s).
Proof.
  intros H. unfold on_message, broadcast. cbn [mtype data].
  rewrite bool_decide_eq_true_2 by reflexivity. cbn [negb].
  destruct (negb (truthy (JStr text))); [reflexivity|].
  unfold try_except, bind, lift, loads. rewrite H. reflexivity.
Qed.

Lemma on_message_not_dict text p s :
  json_loads rt text = Some p -> (forall d, p <> JDict d) ->
  on_message rt (broadcast text) s = (Ok tt, s).
Proof.
  intros H Hp. unfold on_message, broadcast. cbn [mtype data].
  rewrite bool_decide_eq_true_2 by reflexivity. cbn [negb].
  destruct (negb (truthy (JStr text))); [reflexivity|].
  unfold try_except, bind, lift, loads. rewrite H.
  destruct p; try reflexivity. exfalso. eapply Hp. reflexivity.
Qed.

(** A payload that is a dictionary: the callback is called exactly when one
    is registered, [job_id] is true and [line] is not [None]. *)
Lemma on_message_dict text d s :
  text <> [] -> json_loads rt text = Some (JDict d) ->
  on_message rt (broadcast text) s =
  (Ok tt,
   match _emit_cb s with
   | Some f =>
       if truthy (dict_get d (lit "job_id")) && negb (is_None (dict_get d (lit "line")))
       then after_emit f (dict_get d (lit "job_id")) (dict_get d (lit "line")) s
       else s
   | None => s
   end).
Proof.
  intros Hne H. unfold on_message, broadcast. cbn [mtype data].
  rewrite bool_decide_eq_true_2 by reflexivity. cbn [negb truthy].
  destruct text as [|c r]; [congruence|]. cbn [negb].
  unfold try_except, bind, lift, loads, gets, ret. rewrite H. cbn [py_get].
  destruct (_emit_cb s) as [f|]; [|reflexivity].
  destruct (truthy (dict_get d (lit "job_id")) && negb (is_None (dict_get d (lit "line"))));
    [|reflexivity].
  unfold after_emit.
  destruct (call_cb f (dict_get d (lit "job_id")) (dict_get d (lit "line")) s) as [[[]|e] s'];
    reflexivity.
Qed.

Lemma after_emit_emitted (f : json -> json -> M Sub unit) job_id line s :
  emitted (after_emit f job_id line s) = emitted s ++ [(job_id, line)] /\
  subscriber (after_emit f job_id line s) = (f job_id line (subscriber s)).2 /\
  _running (after_emit f job_id line s) = _running s /\
  _emit_cb (after_emit f job_id line s) = _emit_cb s.
Proof.
  unfold after_emit, call_cb. destruct (f job_id line (subscriber s)) as [r sub].
  cbn. auto.
Qed.

(** The state after the call, field by field. *)
Lemma after_emit_state (f : json -> json -> M Sub unit) job_id line s :
  after_emit f job_id line s
  = {| _running := _running s; _emit_cb := _emit_cb s;
       subscriber := (f job_id line (subscriber s)).2;
       emitted := emitted s ++ [(job_id, line)] |}.
Proof.
  unfold after_emit, call_cb. destruct (f job_id line (subscriber s)) as [r sub].
  reflexivity.
Qed.

End Listener.

(** What is not a broadcast message with a payload is passed over: no
    item, an item of another type (a subscription notice), empty data. *)
Lemma on_message_ignored (rt : runtime) {Sub : Type} (m : option message)
    (s : @listener Sub) :
  match m with
  | None => True
  | Some msg => mtype msg <> lit "message" \/ truthy (data msg) = false
  end ->
  on_message rt m s = (Ok tt, s).
Proof.
  unfold on_message. destruct m as [msg|]; [|reflexivity].
  intros [H | H].
  - rewrite bool_decide_eq_false_2 by exact H. reflexivity.
  - destruct (negb (bool_decide (mtype msg = lit "message"))); [reflexivity|].
    rewrite H. reflexivity.
Qed.

Lemma dict_get_absent (d : list (pystr * json)) (k : pystr) :
  k ∉ d.*1 -> dict_get d k = JNull.
Proof.
  induction d as [|[k' v] r IH]; cbn; [reflexivity|].
  intros H. apply not_elem_of_cons in H as [Hk Hr].
  destruct (decide (k' = k)); [congruence|]. now apply IH.
Qed.

(** C8: the fan-out loop never raises, whatever it receives and whatever
    the callback does.  A broadcast message whose text is not JSON, whose
    payload is not a dictionary, or whose [job_id] or [line] is missing is
    dropped: the state is unchanged, so the callback has not been applied to
    the subscriber.  While running, the loop goes on with the next message
    after any message; so after a malformed message followed by a valid one
    the callback has been applied, once, to the subscriber with the
    [job_id] and the [line] of the valid one, and the loop goes on with the
    rest from there, also when the callback raised. *)
Theorem listener_loop_never_raises :
  (forall (rt : runtime) (Sub : Type) (inputs : list input) (s : @listener Sub),
     (_listener_loop rt inputs s).1 = Ok tt)
  /\
  (forall (rt : runtime) (Sub : Type) (m : option message) (s : @listener Sub),
     (on_message rt m s).1 = Ok tt)
  /\
  (forall (rt : runtime) (Sub : Type) (text : pystr) (s : @listener Sub),
     json_loads rt text = None \/
     (exists p, json_loads rt text = Some p /\ forall d, p <> JDict d) \/
     (exists d, json_loads rt text = Some (JDict d) /\
                (dict_get d (lit "job_id") = JNull \/ dict_get d (lit "line") = JNull)) ->
     on_message rt (broadcast text) s = (Ok tt, s))
  /\
  (forall (rt : runtime) (Sub : Type) (m : option message) (rest : list input)
          (s : @listener Sub),
     _running s = true ->
     listen rt (Listen m :: rest) s = listen rt rest (on_message rt m s).2)
  /\
  (forall (rt : runtime) (Sub : Type) (bad : option message) (text : pystr)
          (d : list (pystr * json)) (f : json -> json -> M Sub unit)
          (rest : list input) (s : @listener Sub),
     _running s = true -> _emit_cb s = Some f ->
     on_message rt bad s = (Ok tt, s) ->
     text <> [] -> json_loads rt text = Some (JDict d) ->
     truthy (dict_get d (lit "job_id")) = true -> dict_get d (lit "line") <> JNull ->
     let job_id := dict_get d (lit "job_id") in
     let line := dict_get d (lit "line") in
     let s' := {| _running := true; _emit_cb := Some f;
                  subscriber := (f job_id line (subscriber s)).2;
                  emitted := emitted s ++ [(job_id, line)] |} in
     listen rt (Listen bad :: Listen (broadcast text) :: rest) s = listen rt rest s' /\
     subscriber (listen rt [Listen bad; Listen (broadcast text)] s).2
     = (f job_id line (subscriber s)).2).
Proof.
  split; [|split; [|split; [|split]]].
  - intros. apply listener_loop_returns.
  - intros. apply on_message_returns.
  - intros rt Sub text s [H | [(p & H & Hp) | (d & H & Hd)]].
    + now apply on_message_unparseable.
    + now apply on_message_not_dict with p.
    + destruct text as [|c r] eqn:Et; [reflexivity|]. rewrite <- Et in *.
      rewrite (on_message_dict rt text d s) by (subst; congruence || assumption).
      destruct (_emit_cb s); [|reflexivity].
      destruct Hd as [-> | ->]; cbn [truthy is_None negb andb];
        rewrite ?andb_false_r; reflexivity.
  - intros. now apply listen_step.
  - intros rt Sub bad text d f rest s Hr Hcb Hbad Hne Hl Hj Hline job_id line s'.
    assert (Hstep : forall rest', listen rt (Listen bad :: Listen (broadcast text) :: rest') s
                                 = listen rt rest' s').
    { intros rest'.
      rewrite (listen_step rt bad _ s Hr), Hbad. cbn [snd].
      rewrite (listen_step rt _ _ s Hr), (on_message_dict rt text d s Hne Hl), Hcb, Hj.
      fold job_id line.
      assert (Hn : negb (is_None line) = true).
      { unfold line. destruct (dict_get d (lit "line")); try reflexivity. congruence. }
      rewrite Hn. cbn [andb snd]. rewrite after_emit_state, Hr, Hcb. reflexivity. }
    split; [apply Hstep|]. rewrite Hstep. reflexivity.
Qed.

Lemma listener_loop_never_raises_witness :
  let j1 := JStr (lit "j1") in
  let hello := JStr (lit "hello") in
  let good := sample_text (JDict [(lit "job_id", j1); (lit "line", hello)]) in
  let out := listen Sample.rt [Listen (broadcast (lit "{not json")); Listen (broadcast good)]
               (listening (Some failing_cb)) in
  out.1 = Ok tt /\ subscriber out.2 = [(j1, hello)].
Proof.
  intros j1 hello good out.
  pose proof (proj2 (proj2 (proj2 (proj2 listener_loop_never_raises)))
                Sample.rt (list (json * json))
                (broadcast (lit "{not json")) good
                [(lit "job_id", j1); (lit "line", hello)] failing_cb []
                (listening (Some failing_cb))) as H.
  cbv zeta in H. destruct H as (H1 & H2).
  - reflexivity.
  - reflexivity.
  - vm_compute. reflexivity.
  - vm_compute. discriminate.
  - vm_compute. reflexivity.
  - vm_compute. reflexivity.
  - vm_compute. discriminate.
  - subst out. split; [rewrite H1; reflexivity|]. exact H2.
Defined.

(** C10: for a broadcast message whose payload is a dictionary, the
    callback is applied to the subscriber, with [(job_id, line)], exactly
    when a callback is registered, [job_id] is true and [line] is not
    [None]: the subscriber is then in the state the callback leaves, and in
    every other case the state is unchanged.  So a message whose [line] is
    the empty string is delivered; a message whose [job_id] is the empty
    string, is absent or is any other false value is dropped; and nothing
    is delivered when no callback is registered. *)
Theorem fanout_delivery_condition :
  forall (rt : runtime) (Sub : Type) (text : pystr) (d : list (pystr * json))
         (s : @listener Sub),
    text <> [] -> json_loads rt text = Some (JDict d) ->
    let job_id := dict_get d (lit "job_id") in
    let line := dict_get d (lit "line") in
    (forall f, _emit_cb s = Some f -> truthy job_id = true -> line <> JNull ->
       on_message rt (broadcast text) s
       = (Ok tt, {| _running := _running s; _emit_cb := Some f;
                    subscriber := (f job_id line (subscriber s)).2;
                    emitted := emitted s ++ [(job_id, line)] |})) /\
    (_emit_cb s = None \/ truthy job_id = false \/ line = JNull ->
       on_message rt (broadcast text) s = (Ok tt, s)) /\
    (forall f, _emit_cb s = Some f -> truthy job_id = true -> line = JStr [] ->
       subscriber (on_message rt (broadcast text) s).2
       = (f job_id (JStr []) (subscriber s)).2) /\
    (job_id = JStr [] \/ lit "job_id" ∉ d.*1 \/ truthy job_id = false ->
       on_message rt (broadcast text) s = (Ok tt, s)).
Proof.
  intros rt Sub text d s Hne Hl job_id line.
  assert (Hdeliver : forall f, _emit_cb s = Some f -> truthy job_id = true -> line <> JNull ->
            on_message rt (broadcast text) s
            = (Ok tt, {| _running := _running s; _emit_cb := Some f;
                         subscriber := (f job_id line (subscriber s)).2;
                         emitted := emitted s ++ [(job_id, line)] |})).
  { intros f Hcb Hj Hline. rewrite (on_message_dict rt text d s Hne Hl), Hcb.
    fold job_id line. rewrite Hj.
    assert (Hn : negb (is_None line) = true) by (destruct line; try reflexivity; congruence).
    rewrite Hn. cbn [andb]. rewrite after_emit_state, Hcb. reflexivity. }
  assert (Hdrop : _emit_cb s = None \/ truthy job_id = false \/ line = JNull ->
            on_message rt (broadcast text) s = (Ok tt, s)).
  { intros H. rewrite (on_message_dict rt text d s Hne Hl). fold job_id line.
    destruct (_emit_cb s); [|reflexivity].
    destruct H as [H | [-> | ->]]; [discriminate|reflexivity|].
    cbn [is_None negb]. now rewrite andb_false_r. }
  split; [|split; [|split]].
  - exact Hdeliver.
  - exact Hdrop.
  - intros f Hcb Hj Hline. rewrite Hdeliver with (f := f); [|assumption..|now rewrite Hline].
    cbn [snd subscriber]. now rewrite Hline.
  - intros H. apply Hdrop. right. left.
    destruct H as [-> | [H | H]]; [reflexivity| |exact H].
    subst job_id. now rewrite dict_get_absent.
Qed.

Lemma fanout_delivery_condition_witness :
  let j1 := JStr (lit "j1") in
  let text := sample_text (JDict [(lit "job_id", j1); (lit "line", JStr [])]) in
  subscriber (on_message Sample.rt (broadcast text) (listening (Some recording_cb))).2
  = [(j1, JStr [])].
Proof.
  intros j1 text.
  refine (proj1 (proj2 (proj2 (fanout_delivery_condition Sample.rt (list (json * json)) text
            [(lit "job_id", j1); (lit "line", JStr [])]
            (listening (Some recording_cb)) _ _))) recording_cb _ _ _).
  - vm_compute. discriminate.
  - vm_compute. reflexivity.
  - reflexivity.
  - reflexivity.
  - vm_compute. reflexivity.
Defined.

(** ** The batched writer (C3, C7) *)

Section Writer.
Context (rt : runtime).

Lemma task_eta s :
  {| events := events s; faults := faults s; buffer := buffer s;
     last_flush := last_flush s; printed := printed s; flushes := flushes s |} = s.
Proof. destruct s; reflexivity. Qed.

Lemma for_each_app {W A} (l1 l2 : list A) (body : A -> M W unit) (w : W) :
  for_each (l1 ++ l2) body w =
  match for_each l1 body w with
  | (Ok _, w') => for_each l2 body w'
  | (Raise e, w') => (Raise e, w')
  end.
Proof.
  revert w. induction l1 as [|x r IH]; intros w; cbn [app for_each].
  - reflexivity.
  - unfold bind. destruct (body x w) as [[[]|e] w1]; [apply IH | reflexivity].
Qed.

(** [insert_batch] does not touch the buffer, and writes nothing when it
    raises. *)
Lemma insert_batch_frame rows s :
  buffer (insert_batch rt rows s).2 = buffer s /\
  flushes (insert_batch rt rows s).2 = flushes s /\
  last_flush (insert_batch rt rows s).2 = last_flush s /\
  (raises (insert_batch rt rows s).1 = true ->
   events (insert_batch rt rows s).2 = events s).
Proof.
  unfold insert_batch. destruct rows as [|r0 rest]; [cbn; auto|].
  unfold bind, lift, ret, executemany.
  destruct (all_values rt (r0 :: rest)) as [params|e]; [|cbn; auto].
  destruct (next_fault (faults s)) as [[] fs]; cbn; auto.
  repeat split; auto. discriminate.
Qed.

Lemma insert_batch_ok rows params s :
  rows <> [] -> all_values rt rows = Ok params -> faults s = [] ->
  insert_batch rt rows s =
  (Ok (Some (Z.of_nat (length params))),
   {| events := events s ++ params; faults := []; buffer := buffer s;
      last_flush := last_flush s; printed := printed s; flushes := flushes s |}).
Proof.
  intros Hne Hv Hf. unfold insert_batch. destruct rows as [|r0 rest]; [congruence|].
  unfold bind, lift, ret, executemany. rewrite Hv, Hf. reflexivity.
Qed.

(** A flush that succeeds. *)
Lemma flush_ok now what params s :
  buffer s <> [] -> all_values rt (buffer s) = Ok params -> faults s = [] ->
  flush rt now what s = (Ok tt, flushed now what params s).
Proof.
  intros Hne Hv Hf. unfold flush, bind, gets, record_flush, modify, print.
  rewrite insert_batch_ok with (params := params); [|exact Hne|exact Hv|exact Hf].
  unfold flushed, set_buffer, set_last_flush. cbn. rewrite Hf. reflexivity.
Qed.

(** A flush whose insert raises: the exception comes out of [flush], the
    call is recorded, the buffer and the table are as before. *)
Lemma flush_raises now what s e :
  (insert_batch rt (buffer s)
     {| events := events s; faults := faults s; buffer := buffer s;
        last_flush := last_flush s; printed := printed s;
        flushes := flushes s ++ [(now, buffer s)] |}).1 = Raise e ->
  (flush rt now what s).1 = Raise e /\
  buffer (flush rt now what s).2 = buffer s /\
  events (flush rt now what s).2 = events s /\
  flushes (flush rt now what s).2 = flushes s ++ [(now, buffer s)].
Proof.
  intros H. unfold flush, bind, gets, record_flush, modify.
  set (s1 := {| events := events s; faults := faults s; buffer := buffer s;
                last_flush := last_flush s; printed := printed s;
                flushes := flushes s ++ [(now, buffer s)] |}) in *.
  destruct (insert_batch_frame (buffer s) s1) as (Hb & Hfl & _ & Hev).
  destruct (insert_batch rt (buffer s) s1) as [r s2]. cbn [fst snd] in *. subst r.
  cbn [fst snd]. rewrite Hb, Hfl, Hev by reflexivity. auto.
Qed.

(** An item that leaves the buffer below the threshold is only buffered. *)
Lemma iteration_item_below now evt s :
  Z.of_nat (length (buffer s ++ [evt])) < BATCH_SIZE ->
  iteration rt (Item now evt) s = (Ok tt, set_buffer (buffer s ++ [evt]) s).
Proof.
  intros H. unfold iteration, try_except, bind, modify, gets, ret. cbn [set_buffer buffer].
  replace (BATCH_SIZE <=? _) with false by (symmetry; apply Z.leb_gt; exact H).
  reflexivity.
Qed.

(** An item that fills the buffer triggers the flush of the whole buffer. *)
Lemma iteration_item_full now evt params s :
  BATCH_SIZE <= Z.of_nat (length (buffer s ++ [evt])) ->
  all_values rt (buffer s ++ [evt]) = Ok params -> faults s = [] ->
  iteration rt (Item now evt) s
  = (Ok tt, flushed now "Flushed batch size" params (set_buffer (buffer s ++ [evt]) s)).
Proof.
  intros H Hv Hf. unfold iteration, try_except, bind, modify, gets, ret.
  cbn [set_buffer buffer].
  replace (BATCH_SIZE <=? _) with true by (symmetry; apply Z.leb_le; exact H).
  rewrite flush_ok with (params := params); [reflexivity| |exact Hv|exact Hf].
  cbn. destruct (buffer s); discriminate.
Qed.

Lemma iteration_timeout_empty now s :
  buffer s = [] -> iteration rt (Timeout now) s = (Ok tt, s).
Proof. intros H. unfold iteration, bind, gets. rewrite H. reflexivity. Qed.

Lemma iteration_timeout_flush now params s :
  buffer s <> [] -> all_values rt (buffer s) = Ok params -> faults s = [] ->
  iteration rt (Timeout now) s = (Ok tt, flushed now "Flushed on timeout" params s).
Proof.
  intros Hne Hv Hf. unfold iteration, bind, gets.
  destruct (buffer s) eqn:E; [congruence|]. rewrite <- E in *.
  now apply flush_ok.
Qed.

(** Items that do not fill the buffer, whenever they come: no flush. *)
Lemma items_below tes s :
  Z.of_nat (length (buffer s) + length tes) < BATCH_SIZE ->
  batched_writer_task rt (items tes) s = (Ok tt, set_buffer (buffer s ++ tes.*2) s).
Proof.
  unfold batched_writer_task, items. revert s.
  induction tes as [|[t e] r IH]; intros s H; cbn [fmap list_fmap for_each].
  - unfold ret, set_buffer. rewrite app_nil_r, task_eta. reflexivity.
  - unfold bind. rewrite iteration_item_below.
    2:{ rewrite length_app. cbn [length] in *. lia. }
    rewrite IH.
    + cbn [set_buffer buffer]. rewrite <- app_assoc. reflexivity.
    + cbn [set_buffer buffer length] in *. rewrite length_app. cbn [length]. lia.
Qed.

Lemma timeouts_idle ts s :
  buffer s = [] -> batched_writer_task rt (Timeout <$> ts) s = (Ok tt, s).
Proof.
  unfold batched_writer_task. intros H.
  induction ts as [|t r IH]; cbn [fmap list_fmap for_each]; [reflexivity|].
  unfold bind. rewrite iteration_timeout_empty by exact H. exact IH.
Qed.

(** The calls of [insert_batch] made by one iteration, whatever their
    outcome: one call with the whole buffer when an item brings the buffer to
    [BATCH_SIZE] or when the wait times out on a non-empty buffer; none
    otherwise. *)
Lemma flush_records now what s :
  flushes (flush rt now what s).2 = flushes s ++ [(now, buffer s)] /\
  (raises (flush rt now what s).1 = true ->
   buffer (flush rt now what s).2 = buffer s /\ events (flush rt now what s).2 = events s) /\
  (raises (flush rt now what s).1 = false -> buffer (flush rt now what s).2 = []).
Proof.
  unfold flush, bind, gets, record_flush, modify, print.
  set (s1 := {| events := events s; faults := faults s; buffer := buffer s;
                last_flush := last_flush s; printed := printed s;
                flushes := flushes s ++ [(now, buffer s)] |}).
  destruct (insert_batch_frame (buffer s) s1) as (Hb & Hfl & _ & Hev).
  destruct (insert_batch rt (buffer s) s1) as [[n|e] s2]; cbn [fst snd raises] in *.
  - split; [exact Hfl|]. split; [discriminate|reflexivity].
  - split; [exact Hfl|]. split; [|discriminate]. intros _. split; [exact Hb|now apply Hev].
Qed.

Lemma iteration_flushes w s :
  flushes (iteration rt w s).2 =
  match w with
  | Item now evt =>
      if BATCH_SIZE <=? Z.of_nat (length (buffer s ++ [evt]))
      then flushes s ++ [(now, buffer s ++ [evt])]
      else flushes s
  | Timeout now =>
      match buffer s with
      | [] => flushes s
      | _ => flushes s ++ [(now, buffer s)]
      end
  end.
Proof.
  destruct w as [now evt|now].
  - unfold iteration, try_except, bind, modify, gets, ret. cbn [set_buffer buffer].
    destruct (BATCH_SIZE <=? _); [|reflexivity].
    set (s1 := set_buffer (buffer s ++ [evt]) s).
    destruct (flush_records now "Flushed batch size" s1) as (Hfl & _).
    change (flushes s1) with (flushes s) in Hfl.
    change (buffer s1) with (buffer s ++ [evt]) in Hfl.
    destruct (flush rt now "Flushed batch size" s1) as [[[]|e] s2]; cbn [snd] in *;
      [exact Hfl|].
    unfold print, modify. cbn. exact Hfl.
  - unfold iteration, bind, gets. destruct (buffer s) eqn:E; [reflexivity|].
    rewrite <- E. apply flush_records.
Qed.

(** A flush triggered by an item and failing: the exception is caught, the
    buffer keeps every record, the loop goes on. *)
Lemma iteration_item_failed now evt s :
  BATCH_SIZE <= Z.of_nat (length (buffer s ++ [evt])) ->
  raises (flush rt now "Flushed batch size" (set_buffer (buffer s ++ [evt]) s)).1 = true ->
  (iteration rt (Item now evt) s).1 = Ok tt /\
  buffer (iteration rt (Item now evt) s).2 = buffer s ++ [evt] /\
  events (iteration rt (Item now evt) s).2 = events s.
Proof.
  intros H Hr. unfold iteration, try_except, bind, modify, gets, ret.
  cbn [set_buffer buffer].
  replace (BATCH_SIZE <=? _) with true by (symmetry; apply Z.leb_le; exact H).
  set (s1 := set_buffer (buffer s ++ [evt]) s) in *.
  destruct (flush_records now "Flushed batch size" s1) as (_ & Hkeep & _).
  change (events s1) with (events s) in Hkeep.
  change (buffer s1) with (buffer s ++ [evt]) in Hkeep.
  destruct (flush rt now "Flushed batch size" s1) as [[[]|e] s2]; cbn [fst snd raises] in *;
    [discriminate|].
  destruct (Hkeep eq_refl) as [Hb He]. unfold print, modify. cbn. auto.
Qed.

(** A flush triggered by the timeout and failing: the exception leaves the
    iteration, and with it the task; what was to come is not handled. *)
Lemma iteration_timeout_failed now s rest e :
  buffer s <> [] ->
  (flush rt now "Flushed on timeout" s).1 = Raise e ->
  (iteration rt (Timeout now) s).1 = Raise e /\
  batched_writer_task rt (Timeout now :: rest) s
  = (Raise e, (flush rt now "Flushed on timeout" s).2).
Proof.
  intros Hne Hr.
  assert (Hit : iteration rt (Timeout now) s = flush rt now "Flushed on timeout" s).
  { unfold iteration, bind, gets. destruct (buffer s); [congruence|reflexivity]. }
  split; [now rewrite Hit|].
  unfold batched_writer_task. cbn [for_each]. unfold bind. rewrite Hit.
  destruct (flush rt now "Flushed on timeout" s) as [r s']. cbn in *. now subst r.
Qed.

(** Fewer than [BATCH_SIZE] records, then a timeout, then any number of
    timeouts: one flush, of all the records. *)
Lemma fewer_then_timeout tes t ts params t0 :
  tes <> [] -> Z.of_nat (length tes) < BATCH_SIZE -> all_values rt tes.*2 = Ok params ->
  batched_writer_task rt (items tes ++ Timeout t :: (Timeout <$> ts)) (starting_task t0 [])
  = (Ok tt, flushed t "Flushed on timeout" params (set_buffer tes.*2 (starting_task t0 []))).
Proof.
  intros Hne Hlen Hv. unfold batched_writer_task. rewrite for_each_app.
  fold (batched_writer_task rt (items tes) (starting_task t0 [])).
  rewrite items_below by (cbn; lia). cbn [starting_task buffer app].
  cbn [for_each]. unfold bind at 1.
  rewrite iteration_timeout_flush with (params := params); [| |exact Hv|reflexivity].
  2:{ cbn. destruct tes; [congruence|discriminate]. }
  apply timeouts_idle. reflexivity.
Qed.

(** [BATCH_SIZE] records, whenever they come: one flush, of all of them, at
    the arrival of the last. *)
Lemma full_batch tes t e params t0 :
  Z.of_nat (length tes) = BATCH_SIZE - 1 -> all_values rt (tes.*2 ++ [e]) = Ok params ->
  batched_writer_task rt (items (tes ++ [(t, e)])) (starting_task t0 [])
  = (Ok tt, flushed t "Flushed batch size" params
              (set_buffer (tes.*2 ++ [e]) (starting_task t0 []))).
Proof.
  intros Hlen Hv. unfold batched_writer_task, items. rewrite fmap_app, for_each_app.
  fold (items tes). fold (batched_writer_task rt (items tes) (starting_task t0 [])).
  rewrite items_below by (cbn; lia). cbn [starting_task buffer app].
  cbn [fmap list_fmap for_each fst snd]. unfold bind, ret.
  rewrite iteration_item_full with (params := params); [reflexivity| |exact Hv|reflexivity].
  cbn [set_buffer buffer]. rewrite length_app, length_fmap. cbn [length]. lia.
Qed.

End Writer.

(** The timeout is counted from the start of each wait: items put at
    intervals shorter than [FLUSH_INTERVAL] are all got before any timeout,
    however long the sequence lasts. *)
Lemma wake_ups_steady (puts : list (Z * event)) (now : Z) (k : nat) :
  steady now puts ->
  exists last, wake_ups (length puts + k) now puts = items (got_at now puts) ++ wake_ups k last [].
Proof.
  revert now. induction puts as [|[a e] r IH]; intros now H.
  - exists now. reflexivity.
  - cbn [steady] in H. destruct H as [Ha Hr]. cbn [length Nat.add wake_ups got_at].
    replace (a <? now + FLUSH_INTERVAL) with true by (symmetry; apply Z.ltb_lt; exact Ha).
    destruct (IH (Z.max a now) Hr) as [last Hl]. exists last.
    rewrite Hl. reflexivity.
Qed.

Lemma wake_ups_idle (k : nat) (now : Z) :
  exists ts, wake_ups k now [] = Timeout <$> ts /\
             Forall (fun t => now + FLUSH_INTERVAL <= t) ts.
Proof.
  revert now. induction k as [|k IH]; intros now.
  - exists []. split; [reflexivity|constructor].
  - destruct (IH (now + FLUSH_INTERVAL)) as (ts & Hts & Hall).
    exists (now + FLUSH_INTERVAL :: ts). cbn [wake_ups]. rewrite Hts.
    split; [reflexivity|]. constructor; [lia|].
    eapply Forall_impl; [exact Hall|]. cbn. unfold FLUSH_INTERVAL. lia.
Qed.


(** The flush rule of the code.  An iteration calls [insert_batch] exactly when
    an item brings the buffer to [BATCH_SIZE] records or when the wait for
    the next item times out on a non-empty buffer, and the call gets the
    whole buffer.  The timeout runs from the start of each wait, that is from
    the previous item or timeout, not from the last flush: items put at
    intervals shorter than [FLUSH_INTERVAL] are all got before any timeout.
    Fewer than [BATCH_SIZE] records (so [BATCH_SIZE - 1] of them) followed by
    a timeout are flushed once, all together, and later timeouts flush
    nothing; [BATCH_SIZE] records are flushed once, all together, when the
    last one arrives, without any timeout. *)
Theorem writer_flushes_on_size_or_idle_timeout :
  (forall (rt : runtime) (w : wake) (s : task),
     flushes (iteration rt w s).2 =
     match w with
     | Item now evt =>
         if BATCH_SIZE <=? Z.of_nat (length (buffer s ++ [evt]))
         then flushes s ++ [(now, buffer s ++ [evt])]
         else flushes s
     | Timeout now =>
         match buffer s with
         | [] => flushes s
         | _ => flushes s ++ [(now, buffer s)]
         end
     end)
  /\
  (forall (puts : list (Z * event)) (now : Z) (k : nat),
     steady now puts ->
     exists last,
       wake_ups (length puts + k) now puts = items (got_at now puts) ++ wake_ups k last [])
  /\
  (forall (rt : runtime) (tes : list (Z * event)) (t : Z) (ts : list Z)
          (params : list event_row) (t0 : Z),
     tes <> [] -> Z.of_nat (length tes) < BATCH_SIZE -> all_values rt tes.*2 = Ok params ->
     let out := batched_writer_task rt (items tes ++ Timeout t :: (Timeout <$> ts))
                  (starting_task t0 []) in
     out.1 = Ok tt /\ flushes out.2 = [(t, tes.*2)] /\
     events out.2 = params /\ buffer out.2 = [])
  /\
  (forall (rt : runtime) (tes : list (Z * event)) (t : Z) (e : event)
          (params : list event_row) (t0 : Z),
     Z.of_nat (length tes) = BATCH_SIZE - 1 -> all_values rt (tes.*2 ++ [e]) = Ok params ->
     let out := batched_writer_task rt (items (tes ++ [(t, e)])) (starting_task t0 []) in
     out.1 = Ok tt /\ flushes out.2 = [(t, tes.*2 ++ [e])] /\
     events out.2 = params /\ buffer out.2 = []).
Proof.
  split; [|split; [|split]].
  - intros. apply iteration_flushes.
  - intros. now apply wake_ups_steady.
  - intros rt tes t ts params t0 Hne Hlen Hv out. subst out.
    rewrite (fewer_then_timeout rt tes t ts params t0 Hne Hlen Hv). cbn. auto.
  - intros rt tes t e params t0 Hlen Hv out. subst out.
    rewrite (full_batch rt tes t e params t0 Hlen Hv). cbn. auto.
Qed.

Lemma writer_flushes_on_size_or_idle_timeout_witness :
  let tes := [(0, click 1); (10, click 2)] in
  let out := batched_writer_task Sample.rt (items tes ++ [Timeout 2010; Timeout 4010])
               (starting_task 0 []) in
  out.1 = Ok tt /\ flushes out.2 = [(2010, [click 1; click 2])].
Proof.
  intros tes out.
  pose proof (proj1 (proj2 (proj2 writer_flushes_on_size_or_idle_timeout))
                Sample.rt tes 2010 [4010]
                (match all_values Sample.rt tes.*2 with Ok p => p | Raise _ => [] end) 0) as H.
  cbv zeta in H. destruct H as (H1 & H2 & _).
  - discriminate.
  - reflexivity.
  - vm_compute. reflexivity.
  - split; [exact H1|exact H2].
Defined.

(** C3 at the failing input.  The task starts at time 0; ten records are
    put one second apart from time 1000 on, with [FLUSH_INTERVAL] at two
    seconds.  The interval since the last flush has elapsed at time 2000
    with a record in the buffer, and five times over at time 10000: nothing
    is flushed before time 12000, two seconds after the last record.  The
    wait is meant to allow a periodic flush, and [last_flush] is kept for
    it, but the timeout of the wait starts again with every record and
    [last_flush] is never read. *)
Lemma steady_stream_flushed_only_when_idle :
  let puts := (fun i => (1000 * Z.of_nat i, click (Z.of_nat i))) <$> seq 1 10 in
  let ws := wake_ups 12 0 puts in
  let out := batched_writer_task Sample.rt ws (starting_task 0 []) in
  ws = items puts ++ [Timeout 12000; Timeout 14000] /\
  last_flush (starting_task 0 []) + FLUSH_INTERVAL = 2000 /\
  flushes out.2 = [(12000, puts.*2)].
Proof. intros puts ws out. vm_compute. repeat split. Qed.

(** C7 at the failing input.  One record is buffered; the wait times out
    and the insert of the flush fails once.  The exception is raised in the
    handler of the timeout, which [except Exception] does not cover: the task
    ends.  The record is never written, and the record that comes next is
    never taken from the queue.  With a database that answers, the same
    wake-ups write both records. *)
Theorem timeout_flush_failure_ends_task :
  let ws := [Item 0 (click 1); Timeout 2000; Item 2500 (click 2); Timeout 4500] in
  let failed := batched_writer_task Sample.rt ws (starting_task 0 [true]) in
  let fine := batched_writer_task Sample.rt ws (starting_task 0 []) in
  failed.1 = Raise IOException /\
  flushes failed.2 = [(2000, [click 1])] /\
  events failed.2 = [] /\
  buffer failed.2 = [click 1] /\
  fine.1 = Ok tt /\
  flushes fine.2 = [(2000, [click 1]); (4500, [click 2])] /\
  length (events fine.2) = 2%nat.
Proof. intros ws failed fine. vm_compute. repeat split. Qed.

(** * Further properties of the code

    What follows covers behaviour of the functions above that the
    statements so far leave open: failures in the middle of a call, repeated
    runs, and the functions that read back what was stored. *)

(** ** [insert_job_logs]: all or nothing *)

(** An [executemany] on [job_logs] inside a transaction works on the copy
    of the transaction only. *)
Lemma execute_insert_logs_inv rows w r w' t0 :
  execute (DuckDB.INSERT_INTO_job_logs rows) w = (r, w') ->
  DuckDB.txn (duck w) = Some t0 ->
  DuckDB.committed (duck w') = DuckDB.committed (duck w) /\
  exists t1, DuckDB.txn (duck w') = Some t1 /\
             (r = Ok tt -> DuckDB.insert_logs rows t0 = (Ok tt, t1)).
Proof.
  unfold execute, duck_call. intros H Htx.
  destruct (next_fault (duck_faults w)) as [[] fs].
  { simplify_eq. cbn. split; [reflexivity|]. exists t0. split; [exact Htx|discriminate]. }
  cbn [DuckDB.run] in H. unfold DuckDB.view, DuckDB.write in H. rewrite Htx in H.
  destruct (DuckDB.insert_logs rows t0) as [r1 t1] eqn:E. simplify_eq. cbn.
  split; [reflexivity|]. exists t1. split; [reflexivity|]. intros ->. reflexivity.
Qed.

Lemma insert_logs_ok_inv rows t t' :
  DuckDB.insert_logs rows t = (Ok tt, t') ->
  t' = {| DuckDB.jobs := DuckDB.jobs t; DuckDB.job_logs := DuckDB.job_logs t ++ rows |}.
Proof.
  revert t. induction rows as [|r rest IH]; intros t H; cbn in H.
  - injection H as <-. rewrite app_nil_r. destruct t; reflexivity.
  - unfold DuckDB.insert_log in H.
    destruct (negb (DuckDB.log_row_fits r)); [discriminate|].
    destruct (DuckDB.has_log _ _ t); [discriminate|].
    cbn in H. apply IH in H. subst t'. cbn. rewrite <- app_assoc. reflexivity.
Qed.

Lemma rollback_committed w :
  DuckDB.committed (duck (execute DuckDB.ROLLBACK w).2) = DuckDB.committed (duck w).
Proof.
  destruct (execute DuckDB.ROLLBACK w) as [r w'] eqn:E.
  apply execute_inv in E as [_ [(e & -> & Hd) | [-> Hd]]]; [| |done]; cbn.
  - now rewrite Hd.
  - cbn in Hd. destruct (DuckDB.txn (duck w)); [|discriminate].
    injection Hd as <-. reflexivity.
Qed.

Lemma insert_job_logs_inv job_id rows w r w' :
  insert_job_logs job_id rows w = (r, w') ->
  match r with
  | Ok n =>
      n = Z.of_nat (length (new_rows job_id rows (duck w))) /\
      DuckDB.committed (duck w')
      = {| DuckDB.jobs := DuckDB.jobs (DuckDB.committed (duck w));
           DuckDB.job_logs := DuckDB.job_logs (DuckDB.committed (duck w))
                              ++ (log_values job_id <$> new_rows job_id rows (duck w)) |} /\
      DuckDB.txn (duck w') = DuckDB.txn (duck w)
  | Raise _ => DuckDB.committed (duck w') = DuckDB.committed (duck w)
  end.
Proof.
  destruct rows as [|r0 rest].
  { cbn. intros H. injection H as <- <-. cbn. rewrite app_nil_r.
    destruct (DuckDB.committed (duck w)); auto. }
  unfold insert_job_logs. set (rows := r0 :: rest).
  unfold bind at 1.
  destruct (get_conn w) as [rc w0] eqn:E0.
  apply get_conn_inv in E0 as (_ & Hd0 & _ & _ & Hr0).
  destruct Hr0 as [-> | ->]; [|intros H; injection H as <- <-; now rewrite Hd0].
  rewrite <- Hd0. clear Hd0. revert w0. clear w. intros w.
  unfold bind at 1.
  destruct (duck_call _ w) as [r1 w1] eqn:E1.
  assert (H1 : (exists e, r1 = Raise e /\ duck w1 = duck w) \/
               (r1 = Ok (DuckDB.select_seqs job_id (list_min r0.1.1 ((fun r => r.1.1) <$> rows))
                           (list_max r0.1.1 ((fun r => r.1.1) <$> rows)) (duck w))
                /\ duck w1 = duck w)).
  { unfold duck_call in E1. destruct (next_fault (duck_faults w)) as [[] fs]; simplify_eq; cbn; eauto. }
  destruct H1 as [(e & -> & Hd1) | [-> Hd1]].
  { intros H. injection H as <- <-. now rewrite Hd1. }
  rewrite filter_seen.
  destruct (new_rows job_id rows (duck w)) as [|n0 nrest] eqn:Hnew.
  { intros H. injection H as <- <-. cbn. rewrite Hd1, app_nil_r.
    destruct (DuckDB.committed (duck w)); auto. }
  rewrite <- Hnew. set (nr := new_rows job_id rows (duck w)) in *.
  unfold bind at 1.
  destruct (execute DuckDB.BEGIN_TRANSACTION w1) as [r2 w2] eqn:E2.
  apply execute_inv in E2 as [_ [(e & -> & Hd2) | [-> Hd2]]]; [| |done].
  { intros H. injection H as <- <-. now rewrite Hd2, Hd1. }
  cbn in Hd2. rewrite Hd1 in Hd2.
  destruct (DuckDB.txn (duck w)) eqn:Htx; [discriminate|]. injection Hd2 as Hd2.
  unfold try_except, bind, ret, raise.
  destruct (execute (DuckDB.INSERT_INTO_job_logs (log_values job_id <$> nr)) w2) as [r3 w3] eqn:E3.
  apply execute_insert_logs_inv with (t0 := DuckDB.committed (duck w)) in E3
    as (Hc3 & t1 & Ht3 & Hok3); [|now rewrite <- Hd2].
  assert (Hcm3 : DuckDB.committed (duck w3) = DuckDB.committed (duck w))
    by (now rewrite Hc3, <- Hd2).
  destruct r3 as [[]|e3].
  2:{ pose proof (rollback_committed w3) as Hrb.
      destruct (execute DuckDB.ROLLBACK w3) as [[[]|e5] w5]; intros H; injection H as <- <-;
        cbn in *; congruence. }
  specialize (Hok3 eq_refl). apply insert_logs_ok_inv in Hok3.
  destruct (execute DuckDB.COMMIT w3) as [r4 w4] eqn:E4.
  apply execute_inv in E4 as [_ [(e & -> & Hd4) | [-> Hd4]]]; [| |done].
  { pose proof (rollback_committed w4) as Hrb.
    destruct (execute DuckDB.ROLLBACK w4) as [[[]|e5] w5]; intros H; injection H as <- <-;
      cbn in *; congruence. }
  cbn in Hd4. rewrite Ht3 in Hd4. injection Hd4 as Hd4.
  intros H. injection H as <- <-. rewrite <- Hd4. cbn. subst t1. auto.
Qed.

(** X1. [insert_job_logs] is all or nothing, whatever fails and whenever:
    when it returns [n], the committed [job_logs] table has gained exactly
    the [n] rows of the batch whose sequence number was not in the table, in
    the order of the batch, and nothing else has changed; when it raises,
    the committed tables are as they were before the call. *)
Theorem insert_job_logs_all_or_nothing (job_id : pystr) (rows : list (Z * Z * pystr))
    (w : world) :
  let out := insert_job_logs job_id rows w in
  let fresh := new_rows job_id rows (duck w) in
  match out.1 with
  | Ok n =>
      n = Z.of_nat (length fresh) /\
      DuckDB.job_logs (DuckDB.committed (duck out.2))
      = DuckDB.job_logs (DuckDB.committed (duck w)) ++ (log_values job_id <$> fresh) /\
      DuckDB.jobs (DuckDB.committed (duck out.2)) = DuckDB.jobs (DuckDB.committed (duck w))
  | Raise _ => DuckDB.committed (duck out.2) = DuckDB.committed (duck w)
  end.
Proof.
  intros out fresh. subst out fresh.
  destruct (insert_job_logs job_id rows w) as [[n|e] w'] eqn:E;
    apply insert_job_logs_inv in E; cbn [fst snd].
  - destruct E as (-> & -> & _). auto.
  - exact E.
Qed.

(** ** A batch that repeats a sequence number *)

Lemma has_log_mono job seq t r :
  DuckDB.has_log job seq t = true ->
  DuckDB.has_log job seq
    {| DuckDB.jobs := DuckDB.jobs t; DuckDB.job_logs := DuckDB.job_logs t ++ [r] |} = true.
Proof.
  intros H. destruct t as [jb lg]. cbn [DuckDB.jobs DuckDB.job_logs].
  rewrite has_log_app, H. reflexivity.
Qed.

Lemma has_log_last r t :
  DuckDB.has_log (DuckDB.l_job_id r) (DuckDB.l_seq r)
    {| DuckDB.jobs := DuckDB.jobs t; DuckDB.job_logs := DuckDB.job_logs t ++ [r] |} = true.
Proof.
  destruct t as [jb lg]. cbn [DuckDB.jobs DuckDB.job_logs].
  rewrite has_log_app. apply orb_true_iff. right. unfold DuckDB.has_log. cbn.
  rewrite bool_decide_eq_true_2 by reflexivity. rewrite Z.eqb_refl. reflexivity.
Qed.

(** [executemany] on rows that fit their columns fails on the primary key as
    soon as a row is in the table already or two rows share their key. *)
Lemma insert_logs_clash rows t :
  Forall (fun r => DuckDB.log_row_fits r = true) rows ->
  (exists r, r ∈ rows /\ DuckDB.has_log (DuckDB.l_job_id r) (DuckDB.l_seq r) t = true)
  \/ ~ NoDup (log_key <$> rows) ->
  (DuckDB.insert_logs rows t).1 = Raise ConstraintException.
Proof.
  revert t. induction rows as [|r rest IH]; intros t Hfit Hbad.
  { destruct Hbad as [(r & Hr & _) | Hnd]; [inversion Hr|]. exfalso. apply Hnd. constructor. }
  apply Forall_cons in Hfit as [Hr Hfit]. cbn. unfold DuckDB.insert_log. rewrite Hr. cbn [negb].
  destruct (DuckDB.has_log (DuckDB.l_job_id r) (DuckDB.l_seq r) t) eqn:Hh; [reflexivity|].
  apply IH; [exact Hfit|].
  destruct Hbad as [(r' & Hr' & Hp) | Hnd].
  - apply elem_of_cons in Hr' as [-> | Hr']; [congruence|].
    left. exists r'. split; [exact Hr'|]. now apply has_log_mono.
  - destruct (decide (log_key r ∈ log_key <$> rest)) as [Hin | Hnin].
    + left. apply list_elem_of_fmap in Hin as (r' & Hk & Hr'). exists r'. split; [exact Hr'|].
      unfold log_key in Hk. injection Hk as Hj Hs. rewrite <- Hj, <- Hs. apply has_log_last.
    + right. intros Hrest. apply Hnd. cbn. now constructor.
Qed.

(** X2. A batch that names a sequence number twice, for rows that are not
    in the table yet, is not filtered by the check against the table: the
    second row violates the primary key, the transaction is rolled back, the
    call raises [ConstraintException] and no row of the batch is stored. *)
Theorem insert_job_logs_repeated_seq (job_id : pystr) (rows : list (Z * Z * pystr))
    (w : world) :
  duck_faults w = [] -> DuckDB.txn (duck w) = None -> rows_fit rows ->
  ~ NoDup ((fun r => r.1.1) <$> new_rows job_id rows (duck w)) ->
  insert_job_logs job_id rows w =
  (Raise ConstraintException,
   {| redis := redis w; redis_faults := redis_faults w; duck := duck w;
      duck_faults := []; clock := clock w |}).
Proof.
  intros Hf Htx Hfit Hdup. destruct rows as [|r0 rest].
  { exfalso. apply Hdup. constructor. }
  destruct w as [rd rf [cm tx] df ck]. cbn in Hf, Htx. subst tx df.
  unfold insert_job_logs. set (rows := r0 :: rest) in *.
  unfold bind at 1. rewrite get_conn_ok by reflexivity. unfold bind at 1.
  rewrite duck_call_ok by reflexivity. cbn [fst snd duck duck_faults redis redis_faults clock].
  rewrite filter_seen.
  set (c0 := {| DuckDB.committed := cm; DuckDB.txn := None |}) in *.
  cbn [duck] in Hdup.
  assert (Hfits : Forall (fun r => DuckDB.log_row_fits r = true)
                    (log_values job_id <$> new_rows job_id rows c0)).
  { apply Forall_fmap, Forall_forall. intros [[seq ts] line] Hr.
    apply list_elem_of_In, filter_In in Hr as [Hr _].
    unfold rows_fit in Hfit. rewrite Forall_forall in Hfit.
    destruct (Hfit _ (proj2 (list_elem_of_In _ _) Hr)) as [H1 H2]. cbn in *.
    unfold DuckDB.log_row_fits. cbn. now rewrite H1, H2. }
  assert (Hkeys : ~ NoDup (log_key <$> (log_values job_id <$> new_rows job_id rows c0))).
  { intros Hnd. apply Hdup. rewrite <- list_fmap_compose in Hnd.
    rewrite (list_fmap_ext _ ((fun s => (job_id, s)) ∘ (fun r : Z * Z * pystr => r.1.1))) in Hnd
      by (intros ? [[??]?] ?; reflexivity).
    rewrite list_fmap_compose in Hnd. eapply NoDup_fmap_1, Hnd. }
  remember (new_rows job_id rows c0) as nr eqn:Hnr.
  destruct nr as [|n0 nrest]; [exfalso; apply Hdup; constructor|].
  set (nr := n0 :: nrest) in *.
  unfold execute, bind, try_except, ret, raise.
  rewrite duck_call_ok by reflexivity. cbn [duck duck_faults redis redis_faults clock fst snd].
  unfold c0 at 1 2. cbn [DuckDB.run DuckDB.txn DuckDB.committed fst snd].
  rewrite duck_call_ok by reflexivity. cbn [duck duck_faults redis redis_faults clock fst snd].
  cbn [DuckDB.run DuckDB.view DuckDB.txn DuckDB.committed].
  pose proof (insert_logs_clash _ cm Hfits (or_intror Hkeys)) as Hraise.
  destruct (DuckDB.insert_logs (log_values job_id <$> nr) cm) as [r1 t1]. cbn [fst] in Hraise.
  subst r1. cbn [fst snd DuckDB.write DuckDB.txn DuckDB.committed].
  rewrite duck_call_ok by reflexivity. cbn [duck duck_faults redis redis_faults clock fst snd].
  cbn [DuckDB.run DuckDB.txn DuckDB.committed fst snd]. reflexivity.
Qed.

Lemma insert_job_logs_repeated_seq_witness :
  let rows := [(0, 5, lit "a"); (0, 5, lit "b")] in
  insert_job_logs (lit "j1") rows (fresh_world 5) =
  (Raise ConstraintException, fresh_world 5).
Proof.
  apply (insert_job_logs_repeated_seq (lit "j1") [(0, 5, lit "a"); (0, 5, lit "b")]
           (fresh_world 5)).
  - reflexivity.
  - reflexivity.
  - repeat constructor.
  - vm_compute. intros H. apply NoDup_cons in H as [H _]. apply H. left.
Defined.

(** ** The log sync under faults *)

(** A call of the Redis client either fails before reaching the server or
    runs the command; it touches nothing else. *)
Lemma redis_call_inv {A} (cmd : Redis.server -> result A * Redis.server) w r w' :
  redis_call cmd w = (r, w') ->
  duck w' = duck w /\ duck_faults w' = duck_faults w /\ clock w' = clock w /\
  ((r = Raise ConnectionError /\ redis w' = redis w) \/ cmd (redis w) = (r, redis w')).
Proof.
  unfold redis_call. intros H. destruct (next_fault (redis_faults w)) as [[] fs].
  - injection H as <- <-. cbn. repeat split. left. split; reflexivity.
  - destruct (cmd (redis w)) as [r0 s0]. injection H as <- <-. cbn. repeat split.
    right. reflexivity.
Qed.

Lemma LLEN_state k s : (Redis.LLEN k s).2 = s.
Proof. unfold Redis.LLEN. destruct (Redis.keyspace s !! k) as [[]|]; reflexivity. Qed.

Lemma LRANGE_state k a b s : (Redis.LRANGE k a b s).2 = s.
Proof. unfold Redis.LRANGE. destruct (Redis.keyspace s !! k) as [[]|]; reflexivity. Qed.

Lemma redis_call_read {A} (cmd : Redis.server -> result A * Redis.server) w :
  (forall s, (cmd s).2 = s) -> redis (redis_call cmd w).2 = redis w.
Proof.
  intros Hc. destruct (redis_call cmd w) as [r w'] eqn:E.
  apply redis_call_inv in E as (_ & _ & _ & [[_ H] | H]); [exact H|].
  cbn. specialize (Hc (redis w)). rewrite H in Hc. exact Hc.
Qed.

Lemma watermark_after_SET rt job z s :
  0 <= z ->
  watermark rt (Redis.SET (JOB_LOG_SYNC_PREFIX ++ job) (str_of_int z) s).2 job = Ok z.
Proof.
  intros Hz.
  exact (watermark_set rt job z
           {| redis := s; redis_faults := []; duck := duck (fresh_world 0);
              duck_faults := []; clock := 0 |} Hz).
Qed.

(** What one call does to Redis, whatever fails: nothing, or it sets the
    watermark key to the watermark it read plus the number of entries it
    read. *)
Lemma sync_redis_cases rt LIMIT job w r w' :
  _sync_logs_for_job rt LIMIT job w = (r, w') ->
  redis w' = redis w \/
  exists wm (n : nat),
    watermark rt (redis w) job = Ok wm /\
    redis w' = (Redis.SET (JOB_LOG_SYNC_PREFIX ++ job) (str_of_int (wm + Z.of_nat n)) (redis w)).2.
Proof.
  unfold _sync_logs_for_job.
  unfold bind at 1.
  destruct (redis_call (Redis.GET (JOB_LOG_SYNC_PREFIX ++ job)) w) as [r1 w1] eqn:E1.
  pose proof (redis_call_read (Redis.GET (JOB_LOG_SYNC_PREFIX ++ job)) w (GET_state _)) as Hr1.
  rewrite E1 in Hr1. cbn [snd] in Hr1.
  apply redis_call_inv in E1 as (_ & _ & _ & Hc1).
  destruct r1 as [v|e]; [|intros H; injection H as <- <-; left; exact Hr1].
  assert (Hv : watermark rt (redis w) job = parse_last_idx rt v).
  { destruct Hc1 as [[? _] | Hc1]; [discriminate|]. unfold watermark. now rewrite Hc1. }
  unfold bind at 1. unfold lift at 1.
  destruct (parse_last_idx rt v) as [wm|e] eqn:Hp; [|intros H; injection H as <- <-; left; exact Hr1].
  unfold bind at 1.
  set (llen_m := try_except (redis_call (Redis.LLEN (JOB_LOG_PREFIX ++ job))) (fun _ => ret 0)).
  assert (Hr2 : redis (llen_m w1).2 = redis w1).
  { unfold llen_m, try_except, ret.
    pose proof (redis_call_read (Redis.LLEN (JOB_LOG_PREFIX ++ job)) w1 (LLEN_state _)) as H.
    destruct (redis_call _ w1) as [[?|?] ?]; exact H. }
  assert (Hok2 : exists llen, (llen_m w1).1 = Ok llen).
  { unfold llen_m, try_except, ret. destruct (redis_call _ w1) as [[?|?] ?]; cbn; eauto. }
  destruct Hok2 as [llen Hok2].
  destruct (llen_m w1) as [r2 w2]. cbn [fst snd] in *. subst r2.
  destruct (llen <=? wm); [intros H; injection H as <- <-; left; congruence|].
  unfold bind at 1.
  set (range_m := try_except (redis_call (Redis.LRANGE _ _ _)) (fun _ => ret [])).
  assert (Hr3 : redis (range_m w2).2 = redis w2).
  { unfold range_m, try_except, ret.
    pose proof (redis_call_read (Redis.LRANGE (JOB_LOG_PREFIX ++ job) wm
                                   (Z.min (llen - 1) (wm + LIMIT - 1))) w2 (LRANGE_state _ _ _)) as H.
    destruct (redis_call _ w2) as [[?|?] ?]; exact H. }
  assert (Hok3 : exists es, (range_m w2).1 = Ok es).
  { unfold range_m, try_except, ret. destruct (redis_call _ w2) as [[?|?] ?]; cbn; eauto. }
  destruct Hok3 as [es Hok3].
  destruct (range_m w2) as [r3 w3]. cbn [fst snd] in *. subst r3.
  destruct es as [|e0 es]; [intros H; injection H as <- <-; left; congruence|].
  set (entries := e0 :: es).
  unfold now_ts, gets. unfold bind at 1. unfold bind at 1.
  set (rows := imap _ entries).
  set (ins_m := try_except (insert_job_logs job rows) (fun _ => ret 0)).
  assert (Hr4 : redis (ins_m w3).2 = redis w3).
  { unfold ins_m, try_except, ret.
    pose proof (duck_only_insert_job_logs job rows w3) as (H & _).
    destruct (insert_job_logs job rows w3) as [[?|?] ?]; exact H. }
  assert (Hok4 : exists k, (ins_m w3).1 = Ok k).
  { unfold ins_m, try_except, ret. destruct (insert_job_logs job rows w3) as [[?|?] ?]; cbn; eauto. }
  destruct Hok4 as [k Hok4].
  destruct (ins_m w3) as [r4 w4]. cbn [fst snd] in *. subst r4.
  unfold try_except, ret.
  destruct (redis_call _ w4) as [r5 w5] eqn:E5.
  apply redis_call_inv in E5 as (_ & _ & _ & Hc5).
  assert (Hw4 : redis w4 = redis w) by congruence.
  destruct Hc5 as [[-> Hc5] | Hc5].
  - intros H; injection H as <- <-. left. congruence.
  - rewrite Hw4 in Hc5.
    destruct r5; intros H; injection H as <- <-; right; exists wm, (length entries);
      (split; [exact Hv|]); rewrite Hc5; reflexivity.
Qed.

(** X3. The watermark of a job never decreases: whatever the batch limit,
    whatever is stored under the keys of the job, whichever calls of the
    Redis client or of the database fail, a call of [_sync_logs_for_job]
    that finds a readable watermark leaves a readable watermark that is not
    smaller, whether the call returns or raises. *)
Theorem watermark_never_decreases (rt : runtime) (LOG_BATCH_LIMIT : Z) (job_id : pystr)
    (w : world) (wm : Z) :
  watermark rt (redis w) job_id = Ok wm ->
  exists wm',
    watermark rt (redis (_sync_logs_for_job rt LOG_BATCH_LIMIT job_id w).2) job_id = Ok wm'
    /\ wm <= wm'.
Proof.
  intros Hw. pose proof (watermark_nonneg rt _ _ _ Hw) as H0.
  destruct (_sync_logs_for_job rt LOG_BATCH_LIMIT job_id w) as [r w'] eqn:E. cbn [snd].
  destruct (sync_redis_cases rt LOG_BATCH_LIMIT job_id w r w' E) as [-> | (wm0 & n & Hw0 & ->)].
  - exists wm. split; [exact Hw|lia].
  - assert (wm0 = wm) by congruence. subst wm0.
    exists (wm + Z.of_nat n). split; [apply watermark_after_SET|]; lia.
Qed.

Lemma watermark_never_decreases_witness :
  exists wm',
    watermark Sample.rt
      (redis (_sync_logs_for_job Sample.rt (-7) (lit "j1")
                (appended (lit "j1") [lit "a"; lit "b"] (fresh_world 5))).2) (lit "j1") = Ok wm'
    /\ 0 <= wm'.
Proof.
  apply (watermark_never_decreases Sample.rt (-7) (lit "j1")
           (appended (lit "j1") [lit "a"; lit "b"] (fresh_world 5)) 0).
  vm_compute. reflexivity.
Defined.


(** ** Repeated runs of the log sync *)

Lemma log_key_not_sync_key job : JOB_LOG_PREFIX ++ job <> JOB_LOG_SYNC_PREFIX ++ job.
Proof.
  intros H. apply (f_equal (fun l => l !! 13%nat)) in H. vm_compute in H. discriminate H.
Qed.

Lemma list_at_set_watermark job z w :
  list_at (redis (set_watermark job z w)) (JOB_LOG_PREFIX ++ job)
  = list_at (redis w) (JOB_LOG_PREFIX ++ job).
Proof.
  unfold list_at, set_watermark, Redis.with_keyspace. cbn [redis Redis.keyspace].
  rewrite lookup_insert_ne by (apply not_eq_sym, log_key_not_sync_key). reflexivity.
Qed.

Lemma filter_all {A} (p : A -> bool) (l : list A) :
  (forall x, x ∈ l -> p x = true) -> List.filter p l = l.
Proof.
  induction l as [|a l IH]; intros H; cbn; [reflexivity|].
  rewrite (H a) by left. f_equal. apply IH. intros x Hx. apply H. now right.
Qed.

Lemma has_log_below job wm t seq :
  rows_below job wm t -> wm <= seq -> DuckDB.has_log job seq t = false.
Proof.
  intros Hb Hseq. apply not_true_iff_false. intros H.
  apply existsb_exists in H as (r & Hr & Hp). apply andb_true_iff in Hp as [Hj Hs].
  apply bool_decide_eq_true in Hj. apply Z.eqb_eq in Hs.
  specialize (Hb r (proj2 (list_elem_of_In _ _) Hr) Hj). lia.
Qed.

Lemma batch_rows_new LIMIT job l wm ts c :
  rows_below job wm (DuckDB.view c) ->
  new_rows job (batch_rows LIMIT l wm ts) c = batch_rows LIMIT l wm ts.
Proof.
  intros Hb. unfold new_rows. apply filter_all. intros [[seq t] line] Hr.
  apply negb_true_iff. cbn [fst]. apply (has_log_below job wm); [exact Hb|].
  unfold batch_rows in Hr. apply list_elem_of_lookup in Hr as [i Hi].
  rewrite list_lookup_imap in Hi. destruct (take _ _ !! i); [|discriminate].
  cbn in Hi. simplify_eq. lia.
Qed.

Lemma batch_rows_values LIMIT job l wm ts :
  log_values job <$> batch_rows LIMIT l wm ts
  = list_rows job ts wm (take (batch_length LIMIT (Z.of_nat (length l)) wm)
                              (drop (Z.to_nat wm) l)).
Proof. unfold batch_rows, list_rows. rewrite fmap_imap. reflexivity. Qed.

Lemma list_rows_split job ts from (k : nat) (xs : list pystr) :
  (k <= length xs)%nat ->
  list_rows job ts from (take k xs) ++ list_rows job ts (from + Z.of_nat k) (drop k xs)
  = list_rows job ts from xs.
Proof.
  intros Hk. unfold list_rows. rewrite <- (take_drop k xs) at 3. rewrite imap_app.
  f_equal. apply imap_ext. intros i x _. rewrite length_take. f_equal. lia.
Qed.

Lemma rows_below_app job wm wm' t rows :
  rows_below job wm t -> wm <= wm' ->
  (forall r, r ∈ rows -> DuckDB.l_seq r < wm') ->
  rows_below job wm'
    {| DuckDB.jobs := DuckDB.jobs t; DuckDB.job_logs := DuckDB.job_logs t ++ rows |}.
Proof.
  intros Hb Hle Hr r Hin Hj. cbn in Hin. apply elem_of_app in Hin as [Hin | Hin].
  - specialize (Hb r Hin Hj). lia.
  - auto.
Qed.

Lemma list_rows_seq_lt job ts from (xs : list pystr) r :
  r ∈ list_rows job ts from xs -> DuckDB.l_seq r < from + Z.of_nat (length xs).
Proof.
  unfold list_rows. intros Hr. apply list_elem_of_lookup in Hr as [i Hi].
  rewrite list_lookup_imap in Hi. destruct (xs !! i) eqn:E; [|discriminate].
  apply lookup_lt_Some in E. cbn in Hi. simplify_eq. cbn. lia.
Qed.

Lemma sync_times_noop rt LIMIT job n w l wm :
  redis_faults w = [] ->
  list_at (redis w) (JOB_LOG_PREFIX ++ job) = Some l ->
  watermark rt (redis w) job = Ok wm ->
  Z.of_nat (length l) <= wm ->
  sync_times rt LIMIT job n w = w.
Proof.
  intros Hf Hl Hw Hle. induction n as [|n IH]; cbn; [reflexivity|].
  rewrite (sync_noop rt LIMIT job w l wm Hf Hl Hw Hle). exact IH.
Qed.

(** One run without fault on a table that holds no row of the job from the
    watermark on: the batch is appended and the watermark moves past it. *)
Lemma sync_step_copies rt LIMIT job w l wm :
  0 < LIMIT -> redis_faults w = [] -> duck_faults w = [] -> DuckDB.txn (duck w) = None ->
  list_at (redis w) (JOB_LOG_PREFIX ++ job) = Some l ->
  watermark rt (redis w) job = Ok wm ->
  wm < Z.of_nat (length l) ->
  rows_below job wm (DuckDB.committed (duck w)) ->
  Z.of_nat (length l) < 2 ^ 63 -> DuckDB.fits_bigint (clock w) = true ->
  let k := batch_length LIMIT (Z.of_nat (length l)) wm in
  (_sync_logs_for_job rt LIMIT job w).2
  = set_watermark job (wm + Z.of_nat k)
      (add_logs (list_rows job (clock w) wm (take k (drop (Z.to_nat wm) l))) w).
Proof.
  intros HL Hrf Hdf Htx Hl Hw Hlt Hb Hlen Hck k.
  pose proof (watermark_nonneg rt _ _ _ Hw) as H0.
  rewrite (sync_reads rt LIMIT job w l wm HL Hrf Hl Hw Hlt). cbn [snd].
  rewrite (insert_job_logs_skips job _ w Hdf Htx (batch_rows_seqs LIMIT l wm (clock w))
             (batch_rows_fit LIMIT l wm (clock w) H0 Hlen Hck)). cbn [snd].
  rewrite batch_rows_new by (unfold DuckDB.view; rewrite Htx; exact Hb).
  rewrite batch_rows_values. reflexivity.
Qed.

Lemma sync_times_copies rt LIMIT job l (n : nat) : forall w wm,
  0 < LIMIT -> redis_faults w = [] -> duck_faults w = [] -> DuckDB.txn (duck w) = None ->
  list_at (redis w) (JOB_LOG_PREFIX ++ job) = Some l ->
  watermark rt (redis w) job = Ok wm ->
  rows_below job wm (DuckDB.committed (duck w)) ->
  Z.of_nat (length l) < 2 ^ 63 -> DuckDB.fits_bigint (clock w) = true ->
  Z.of_nat (length l) <= wm + Z.of_nat n * LIMIT ->
  let w' := sync_times rt LIMIT job n w in
  DuckDB.job_logs (DuckDB.committed (duck w'))
  = DuckDB.job_logs (DuckDB.committed (duck w))
    ++ list_rows job (clock w) wm (drop (Z.to_nat wm) l) /\
  DuckDB.jobs (DuckDB.committed (duck w')) = DuckDB.jobs (DuckDB.committed (duck w)) /\
  watermark rt (redis w') job = Ok (Z.max wm (Z.of_nat (length l))) /\
  list_at (redis w') (JOB_LOG_PREFIX ++ job) = Some l.
Proof.
  induction n as [|n IH]; intros w wm HL Hrf Hdf Htx Hl Hw Hb Hlen Hck Hn w';
    pose proof (watermark_nonneg rt _ _ _ Hw) as H0;
    (destruct (Z.le_gt_cases (Z.of_nat (length l)) wm) as [Hle | Hgt];
     [ subst w'; rewrite (sync_times_noop rt LIMIT job _ w l wm Hrf Hl Hw Hle);
       rewrite drop_ge by lia; cbn; rewrite app_nil_r;
       replace (Z.max wm (Z.of_nat (length l))) with wm by lia; auto | ]).
  { lia. }
  subst w'. cbn [sync_times].
  assert (Hlt : wm < Z.of_nat (length l)) by lia.
  rewrite (sync_step_copies rt LIMIT job w l wm HL Hrf Hdf Htx Hl Hw Hlt Hb Hlen Hck).
  set (k := batch_length LIMIT (Z.of_nat (length l)) wm).
  assert (Hk : Z.of_nat k = Z.min (Z.of_nat (length l)) (wm + LIMIT) - wm)
    by (unfold k, batch_length; lia).
  set (batch := take k (drop (Z.to_nat wm) l)).
  assert (Hbl : length batch = k).
  { unfold batch. rewrite length_take, length_drop. lia. }
  set (w1 := set_watermark job (wm + Z.of_nat k) (add_logs (list_rows job (clock w) wm batch) w)).
  destruct (IH w1 (wm + Z.of_nat k)) as (H1 & H2 & H3 & H4); try assumption.
  - unfold w1. rewrite list_at_set_watermark. exact Hl.
  - unfold w1. apply watermark_set. lia.
  - unfold w1, set_watermark, add_logs. cbn [duck DuckDB.committed].
    apply (rows_below_app job wm); [exact Hb|lia|].
    intros r Hr. apply list_rows_seq_lt in Hr. lia.
  - nia.
  - split; [|split; [|split]].
    + rewrite H1. unfold w1, set_watermark, add_logs. cbn [duck DuckDB.committed DuckDB.job_logs clock].
      rewrite <- app_assoc. f_equal.
      replace (Z.to_nat (wm + Z.of_nat k)) with (Z.to_nat wm + k)%nat by lia.
      rewrite <- drop_drop. apply list_rows_split. rewrite length_drop. lia.
    + rewrite H2. reflexivity.
    + rewrite H3. f_equal. lia.
    + exact H4.
Qed.

(** X4. Run often enough without fault, the log sync copies the list of a
    job to the table: when the list holds [l] and is not changed meanwhile,
    the watermark is [wm] and the table has no row of the job from [wm] on,
    [n] runs with [length l <= wm + n * LOG_BATCH_LIMIT] append exactly the
    entries of indices [wm], [wm + 1], ... of [l], in the order of the list,
    each under its index as sequence number; the [jobs] table is untouched
    and the watermark ends at the length of the list. *)
Theorem repeated_sync_copies_list (rt : runtime) (LOG_BATCH_LIMIT : Z) (job_id : pystr)
    (l : list pystr) (n : nat) (w : world) (wm : Z) :
  0 < LOG_BATCH_LIMIT ->
  redis_faults w = [] -> duck_faults w = [] -> DuckDB.txn (duck w) = None ->
  list_at (redis w) (JOB_LOG_PREFIX ++ job_id) = Some l ->
  watermark rt (redis w) job_id = Ok wm ->
  rows_below job_id wm (DuckDB.committed (duck w)) ->
  Z.of_nat (length l) < 2 ^ 63 -> DuckDB.fits_bigint (clock w) = true ->
  Z.of_nat (length l) <= wm + Z.of_nat n * LOG_BATCH_LIMIT ->
  let w' := sync_times rt LOG_BATCH_LIMIT job_id n w in
  DuckDB.job_logs (DuckDB.committed (duck w'))
  = DuckDB.job_logs (DuckDB.committed (duck w))
    ++ list_rows job_id (clock w) wm (drop (Z.to_nat wm) l) /\
  DuckDB.jobs (DuckDB.committed (duck w')) = DuckDB.jobs (DuckDB.committed (duck w)) /\
  watermark rt (redis w') job_id = Ok (Z.max wm (Z.of_nat (length l))).
Proof.
  intros HL Hrf Hdf Htx Hl Hw Hb Hlen Hck Hn w'.
  destruct (sync_times_copies rt LOG_BATCH_LIMIT job_id l n w wm HL Hrf Hdf Htx Hl Hw Hb Hlen Hck Hn)
    as (H1 & H2 & H3 & _).
  auto.
Qed.

Lemma repeated_sync_copies_list_witness :
  let j1 := lit "j1" in
  let l := [lit "a"; lit "b"; lit "c"; lit "d"; lit "e"] in
  let w := appended j1 l (fresh_world 1700000000) in
  let w' := sync_times Sample.rt 2 j1 3 w in
  DuckDB.job_logs (DuckDB.committed (duck w'))
  = DuckDB.job_logs (DuckDB.committed (duck w)) ++ list_rows j1 1700000000 0 l /\
  DuckDB.jobs (DuckDB.committed (duck w')) = DuckDB.jobs (DuckDB.committed (duck w)) /\
  watermark Sample.rt (redis w') j1 = Ok 5.
Proof.
  intros j1 l w.
  refine (repeated_sync_copies_list Sample.rt 2 j1 l 3 w 0 _ _ _ _ _ _ _ _ _ _).
  - lia.
  - reflexivity.
  - reflexivity.
  - reflexivity.
  - vm_compute. reflexivity.
  - vm_compute. reflexivity.
  - intros r Hr. vm_compute in Hr. inversion Hr.
  - vm_compute. reflexivity.
  - vm_compute. reflexivity.
  - vm_compute. discriminate.
Defined.

(** X5. A batch whose insert fails is lost for good.  When
    [insert_job_logs] raises on the batch read at watermark [wm], the call of
    [_sync_logs_for_job] still moves the watermark past the batch; if the
    database works again afterwards, any number of further runs copies the
    entries from the end of that batch on and nothing else: the [k] lines of
    the failed batch never reach the table, although the watermark ends at
    the length of the list. *)
Theorem failed_insert_loses_batch (rt : runtime) (LOG_BATCH_LIMIT : Z) (job_id : pystr)
    (l : list pystr) (n : nat) (w : world) (wm : Z) (e : exn) :
  0 < LOG_BATCH_LIMIT -> redis_faults w = [] ->
  list_at (redis w) (JOB_LOG_PREFIX ++ job_id) = Some l ->
  watermark rt (redis w) job_id = Ok wm ->
  wm < Z.of_nat (length l) ->
  rows_below job_id wm (DuckDB.committed (duck w)) ->
  Z.of_nat (length l) < 2 ^ 63 -> DuckDB.fits_bigint (clock w) = true ->
  (insert_job_logs job_id (batch_rows LOG_BATCH_LIMIT l wm (clock w)) w).1 = Raise e ->
  let w1 := (_sync_logs_for_job rt LOG_BATCH_LIMIT job_id w).2 in
  duck_faults w1 = [] -> DuckDB.txn (duck w1) = None ->
  let k := batch_length LOG_BATCH_LIMIT (Z.of_nat (length l)) wm in
  Z.of_nat (length l) <= wm + Z.of_nat k + Z.of_nat n * LOG_BATCH_LIMIT ->
  let w' := sync_times rt LOG_BATCH_LIMIT job_id n w1 in
  (0 < k)%nat /\
  DuckDB.committed (duck w1) = DuckDB.committed (duck w) /\
  watermark rt (redis w1) job_id = Ok (wm + Z.of_nat k) /\
  DuckDB.job_logs (DuckDB.committed (duck w'))
  = DuckDB.job_logs (DuckDB.committed (duck w))
    ++ list_rows job_id (clock w) (wm + Z.of_nat k) (drop (Z.to_nat wm + k) l) /\
  watermark rt (redis w') job_id = Ok (Z.of_nat (length l)).
Proof.
  intros HL Hrf Hl Hw Hlt Hb Hlen Hck Hraise w1 Hdf1 Htx1 k Hn w'.
  pose proof (watermark_nonneg rt _ _ _ Hw) as H0.
  assert (Hk : Z.of_nat k = Z.min (Z.of_nat (length l)) (wm + LOG_BATCH_LIMIT) - wm)
    by (unfold k, batch_length; lia).
  assert (Hw1 : w1 = set_watermark job_id (wm + Z.of_nat k)
                       (insert_job_logs job_id (batch_rows LOG_BATCH_LIMIT l wm (clock w)) w).2).
  { unfold w1. now rewrite (sync_reads rt LOG_BATCH_LIMIT job_id w l wm HL Hrf Hl Hw Hlt). }
  destruct (duck_only_insert_job_logs job_id (batch_rows LOG_BATCH_LIMIT l wm (clock w)) w)
    as (Hrd & Hrfs & Hclk).
  destruct (insert_job_logs job_id (batch_rows LOG_BATCH_LIMIT l wm (clock w)) w)
    as [r wi] eqn:Ei.
  cbn [fst snd] in *. subst r.
  apply insert_job_logs_inv in Ei.
  assert (Hcm : DuckDB.committed (duck w1) = DuckDB.committed (duck w))
    by (rewrite Hw1; exact Ei).
  assert (Hwm1 : watermark rt (redis w1) job_id = Ok (wm + Z.of_nat k))
    by (rewrite Hw1; apply watermark_set; lia).
  assert (Hck1 : clock w1 = clock w) by (rewrite Hw1; exact Hclk).
  destruct (sync_times_copies rt LOG_BATCH_LIMIT job_id l n w1 (wm + Z.of_nat k))
    as (H1 & _ & H3 & _); try assumption.
  - rewrite Hw1. cbn [set_watermark redis_faults]. congruence.
  - rewrite Hw1, list_at_set_watermark, Hrd. exact Hl.
  - rewrite Hcm. intros r Hr Hj. specialize (Hb r Hr Hj). lia.
  - rewrite Hck1. exact Hck.
  - fold w' in H1, H3. rewrite Hcm, Hck1 in H1.
    split; [lia|]. split; [exact Hcm|]. split; [exact Hwm1|]. split.
    + rewrite H1. do 3 f_equal. lia.
    + rewrite H3. f_equal. lia.
Qed.

Lemma failed_insert_loses_batch_witness :
  let j1 := lit "j1" in
  let l := [lit "a"; lit "b"; lit "c"; lit "d"; lit "e"] in
  let w0 := appended j1 l (fresh_world 1700000000) in
  let w := {| redis := redis w0; redis_faults := []; duck := duck w0;
              duck_faults := [false; false; false; true]; clock := clock w0 |} in
  let w' := sync_times Sample.rt 2 j1 4 w in
  DuckDB.job_logs (DuckDB.committed (duck w'))
  = [log_row j1 2 1700000000 (lit "c"); log_row j1 3 1700000000 (lit "d");
     log_row j1 4 1700000000 (lit "e")] /\
  watermark Sample.rt (redis w') j1 = Ok 5.
Proof.
  intros j1 l w0 w.
  pose proof (failed_insert_loses_batch Sample.rt 2 j1 l 3 w 0 IOException) as H.
  specialize (H ltac:(lia)).
  specialize (H eq_refl).
  specialize (H ltac:(vm_compute; reflexivity)).
  specialize (H ltac:(vm_compute; reflexivity)).
  specialize (H ltac:(vm_compute; reflexivity)).
  specialize (H ltac:(intros r Hr; vm_compute in Hr; inversion Hr)).
  specialize (H ltac:(vm_compute; reflexivity)).
  specialize (H ltac:(vm_compute; reflexivity)).
  specialize (H ltac:(vm_compute; reflexivity)).
  specialize (H ltac:(vm_compute; reflexivity)).
  specialize (H ltac:(vm_compute; reflexivity)).
  specialize (H ltac:(vm_compute; discriminate)).
  vm_compute in H. vm_compute.
  exact (conj (proj1 (proj2 (proj2 (proj2 H)))) (proj2 (proj2 (proj2 (proj2 H))))).
Defined.

(** ** [log_line] is best effort *)

Lemma r_call_inv {A} (cmd : Redis.server -> result A * Redis.server) w r w' :
  simulator_worker.r_call cmd w = (r, w') ->
  (r = Raise ConnectionError /\ simulator_worker.server w' = simulator_worker.server w)
  \/ cmd (simulator_worker.server w) = (r, simulator_worker.server w').
Proof.
  unfold simulator_worker.r_call. intros H.
  destruct (next_fault (simulator_worker.faults w)) as [[] fs].
  - injection H as <- <-. left. split; reflexivity.
  - destruct (cmd (simulator_worker.server w)) as [r0 s0]. injection H as <- <-.
    right. reflexivity.
Qed.

Lemma RPUSH_cases k v s r s' :
  Redis.RPUSH k v s = (r, s') ->
  (exists e, r = Raise e /\ s' = s) \/
  (exists l, list_at s k = Some l /\
             s' = Redis.with_keyspace (<[k := Redis.RList (l ++ [v])]> (Redis.keyspace s)) s).
Proof.
  unfold Redis.RPUSH, list_at. destruct (Redis.keyspace s !! k) as [[]|];
    intros H; injection H as <- <-; eauto.
Qed.

Lemma last_2000_not_nil (l : list pystr) : l <> [] -> last_2000 l <> [].
Proof.
  intros Hne E. unfold last_2000 in E. apply (f_equal length) in E.
  rewrite length_drop in E. cbn in E.
  assert (0 < length l)%nat by (destruct l; [congruence|cbn; lia]). lia.
Qed.

Lemma LTRIM_last_2000 k s l :
  Redis.keyspace s !! k = Some (Redis.RList l) -> l <> [] ->
  Redis.LTRIM k (-2000) (-1) s
  = (Ok tt, Redis.with_keyspace (<[k := Redis.RList (last_2000 l)]> (Redis.keyspace s)) s).
Proof.
  intros Hk Hne. unfold Redis.LTRIM. rewrite Hk, (range_last_2000 l Hne).
  pose proof (last_2000_not_nil l Hne). destruct (last_2000 l); [congruence|reflexivity].
Qed.

Lemma log_line_inv rt job line w r w' :
  simulator_worker.log_line rt job line w = (r, w') ->
  let key := JOB_LOG_PREFIX ++ job in
  let s := simulator_worker.server w in
  let s' := simulator_worker.server w' in
  r = Ok tt /\
  (forall k, k <> key -> Redis.keyspace s' !! k = Redis.keyspace s !! k) /\
  (Redis.published s' = Redis.published s \/
   exists payload l,
     json_dumps rt (JDict [(lit "job_id", JStr job); (lit "line", JStr line)]) = Some payload /\
     Redis.published s' = Redis.published s ++ [(lit "bench_logs", payload)] /\
     list_at s key = Some l /\
     list_at s' key = Some (last_2000 (l ++ [line]))).
Proof.
  intros H key s s'. revert H. subst s'.
  unfold simulator_worker.log_line. fold key.
  unfold try_except. unfold bind at 1.
  destruct (simulator_worker.r_call (Redis.RPUSH key line) w) as [r1 w1] eqn:E1.
  apply r_call_inv in E1. fold s in E1.
  assert (H1 : (exists e, r1 = Raise e /\ simulator_worker.server w1 = s) \/
               (exists l n, r1 = Ok n /\ list_at s key = Some l /\
                  simulator_worker.server w1
                  = Redis.with_keyspace (<[key := Redis.RList (l ++ [line])]> (Redis.keyspace s)) s)).
  { destruct E1 as [[-> E1] | E1]; [eauto|].
    pose proof (RPUSH_cases _ _ _ _ _ E1) as [(e & -> & He) | (l & Hl & He)]; [eauto|].
    right. exists l. unfold Redis.RPUSH, list_at in *.
    destruct (Redis.keyspace s !! key) as [[]|]; simplify_eq; eauto. }
  clear E1.
  destruct H1 as [(e & -> & Hs1) | (l & n & -> & Hl & Hs1)].
  { unfold ret. intros H. injection H as <- <-. rewrite Hs1. auto. }
  set (l1 := l ++ [line]) in *.
  assert (Hne : l1 <> []) by (unfold l1; destruct l; discriminate).
  assert (Hkeep1 : forall k, k <> key ->
            Redis.keyspace (simulator_worker.server w1) !! k = Redis.keyspace s !! k).
  { intros k Hk. rewrite Hs1. cbn. now rewrite lookup_insert_ne by congruence. }
  assert (Hpub1 : Redis.published (simulator_worker.server w1) = Redis.published s)
    by (rewrite Hs1; reflexivity).
  unfold bind at 1.
  destruct (simulator_worker.r_call (Redis.LTRIM key (-2000) (-1)) w1) as [r2 w2] eqn:E2.
  apply r_call_inv in E2.
  assert (H2 : (exists e, r2 = Raise e /\ simulator_worker.server w2 = simulator_worker.server w1)
               \/ (r2 = Ok tt /\
                   simulator_worker.server w2
                   = Redis.with_keyspace (<[key := Redis.RList (last_2000 l1)]> (Redis.keyspace s)) s)).
  { destruct E2 as [[-> E2] | E2]; [eauto|].
    rewrite (LTRIM_last_2000 key _ l1) in E2;
      [|rewrite Hs1; cbn; apply lookup_insert_eq|exact Hne].
    injection E2 as <- <-. right. split; [reflexivity|].
    rewrite Hs1. unfold Redis.with_keyspace. cbn. now rewrite insert_insert_eq. }
  clear E2.
  destruct H2 as [(e & -> & Hs2) | (-> & Hs2)].
  { unfold ret. intros H. injection H as <- <-. rewrite Hs2. auto. }
  assert (Hkeep2 : forall k, k <> key ->
            Redis.keyspace (simulator_worker.server w2) !! k = Redis.keyspace s !! k).
  { intros k Hk. rewrite Hs2. cbn. now rewrite lookup_insert_ne by congruence. }
  assert (Hpub2 : Redis.published (simulator_worker.server w2) = Redis.published s)
    by (rewrite Hs2; reflexivity).
  unfold bind at 1. unfold lift.
  destruct (json_dumps rt _) as [payload|] eqn:Ed.
  2:{ unfold ret. intros H. injection H as <- <-. auto. }
  unfold bind at 1.
  destruct (simulator_worker.r_call (Redis.PUBLISH (lit "bench_logs") payload) w2)
    as [r3 w3] eqn:E3.
  apply r_call_inv in E3. destruct E3 as [[-> Hs3] | E3].
  { unfold ret. intros H. injection H as <- <-. rewrite Hs3. auto. }
  unfold Redis.PUBLISH in E3. injection E3 as <- Hs3.
  unfold ret. intros H. injection H as <- <-. rewrite <- Hs3. cbn [Redis.keyspace Redis.published].
  split; [reflexivity|]. split; [exact Hkeep2|]. right.
  exists payload, l. split; [reflexivity|]. split; [now rewrite Hpub2|]. split; [exact Hl|].
  unfold list_at. cbn [Redis.keyspace]. rewrite Hs2. cbn. now rewrite lookup_insert_eq.
Qed.

(** X6. [log_line] never raises and never touches another key.  Whatever
    is stored under the log key of the job and whichever calls of the Redis
    client fail, the call returns, every other key is as before, and a
    message is published only when the line was pushed and the list trimmed
    before: the list then holds the last 2000 entries of the old list
    extended with the line, and the one message published is the JSON text
    of [{"job_id": job_id, "line": line}] on the channel [bench_logs]. *)
Theorem log_line_best_effort (rt : runtime) (job_id line : pystr)
    (w : simulator_worker.worker) :
  let out := simulator_worker.log_line rt job_id line w in
  let key := JOB_LOG_PREFIX ++ job_id in
  let s := simulator_worker.server w in
  let s' := simulator_worker.server out.2 in
  out.1 = Ok tt /\
  (forall k, k <> key -> Redis.keyspace s' !! k = Redis.keyspace s !! k) /\
  (Redis.published s' = Redis.published s \/
   exists payload l,
     json_dumps rt (JDict [(lit "job_id", JStr job_id); (lit "line", JStr line)])
     = Some payload /\
     Redis.published s' = Redis.published s ++ [(lit "bench_logs", payload)] /\
     list_at s key = Some l /\
     list_at s' key = Some (last_2000 (l ++ [line]))).
Proof.
  intros out. subst out.
  destruct (simulator_worker.log_line rt job_id line w) as [r w'] eqn:E.
  exact (log_line_inv rt job_id line w r w' E).
Qed.


(** ** The batched writer over a whole run *)

Section WriterRuns.
Context (rt : runtime).

Lemma all_values_app a b :
  all_values rt (a ++ b) =
  match all_values rt a with
  | Ok pa => match all_values rt b with
             | Ok pb => Ok (pa ++ pb)
             | Raise e => Raise e
             end
  | Raise e => Raise e
  end.
Proof.
  induction a as [|x a IH]; cbn.
  - destruct (all_values rt b); reflexivity.
  - destruct (event_values rt x); [|reflexivity]. rewrite IH.
    destruct (all_values rt a); [|reflexivity]. destruct (all_values rt b); reflexivity.
Qed.

Lemma all_values_nil_inv (l : list event) : all_values rt l = Ok [] -> l = [].
Proof.
  destruct l as [|x l]; [reflexivity|]. cbn.
  destruct (event_values rt x); [|discriminate]. destruct (all_values rt l); discriminate.
Qed.

Lemma received_cons_item now evt ws : received (Item now evt :: ws) = evt :: received ws.
Proof. reflexivity. Qed.

Lemma received_cons_timeout now ws : received (Timeout now :: ws) = received ws.
Proof. reflexivity. Qed.

(** While the database answers and every event has its keys, the rows
    written and the events buffered together are at any time the events
    received, in their order. *)
Lemma healthy_run ws : forall s params,
  faults s = [] ->
  Z.of_nat (length (buffer s)) < BATCH_SIZE ->
  all_values rt (buffer s ++ received ws) = Ok params ->
  let out := batched_writer_task rt ws s in
  out.1 = Ok tt /\
  faults out.2 = [] /\
  Z.of_nat (length (buffer out.2)) < BATCH_SIZE /\
  exists pending,
    all_values rt (buffer out.2) = Ok pending /\
    events out.2 ++ pending = events s ++ params.
Proof.
  unfold batched_writer_task.
  induction ws as [|w ws IH]; intros s params Hf Hlen Hv; cbn [for_each].
  - cbn. unfold received in Hv. cbn in Hv. rewrite app_nil_r in Hv.
    split; [reflexivity|]. split; [exact Hf|]. split; [exact Hlen|]. exists params. auto.
  - unfold bind. destruct w as [now evt|now].
    + rewrite received_cons_item in Hv.
      replace (buffer s ++ evt :: received ws) with ((buffer s ++ [evt]) ++ received ws) in Hv
        by (rewrite <- app_assoc; reflexivity).
      destruct (Z.lt_ge_cases (Z.of_nat (length (buffer s ++ [evt]))) BATCH_SIZE) as [Hb|Hb].
      * rewrite iteration_item_below by exact Hb.
        apply (IH (set_buffer (buffer s ++ [evt]) s) params); [exact Hf|exact Hb|exact Hv].
      * rewrite all_values_app in Hv.
        destruct (all_values rt (buffer s ++ [evt])) as [p1|] eqn:E1; [|discriminate].
        destruct (all_values rt (received ws)) as [p2|] eqn:E2; [|discriminate].
        injection Hv as <-.
        rewrite (iteration_item_full rt now evt p1 s Hb E1 Hf).
        set (s1 := flushed now "Flushed batch size" p1 (set_buffer (buffer s ++ [evt]) s)).
        destruct (IH s1 p2) as (H1 & H2 & H3 & pending & H4 & H5);
          [exact Hf|cbn; unfold BATCH_SIZE; lia|exact E2|].
        split; [exact H1|]. split; [exact H2|]. split; [exact H3|].
        exists pending. split; [exact H4|]. rewrite H5. unfold s1, flushed. cbn.
        now rewrite app_assoc.
    + rewrite received_cons_timeout in Hv.
      destruct (buffer s) as [|b0 br] eqn:Eb.
      * rewrite iteration_timeout_empty by exact Eb.
        apply (IH s params); [exact Hf|now rewrite Eb|now rewrite Eb].
      * rewrite <- Eb in *. rewrite all_values_app in Hv.
        destruct (all_values rt (buffer s)) as [p1|] eqn:E1; [|discriminate].
        destruct (all_values rt (received ws)) as [p2|] eqn:E2; [|discriminate].
        injection Hv as <-.
        rewrite (iteration_timeout_flush rt now p1 s); [|rewrite Eb; discriminate|exact E1|exact Hf].
        set (s1 := flushed now "Flushed on timeout" p1 s).
        destruct (IH s1 p2) as (H1 & H2 & H3 & pending & H4 & H5);
          [exact Hf|cbn; unfold BATCH_SIZE; lia|exact E2|].
        split; [exact H1|]. split; [exact H2|]. split; [exact H3|].
        exists pending. split; [exact H4|]. rewrite H5. unfold s1, flushed. cbn.
        now rewrite app_assoc.
Qed.

(** Once an event that cannot be turned into a row is in the buffer, every
    flush fails before it reaches the database. *)
Lemma all_values_poisoned (l : list event) bad e :
  bad ∈ l -> event_values rt bad = Raise e -> exists e', all_values rt l = Raise e'.
Proof.
  induction l as [|x l IH]; intros Hin Hbad; [inversion Hin|].
  cbn. destruct (event_values rt x) as [v|e0] eqn:E; [|eauto].
  apply elem_of_cons in Hin as [-> | Hin]; [congruence|].
  destruct (IH Hin Hbad) as [e' ->]. eauto.
Qed.

Lemma insert_batch_poisoned rows s e :
  all_values rt rows = Raise e -> insert_batch rt rows s = (Raise e, s).
Proof.
  intros Hv. unfold insert_batch. destruct rows as [|r0 rest]; [discriminate|].
  unfold bind, lift. now rewrite Hv.
Qed.

Lemma flush_poisoned now what s e :
  all_values rt (buffer s) = Raise e ->
  (flush rt now what s).1 = Raise e /\
  events (flush rt now what s).2 = events s /\
  buffer (flush rt now what s).2 = buffer s /\
  faults (flush rt now what s).2 = faults s.
Proof.
  intros Hv. unfold flush, bind, gets, record_flush, modify.
  rewrite insert_batch_poisoned with (e := e) by exact Hv. cbn. auto.
Qed.

Lemma items_poisoned tes : forall s bad e,
  bad ∈ buffer s -> event_values rt bad = Raise e ->
  let out := batched_writer_task rt (items tes) s in
  out.1 = Ok tt /\ events out.2 = events s /\ buffer out.2 = buffer s ++ tes.*2 /\
  faults out.2 = faults s.
Proof.
  unfold batched_writer_task, items.
  induction tes as [|[t evt] tes IH]; intros s bad e Hin Hbad; cbn zeta;
    cbn [fmap list_fmap for_each].
  - cbn. rewrite app_nil_r. auto.
  - unfold bind. change (Item (t, evt).1 (t, evt).2) with (Item t evt).
    assert (Hin1 : bad ∈ buffer s ++ [evt]) by (apply elem_of_app; now left).
    assert (Hstep : exists s1, iteration rt (Item t evt) s = (Ok tt, s1) /\
                      events s1 = events s /\ buffer s1 = buffer s ++ [evt] /\
                      faults s1 = faults s).
    { unfold iteration, try_except, bind, modify, gets, ret. cbn [set_buffer buffer fst snd].
      destruct (BATCH_SIZE <=? _); [|eexists; split; [reflexivity|]; cbn; auto].
      set (s0 := set_buffer (buffer s ++ [evt]) s).
      destruct (all_values_poisoned (buffer s0) bad e Hin1 Hbad) as [e' He'].
      destruct (flush_poisoned t "Flushed batch size" s0 e' He') as (H1 & H2 & H3 & H4).
      destruct (flush rt t "Flushed batch size" s0) as [r s1]. cbn [fst snd] in *. subst r.
      unfold print, modify. eexists. split; [reflexivity|]. cbn. auto. }
    destruct Hstep as (s1 & -> & He1 & Hb1 & Hf1).
    destruct (IH s1 bad e) as (H1 & H2 & H3 & H4); [rewrite Hb1; exact Hin1|exact Hbad|].
    cbn [fst snd] in *. split; [exact H1|]. split; [congruence|]. split; [|congruence].
    rewrite H3, Hb1, <- app_assoc. reflexivity.
Qed.

End WriterRuns.

(** X7. Nothing is lost, duplicated or reordered while the database
    answers and every event has the keys of the schema: for any sequence of
    items and timeouts, the task keeps running, the buffer stays below
    [BATCH_SIZE], and the rows written to the table followed by the rows of
    the events still buffered are the rows of the events held and received,
    in the order of their arrival. *)
Theorem writer_keeps_every_event (rt : runtime) (ws : list wake) (s : task)
    (params : list event_row) :
  faults s = [] ->
  Z.of_nat (length (buffer s)) < BATCH_SIZE ->
  all_values rt (buffer s ++ received ws) = Ok params ->
  let out := batched_writer_task rt ws s in
  out.1 = Ok tt /\
  Z.of_nat (length (buffer out.2)) < BATCH_SIZE /\
  exists pending,
    all_values rt (buffer out.2) = Ok pending /\
    events out.2 ++ pending = events s ++ params.
Proof.
  intros Hf Hlen Hv out.
  destruct (healthy_run rt ws s params Hf Hlen Hv) as (H1 & _ & H3 & H4). auto.
Qed.

Lemma writer_keeps_every_event_witness :
  let ws := [Item 10 (click 1); Item 20 (click 2); Timeout 2020; Item 2030 (click 3)] in
  let out := batched_writer_task Sample.rt ws (starting_task 0 []) in
  out.1 = Ok tt /\
  Z.of_nat (length (buffer out.2)) < BATCH_SIZE /\
  exists pending,
    all_values Sample.rt (buffer out.2) = Ok pending /\
    events out.2 ++ pending
    = events (starting_task 0 [])
      ++ [ {| e_session_id := lit "session-0"; e_ts := 0%float; e_type := lit "click";
              e_payload := lit "1" |};
           {| e_session_id := lit "session-0"; e_ts := 0%float; e_type := lit "click";
              e_payload := lit "2" |};
           {| e_session_id := lit "session-0"; e_ts := 0%float; e_type := lit "click";
              e_payload := lit "3" |} ].
Proof.
  intros ws.
  apply (writer_keeps_every_event Sample.rt ws (starting_task 0 [])).
  - reflexivity.
  - vm_compute. reflexivity.
  - vm_compute. reflexivity.
Defined.

(** X8. One event without the keys of the schema blocks the writer.  Once
    such an event is in the buffer, no number of further items gets anything
    written: each is appended to the buffer, every flush attempt fails on the
    bad event before the database is reached, the error is caught and the
    buffer is kept, so it grows with every item; and the first timeout
    raises out of the task with the table still as it was. *)
Theorem malformed_event_blocks_writer (rt : runtime) (s : task) (bad : event) (e : exn)
    (tes : list (Z * event)) (t : Z) (rest : list wake) :
  bad ∈ buffer s -> event_values rt bad = Raise e ->
  let out := batched_writer_task rt (items tes) s in
  let out' := batched_writer_task rt (items tes ++ Timeout t :: rest) s in
  out.1 = Ok tt /\ events out.2 = events s /\ buffer out.2 = buffer s ++ tes.*2 /\
  raises out'.1 = true /\ events out'.2 = events s.
Proof.
  intros Hin Hbad out out'.
  destruct (items_poisoned rt tes s bad e Hin Hbad) as (H1 & H2 & H3 & H4).
  fold out in H1, H2, H3, H4.
  split; [exact H1|]. split; [exact H2|]. split; [exact H3|].
  subst out'. unfold batched_writer_task in *. rewrite for_each_app.
  destruct (for_each (items tes) (iteration rt) s) as [r s1] eqn:E. subst out.
  cbn [fst snd] in *. subst r. cbn [for_each]. unfold bind.
  assert (Hin1 : bad ∈ buffer s1) by (rewrite H3; apply elem_of_app; now left).
  destruct (all_values_poisoned rt (buffer s1) bad e Hin1 Hbad) as [e' He'].
  destruct (flush_poisoned rt t "Flushed on timeout" s1 e' He') as (F1 & F2 & _).
  assert (Hit : iteration rt (Timeout t) s1 = flush rt t "Flushed on timeout" s1).
  { unfold iteration, bind, gets. destruct (buffer s1); [inversion Hin1|reflexivity]. }
  rewrite Hit. destruct (flush rt t "Flushed on timeout" s1) as [r2 s2].
  cbn [fst snd] in *. subst r2. cbn. split; [reflexivity|congruence].
Qed.

Lemma malformed_event_blocks_writer_witness :
  let bad := {| session_id := None; timestamp := Some 0%float; type := Some (lit "click");
                payload := None |} in
  let s := set_buffer [bad] (starting_task 0 []) in
  let out := batched_writer_task Sample.rt (items [(10, click 1); (20, click 2)]) s in
  let out' := batched_writer_task Sample.rt
                (items [(10, click 1); (20, click 2)] ++ Timeout 2020 :: [Item 2030 (click 3)]) s in
  out.1 = Ok tt /\ events out.2 = events s /\
  buffer out.2 = buffer s ++ [click 1; click 2] /\
  raises out'.1 = true /\ events out'.2 = events s.
Proof.
  intros bad s.
  apply (malformed_event_blocks_writer Sample.rt s bad KeyError
           [(10, click 1); (20, click 2)] 2020 [Item 2030 (click 3)]).
  - left.
  - reflexivity.
Defined.


(** ** The fan-out loop over a stream of messages *)

Section ListenerRuns.
Context (rt : runtime) {Sub : Type}.
Implicit Types (s : @listener Sub) (m : option message).

Lemma on_message_delivery m s f :
  _emit_cb s = Some f ->
  on_message rt m s =
  (Ok tt, match delivery rt m with
          | Some (job_id, line) => after_emit f job_id line s
          | None => s
          end).
Proof.
  intros Hf. destruct m as [[t d]|]; [|reflexivity].
  unfold delivery.
  destruct (decide (t = lit "message")) as [-> | Hne].
  2:{ rewrite bool_decide_eq_false_2 by exact Hne.
      rewrite (on_message_ignored rt (Some {| mtype := t; data := d |}) s) by (left; exact Hne).
      destruct d; reflexivity. }
  rewrite bool_decide_eq_true_2 by reflexivity.
  destruct (truthy d) eqn:Ht.
  2:{ rewrite (on_message_ignored rt (Some {| mtype := lit "message"; data := d |}) s)
        by (right; exact Ht).
      destruct d as [| | | |text| |]; try reflexivity. destruct text; [reflexivity|discriminate]. }
  destruct d as [|b|z|x|text|l|dd];
    try (unfold on_message; cbn [mtype data]; rewrite bool_decide_eq_true_2 by reflexivity;
         rewrite Ht; reflexivity).
  assert (Hne : text <> []) by (destruct text; [discriminate|congruence]).
  change (Some {| mtype := lit "message"; data := JStr text |}) with (broadcast text).
  destruct text as [|c r]; [congruence|].
  destruct (json_loads rt (c :: r)) as [p|] eqn:El.
  2:{ now apply on_message_unparseable. }
  destruct p as [|b|z|x|t'|l|d];
    try (apply (on_message_not_dict rt _ _ s El); intros ? ?; discriminate).
  rewrite (on_message_dict rt _ d s Hne El), Hf.
  destruct (truthy (dict_get d (lit "job_id")) && negb (is_None (dict_get d (lit "line"))));
    reflexivity.
Qed.

Lemma listen_delivers (f : json -> json -> M Sub unit) ms : forall s,
  _running s = true -> _emit_cb s = Some f ->
  let out := listen rt (Listen <$> ms) s in
  emitted out.2 = emitted s ++ omap (delivery rt) ms /\
  subscriber out.2
  = fold_left (fun sub d => (f d.1 d.2 sub).2) (omap (delivery rt) ms) (subscriber s).
Proof.
  induction ms as [|m ms IH]; intros s Hr Hf; cbn zeta; cbn [fmap list_fmap omap list_omap].
  - cbn. rewrite app_nil_r. auto.
  - rewrite listen_step by exact Hr. rewrite (on_message_delivery m s f Hf). cbn [snd].
    destruct (delivery rt m) as [[j l]|].
    + destruct (after_emit_emitted f j l s) as (He & Hs & Hrun & Hcb).
      destruct (IH (after_emit f j l s)) as [H1 H2]; [congruence|congruence|].
      cbn zeta in H1, H2. rewrite H1, H2, He, Hs. cbn. rewrite <- app_assoc. auto.
    + apply IH; assumption.
Qed.

(** Once [_running] is false, whatever comes is not handled. *)
Lemma listen_stopped inputs : forall s,
  _running s = false ->
  emitted (listen rt inputs s).2 = emitted s /\
  subscriber (listen rt inputs s).2 = subscriber s.
Proof.
  induction inputs as [|[m|] rest IH]; intros s Hr; cbn [listen].
  - auto.
  - unfold bind, gets. rewrite Hr. auto.
  - unfold bind, modify. apply (IH (set_running false s)). reflexivity.
Qed.

Lemma listen_until_stop before rest : forall s,
  emitted (listen rt (before ++ Stop :: rest) s).2 = emitted (listen rt before s).2 /\
  subscriber (listen rt (before ++ Stop :: rest) s).2 = subscriber (listen rt before s).2.
Proof.
  induction before as [|[m|] before IH]; intros s; cbn [app listen].
  - unfold bind, modify. apply (listen_stopped rest (set_running false s)). reflexivity.
  - unfold bind, gets. destruct (negb (_running s)); [auto|].
    destruct (on_message rt m s) as [[[]|e] s1]; [apply IH|auto].
  - unfold bind, modify. apply IH.
Qed.

End ListenerRuns.

(** X9. While the loop runs with a callback registered, the callback is
    called once for every received message that carries a true [job_id]
    and a [line] that is not [None], with these two values, in the order of
    arrival, and for nothing else; whether a call returns or raises has no
    influence on the calls that follow: the subscriber ends in the state in
    which the calls leave it one after the other. *)
Theorem listener_delivers_in_order (rt : runtime) (Sub : Type)
    (f : json -> json -> M Sub unit) (ms : list (option message)) (s : @listener Sub) :
  _running s = true -> _emit_cb s = Some f ->
  let out := listen rt (Listen <$> ms) s in
  out.1 = Ok tt /\
  emitted out.2 = emitted s ++ omap (delivery rt) ms /\
  subscriber out.2
  = fold_left (fun sub d => (f d.1 d.2 sub).2) (omap (delivery rt) ms) (subscriber s).
Proof.
  intros Hr Hf out. split; [apply listen_returns|].
  exact (listen_delivers rt f ms s Hr Hf).
Qed.

Lemma listener_delivers_in_order_witness :
  let hello := JDict [(lit "job_id", JStr (lit "j1")); (lit "line", JStr (lit "hello"))] in
  let world := JDict [(lit "job_id", JStr (lit "j1")); (lit "line", JStr (lit "world"))] in
  let ms := [broadcast (sample_text hello); broadcast (lit "{oops"); None;
             broadcast (sample_text world)] in
  let out := listen Sample.rt (Listen <$> ms) (listening (Some failing_cb)) in
  out.1 = Ok tt /\
  emitted out.2 = emitted (listening (Some failing_cb)) ++ omap (delivery Sample.rt) ms /\
  subscriber out.2
  = fold_left (fun sub d => (failing_cb d.1 d.2 sub).2) (omap (delivery Sample.rt) ms)
              (subscriber (listening (Some failing_cb))).
Proof.
  intros hello world ms.
  apply (listener_delivers_in_order Sample.rt _ failing_cb ms (listening (Some failing_cb)));
    reflexivity.
Defined.

(** X10. A call of [stop_redis_listener] takes effect when the next item
    arrives, and that item is not handled: whatever came before the call and
    whatever comes after it, the callback has been called for what came
    before and for nothing else, and the loop returns with [_running]
    false.  A call made before the loop starts is not seen: the loop sets
    [_running] itself when it starts. *)
Theorem listener_stop_drops_what_follows (rt : runtime) (Sub : Type)
    (before rest : list input) (s : @listener Sub) :
  let stopped := _listener_loop rt (before ++ Stop :: rest) s in
  let alone := _listener_loop rt before s in
  stopped.1 = Ok tt /\
  emitted stopped.2 = emitted alone.2 /\
  subscriber stopped.2 = subscriber alone.2 /\
  _running stopped.2 = false /\
  _listener_loop rt before (set_running false s) = alone.
Proof.
  intros stopped alone.
  destruct (listener_loop_returns rt (before ++ Stop :: rest) s) as [H1 H2].
  split; [exact H1|]. split; [|split; [|split; [exact H2|reflexivity]]].
  - subst stopped alone. unfold _listener_loop, bind, modify.
    pose proof (listen_until_stop rt before rest (set_running true s)) as [H _].
    destruct (listen rt (before ++ Stop :: rest) (set_running true s)) as [r1 s1].
    destruct (listen rt before (set_running true s)) as [r2 s2]. exact H.
  - subst stopped alone. unfold _listener_loop, bind, modify.
    pose proof (listen_until_stop rt before rest (set_running true s)) as [_ H].
    destruct (listen rt (before ++ Stop :: rest) (set_running true s)) as [r1 s1].
    destruct (listen rt before (set_running true s)) as [r2 s2]. exact H.
Qed.

(** ** From the key of a job to its id *)

Lemma is_prefix_elem (old s : pystr) (c : N) :
  is_prefix old s = true -> c ∈ old -> c ∈ s.
Proof.
  revert s. induction old as [|a old IH]; intros s H Hc; [inversion Hc|].
  destruct s as [|b s]; [discriminate|]. cbn in H.
  apply andb_true_iff in H as [Hab H]. apply N.eqb_eq in Hab. subst b.
  apply elem_of_cons in Hc as [-> | Hc]; [left|right; now apply IH].
Qed.

Lemma remove_all_absent (old s : pystr) (c : N) :
  c ∈ old -> c ∉ s -> remove_all_from old 0 s = s.
Proof.
  intros Hc. induction s as [|b s IH]; intros Hs; [reflexivity|].
  cbn [remove_all_from].
  destruct (is_prefix old (b :: s)) eqn:E.
  - exfalso. apply Hs. eapply is_prefix_elem; eassumption.
  - f_equal. apply IH. intros H. apply Hs. now right.
Qed.

(** [(JOB_HASH_PREFIX + job_id).replace(JOB_HASH_PREFIX, "")] is [job_id]
    when the id has no colon, as the ids made by [uuid4] are. *)
Lemma job_id_of_key (job_id : pystr) :
  58%N ∉ job_id -> replace_with_empty JOB_HASH_PREFIX (JOB_HASH_PREFIX ++ job_id) = job_id.
Proof.
  intros H.
  change (replace_with_empty JOB_HASH_PREFIX (JOB_HASH_PREFIX ++ job_id))
    with (remove_all_from JOB_HASH_PREFIX 0 job_id).
  apply (remove_all_absent _ _ 58%N); [|exact H].
  change (58%N ∈ lit "bench_job:"). repeat (first [left | right]).
Qed.

(** ** A job from [start_job] to the [jobs] table *)

Section StartJob.
Context (rt : runtime).

Lemma job_key_not_queue_key job_id :
  JOB_HASH_PREFIX ++ job_id <> bench_runner.JOB_QUEUE_KEY.
Proof.
  intros H. apply (f_equal (fun l => l !! 9%nat)) in H. vm_compute in H. discriminate H.
Qed.

Lemma queue_key_no_prefix : is_prefix JOB_HASH_PREFIX bench_runner.JOB_QUEUE_KEY = false.
Proof. vm_compute. reflexivity. Qed.

Lemma job_key_prefix job_id : is_prefix JOB_HASH_PREFIX (JOB_HASH_PREFIX ++ job_id) = true.
Proof.
  change (is_prefix JOB_HASH_PREFIX (JOB_HASH_PREFIX ++ job_id)) with (is_prefix [] job_id).
  reflexivity.
Qed.

Lemma job_meta_fields job_id now p :
  job_meta job_id now p !! lit "status" = Some (lit "queued") /\
  job_meta job_id now p !! lit "created_at" = Some (str_of_int now) /\
  job_meta job_id now p !! lit "started_at" = Some [] /\
  job_meta job_id now p !! lit "finished_at" = Some [] /\
  job_meta job_id now p !! lit "exit_code" = Some [] /\
  job_meta job_id now p !! lit "result_path" = Some [] /\
  job_meta job_id now p !! lit "error" = Some [] /\
  job_meta job_id now p !! lit "params" = Some p.
Proof. repeat split; vm_compute; reflexivity. Qed.

Lemma start_job_effect job_id params w p item queue :
  redis_faults w = [] ->
  json_dumps rt params = Some p ->
  json_dumps rt (JDict [(lit "id", JStr job_id); (lit "params", params)]) = Some item ->
  Redis.keyspace (redis w) !! (JOB_HASH_PREFIX ++ job_id) = None ->
  list_at (redis w) bench_runner.JOB_QUEUE_KEY = Some queue ->
  bench_runner.start_job rt job_id params w = (Ok job_id, started job_id p item queue w).
Proof.
  intros Hf Hp Hi Hk Hq.
  destruct w as [rd rf dk df ck]. cbn [redis redis_faults clock] in *. subst rf.
  unfold bench_runner.start_job, now_ts, gets, bind, lift, bench_runner.dumps, ret.
  cbn [clock]. rewrite Hp.
  rewrite redis_call_ok by reflexivity. cbn [redis redis_faults duck duck_faults clock].
  unfold Redis.HSET. rewrite Hk. cbn [fst snd]. rewrite Hi.
  rewrite redis_call_ok by reflexivity. cbn [redis redis_faults duck duck_faults clock].
  unfold started, job_meta. cbn [redis redis_faults duck duck_faults clock].
  unfold Redis.RPUSH, Redis.with_keyspace. cbn [Redis.keyspace Redis.published].
  rewrite lookup_insert_ne by apply job_key_not_queue_key.
  unfold list_at in Hq.
  destruct (Redis.keyspace rd !! bench_runner.JOB_QUEUE_KEY) as [[]|]; simplify_eq; reflexivity.
Qed.

Lemma started_keys job_id p item queue w :
  no_job_key (redis w) ->
  Redis.KEYS_prefix JOB_HASH_PREFIX (redis (started job_id p item queue w))
  = (Ok [JOB_HASH_PREFIX ++ job_id], redis (started job_id p item queue w)).
Proof.
  intros Hno. unfold Redis.KEYS_prefix. f_equal. f_equal.
  set (ks := Redis.keyspace (redis (started job_id p item queue w))).
  set (key := JOB_HASH_PREFIX ++ job_id).
  assert (Hnd : NoDup (List.filter (is_prefix JOB_HASH_PREFIX) (map_to_list ks).*1)).
  { apply NoDup_ListNoDup, List.NoDup_filter, NoDup_ListNoDup, NoDup_fst_map_to_list. }
  assert (Hall : forall k, k ∈ List.filter (is_prefix JOB_HASH_PREFIX) (map_to_list ks).*1 ->
                           k = key).
  { intros k Hk. apply list_elem_of_In, filter_In in Hk as [Hk Hpre].
    apply list_elem_of_In, list_elem_of_fmap in Hk as ([k' v] & -> & Hkv).
    apply elem_of_map_to_list in Hkv. cbn [fst snd] in *. unfold ks, started in Hkv.
    cbn [redis Redis.with_keyspace Redis.keyspace] in Hkv.
    destruct (decide (k' = bench_runner.JOB_QUEUE_KEY)) as [-> | Hq].
    { rewrite queue_key_no_prefix in Hpre. discriminate. }
    rewrite lookup_insert_ne in Hkv by (intros E; apply Hq; symmetry; exact E).
    destruct (decide (k' = key)) as [-> | Hj]; [reflexivity|].
    rewrite lookup_insert_ne in Hkv by (intros E; apply Hj; symmetry; exact E).
    rewrite (Hno k') in Hpre by (rewrite Hkv; eauto). discriminate. }
  assert (Hin : key ∈ List.filter (is_prefix JOB_HASH_PREFIX) (map_to_list ks).*1).
  { apply list_elem_of_In, filter_In. split; [|apply job_key_prefix].
    apply list_elem_of_In, list_elem_of_fmap.
    exists (key, Redis.RHash (job_meta job_id (clock w) p)). split; [reflexivity|].
    apply elem_of_map_to_list. unfold ks, started.
    cbn [redis Redis.with_keyspace Redis.keyspace].
    rewrite lookup_insert_ne by (apply not_eq_sym, job_key_not_queue_key).
    apply lookup_insert_eq. }
  destruct (List.filter (is_prefix JOB_HASH_PREFIX) (map_to_list ks).*1) as [|k0 [|k1 r]].
  - inversion Hin.
  - rewrite (Hall k0) by left. reflexivity.
  - exfalso. apply NoDup_cons in Hnd as [Hnd _]. apply Hnd.
    rewrite (Hall k0) by left. rewrite (Hall k1) by (right; left). left.
Qed.

End StartJob.


(** The database is not scheduled to fail: it stays so. *)
Lemma preserves_calm_duck {A} (op : DuckDB.conn -> result A * DuckDB.conn) :
  preserves (fun w => duck_faults w = []) (duck_call op).
Proof.
  intros w Hw. unfold duck_call. rewrite Hw. cbn. destruct (op (duck w)). reflexivity.
Qed.

Lemma preserves_calm_redis {A} (cmd : Redis.server -> result A * Redis.server) :
  preserves (fun w => duck_faults w = []) (redis_call cmd).
Proof.
  intros w Hw. unfold redis_call.
  destruct (next_fault (redis_faults w)) as [[] fs]; cbn; [exact Hw|].
  destruct (cmd (redis w)). exact Hw.
Qed.

Ltac calm_step :=
  first
    [ apply preserves_bind; [|intros ?]
    | apply preserves_try; [|intros ?]
    | apply preserves_calm_duck
    | apply preserves_calm_redis
    | apply preserves_ret | apply preserves_raise
    | apply preserves_lift | apply preserves_gets
    | match goal with
      | |- preserves _ (match ?x with _ => _ end) => destruct x
      | |- preserves _ (if ?x then _ else _) => destruct x
      end ].

Lemma preserves_calm_sync_logs rt LIMIT job :
  preserves (fun w => duck_faults w = []) (_sync_logs_for_job rt LIMIT job).
Proof.
  unfold _sync_logs_for_job, now_ts, insert_job_logs, get_conn, execute.
  repeat calm_step.
Qed.

Lemma str_of_int_truthy (z : Z) : str_truthy (str_of_int z) = true.
Proof.
  destruct z as [|p|p]; [reflexivity| |reflexivity].
  change (str_of_int (Zpos p)) with (uint_digits (N.to_uint (Npos p))).
  destruct (uint_digits_head (N.to_uint (Npos p)) (to_uint_not_Nil _)) as (c & r & -> & _).
  reflexivity.
Qed.

Lemma find_replaced (id : pystr) (r : DuckDB.job_row) (l : list DuckDB.job_row) :
  DuckDB.j_id r = id ->
  List.find (fun x => bool_decide (DuckDB.j_id x = id))
    (List.filter (fun x => negb (bool_decide (DuckDB.j_id x = DuckDB.j_id r))) l ++ [r])
  = Some r.
Proof.
  intros <-. induction l as [|x l IH]; cbn.
  - now rewrite bool_decide_eq_true_2.
  - destruct (bool_decide (DuckDB.j_id x = DuckDB.j_id r)) eqn:E; cbn; [exact IH|].
    rewrite E. exact IH.
Qed.

Lemma jobs_are_view J w : jobs_are J w -> DuckDB.jobs (DuckDB.view (duck w)) = J.
Proof.
  intros [Hc Ht]. unfold DuckDB.view. destruct (DuckDB.txn (duck w)) eqn:E; auto.
Qed.

(** Reading a job back when the database answers. *)
Lemma get_job_by_id_reads rt job_id w :
  duck_faults w = [] ->
  (get_job_by_id rt job_id w).1
  = Ok (job_dict rt <$> DuckDB.select_job job_id (duck w)).
Proof.
  intros Hf. unfold get_job_by_id. unfold bind at 1. rewrite get_conn_ok by exact Hf.
  unfold bind, try_except, ret.
  rewrite duck_call_ok by exact Hf. cbn [fst snd].
  destruct (DuckDB.select_job job_id (duck w)); reflexivity.
Qed.

Section Started.
Context (rt : runtime) (LIMIT : Z).

(** The record the reconciler builds from the hash of a job that has just
    been started, and its row. *)
Lemma started_job_row job_id now upd (d : list (pystr * json)) p :
  58%N ∉ job_id ->
  json_dumps rt (JDict d) = Some p -> p <> [] -> json_loads rt p = Some (JDict d) ->
  let key := JOB_HASH_PREFIX ++ job_id in
  let meta := job_meta job_id now p in
  int_field rt meta (lit "created_at") = Ok (Some now) /\
  int_field rt meta (lit "started_at") = Ok None /\
  int_field rt meta (lit "finished_at") = Ok None /\
  int_field rt meta (lit "exit_code") = Ok None /\
  job_values rt (job_record rt key meta (Some now) None None None) upd
  = {| DuckDB.j_id := job_id; DuckDB.j_status := Some (lit "queued");
       DuckDB.j_created_at := Some now; DuckDB.j_started_at := Some 0;
       DuckDB.j_finished_at := Some 0; DuckDB.j_exit_code := None;
       DuckDB.j_result_path := Some []; DuckDB.j_error := Some [];
       DuckDB.j_params := Some p; DuckDB.j_last_updated := Some upd |}.
Proof.
  intros Hid Hp Hne Hl key meta.
  destruct (job_meta_fields job_id now p) as (Hst & Hc & Hs & Hf & Hx & Hr & He & Hpa).
  fold meta in Hst, Hc, Hs, Hf, Hx, Hr, He, Hpa.
  split; [|split; [|split; [|split]]].
  - unfold int_field. rewrite Hc, str_of_int_truthy. unfold int.
    now rewrite int_of_str_of_int.
  - unfold int_field. now rewrite Hs.
  - unfold int_field. now rewrite Hf.
  - unfold int_field. now rewrite Hx.
  - unfold job_values, job_record. cbn [id status created_at started_at finished_at
      exit_code result_path error params int_or_0].
    unfold key. rewrite (job_id_of_key job_id Hid), Hst, Hr, He.
    unfold params_field. rewrite Hpa.
    destruct p as [|c0 p0]; [congruence|]. cbn [str_truthy]. rewrite Hl.
    cbn [params_column]. rewrite Hp. reflexivity.
Qed.

End Started.

(** X11. A job that [start_job] has just created is listed by [list_jobs].
    With Redis answering, parameters that [json.dumps] accepts and an id
    without a colon that is not in use, [start_job] returns the id, leaves
    the hash of the job with the status [queued], the creation time and the
    JSON text of the parameters, and appends one item to the queue; and when
    no other job has a hash, [list_jobs] then returns exactly this id. *)
Theorem started_job_is_listed (rt : runtime) (job_id : pystr) (params : json) (w : world)
    (p item : pystr) (queue : list pystr) :
  redis_faults w = [] ->
  json_dumps rt params = Some p ->
  json_dumps rt (JDict [(lit "id", JStr job_id); (lit "params", params)]) = Some item ->
  58%N ∉ job_id ->
  no_job_key (redis w) ->
  list_at (redis w) bench_runner.JOB_QUEUE_KEY = Some queue ->
  let out := bench_runner.start_job rt job_id params w in
  out.1 = Ok job_id /\
  Redis.HGETALL (JOB_HASH_PREFIX ++ job_id) (redis out.2)
  = (Ok (job_meta job_id (clock w) p), redis out.2) /\
  list_at (redis out.2) bench_runner.JOB_QUEUE_KEY = Some (queue ++ [item]) /\
  bench_runner.list_jobs out.2 = (Ok [job_id], out.2).
Proof.
  intros Hf Hp Hi Hid Hno Hq out.
  assert (Hk : Redis.keyspace (redis w) !! (JOB_HASH_PREFIX ++ job_id) = None).
  { destruct (Redis.keyspace (redis w) !! (JOB_HASH_PREFIX ++ job_id)) eqn:E; [|reflexivity].
    pose proof (Hno _ (ex_intro _ _ E)) as H. rewrite job_key_prefix in H. discriminate. }
  subst out. rewrite (start_job_effect rt job_id params w p item queue Hf Hp Hi Hk Hq).
  cbn [fst snd]. split; [reflexivity|]. split; [|split].
  - apply HGETALL_hash. unfold started. cbn [redis Redis.with_keyspace Redis.keyspace].
    rewrite lookup_insert_ne by (apply not_eq_sym, job_key_not_queue_key).
    apply lookup_insert_eq.
  - unfold list_at, started. cbn [redis Redis.with_keyspace Redis.keyspace].
    now rewrite lookup_insert_eq.
  - unfold bench_runner.list_jobs, bind, ret.
    rewrite redis_call_ok by exact Hf. rewrite (started_keys job_id p item queue w Hno).
    cbn [fst snd fmap list_fmap]. rewrite (job_id_of_key job_id Hid).
    f_equal. unfold started. cbn [redis redis_faults duck duck_faults clock]. now rewrite Hf.
Qed.

Lemma started_job_is_listed_witness :
  let params := JDict [(lit "mode", JStr (lit "http")); (lit "concurrency", JInt 5)] in
  let out := bench_runner.start_job Sample.rt (lit "0b5f-11") params (fresh_world 1700000000) in
  out.1 = Ok (lit "0b5f-11") /\
  bench_runner.list_jobs out.2 = (Ok [lit "0b5f-11"], out.2).
Proof.
  intros params.
  pose proof (started_job_is_listed Sample.rt (lit "0b5f-11") params (fresh_world 1700000000)
                (sample_text params)
                (sample_text (JDict [(lit "id", JStr (lit "0b5f-11")); (lit "params", params)]))
                []) as H.
  specialize (H eq_refl).
  specialize (H ltac:(vm_compute; reflexivity)).
  specialize (H ltac:(vm_compute; reflexivity)).
  specialize (H ltac:(vm_compute; intros Hin; repeat (apply elem_of_cons in Hin as [Hin|Hin];
                        [discriminate Hin|]); inversion Hin)).
  specialize (H ltac:(intros k [v Hk]; vm_compute in Hk; discriminate Hk)).
  specialize (H eq_refl).
  exact (conj (proj1 H) (proj2 (proj2 (proj2 H)))).
Defined.

Lemma sync_once_single rt LIMIT k w :
  redis_faults w = [] ->
  Redis.KEYS_prefix JOB_HASH_PREFIX (redis w) = (Ok [k], redis w) ->
  (_sync_jobs_and_logs_once rt LIMIT w).2 = (sync_one_job rt LIMIT k w).2.
Proof.
  intros Hf Hk. unfold _sync_jobs_and_logs_once, try_except, bind.
  rewrite redis_call_ok by exact Hf. rewrite Hk. cbn [fst snd].
  rewrite <- Hf, world_eta. cbn [for_each]. unfold bind, try_except, ret.
  destruct (sync_one_job rt LIMIT k w) as [[[]|e] w']; reflexivity.
Qed.

(** X12. From [start_job] to [get_job_by_id].  With Redis and the database
    answering, a new id without a colon and parameters that are a dictionary
    which [json.dumps] and [json.loads] take to its text and back: after
    [start_job], and one cycle of the reconciler at a second [t1] of the
    clock, the [jobs] table holds one row for the job and [get_job_by_id]
    returns it, with the status [queued], the second of the call of
    [start_job] as [created_at], the parameters parsed, and as
    [last_updated] what [datetime.utcnow().timestamp()] gives at [t1], which
    is [t1] only in the zone UTC; the start and finish times, not yet set,
    are 0, not [None]; the result path and the error are empty strings, not
    [None]; the exit code is [None]. *)
Theorem started_job_reaches_table (rt : runtime) (LOG_BATCH_LIMIT : Z) (job_id : pystr)
    (d : list (pystr * json)) (w : world) (p item : pystr) (queue : list pystr) (t1 : Z) :
  redis_faults w = [] -> duck_faults w = [] -> DuckDB.txn (duck w) = None ->
  json_dumps rt (JDict d) = Some p -> p <> [] -> json_loads rt p = Some (JDict d) ->
  json_dumps rt (JDict [(lit "id", JStr job_id); (lit "params", JDict d)]) = Some item ->
  58%N ∉ job_id ->
  no_job_key (redis w) ->
  list_at (redis w) bench_runner.JOB_QUEUE_KEY = Some queue ->
  DuckDB.fits_bigint (clock w) = true ->
  DuckDB.fits_bigint (utc_as_local rt t1) = true ->
  let w1 := (bench_runner.start_job rt job_id (JDict d) w).2 in
  let w2 := (_sync_jobs_and_logs_once rt LOG_BATCH_LIMIT (at_time t1 w1)).2 in
  jobs_with job_id (DuckDB.committed (duck w2))
  = [{| DuckDB.j_id := job_id; DuckDB.j_status := Some (lit "queued");
        DuckDB.j_created_at := Some (clock w); DuckDB.j_started_at := Some 0;
        DuckDB.j_finished_at := Some 0; DuckDB.j_exit_code := None;
        DuckDB.j_result_path := Some []; DuckDB.j_error := Some [];
        DuckDB.j_params := Some p;
        DuckDB.j_last_updated := Some (utc_as_local rt t1) |}] /\
  (get_job_by_id rt job_id w2).1
  = Ok (Some {| s_id := job_id; s_status := Some (lit "queued");
                s_created_at := Some (clock w); s_started_at := Some 0;
                s_finished_at := Some 0; s_exit_code := None;
                s_result_path := Some []; s_error := Some [];
                s_params := JDict d;
                s_last_updated := Some (utc_as_local rt t1) |}).
Proof.
  intros Hrf Hdf Htx Hp Hne Hl Hi Hid Hno Hq Hck Hck1 w1 w2.
  assert (Hk : Redis.keyspace (redis w) !! (JOB_HASH_PREFIX ++ job_id) = None).
  { destruct (Redis.keyspace (redis w) !! (JOB_HASH_PREFIX ++ job_id)) eqn:E; [|reflexivity].
    pose proof (Hno _ (ex_intro _ _ E)) as H. rewrite job_key_prefix in H. discriminate. }
  assert (Hw1 : w1 = started job_id p item queue w).
  { unfold w1. now rewrite (start_job_effect rt job_id (JDict d) w p item queue Hrf Hp Hi Hk Hq). }
  set (key := JOB_HASH_PREFIX ++ job_id) in *.
  set (meta := job_meta job_id (clock w) p).
  set (wt := at_time t1 w1) in *.
  assert (Hrf1 : redis_faults wt = []) by (unfold wt; rewrite Hw1; exact Hrf).
  assert (Hdf1 : duck_faults wt = []) by (unfold wt; rewrite Hw1; exact Hdf).
  assert (Htx1 : DuckDB.txn (duck wt) = None) by (unfold wt; rewrite Hw1; exact Htx).
  assert (Hckt : clock wt = t1) by reflexivity.
  assert (Hmeta : Redis.keyspace (redis wt) !! key = Some (Redis.RHash meta)).
  { unfold wt. rewrite Hw1. unfold at_time, started.
    cbn [redis Redis.with_keyspace Redis.keyspace].
    rewrite lookup_insert_ne by (apply not_eq_sym, job_key_not_queue_key).
    apply lookup_insert_eq. }
  destruct (started_job_row rt job_id (clock w) (utc_as_local rt t1) d p Hid Hp Hne Hl)
    as (Hc & Hs & Hf & Hx & Hrow).
  fold key meta in Hc, Hs, Hf, Hx, Hrow.
  destruct (job_meta_fields job_id (clock w) p) as (Hst & _). fold meta in Hst.
  assert (Hmne : meta <> ∅).
  { intros E. rewrite E in Hst. rewrite lookup_empty in Hst. discriminate. }
  set (j := job_record rt key meta (Some (clock w)) None None None) in *.
  set (r := job_values rt j (utc_as_local rt t1)) in *.
  assert (Hfit : DuckDB.job_row_fits (job_values rt j (utc_as_local rt (clock wt))) = true).
  { rewrite Hckt. fold r. rewrite Hrow. unfold DuckDB.job_row_fits. cbn. rewrite Hck, Hck1.
    reflexivity. }
  assert (Hw2 : w2 = (sync_one_job rt LOG_BATCH_LIMIT key wt).2).
  { unfold w2. apply sync_once_single; [exact Hrf1|].
    unfold wt. rewrite Hw1. apply (started_keys job_id p item queue w Hno). }
  assert (Hsync : sync_one_job rt LOG_BATCH_LIMIT key wt
                  = _sync_logs_for_job rt LOG_BATCH_LIMIT (replace_with_empty JOB_HASH_PREFIX key)
                      (put_job (job_values rt j (utc_as_local rt (clock wt))) wt)).
  { rewrite (sync_one_job_upserts rt LOG_BATCH_LIMIT key wt meta _ _ _ _ Hrf1 Hmeta Hmne Hc Hs Hf Hx).
    fold j. unfold bind. now rewrite (upsert_job_replaces rt j wt Hdf1 Htx1 Hfit). }
  rewrite Hckt in Hsync. fold r in Hsync.
  set (J := DuckDB.jobs (replace_job r (DuckDB.committed (duck wt)))).
  assert (HJ : jobs_are J (put_job r wt)).
  { unfold jobs_are, put_job. cbn [duck DuckDB.committed DuckDB.txn]. split; [reflexivity|].
    rewrite Htx1. intros; discriminate. }
  apply (preserves_jobs_sync_logs rt LOG_BATCH_LIMIT J (replace_with_empty JOB_HASH_PREFIX key))
    in HJ.
  assert (Hcalm : duck_faults (put_job r wt) = []) by exact Hdf1.
  apply (preserves_calm_sync_logs rt LOG_BATCH_LIMIT (replace_with_empty JOB_HASH_PREFIX key))
    in Hcalm.
  rewrite <- Hsync, <- Hw2 in HJ, Hcalm.
  assert (Hjid : DuckDB.j_id r = job_id) by (rewrite Hrow; reflexivity).
  split.
  - destruct HJ as [HJ _].
    pose proof (jobs_with_replace r (DuckDB.committed (duck wt))) as H.
    unfold jobs_with in H |- *. rewrite HJ. unfold J. rewrite Hjid in H.
    rewrite H, Hrow. reflexivity.
  - rewrite (get_job_by_id_reads rt job_id w2 Hcalm). unfold DuckDB.select_job.
    rewrite (jobs_are_view J w2 HJ). unfold J, replace_job. cbn [DuckDB.jobs].
    assert (Hfind :
      List.find (fun x => bool_decide (DuckDB.j_id x = job_id))
        (List.filter (fun x => negb (bool_decide (DuckDB.j_id x = DuckDB.j_id r)))
           (DuckDB.jobs (DuckDB.committed (duck wt))) ++ [r]) = Some r).
    { apply find_replaced. exact Hjid. }
    rewrite Hfind. cbn [fmap option_fmap option_map].
    rewrite Hrow. unfold job_dict. cbn [DuckDB.j_id DuckDB.j_status DuckDB.j_created_at
      DuckDB.j_started_at DuckDB.j_finished_at DuckDB.j_exit_code DuckDB.j_result_path
      DuckDB.j_error DuckDB.j_params DuckDB.j_last_updated].
    unfold read_params. destruct p as [|c0 p0]; [congruence|]. cbn [str_truthy].
    rewrite Hl. reflexivity.
Qed.

Lemma started_job_reaches_table_witness :
  let d := [(lit "mode", JStr (lit "http")); (lit "concurrency", JInt 5)] in
  let w := fresh_world 1700000000 in
  let w1 := (bench_runner.start_job Sample.rt (lit "0b5f-11") (JDict d) w).2 in
  let w2 := (_sync_jobs_and_logs_once Sample.rt 1000 (at_time 1700000002 w1)).2 in
  (get_job_by_id Sample.rt (lit "0b5f-11") w2).1
  = Ok (Some {| s_id := lit "0b5f-11"; s_status := Some (lit "queued");
                s_created_at := Some 1700000000; s_started_at := Some 0;
                s_finished_at := Some 0; s_exit_code := None;
                s_result_path := Some []; s_error := Some [];
                s_params := JDict d; s_last_updated := Some 1699971202 |}).
Proof.
  intros d w.
  pose proof (started_job_reaches_table Sample.rt 1000 (lit "0b5f-11") d w
                (sample_text (JDict d))
                (sample_text (JDict [(lit "id", JStr (lit "0b5f-11")); (lit "params", JDict d)]))
                [] 1700000002) as H.
  specialize (H eq_refl eq_refl eq_refl).
  specialize (H ltac:(vm_compute; reflexivity)).
  specialize (H ltac:(vm_compute; discriminate)).
  specialize (H ltac:(vm_compute; reflexivity)).
  specialize (H ltac:(vm_compute; reflexivity)).
  specialize (H ltac:(vm_compute; intros Hin; repeat (apply elem_of_cons in Hin as [Hin|Hin];
                        [discriminate Hin|]); inversion Hin)).
  specialize (H ltac:(intros k [v Hk]; vm_compute in Hk; discriminate Hk)).
  specialize (H eq_refl).
  specialize (H ltac:(vm_compute; reflexivity)).
  specialize (H ltac:(vm_compute; reflexivity)).
  exact (proj2 H).
Defined.

(** ** Reading a job back *)

Lemma find_absent id (l : list DuckDB.job_row) :
  existsb (fun r => bool_decide (DuckDB.j_id r = id)) l = false ->
  List.find (fun r => bool_decide (DuckDB.j_id r = id)) l = None.
Proof.
  induction l as [|x l IH]; cbn; [reflexivity|].
  destruct (bool_decide (DuckDB.j_id x = id)); [discriminate|]. exact IH.
Qed.

(** X13. [get_job_by_id] raises only where [get_conn] does, and changes
    nothing in Redis and no row of the tables (a first use of [get_conn]
    creates the tables, empty, when the file lacks them).  The call of
    [get_conn] stands
    before the [try]: an exception of it, which only a first use can raise,
    leaves the function.  Once [get_conn] has returned the function returns,
    whatever fails: the row of the id as a dictionary when the query
    answers, [None] for an id that has no row, and [None] as well when the
    query fails, so that a failure reads as a job that does not exist. *)
Theorem get_job_by_id_raises_only_in_get_conn (rt : runtime) (job_id : pystr) (w : world) :
  let out := get_job_by_id rt job_id w in
  let opened := get_conn w in
  duck out.2 = duck w /\ redis out.2 = redis w /\
  (forall e, opened.1 = Raise e -> out.1 = Raise e) /\
  (opened.1 = Ok tt ->
   (exists v, out.1 = Ok v) /\
   (DuckDB.has_job job_id (DuckDB.view (duck w)) = false -> out.1 = Ok None) /\
   ((next_fault (duck_faults opened.2)).1 = true -> out.1 = Ok None) /\
   ((next_fault (duck_faults opened.2)).1 = false ->
    out.1 = Ok (job_dict rt <$> DuckDB.select_job job_id (duck w)))).
Proof.
  cbv zeta. unfold get_job_by_id, get_conn, bind, try_except, ret, duck_call.
  destruct (next_fault (duck_faults w)) as [[] fs]; cbn [fst snd duck redis duck_faults].
  - split; [reflexivity|]. split; [reflexivity|]. split; [|discriminate].
    intros e H. now injection H as <-.
  - split; [destruct (next_fault fs) as [[] fs'];
              [|destruct (DuckDB.select_job job_id (duck w))]; reflexivity|].
    split; [destruct (next_fault fs) as [[] fs'];
              [|destruct (DuckDB.select_job job_id (duck w))]; reflexivity|].
    split; [discriminate|]. intros _.
    destruct (next_fault fs) as [[] fs']; cbn [fst snd].
    + split; [eauto|]. split; [reflexivity|]. split; [reflexivity|discriminate].
    + unfold DuckDB.select_job, DuckDB.has_job.
      destruct (List.find _ (DuckDB.jobs (DuckDB.view (duck w)))) as [r|] eqn:E;
        cbn [fst snd fmap option_fmap option_map].
      * split; [eauto|]. split; [|split; [discriminate|reflexivity]].
        intros H. apply find_absent in H. congruence.
      * split; [eauto|]. split; [reflexivity|]. split; [discriminate|reflexivity].
Qed.


Section ReadBack.
Context (rt : runtime).

Lemma upsert_then_select j w :
  duck_faults w = [] -> DuckDB.txn (duck w) = None ->
  DuckDB.job_row_fits (job_values rt j (utc_as_local rt (clock w))) = true ->
  let w' := (upsert_job rt j w).2 in
  duck_faults w' = [] /\
  DuckDB.select_job (id j) (duck w') = Some (job_values rt j (utc_as_local rt (clock w))).
Proof.
  intros Hf Htx Hfit w'. subst w'.
  rewrite (upsert_job_replaces rt j w Hf Htx Hfit). cbn [snd].
  split; [exact Hf|].
  unfold DuckDB.select_job, DuckDB.view, put_job. cbn [duck DuckDB.txn DuckDB.committed].
  rewrite Htx. unfold replace_job. cbn [DuckDB.jobs].
  apply find_replaced. reflexivity.
Qed.

End ReadBack.

(** X14. A job written by [upsert_job] and read by [get_job_by_id].  With
    the database answering and values in the range of their columns, the
    dictionary read has the id, status, exit code, result path and error of
    the record written and, as [last_updated], what
    [datetime.utcnow().timestamp()] gives at the write; a
    creation, start or finish time that was [None] is read as 0.  The
    parameters are not always read as written: [None] is read as [None], a
    value that [json.dumps] and [json.loads] take to a text and back is read
    as itself, but a parameter that is a string is stored as it is and
    parsed when read: it is read as the JSON value it spells, as itself only
    when it spells none, and as [None] when it is empty. *)
Theorem upsert_then_get_job_by_id (rt : runtime) (j : job) (w : world) :
  duck_faults w = [] -> DuckDB.txn (duck w) = None ->
  DuckDB.job_row_fits (job_values rt j (utc_as_local rt (clock w))) = true ->
  let w' := (upsert_job rt j w).2 in
  let read := read_params rt (params_column rt (params j)) in
  (get_job_by_id rt (id j) w').1
  = Ok (Some {| s_id := id j; s_status := status j;
                s_created_at := Some (int_or_0 (created_at j));
                s_started_at := Some (int_or_0 (started_at j));
                s_finished_at := Some (int_or_0 (finished_at j));
                s_exit_code := exit_code j;
                s_result_path := result_path j; s_error := error j;
                s_params := read;
                s_last_updated := Some (utc_as_local rt (clock w)) |}) /\
  (params j = JNull -> read = JNull) /\
  (forall s, params j = JStr s ->
     read = if str_truthy s then default (JStr s) (json_loads rt s) else JNull) /\
  (forall text, (forall s, params j <> JStr s) ->
     json_dumps rt (params j) = Some text -> text <> [] ->
     json_loads rt text = Some (params j) -> read = params j).
Proof.
  intros Hf Htx Hfit w' read.
  destruct (upsert_then_select rt j w Hf Htx Hfit) as [Hf' Hsel]. fold w' in Hf', Hsel.
  split; [|split; [|split]].
  - rewrite (get_job_by_id_reads rt (id j) w' Hf'), Hsel. reflexivity.
  - intros Hp. unfold read. rewrite Hp. reflexivity.
  - intros s Hp. unfold read. rewrite Hp. cbn [params_column read_params].
    destruct (str_truthy s); [|reflexivity]. destruct (json_loads rt s); reflexivity.
  - intros text Hns Hd Hne Hl. unfold read.
    destruct (params j) as [|b|z|x|s|l|d] eqn:Hp;
      try (cbn [params_column]; rewrite Hd; unfold read_params;
           destruct text as [|c t]; [congruence|]; cbn [str_truthy]; now rewrite Hl).
    + reflexivity.
    + exfalso. exact (Hns s eq_refl).
Qed.

Lemma upsert_then_get_job_by_id_witness :
  let j := {| id := lit "j1"; status := Some (lit "queued"); created_at := None;
              started_at := None; finished_at := None; exit_code := None;
              result_path := None; error := None; params := JStr (lit "7") |} in
  let w := fresh_world 1700000005 in
  (get_job_by_id Sample.rt (lit "j1") (upsert_job Sample.rt j w).2).1
  = Ok (Some {| s_id := lit "j1"; s_status := Some (lit "queued");
                s_created_at := Some 0; s_started_at := Some 0; s_finished_at := Some 0;
                s_exit_code := None; s_result_path := None; s_error := None;
                s_params := JInt 7; s_last_updated := Some 1699971205 |}).
Proof.
  intros j w.
  pose proof (upsert_then_get_job_by_id Sample.rt j w eq_refl eq_refl eq_refl) as H.
  apply proj1 in H. vm_compute in H. vm_compute. exact H.
Defined.


(** ** Reading the log of a job back *)

Lemma list_rows_cons job ts from x (l : list pystr) :
  list_rows job ts from (x :: l) = log_row job from ts x :: list_rows job ts (from + 1) l.
Proof.
  unfold list_rows. cbn [imap]. f_equal.
  - f_equal. lia.
  - apply imap_ext. intros i y _. cbn. f_equal. lia.
Qed.

Lemma order_list_rows job ts (l : list pystr) : forall from,
  DuckDB.order_by_seq (list_rows job ts from l) = list_rows job ts from l.
Proof.
  induction l as [|x l IH]; intros from; [reflexivity|].
  rewrite list_rows_cons. unfold DuckDB.order_by_seq in *. cbn [fold_right].
  rewrite IH. destruct l as [|y l]; [reflexivity|].
  rewrite list_rows_cons. cbn [DuckDB.insert_by_seq log_row DuckDB.l_seq].
  replace (from <? from + 1) with true by (symmetry; apply Z.ltb_lt; lia). reflexivity.
Qed.

Lemma filter_list_rows job ts offset (l : list pystr) : forall from,
  List.filter (fun r => bool_decide (DuckDB.l_job_id r = job) && (offset <=? DuckDB.l_seq r))
              (list_rows job ts from l)
  = drop (Z.to_nat (offset - from)) (list_rows job ts from l).
Proof.
  induction l as [|x l IH]; intros from.
  - cbn. now rewrite drop_nil.
  - rewrite list_rows_cons. cbn [List.filter log_row DuckDB.l_job_id DuckDB.l_seq].
    rewrite bool_decide_eq_true_2 by reflexivity. cbn [andb]. rewrite IH.
    destruct (Z.leb_spec offset from) as [H|H].
    + replace (Z.to_nat (offset - from)) with 0%nat by lia.
      replace (Z.to_nat (offset - (from + 1))) with 0%nat by lia. reflexivity.
    + replace (Z.to_nat (offset - from)) with (S (Z.to_nat (offset - (from + 1)))) by lia.
      reflexivity.
Qed.

Lemma filter_rows_below job offset (base : list DuckDB.log_row) jb :
  rows_below job 0 {| DuckDB.jobs := jb; DuckDB.job_logs := base |} -> 0 <= offset ->
  List.filter (fun r => bool_decide (DuckDB.l_job_id r = job) && (offset <=? DuckDB.l_seq r))
              base = [].
Proof.
  intros Hb Ho. apply filter_none. intros r Hr. apply andb_false_iff.
  destruct (decide (DuckDB.l_job_id r = job)) as [Hj|Hj].
  - right. apply Z.leb_gt. specialize (Hb r Hr Hj). lia.
  - left. now apply bool_decide_eq_false.
Qed.

Lemma drop_list_rows job ts from (l : list pystr) (k : nat) :
  drop k (list_rows job ts from l) = list_rows job ts (from + Z.of_nat k) (drop k l).
Proof.
  unfold list_rows. rewrite <- (take_drop k l) at 1. rewrite imap_app.
  destruct (Nat.le_gt_cases k (length l)) as [H|H].
  - rewrite drop_app_length'; [|rewrite length_imap, length_take; lia].
    apply imap_ext. intros i x _. rewrite length_take. f_equal. lia.
  - rewrite (drop_ge l) by lia. cbn [imap]. rewrite app_nil_r.
    apply drop_ge. rewrite length_imap, length_take. lia.
Qed.

Lemma line_dict_list_rows job ts (l : list pystr) :
  line_dict <$> list_rows job ts 0 l = stored_lines ts l.
Proof.
  unfold list_rows, stored_lines. rewrite fmap_imap. apply imap_ext. intros i x _.
  reflexivity.
Qed.

(** The runs of the log sync leave the connection ready. *)
Lemma sync_times_calm rt LIMIT job l (n : nat) : forall w wm,
  0 < LIMIT -> redis_faults w = [] -> duck_faults w = [] -> DuckDB.txn (duck w) = None ->
  list_at (redis w) (JOB_LOG_PREFIX ++ job) = Some l ->
  watermark rt (redis w) job = Ok wm ->
  rows_below job wm (DuckDB.committed (duck w)) ->
  Z.of_nat (length l) < 2 ^ 63 -> DuckDB.fits_bigint (clock w) = true ->
  let w' := sync_times rt LIMIT job n w in
  duck_faults w' = [] /\ DuckDB.txn (duck w') = None.
Proof.
  induction n as [|n IH]; intros w wm HL Hrf Hdf Htx Hl Hw Hb Hlen Hck w'; [auto|].
  pose proof (watermark_nonneg rt _ _ _ Hw) as H0.
  subst w'. cbn [sync_times].
  destruct (Z.le_gt_cases (Z.of_nat (length l)) wm) as [Hle | Hgt].
  { rewrite (sync_noop rt LIMIT job w l wm Hrf Hl Hw Hle). cbn [snd].
    apply (IH w wm); assumption. }
  assert (Hlt : wm < Z.of_nat (length l)) by lia.
  rewrite (sync_step_copies rt LIMIT job w l wm HL Hrf Hdf Htx Hl Hw Hlt Hb Hlen Hck).
  set (k := batch_length LIMIT (Z.of_nat (length l)) wm).
  assert (Hk : Z.of_nat k = Z.min (Z.of_nat (length l)) (wm + LIMIT) - wm)
    by (unfold k, batch_length; lia).
  set (batch := take k (drop (Z.to_nat wm) l)).
  assert (Hbl : length batch = k).
  { unfold batch. rewrite length_take, length_drop. lia. }
  apply (IH _ (wm + Z.of_nat k)); try assumption.
  - rewrite list_at_set_watermark. exact Hl.
  - apply watermark_set. lia.
  - unfold set_watermark, add_logs. cbn [duck DuckDB.committed].
    apply (rows_below_app job wm); [exact Hb|lia|].
    intros r Hr. apply list_rows_seq_lt in Hr. lia.
Qed.

(** The runs of the log sync followed by a read of the log. *)
Lemma sync_then_get_job_logs (rt : runtime) (LOG_BATCH_LIMIT : Z) (job_id : pystr)
    (l : list pystr) (n : nat) (w : world) (offset : Z) (limit : N) :
  0 < LOG_BATCH_LIMIT ->
  redis_faults w = [] -> duck_faults w = [] -> DuckDB.txn (duck w) = None ->
  list_at (redis w) (JOB_LOG_PREFIX ++ job_id) = Some l ->
  watermark rt (redis w) job_id = Ok 0 ->
  rows_below job_id 0 (DuckDB.committed (duck w)) ->
  Z.of_nat (length l) < 2 ^ 63 -> DuckDB.fits_bigint (clock w) = true ->
  Z.of_nat (length l) <= Z.of_nat n * LOG_BATCH_LIMIT ->
  0 <= offset ->
  let w' := sync_times rt LOG_BATCH_LIMIT job_id n w in
  (get_job_logs job_id offset limit w').1
  = Ok (take (N.to_nat limit) (drop (Z.to_nat offset) (stored_lines (clock w) l))).
Proof.
  intros HL Hrf Hdf Htx Hl Hw Hb Hlen Hck Hn Ho w'.
  destruct (sync_times_copies rt LOG_BATCH_LIMIT job_id l n w 0 HL Hrf Hdf Htx Hl Hw Hb Hlen Hck
              ltac:(lia)) as (Hlogs & _).
  destruct (sync_times_calm rt LOG_BATCH_LIMIT job_id l n w 0 HL Hrf Hdf Htx Hl Hw Hb Hlen Hck)
    as (Hdf' & Htx').
  fold w' in Hlogs, Hdf', Htx'. rewrite drop_0 in Hlogs.
  unfold get_job_logs. unfold bind at 1. rewrite get_conn_ok by exact Hdf'.
  unfold bind, ret.
  rewrite duck_call_ok by exact Hdf'. cbn [fst snd].
  unfold DuckDB.select_logs, DuckDB.view. rewrite Htx', Hlogs.
  rewrite List.filter_app.
  rewrite (filter_rows_below job_id offset _ (DuckDB.jobs (DuckDB.committed (duck w))))
    by (destruct (DuckDB.committed (duck w)); assumption).
  cbn [app]. rewrite filter_list_rows.
  replace (offset - 0) with offset by lia.
  pose proof (drop_list_rows job_id (clock w) 0 l) as Hdrop.
  rewrite Hdrop, order_list_rows, <- Hdrop.
  f_equal. rewrite fmap_take, fmap_drop.
  change (fun r => {| s_seq := DuckDB.l_seq r; s_ts := DuckDB.l_ts r;
                      s_line := DuckDB.l_line r |}) with line_dict.
  now rewrite line_dict_list_rows.
Qed.

(** X15. What the log sync has copied is what [get_job_logs] returns.  When
    the table has no row of the job with a sequence number from 0 on, the
    watermark is 0 and the list is copied by enough runs without fault,
    [get_job_logs(job_id, offset, limit)] returns the entries of the list
    from index [offset] on, at most [limit] of them, in the order of the
    list, each with its index as [seq] and the time of the copy as [ts]. *)
Theorem synced_logs_read_back (rt : runtime) (LOG_BATCH_LIMIT : Z) (job_id : pystr)
    (l : list pystr) (n : nat) (w : world) (offset : Z) (limit : N) :
  0 < LOG_BATCH_LIMIT ->
  redis_faults w = [] -> duck_faults w = [] -> DuckDB.txn (duck w) = None ->
  list_at (redis w) (JOB_LOG_PREFIX ++ job_id) = Some l ->
  watermark rt (redis w) job_id = Ok 0 ->
  rows_below job_id 0 (DuckDB.committed (duck w)) ->
  Z.of_nat (length l) < 2 ^ 63 -> DuckDB.fits_bigint (clock w) = true ->
  Z.of_nat (length l) <= Z.of_nat n * LOG_BATCH_LIMIT ->
  0 <= offset ->
  let w' := sync_times rt LOG_BATCH_LIMIT job_id n w in
  (get_job_logs job_id offset limit w').1
  = Ok (take (N.to_nat limit) (drop (Z.to_nat offset) (stored_lines (clock w) l))).
Proof.
  intros HL Hrf Hdf Htx Hl Hw Hb Hlen Hck Hn Ho w'.
  exact (sync_then_get_job_logs rt LOG_BATCH_LIMIT job_id l n w offset limit
           HL Hrf Hdf Htx Hl Hw Hb Hlen Hck Hn Ho).
Qed.

Lemma synced_logs_read_back_witness :
  let j1 := lit "j1" in
  let l := [lit "a"; lit "b"; lit "c"; lit "d"; lit "e"] in
  let w := appended j1 l (fresh_world 1700000000) in
  let w' := sync_times Sample.rt 2 j1 3 w in
  (get_job_logs j1 1 3 w').1
  = Ok [ {| s_seq := 1; s_ts := Some 1700000000; s_line := Some (lit "b") |};
         {| s_seq := 2; s_ts := Some 1700000000; s_line := Some (lit "c") |};
         {| s_seq := 3; s_ts := Some 1700000000; s_line := Some (lit "d") |} ].
Proof.
  intros j1 l w.
  pose proof (synced_logs_read_back Sample.rt 2 j1 l 3 w 1 3) as H.
  specialize (H ltac:(lia) eq_refl eq_refl eq_refl).
  specialize (H ltac:(vm_compute; reflexivity)).
  specialize (H ltac:(vm_compute; reflexivity)).
  specialize (H ltac:(intros r Hr; vm_compute in Hr; inversion Hr)).
  specialize (H ltac:(vm_compute; reflexivity)).
  specialize (H ltac:(vm_compute; reflexivity)).
  specialize (H ltac:(vm_compute; discriminate)).
  specialize (H ltac:(lia)).
  vm_compute in H. vm_compute. exact H.
Defined.


(** ** One page of the log of a job *)

Lemma insert_by_seq_elem r l x :
  x ∈ DuckDB.insert_by_seq r l <-> x = r \/ x ∈ l.
Proof.
  induction l as [|y l IH]; cbn.
  - rewrite list_elem_of_singleton. rewrite elem_of_nil. tauto.
  - destruct (DuckDB.l_seq r <? DuckDB.l_seq y).
    + rewrite elem_of_cons. tauto.
    + rewrite !elem_of_cons, IH. tauto.
Qed.

Lemma order_by_seq_elem l x : x ∈ DuckDB.order_by_seq l <-> x ∈ l.
Proof.
  induction l as [|y l IH]; [reflexivity|].
  unfold DuckDB.order_by_seq in *. cbn [fold_right].
  rewrite insert_by_seq_elem, elem_of_cons, IH. tauto.
Qed.

Lemma order_by_seq_length l : length (DuckDB.order_by_seq l) = length l.
Proof.
  assert (Hi : forall r l, length (DuckDB.insert_by_seq r l) = S (length l)).
  { intros r l0. induction l0 as [|y l0 IH]; cbn; [reflexivity|].
    destruct (DuckDB.l_seq r <? DuckDB.l_seq y); cbn; [reflexivity|]. now rewrite IH. }
  induction l as [|y l IH]; [reflexivity|].
  unfold DuckDB.order_by_seq in *. cbn [fold_right]. rewrite Hi, IH. reflexivity.
Qed.

Lemma insert_by_seq_ascending r l :
  ascending (DuckDB.l_seq <$> l) ->
  (forall x, x ∈ l -> DuckDB.l_seq x <> DuckDB.l_seq r) ->
  ascending (DuckDB.l_seq <$> DuckDB.insert_by_seq r l).
Proof.
  induction l as [|y l IH]; intros Ha Hne; cbn.
  - split; [constructor|exact I].
  - cbn in Ha. destruct Ha as [Hy Ha].
    destruct (Z.ltb_spec (DuckDB.l_seq r) (DuckDB.l_seq y)) as [Hlt|Hge]; cbn.
    + split; [|split; assumption]. constructor; [exact Hlt|].
      eapply Forall_impl; [exact Hy|]. cbn. intros; lia.
    + assert (Hyr : DuckDB.l_seq y < DuckDB.l_seq r).
      { specialize (Hne y ltac:(left)). lia. }
      split.
      * apply Forall_fmap, Forall_forall. intros x Hx. cbn.
        apply insert_by_seq_elem in Hx as [-> | Hx]; [exact Hyr|].
        rewrite Forall_fmap, Forall_forall in Hy. now apply Hy.
      * apply IH; [exact Ha|]. intros x Hx. apply Hne. now right.
Qed.

Lemma order_by_seq_ascending l :
  NoDup (DuckDB.l_seq <$> l) -> ascending (DuckDB.l_seq <$> DuckDB.order_by_seq l).
Proof.
  induction l as [|y l IH]; intros Hnd; [exact I|].
  cbn in Hnd. apply NoDup_cons in Hnd as [Hy Hnd].
  unfold DuckDB.order_by_seq in *. cbn [fold_right].
  apply insert_by_seq_ascending; [now apply IH|].
  intros x Hx Heq. apply Hy. apply list_elem_of_fmap. exists x. split; [congruence|].
  now apply (order_by_seq_elem l x).
Qed.

Lemma ascending_app (a b : list Z) :
  ascending (a ++ b) ->
  ascending a /\ ascending b /\ forall x y, x ∈ a -> y ∈ b -> x < y.
Proof.
  induction a as [|x a IH]; cbn.
  - intros H. split; [exact I|]. split; [exact H|]. intros ? ? Hx. inversion Hx.
  - intros [Hx Ha]. apply Forall_app in Hx as [Hxa Hxb].
    destruct (IH Ha) as (H1 & H2 & H3). split; [split; assumption|]. split; [exact H2|].
    intros u v Hu Hv. apply elem_of_cons in Hu as [-> | Hu]; [|now apply H3].
    rewrite Forall_forall in Hxb. now apply Hxb.
Qed.

Lemma job_seqs_NoDup job offset t :
  tables_ok t ->
  NoDup (DuckDB.l_seq <$>
           List.filter (fun r => bool_decide (DuckDB.l_job_id r = job)
                                 && (offset <=? DuckDB.l_seq r)) (DuckDB.job_logs t)).
Proof.
  intros [_ Hk].
  apply (filter_NoDup_fmap log_key
           (fun r => bool_decide (DuckDB.l_job_id r = job) && (offset <=? DuckDB.l_seq r))) in Hk.
  set (F := List.filter _ (DuckDB.job_logs t)) in *.
  assert (Hjob : forall r, r ∈ F -> DuckDB.l_job_id r = job).
  { intros r Hr. apply list_elem_of_In, filter_In in Hr as [_ Hr].
    apply andb_true_iff in Hr as [Hr _]. now apply bool_decide_eq_true in Hr. }
  apply (NoDup_fmap_1 (fun s => (job, s))). rewrite <- list_fmap_compose.
  erewrite list_fmap_ext; [exact Hk|].
  intros i r Hr. cbn. unfold log_key. f_equal. symmetry. apply Hjob.
  eapply list_elem_of_lookup_2, Hr.
Qed.

(** X16. One call of [get_job_logs] on tables whose primary keys hold,
    with the database answering.  The dictionaries returned are made of rows
    of the job with a sequence number from [offset] on; they come in
    strictly increasing [seq], at most [limit] of them; and they are the
    first ones: a row of the job from [offset] on that is not returned has a
    larger sequence number than all that are, and then the page is full. *)
Theorem get_job_logs_page (job_id : pystr) (offset : Z) (limit : N) (w : world) :
  duck_faults w = [] -> world_ok w ->
  let rows := DuckDB.job_logs (DuckDB.view (duck w)) in
  exists page,
    (get_job_logs job_id offset limit w).1 = Ok page /\
    (length page <= N.to_nat limit)%nat /\
    ascending (s_seq <$> page) /\
    (forall e, e ∈ page ->
       offset <= s_seq e /\
       exists r, r ∈ rows /\ DuckDB.l_job_id r = job_id /\ line_dict r = e) /\
    (forall r, r ∈ rows -> DuckDB.l_job_id r = job_id -> offset <= DuckDB.l_seq r ->
       line_dict r ∈ page \/
       (length page = N.to_nat limit /\ Forall (fun e => s_seq e < DuckDB.l_seq r) page)).
Proof.
  intros Hf Hok rows.
  unfold get_job_logs. unfold bind at 1. rewrite get_conn_ok by exact Hf.
  unfold bind, ret.
  rewrite duck_call_ok by exact Hf. cbn [fst snd]. unfold DuckDB.select_logs. fold rows.
  set (p := fun r => bool_decide (DuckDB.l_job_id r = job_id) && (offset <=? DuckDB.l_seq r)).
  set (F := List.filter p rows).
  set (S := DuckDB.order_by_seq F).
  set (n := N.to_nat limit).
  assert (HF : forall r, r ∈ F <-> r ∈ rows /\ DuckDB.l_job_id r = job_id /\ offset <= DuckDB.l_seq r).
  { intros r. unfold F. rewrite list_elem_of_In, filter_In, <- list_elem_of_In. unfold p.
    rewrite andb_true_iff, bool_decide_eq_true, Z.leb_le. tauto. }
  assert (Hasc : ascending (DuckDB.l_seq <$> S)).
  { apply order_by_seq_ascending, job_seqs_NoDup, view_ok, Hok. }
  rewrite <- (take_drop n S) in Hasc. rewrite fmap_app in Hasc.
  apply ascending_app in Hasc as (Htake & _ & Hsplit).
  change (fun r => {| s_seq := DuckDB.l_seq r; s_ts := DuckDB.l_ts r;
                      s_line := DuckDB.l_line r |}) with line_dict.
  exists (line_dict <$> take n S). split; [reflexivity|]. split; [|split; [|split]].
  - rewrite length_fmap, length_take. lia.
  - rewrite <- list_fmap_compose. exact Htake.
  - intros e He. apply list_elem_of_fmap in He as (r & -> & Hr).
    apply elem_of_take in Hr as (i & Hr & _). apply list_elem_of_lookup_2 in Hr.
    apply order_by_seq_elem, HF in Hr as (H1 & H2 & H3). split; [exact H3|]. eauto.
  - intros r Hr Hj Ho.
    assert (HrS : r ∈ S) by (apply order_by_seq_elem, HF; auto).
    rewrite <- (take_drop n S) in HrS. apply elem_of_app in HrS as [Hin | Hin].
    + left. apply list_elem_of_fmap. eauto.
    + right. split.
      * rewrite length_fmap, length_take.
        assert (n < length S)%nat; [|lia].
        destruct (Nat.le_gt_cases (length S) n) as [Hle|Hgt]; [|exact Hgt].
        rewrite drop_ge in Hin by exact Hle. inversion Hin.
      * apply Forall_fmap, Forall_forall. intros x Hx. cbn.
        apply Hsplit; apply list_elem_of_fmap; eauto.
Qed.

Lemma get_job_logs_page_witness :
  let j1 := lit "j1" in
  let w := add_logs [log_row j1 2 7 (lit "c"); log_row (lit "j2") 0 7 (lit "x");
                     log_row j1 0 7 (lit "a"); log_row j1 1 7 (lit "b")] (fresh_world 9) in
  let rows := DuckDB.job_logs (DuckDB.view (duck w)) in
  exists page,
    (get_job_logs j1 1 5 w).1 = Ok page /\
    (length page <= N.to_nat 5)%nat /\
    ascending (s_seq <$> page) /\
    (forall e, e ∈ page ->
       1 <= s_seq e /\
       exists r, r ∈ rows /\ DuckDB.l_job_id r = j1 /\ line_dict r = e) /\
    (forall r, r ∈ rows -> DuckDB.l_job_id r = j1 -> 1 <= DuckDB.l_seq r ->
       line_dict r ∈ page \/
       (length page = N.to_nat 5 /\ Forall (fun e => s_seq e < DuckDB.l_seq r) page)).
Proof.
  intros j1 w.
  apply (get_job_logs_page j1 1 5 w eq_refl).
  split; [split|intros t Ht; discriminate Ht].
  - constructor.
  - apply (bool_decide_unpack _). vm_compute. exact I.
Defined.

(** ** From [log_line] to [get_job_logs] *)

Lemma last_2000_short (l : list pystr) : (length l <= 2000)%nat -> last_2000 l = l.
Proof.
  intros H. unfold last_2000. replace (length l - 2000)%nat with 0%nat by lia.
  apply drop_0.
Qed.

Lemma watermark_ext rt s s' job :
  Redis.keyspace s' !! (JOB_LOG_SYNC_PREFIX ++ job) = Redis.keyspace s !! (JOB_LOG_SYNC_PREFIX ++ job) ->
  watermark rt s' job = watermark rt s job.
Proof.
  intros H. unfold watermark, Redis.GET. rewrite H.
  destruct (Redis.keyspace s !! (JOB_LOG_SYNC_PREFIX ++ job)) as [[]|]; reflexivity.
Qed.

(** Fewer than 2000 lines logged without fault are all in the list, in
    order, and nothing else has changed. *)
Lemma logged_list rt job lines : forall w l0,
  list_at (redis w) (JOB_LOG_PREFIX ++ job) = Some l0 ->
  (length l0 + length lines <= 2000)%nat ->
  list_at (redis (logged rt job lines w)) (JOB_LOG_PREFIX ++ job) = Some (l0 ++ lines) /\
  watermark rt (redis (logged rt job lines w)) job = watermark rt (redis w) job.
Proof.
  induction lines as [|x lines IH]; intros w l0 Hl Hlen.
  - cbn. rewrite app_nil_r. auto.
  - destruct (log_line_trims rt job x (redis w) l0 Hl) as (_ & Hl1 & Hkeep).
    cbv zeta in Hl1, Hkeep.
    set (s1 := simulator_worker.server
                 (simulator_worker.log_line rt job x
                    {| simulator_worker.server := redis w; simulator_worker.faults := [] |}).2)
      in *.
    set (w1 := {| redis := s1; redis_faults := redis_faults w; duck := duck w;
                  duck_faults := duck_faults w; clock := clock w |}).
    assert (Hlog : logged rt job (x :: lines) w = logged rt job lines w1) by reflexivity.
    rewrite Hlog. cbn [length] in Hlen.
    rewrite last_2000_short in Hl1 by (rewrite length_app; cbn; lia).
    destruct (IH w1 (l0 ++ [x])) as [H1 H2]; [exact Hl1|rewrite length_app; cbn; lia|].
    split.
    + rewrite H1, <- app_assoc. reflexivity.
    + rewrite H2. apply watermark_ext. apply Hkeep. apply not_eq_sym, log_key_not_sync_key.
Qed.

(** X17. From the worker to the reader.  A job whose log list and
    watermark do not exist yet and which has no row from 0 on: after the
    worker has logged up to 2000 lines and the log sync has run often enough,
    all without fault, [get_job_logs(job_id, offset, limit)] returns the
    lines logged from the one numbered [offset] on, at most [limit] of them,
    in the order in which they were logged, numbered from 0. *)
Theorem logged_lines_read_back (rt : runtime) (LOG_BATCH_LIMIT : Z) (job_id : pystr)
    (lines : list pystr) (n : nat) (w : world) (offset : Z) (limit : N) :
  0 < LOG_BATCH_LIMIT ->
  redis_faults w = [] -> duck_faults w = [] -> DuckDB.txn (duck w) = None ->
  Redis.keyspace (redis w) !! (JOB_LOG_PREFIX ++ job_id) = None ->
  Redis.keyspace (redis w) !! (JOB_LOG_SYNC_PREFIX ++ job_id) = None ->
  rows_below job_id 0 (DuckDB.committed (duck w)) ->
  (length lines <= 2000)%nat -> DuckDB.fits_bigint (clock w) = true ->
  Z.of_nat (length lines) <= Z.of_nat n * LOG_BATCH_LIMIT ->
  0 <= offset ->
  let w1 := logged rt job_id lines w in
  let w2 := sync_times rt LOG_BATCH_LIMIT job_id n w1 in
  (get_job_logs job_id offset limit w2).1
  = Ok (take (N.to_nat limit) (drop (Z.to_nat offset) (stored_lines (clock w) lines))).
Proof.
  intros HL Hrf Hdf Htx Hk Hs Hb Hlen Hck Hn Ho w1 w2.
  assert (Hl0 : list_at (redis w) (JOB_LOG_PREFIX ++ job_id) = Some [])
    by (unfold list_at; now rewrite Hk).
  assert (Hw0 : watermark rt (redis w) job_id = Ok 0)
    by (unfold watermark, Redis.GET; now rewrite Hs).
  destruct (logged_list rt job_id lines w [] Hl0 ltac:(cbn; lia)) as [Hl1 Hw1].
  fold w1 in Hl1, Hw1. cbn [app] in Hl1. rewrite Hw0 in Hw1.
  apply (sync_then_get_job_logs rt LOG_BATCH_LIMIT job_id lines n w1 offset limit);
    try assumption.
  lia.
Qed.

Lemma logged_lines_read_back_witness :
  let j1 := lit "j1" in
  let w1 := logged Sample.rt j1 [lit "a"; lit "b"; lit "c"] (fresh_world 1700000000) in
  let w2 := sync_times Sample.rt 2 j1 2 w1 in
  (get_job_logs j1 1 10 w2).1
  = Ok [ {| s_seq := 1; s_ts := Some 1700000000; s_line := Some (lit "b") |};
         {| s_seq := 2; s_ts := Some 1700000000; s_line := Some (lit "c") |} ].
Proof.
  intros j1.
  pose proof (logged_lines_read_back Sample.rt 2 j1 [lit "a"; lit "b"; lit "c"] 2
                (fresh_world 1700000000) 1 10) as H.
  specialize (H ltac:(lia) eq_refl eq_refl eq_refl eq_refl eq_refl).
  specialize (H ltac:(intros r Hr; vm_compute in Hr; inversion Hr)).
  specialize (H ltac:(cbn; lia)).
  specialize (H ltac:(vm_compute; reflexivity)).
  specialize (H ltac:(vm_compute; discriminate)).
  specialize (H ltac:(lia)).
  vm_compute in H. vm_compute. exact H.
Defined.

(** ** [process_job]: the status it leaves *)

Lemma bind_ok_inv {W A B} (m : M W A) (k : A -> M W B) w b w' :
  bind m k w = (Ok b, w') -> exists a w1, m w = (Ok a, w1) /\ k a w1 = (Ok b, w').
Proof.
  unfold bind. destruct (m w) as [[a|e] w1]; [eauto|discriminate].
Qed.

Section WorkerFields.
Import simulator_worker.

Lemma job_key_not_log_key job : JOB_HASH_PREFIX ++ job <> JOB_LOG_PREFIX ++ job.
Proof.
  intros H. apply (f_equal (fun l => l !! 9%nat)) in H. vm_compute in H. discriminate H.
Qed.

Lemma set_job_field_inv job f v w r w' :
  set_job_field job f v w = (r, w') ->
  (exists e, r = Raise e /\ server w' = server w) \/
  (r = Ok tt /\
   exists meta0,
     (Redis.keyspace (server w) !! (JOB_HASH_PREFIX ++ job) = None /\ meta0 = ∅ \/
      Redis.keyspace (server w) !! (JOB_HASH_PREFIX ++ job) = Some (Redis.RHash meta0)) /\
     server w' = Redis.with_keyspace
                   (<[JOB_HASH_PREFIX ++ job := Redis.RHash (<[f := v]> meta0)]>
                      (Redis.keyspace (server w))) (server w)).
Proof.
  unfold set_job_field, bind, ret.
  destruct (r_call (Redis.HSET (JOB_HASH_PREFIX ++ job) [(f, v)]) w) as [r1 w1] eqn:E.
  apply r_call_inv in E as [[-> Hs] | E].
  { intros H. injection H as <- <-. left. eauto. }
  unfold Redis.HSET in E.
  destruct (Redis.keyspace (server w) !! (JOB_HASH_PREFIX ++ job)) as [[s|l|h]|] eqn:Ek;
    injection E as <- Hs; intros H; injection H as <- <-.
  - left. eauto.
  - left. eauto.
  - right. split; [reflexivity|]. exists h. split; [right; reflexivity|]. now rewrite <- Hs.
  - right. split; [reflexivity|]. exists ∅. split; [left; auto|]. now rewrite <- Hs.
Qed.

Lemma set_status_ok job v w w' :
  set_job_field job (lit "status") v w = (Ok tt, w') -> status_is job v (server w').
Proof.
  intros H. apply set_job_field_inv in H as [(e & He & _) | (_ & meta0 & _ & Hs)];
    [discriminate|].
  exists (<[lit "status" := v]> meta0). rewrite Hs. cbn.
  split; apply lookup_insert_eq.
Qed.

Lemma preserves_status_set_field job st f v :
  f <> lit "status" ->
  preserves (fun w => status_is job st (server w)) (set_job_field job f v).
Proof.
  intros Hf w (meta & Hk & Hst).
  destruct (set_job_field job f v w) as [r w'] eqn:E. cbn [snd].
  apply set_job_field_inv in E as [(e & _ & ->) | (_ & meta0 & Hm & ->)].
  - exists meta. auto.
  - destruct Hm as [[Hm _] | Hm]; [congruence|]. rewrite Hk in Hm. injection Hm as <-.
    exists (<[f := v]> meta). cbn. split; [apply lookup_insert_eq|].
    rewrite lookup_insert_ne by exact Hf. exact Hst.
Qed.

Lemma preserves_status_log_line rt job st line :
  preserves (fun w => status_is job st (server w)) (log_line rt job line).
Proof.
  intros w (meta & Hk & Hst).
  destruct (log_line rt job line w) as [r w'] eqn:E. cbn [snd].
  apply log_line_inv in E as (_ & Hkeep & _). cbv zeta in Hkeep.
  exists meta. split; [|exact Hst]. rewrite Hkeep; [exact Hk|apply job_key_not_log_key].
Qed.

Lemma preserves_status_log_lines rt job st lines :
  preserves (fun w => status_is job st (server w)) (for_each lines (log_line rt job)).
Proof. apply preserves_for_each. intros line. apply preserves_status_log_line. Qed.

End WorkerFields.

Section ProcessJobStatus.
Import simulator_worker.
Context (rt : runtime) (exn_text : exn -> pystr).

(** The [except] clause, when it returns, has set the status [failed]. *)
Lemma handler_ok job t e w w' :
  (set_job_field job (lit "status") (lit "failed") ;;
   set_job_field job (lit "error") (exn_text e) ;;
   set_job_field job (lit "finished_at") (str_of_int t) ;;
   log_line rt job (lit "Worker error: " ++ exn_text e)) w = (Ok tt, w') ->
  status_is job (lit "failed") (server w').
Proof.
  intros H.
  apply bind_ok_inv in H as ([] & w1 & H1 & H).
  apply bind_ok_inv in H as ([] & w2 & H2 & H).
  apply bind_ok_inv in H as ([] & w3 & H3 & H).
  apply set_status_ok in H1.
  apply (preserves_status_set_field job (lit "failed") (lit "error") (exn_text e)
           ltac:(discriminate)) in H1. rewrite H2 in H1. cbn [snd] in H1.
  apply (preserves_status_set_field job (lit "failed") (lit "finished_at") (str_of_int t)
           ltac:(discriminate)) in H1. rewrite H3 in H1. cbn [snd] in H1.
  apply (preserves_status_log_line rt job (lit "failed") (lit "Worker error: " ++ exn_text e))
    in H1. rewrite H in H1. exact H1.
Qed.

(** The [try] block, when it completes, has set the status after the
    return code. *)
Lemma body_ok job out_path lines code (res : bool) t w w' :
  (for_each lines (log_line rt job) ;;
   set_job_field job (lit "exit_code") (str_of_int code) ;;
   (if code =? 0
    then set_job_field job (lit "status") (lit "completed")
    else set_job_field job (lit "status") (lit "failed") ;;
         log_line rt job (lit "Process exited with code " ++ str_of_int code)) ;;
   set_job_field job (lit "finished_at") (str_of_int t) ;;
   if res then set_job_field job (lit "result_path") out_path else ret tt) w = (Ok tt, w') ->
  status_is job (if code =? 0 then lit "completed" else lit "failed") (server w').
Proof.
  intros H.
  apply bind_ok_inv in H as ([] & w1 & _ & H).
  apply bind_ok_inv in H as ([] & w2 & _ & H).
  apply bind_ok_inv in H as ([] & w3 & H3 & H).
  apply bind_ok_inv in H as ([] & w4 & H4 & H).
  assert (Hst : status_is job (if code =? 0 then lit "completed" else lit "failed") (server w3)).
  { destruct (code =? 0).
    - now apply set_status_ok in H3.
    - apply bind_ok_inv in H3 as ([] & w2' & Hs & Hl). apply set_status_ok in Hs.
      apply (preserves_status_log_line rt job (lit "failed")
               (lit "Process exited with code " ++ str_of_int code)) in Hs.
      rewrite Hl in Hs. exact Hs. }
  apply (preserves_status_set_field job _ (lit "finished_at") (str_of_int t)
           ltac:(discriminate)) in Hst. rewrite H4 in Hst. cbn [snd] in Hst.
  destruct res.
  - apply (preserves_status_set_field job _ (lit "result_path") out_path
             ltac:(discriminate)) in Hst. rewrite H in Hst. exact Hst.
  - injection H as <-. exact Hst.
Qed.

Lemma process_job_ok_inv job_item env w w' :
  process_job rt exn_text job_item env w = (Ok tt, w') ->
  exists job_id,
    py_get job_item (lit "id") = Ok (JStr job_id) /\
    (status_is job_id (lit "failed") (server w') \/
     status_is job_id (lit "completed") (server w') /\
     exists lines res, child env = Exited lines 0 res).
Proof.
  unfold process_job. intros H.
  apply bind_ok_inv in H as (idv & w0 & Hid & H).
  unfold lift in Hid. injection Hid as Hid <-.
  apply bind_ok_inv in H as (params & w0 & Hp & H).
  unfold lift in Hp. injection Hp as Hp <-.
  apply bind_ok_inv in H as (job & w0 & Hj & H).
  unfold lift in Hj. injection Hj as Hj <-.
  assert (idv = JStr job) by (destruct idv; simplify_eq; reflexivity). subst idv.
  exists job. split; [exact Hid|].
  apply bind_ok_inv in H as ([] & w1 & _ & H).
  apply bind_ok_inv in H as ([] & w2 & _ & H).
  apply bind_ok_inv in H as ([] & w3 & Hd & H).
  unfold lift in Hd. injection Hd as _ <-.
  unfold try_except in H.
  destruct (child env) as [lines code res | lines e] eqn:Hc.
  - match type of H with
    | context [(?body) w2] =>
        destruct (body w2) as [[[]|e] w4] eqn:Hb
    end.
    + injection H as <-. apply body_ok in Hb.
      destruct (Z.eqb_spec code 0) as [-> | Hne]; [right|left; exact Hb].
      split; [exact Hb|]. eauto.
    + left. eapply handler_ok. exact H.
  - match type of H with
    | context [(?body) w2] =>
        destruct (body w2) as [[[]|e'] w4] eqn:Hb
    end.
    + exfalso. unfold bind, raise in Hb.
      destruct (for_each lines (log_line rt job) w2) as [[[]|?] ?]; discriminate.
    + left. eapply handler_ok. exact H.
Qed.

End ProcessJobStatus.

(** X18. A call of [process_job] that returns leaves the job with a final
    status.  Whatever is stored in Redis, whichever calls of its client fail
    and whatever becomes of the simulator process: when [process_job]
    returns, the hash of the job has the status [completed] or [failed],
    never [running]; and it has [completed] only when the process returned
    the code 0. *)
Theorem process_job_leaves_final_status (rt : runtime) (exn_text : exn -> pystr)
    (job_item : json) (env : simulator_worker.run) (w : simulator_worker.worker) :
  (simulator_worker.process_job rt exn_text job_item env w).1 = Ok tt ->
  exists job_id,
    py_get job_item (lit "id") = Ok (JStr job_id) /\
    let s' := simulator_worker.server
                (simulator_worker.process_job rt exn_text job_item env w).2 in
    (status_is job_id (lit "failed") s' \/
     status_is job_id (lit "completed") s' /\
     exists lines res, simulator_worker.child env = simulator_worker.Exited lines 0 res).
Proof.
  intros H.
  destruct (simulator_worker.process_job rt exn_text job_item env w) as [r w'] eqn:E.
  cbn [fst snd] in *. subst r.
  exact (process_job_ok_inv rt exn_text job_item env w w' E).
Qed.

Lemma process_job_leaves_final_status_witness :
  let job_item := JDict [(lit "id", JStr (lit "j1")); (lit "params", JDict [])] in
  let env := {| simulator_worker.child := simulator_worker.Exited [lit "hello"] 0 true;
                simulator_worker.t_start := 1700000001;
                simulator_worker.t_end := 1700000031 |} in
  let w := {| simulator_worker.server := {| Redis.keyspace := ∅; Redis.published := [] |};
              simulator_worker.faults := [false; false; false; true] |} in
  exists job_id,
    py_get job_item (lit "id") = Ok (JStr job_id) /\
    let s' := simulator_worker.server
                (simulator_worker.process_job Sample.rt (fun _ => lit "error") job_item env w).2 in
    (status_is job_id (lit "failed") s' \/
     status_is job_id (lit "completed") s' /\
     exists lines res, simulator_worker.child env = simulator_worker.Exited lines 0 res).
Proof.
  intros job_item env w.
  apply (process_job_leaves_final_status Sample.rt (fun _ => lit "error") job_item env w).
  vm_compute. reflexivity.
Defined.


(** ** [process_job] without fault *)

Section WorkerClean.
Import simulator_worker.
Context (rt : runtime).

Lemma set_job_field_step job s0 meta l f v w :
  handling job s0 meta l w ->
  exists w', set_job_field job f v w = (Ok tt, w') /\
             handling job s0 (<[f := v]> meta) l w'.
Proof.
  intros (Hf & Hk & Hl & Hfr).
  unfold set_job_field, bind, ret, r_call. rewrite Hf. cbn [next_fault].
  unfold Redis.HSET. rewrite Hk. cbn [Redis.set_fields fold_left fst snd].
  eexists. split; [reflexivity|]. unfold handling. cbn [server faults].
  unfold Redis.with_keyspace. cbn [Redis.keyspace]. split; [reflexivity|].
  split; [apply lookup_insert_eq|]. split.
  - unfold list_at in *. cbn [Redis.keyspace].
    rewrite lookup_insert_ne by apply job_key_not_log_key. exact Hl.
  - intros k Hk1 Hk2. rewrite lookup_insert_ne by congruence. now apply Hfr.
Qed.

Lemma log_line_step job s0 meta l line w :
  handling job s0 meta l w ->
  exists w', log_line rt job line w = (Ok tt, w') /\
             handling job s0 meta (last_2000 (l ++ [line])) w'.
Proof.
  intros (Hf & Hk & Hl & Hfr). destruct w as [s fs]. cbn [server faults] in *. subst fs.
  destruct (log_line_trims rt job line s l Hl) as (Hok & Hl' & Hkeep).
  cbv zeta in Hok, Hl', Hkeep.
  assert (Hfaults : faults (log_line rt job line {| server := s; faults := [] |}).2 = []).
  { unfold log_line, try_except, bind, lift, ret, r_call. cbn [next_fault faults server].
    destruct (Redis.RPUSH _ line s) as [[?|?] ?]; [|reflexivity].
    cbn [next_fault faults server].
    destruct (Redis.LTRIM _ _ _ _) as [[?|?] ?]; [|reflexivity].
    destruct (json_dumps rt _); [|reflexivity].
    cbn [next_fault faults server]. reflexivity. }
  destruct (log_line rt job line {| server := s; faults := [] |}) as [r w'].
  cbn [fst snd] in *. subst r. exists w'. split; [reflexivity|].
  split; [exact Hfaults|]. split; [|split; [exact Hl'|]].
  - rewrite Hkeep by apply job_key_not_log_key. exact Hk.
  - intros k Hk1 Hk2. rewrite Hkeep by exact Hk2. now apply Hfr.
Qed.

Lemma log_lines_step job s0 meta lines : forall l w,
  handling job s0 meta l w -> (length l + length lines <= 2000)%nat ->
  exists w', for_each lines (log_line rt job) w = (Ok tt, w') /\
             handling job s0 meta (l ++ lines) w'.
Proof.
  induction lines as [|x lines IH]; intros l w Hw Hlen.
  - exists w. rewrite app_nil_r. split; [reflexivity|exact Hw].
  - cbn [for_each length] in *. destruct (log_line_step job s0 meta l x w Hw) as (w1 & E1 & H1).
    rewrite last_2000_short in H1 by (rewrite length_app; cbn; lia).
    destruct (IH (l ++ [x]) w1 H1) as (w2 & E2 & H2); [rewrite length_app; cbn; lia|].
    exists w2. unfold bind. rewrite E1, E2. split; [reflexivity|].
    now rewrite <- app_assoc in H2.
Qed.

(** A job whose process runs to its end, handled without fault. *)
Lemma process_job_clean exn_text job_item env job d lines code (res : bool) s0 meta w :
  py_get job_item (lit "id") = Ok (JStr job) ->
  py_get_default job_item (lit "params") (JDict []) = Ok (JDict d) ->
  child env = Exited lines code res ->
  handling job s0 meta [] w ->
  (length lines < 2000)%nat ->
  let final := if code =? 0 then lit "completed" else lit "failed" in
  let m1 := <[lit "exit_code" := str_of_int code]>
              (<[lit "started_at" := str_of_int (t_start env)]>
                 (<[lit "status" := lit "running"]> meta)) in
  let m2 := <[lit "finished_at" := str_of_int (t_end env)]> (<[lit "status" := final]> m1) in
  let m3 := if res
            then <[lit "result_path" :=
                     RESULTS_DIR ++ lit "/bench_result_" ++ job ++ lit ".json"]> m2
            else m2 in
  let logs := lines ++ (if code =? 0 then []
                        else [lit "Process exited with code " ++ str_of_int code]) in
  exists w', process_job rt exn_text job_item env w = (Ok tt, w') /\
             handling job s0 m3 logs w'.
Proof.
  intros Hid Hp Hc Hw Hlen final m1 m2 m3 logs.
  unfold process_job. rewrite Hid, Hp, Hc.
  unfold bind at 1. unfold lift at 1. unfold bind at 1. unfold lift at 1.
  unfold bind at 1. unfold lift at 1.
  destruct (set_job_field_step job s0 meta [] (lit "status") (lit "running") w Hw)
    as (w1 & E1 & H1).
  unfold bind at 1. rewrite E1.
  destruct (set_job_field_step job s0 _ [] (lit "started_at") (str_of_int (t_start env)) w1 H1)
    as (w2 & E2 & H2).
  unfold bind at 1. rewrite E2.
  unfold bind at 1. unfold lift at 1.
  unfold try_except.
  destruct (log_lines_step job s0 _ lines [] w2 H2 ltac:(cbn; lia)) as (w3 & E3 & H3).
  cbn [app] in H3.
  unfold bind at 1. rewrite E3.
  destruct (set_job_field_step job s0 _ lines (lit "exit_code") (str_of_int code) w3 H3)
    as (w4 & E4 & H4).
  unfold bind at 1. rewrite E4. fold m1 in H4.
  assert (H5 : exists w5,
             (if code =? 0
              then set_job_field job (lit "status") (lit "completed")
              else set_job_field job (lit "status") (lit "failed") ;;
                   log_line rt job (lit "Process exited with code " ++ str_of_int code)) w4
             = (Ok tt, w5) /\
             handling job s0 (<[lit "status" := final]> m1) logs w5).
  { unfold final, logs. destruct (code =? 0).
    - rewrite app_nil_r. apply set_job_field_step. exact H4.
    - destruct (set_job_field_step job s0 m1 lines (lit "status") (lit "failed") w4 H4)
        as (w5 & E5 & H5).
      destruct (log_line_step job s0 _ lines
                  (lit "Process exited with code " ++ str_of_int code) w5 H5)
        as (w6 & E6 & H6).
      rewrite last_2000_short in H6 by (rewrite length_app; cbn; lia).
      exists w6. unfold bind. rewrite E5, E6. auto. }
  destruct H5 as (w5 & E5 & H5).
  unfold bind at 1. rewrite E5.
  destruct (set_job_field_step job s0 _ logs (lit "finished_at") (str_of_int (t_end env)) w5 H5)
    as (w6 & E6 & H6).
  unfold bind at 1. rewrite E6. fold m2 in H6.
  unfold m3. destruct res.
  - destruct (set_job_field_step job s0 m2 logs (lit "result_path")
                (RESULTS_DIR ++ lit "/bench_result_" ++ job ++ lit ".json") w6 H6)
      as (w7 & E7 & H7).
    rewrite E7. eauto.
  - unfold ret. eauto.
Qed.

End WorkerClean.

(** X19. An item whose parameters are not a dictionary leaves the job
    running for ever.  Handled without fault, such an item (for instance one
    with [params] null) makes [process_job] raise [AttributeError] when it
    builds the command line, outside its [try]: the hash of the job has got
    the status [running] and its start time, and nothing else is written:
    no final status, no error, no finish time, no log line. *)
Theorem process_job_params_not_dict (rt : runtime) (exn_text : exn -> pystr)
    (job_item : json) (env : simulator_worker.run) (job_id : pystr) (p : json)
    (s0 : Redis.server) (meta : gmap pystr pystr) (l : list pystr)
    (w : simulator_worker.worker) :
  py_get job_item (lit "id") = Ok (JStr job_id) ->
  simulator_worker.py_get_default job_item (lit "params") (JDict []) = Ok p ->
  (forall d, p <> JDict d) ->
  handling job_id s0 meta l w ->
  let out := simulator_worker.process_job rt exn_text job_item env w in
  out.1 = Raise AttributeError /\
  handling job_id s0
    (<[lit "started_at" := str_of_int (simulator_worker.t_start env)]>
       (<[lit "status" := lit "running"]> meta)) l out.2.
Proof.
  intros Hid Hp Hnd Hw out.
  destruct (set_job_field_step job_id s0 meta l (lit "status") (lit "running") w Hw)
    as (w1 & E1 & H1).
  destruct (set_job_field_step job_id s0 _ l (lit "started_at")
              (str_of_int (simulator_worker.t_start env)) w1 H1) as (w2 & E2 & H2).
  assert (E : out = (Raise AttributeError, w2)).
  { unfold out, simulator_worker.process_job. rewrite Hid, Hp.
    unfold bind at 1. unfold lift at 1. unfold bind at 1. unfold lift at 1.
    unfold bind at 1. unfold lift at 1.
    unfold bind at 1. rewrite E1. unfold bind at 1. rewrite E2.
    unfold bind at 1. unfold lift at 1.
    destruct p; try reflexivity. exfalso. eapply Hnd. reflexivity. }
  rewrite E. split; [reflexivity|exact H2].
Qed.

Lemma process_job_params_not_dict_witness :
  let job_item := JDict [(lit "id", JStr (lit "j1")); (lit "params", JNull)] in
  let env := {| simulator_worker.child := simulator_worker.Exited [lit "hello"] 0 true;
                simulator_worker.t_start := 1700000001;
                simulator_worker.t_end := 1700000031 |} in
  let s0 := {| Redis.keyspace :=
                 {[ lit "bench_job:j1" := Redis.RHash {[ lit "status" := lit "queued" ]} ]};
               Redis.published := [] |} in
  let w := {| simulator_worker.server := s0; simulator_worker.faults := [] |} in
  let out := simulator_worker.process_job Sample.rt (fun _ => lit "error") job_item env w in
  out.1 = Raise AttributeError /\
  handling (lit "j1") s0
    (<[lit "started_at" := str_of_int 1700000001]>
       (<[lit "status" := lit "running"]> {[ lit "status" := lit "queued" ]})) [] out.2.
Proof.
  intros job_item env s0 w.
  apply (process_job_params_not_dict Sample.rt (fun _ => lit "error") job_item env (lit "j1")
           JNull s0 {[ lit "status" := lit "queued" ]} [] w).
  - reflexivity.
  - vm_compute. reflexivity.
  - intros d H. discriminate H.
  - split; [reflexivity|]. split; [vm_compute; reflexivity|].
    split; [vm_compute; reflexivity|]. intros k _ _. reflexivity.
Defined.

(** ** A job from [start_job] through the worker to the [jobs] table *)

Lemma keys_single (s : Redis.server) (key : pystr) v :
  Redis.keyspace s !! key = Some v ->
  is_prefix JOB_HASH_PREFIX key = true ->
  (forall k, k <> key -> is_Some (Redis.keyspace s !! k) -> is_prefix JOB_HASH_PREFIX k = false) ->
  Redis.KEYS_prefix JOB_HASH_PREFIX s = (Ok [key], s).
Proof.
  intros Hk Hpre Hno. unfold Redis.KEYS_prefix. f_equal. f_equal.
  set (ks := Redis.keyspace s) in *.
  assert (Hnd : NoDup (List.filter (is_prefix JOB_HASH_PREFIX) (map_to_list ks).*1)).
  { apply NoDup_ListNoDup, List.NoDup_filter, NoDup_ListNoDup, NoDup_fst_map_to_list. }
  assert (Hall : forall k, k ∈ List.filter (is_prefix JOB_HASH_PREFIX) (map_to_list ks).*1 ->
                           k = key).
  { intros k Hin. apply list_elem_of_In, filter_In in Hin as [Hin Hp].
    apply list_elem_of_In, list_elem_of_fmap in Hin as ([k' v'] & -> & Hkv).
    apply elem_of_map_to_list in Hkv. cbn [fst] in *.
    destruct (decide (k' = key)) as [-> | Hne]; [reflexivity|].
    rewrite (Hno k' Hne) in Hp by (rewrite Hkv; eauto). discriminate. }
  assert (Hin : key ∈ List.filter (is_prefix JOB_HASH_PREFIX) (map_to_list ks).*1).
  { apply list_elem_of_In, filter_In. split; [|exact Hpre].
    apply list_elem_of_In, list_elem_of_fmap. exists (key, v). split; [reflexivity|].
    now apply elem_of_map_to_list. }
  destruct (List.filter (is_prefix JOB_HASH_PREFIX) (map_to_list ks).*1) as [|k0 [|k1 r]].
  - inversion Hin.
  - rewrite (Hall k0) by left. reflexivity.
  - exfalso. apply NoDup_cons in Hnd as [Hnd _]. apply Hnd.
    rewrite (Hall k0) by left. rewrite (Hall k1) by (right; left). left.
Qed.

Lemma log_key_no_prefix job : is_prefix JOB_HASH_PREFIX (JOB_LOG_PREFIX ++ job) = false.
Proof. reflexivity. Qed.

Lemma log_key_not_queue_key job : JOB_LOG_PREFIX ++ job <> bench_runner.JOB_QUEUE_KEY.
Proof.
  intros H. apply (f_equal (fun l => l !! 9%nat)) in H. vm_compute in H. discriminate H.
Qed.

Section ReconcileOne.
Context (rt : runtime) (LIMIT : Z).

(** One cycle of the reconciler when one job has a hash, and the read that
    follows. *)
Lemma reconcile_single key job_id meta c s f x w :
  redis_faults w = [] -> duck_faults w = [] -> DuckDB.txn (duck w) = None ->
  Redis.KEYS_prefix JOB_HASH_PREFIX (redis w) = (Ok [key], redis w) ->
  Redis.keyspace (redis w) !! key = Some (Redis.RHash meta) -> meta <> ∅ ->
  int_field rt meta (lit "created_at") = Ok c ->
  int_field rt meta (lit "started_at") = Ok s ->
  int_field rt meta (lit "finished_at") = Ok f ->
  int_field rt meta (lit "exit_code") = Ok x ->
  let r := job_values rt (job_record rt key meta c s f x) (utc_as_local rt (clock w)) in
  DuckDB.j_id r = job_id ->
  DuckDB.job_row_fits r = true ->
  let w' := (_sync_jobs_and_logs_once rt LIMIT w).2 in
  jobs_with job_id (DuckDB.committed (duck w')) = [r] /\
  (get_job_by_id rt job_id w').1 = Ok (Some (job_dict rt r)).
Proof.
  intros Hrf Hdf Htx Hkeys Hmeta Hmne Hc Hs Hf Hx r Hjid Hfit w'.
  set (j := job_record rt key meta c s f x) in *.
  assert (Hw' : w' = (sync_one_job rt LIMIT key w).2)
    by (apply sync_once_single; assumption).
  assert (Hsync : sync_one_job rt LIMIT key w
                  = _sync_logs_for_job rt LIMIT (replace_with_empty JOB_HASH_PREFIX key)
                      (put_job r w)).
  { rewrite (sync_one_job_upserts rt LIMIT key w meta _ _ _ _ Hrf Hmeta Hmne Hc Hs Hf Hx).
    fold j. unfold bind. now rewrite (upsert_job_replaces rt j w Hdf Htx Hfit). }
  set (J := DuckDB.jobs (replace_job r (DuckDB.committed (duck w)))).
  assert (HJ : jobs_are J (put_job r w)).
  { unfold jobs_are, put_job. cbn [duck DuckDB.committed DuckDB.txn]. split; [reflexivity|].
    rewrite Htx. intros; discriminate. }
  apply (preserves_jobs_sync_logs rt LIMIT J (replace_with_empty JOB_HASH_PREFIX key)) in HJ.
  assert (Hcalm : duck_faults (put_job r w) = []) by exact Hdf.
  apply (preserves_calm_sync_logs rt LIMIT (replace_with_empty JOB_HASH_PREFIX key)) in Hcalm.
  rewrite <- Hsync, <- Hw' in HJ, Hcalm.
  split.
  - destruct HJ as [HJ _].
    pose proof (jobs_with_replace r (DuckDB.committed (duck w))) as H.
    unfold jobs_with in H |- *. rewrite HJ. unfold J. rewrite Hjid in H. exact H.
  - rewrite (get_job_by_id_reads rt job_id w' Hcalm). unfold DuckDB.select_job.
    rewrite (jobs_are_view J w' HJ). unfold J, replace_job. cbn [DuckDB.jobs].
    rewrite (find_replaced job_id r _ Hjid). reflexivity.
Qed.

End ReconcileOne.

Section Pipeline.
Context (rt : runtime).

(** The fields of the hash of a job that was started, then run to its
    end. *)
Lemma finished_job_fields job_id now p t0 t1 code (res : bool) out_path :
  let final := if code =? 0 then lit "completed" else lit "failed" in
  let m1 := <[lit "exit_code" := str_of_int code]>
              (<[lit "started_at" := str_of_int t0]>
                 (<[lit "status" := lit "running"]> (job_meta job_id now p))) in
  let m2 := <[lit "finished_at" := str_of_int t1]> (<[lit "status" := final]> m1) in
  let m3 := if res then <[lit "result_path" := out_path]> m2 else m2 in
  m3 !! lit "status" = Some final /\
  m3 !! lit "created_at" = Some (str_of_int now) /\
  m3 !! lit "started_at" = Some (str_of_int t0) /\
  m3 !! lit "finished_at" = Some (str_of_int t1) /\
  m3 !! lit "exit_code" = Some (str_of_int code) /\
  m3 !! lit "result_path" = Some (if res then out_path else []) /\
  m3 !! lit "error" = Some [] /\
  m3 !! lit "params" = Some p.
Proof.
  intros final m1 m2 m3. subst m3 m2 m1. generalize final. intros st.
  destruct res; repeat split; vm_compute; reflexivity.
Qed.

Lemma int_field_of_int meta f z :
  meta !! f = Some (str_of_int z) -> int_field rt meta f = Ok (Some z).
Proof.
  intros H. unfold int_field. rewrite H, str_of_int_truthy. unfold int.
  now rewrite int_of_str_of_int.
Qed.

End Pipeline.

(** X20. The life of a job, from the request to the history.  A job is
    started by [start_job] with parameters that are a dictionary, the
    worker handles the queued item and the simulator process prints fewer
    than 2000 lines and returns [returncode], then the reconciler runs one
    cycle, at a second [t_sync] of the clock of the web process; Redis and
    the database answer throughout, the id is new and has no colon, and the
    times and the code are in the range of their columns.  Then
    [get_job_by_id] returns the job with the status [completed] when the
    code is 0 and [failed] otherwise, the second of the request as
    [created_at], the start and finish times the worker read, the exit code,
    the path of the result file when it was written (the empty string
    otherwise), an empty error, the parameters of the request, and as
    [last_updated] what [datetime.utcnow().timestamp()] gives at [t_sync],
    which is [t_sync] only in the zone UTC. *)
Theorem finished_job_reaches_table (rt : runtime) (exn_text : exn -> pystr)
    (LOG_BATCH_LIMIT : Z) (job_id : pystr) (d : list (pystr * json)) (w : world)
    (p item : pystr) (queue : list pystr) (env : simulator_worker.run)
    (lines : list pystr) (returncode : Z) (result_written : bool) (t_sync : Z) :
  redis_faults w = [] -> duck_faults w = [] -> DuckDB.txn (duck w) = None ->
  json_dumps rt (JDict d) = Some p -> p <> [] -> json_loads rt p = Some (JDict d) ->
  json_dumps rt (JDict [(lit "id", JStr job_id); (lit "params", JDict d)]) = Some item ->
  58%N ∉ job_id ->
  no_job_key (redis w) ->
  list_at (redis w) bench_runner.JOB_QUEUE_KEY = Some queue ->
  Redis.keyspace (redis w) !! (JOB_LOG_PREFIX ++ job_id) = None ->
  simulator_worker.child env = simulator_worker.Exited lines returncode result_written ->
  (length lines < 2000)%nat ->
  DuckDB.fits_bigint (clock w) = true ->
  DuckDB.fits_bigint (simulator_worker.t_start env) = true ->
  DuckDB.fits_bigint (simulator_worker.t_end env) = true ->
  DuckDB.fits_integer returncode = true ->
  DuckDB.fits_bigint (utc_as_local rt t_sync) = true ->
  let w1 := (bench_runner.start_job rt job_id (JDict d) w).2 in
  let w2 := worked rt exn_text (JDict [(lit "id", JStr job_id); (lit "params", JDict d)])
                   env w1 in
  let w3 := (_sync_jobs_and_logs_once rt LOG_BATCH_LIMIT (at_time t_sync w2)).2 in
  (get_job_by_id rt job_id w3).1
  = Ok (Some {| s_id := job_id;
                s_status := Some (if returncode =? 0 then lit "completed" else lit "failed");
                s_created_at := Some (clock w);
                s_started_at := Some (simulator_worker.t_start env);
                s_finished_at := Some (simulator_worker.t_end env);
                s_exit_code := Some returncode;
                s_result_path :=
                  Some (if result_written
                        then simulator_worker.RESULTS_DIR ++ lit "/bench_result_"
                             ++ job_id ++ lit ".json"
                        else []);
                s_error := Some [];
                s_params := JDict d;
                s_last_updated := Some (utc_as_local rt t_sync) |}).
Proof.
  intros Hrf Hdf Htx Hp Hne Hl Hi Hid Hno Hq Hlog Hc Hlen Hck Ht0 Ht1 Hcode Hts w1 w2 w3.
  assert (Hk : Redis.keyspace (redis w) !! (JOB_HASH_PREFIX ++ job_id) = None).
  { destruct (Redis.keyspace (redis w) !! (JOB_HASH_PREFIX ++ job_id)) eqn:E; [|reflexivity].
    pose proof (Hno _ (ex_intro _ _ E)) as H. rewrite job_key_prefix in H. discriminate. }
  assert (Hw1 : w1 = started job_id p item queue w).
  { unfold w1. now rewrite (start_job_effect rt job_id (JDict d) w p item queue Hrf Hp Hi Hk Hq). }
  set (key := JOB_HASH_PREFIX ++ job_id) in *.
  set (logkey := JOB_LOG_PREFIX ++ job_id) in *.
  set (out_path := simulator_worker.RESULTS_DIR ++ lit "/bench_result_" ++ job_id ++ lit ".json").
  (* the worker *)
  set (ww := {| simulator_worker.server := redis w1; simulator_worker.faults := [] |}).
  assert (Hh : handling job_id (redis w1) (job_meta job_id (clock w) p) [] ww).
  { unfold handling, ww. cbn [simulator_worker.server simulator_worker.faults].
    split; [reflexivity|]. rewrite Hw1. unfold started.
    cbn [redis Redis.with_keyspace Redis.keyspace]. split; [|split].
    - rewrite lookup_insert_ne by (apply not_eq_sym, job_key_not_queue_key).
      apply lookup_insert_eq.
    - unfold list_at. cbn [Redis.keyspace Redis.with_keyspace].
      rewrite lookup_insert_ne by (apply not_eq_sym, log_key_not_queue_key).
      rewrite lookup_insert_ne by apply job_key_not_log_key.
      fold logkey. now rewrite Hlog.
    - intros k _ _. reflexivity. }
  destruct (process_job_clean rt exn_text
              (JDict [(lit "id", JStr job_id); (lit "params", JDict d)]) env job_id d
              lines returncode result_written (redis w1) _ ww eq_refl eq_refl Hc Hh Hlen)
    as (ww' & Eww & Hh').
  cbv zeta in Hh'. fold out_path in Hh'.
  destruct (finished_job_fields job_id (clock w) p (simulator_worker.t_start env)
              (simulator_worker.t_end env) returncode result_written out_path)
    as (Fst & Fc & Fs & Ff & Fx & Fr & Fe & Fp).
  cbv zeta in Fst, Fc, Fs, Ff, Fx, Fr, Fe, Fp.
  match type of Hh' with handling _ _ ?m _ _ => set (meta := m) in * end.
  destruct Hh' as (_ & Hmeta & _ & Hframe).
  set (wt := at_time t_sync w2) in *.
  assert (Hw2 : redis wt = simulator_worker.server ww').
  { unfold wt, at_time, w2, worked. cbn [redis]. fold ww. now rewrite Eww. }
  assert (Hrf2 : redis_faults wt = [])
    by (unfold wt, at_time, w2, worked; cbn; rewrite Hw1; exact Hrf).
  assert (Hdf2 : duck_faults wt = [])
    by (unfold wt, at_time, w2, worked; cbn; rewrite Hw1; exact Hdf).
  assert (Htx2 : DuckDB.txn (duck wt) = None)
    by (unfold wt, at_time, w2, worked; cbn; rewrite Hw1; exact Htx).
  assert (Hck2 : clock wt = t_sync) by reflexivity.
  rewrite <- Hw2 in Hmeta, Hframe.
  assert (Hkeys : Redis.KEYS_prefix JOB_HASH_PREFIX (redis wt) = (Ok [key], redis wt)).
  { apply (keys_single _ key _ Hmeta (job_key_prefix job_id)).
    intros k Hk1 Hsome.
    destruct (decide (k = logkey)) as [-> | Hk2]; [apply log_key_no_prefix|].
    rewrite (Hframe k Hk1 Hk2) in Hsome. rewrite Hw1 in Hsome. unfold started in Hsome.
    cbn [redis Redis.with_keyspace Redis.keyspace] in Hsome.
    destruct (decide (k = bench_runner.JOB_QUEUE_KEY)) as [-> | Hk3];
      [apply queue_key_no_prefix|].
    rewrite lookup_insert_ne in Hsome by (intros E; apply Hk3; symmetry; exact E).
    rewrite lookup_insert_ne in Hsome by (intros E; apply Hk1; symmetry; exact E).
    now apply Hno. }
  assert (Hmne : meta <> ∅).
  { intros E. rewrite E, lookup_empty in Fst. discriminate. }
  pose proof (int_field_of_int rt meta _ _ Fc) as Ic.
  pose proof (int_field_of_int rt meta _ _ Fs) as Is.
  pose proof (int_field_of_int rt meta _ _ Ff) as If.
  pose proof (int_field_of_int rt meta _ _ Fx) as Ix.
  set (r := job_values rt
              (job_record rt key meta (Some (clock w)) (Some (simulator_worker.t_start env))
                 (Some (simulator_worker.t_end env)) (Some returncode))
              (utc_as_local rt (clock wt))).
  assert (Hrow : r = {| DuckDB.j_id := job_id;
                        DuckDB.j_status :=
                          Some (if returncode =? 0 then lit "completed" else lit "failed");
                        DuckDB.j_created_at := Some (clock w);
                        DuckDB.j_started_at := Some (simulator_worker.t_start env);
                        DuckDB.j_finished_at := Some (simulator_worker.t_end env);
                        DuckDB.j_exit_code := Some returncode;
                        DuckDB.j_result_path := Some (if result_written then out_path else []);
                        DuckDB.j_error := Some [];
                        DuckDB.j_params := Some p;
                        DuckDB.j_last_updated := Some (utc_as_local rt t_sync) |}).
  { unfold r, job_values, job_record. cbn [id status created_at started_at finished_at
      exit_code result_path error params int_or_0].
    unfold key. rewrite (job_id_of_key job_id Hid), Fst, Fr, Fe, Hck2.
    unfold params_field. rewrite Fp.
    destruct p as [|c0 p0]; [congruence|]. cbn [str_truthy]. rewrite Hl.
    cbn [params_column]. rewrite Hp. reflexivity. }
  destruct (reconcile_single rt LOG_BATCH_LIMIT key job_id meta _ _ _ _ wt
              Hrf2 Hdf2 Htx2 Hkeys Hmeta Hmne Ic Is If Ix) as [_ Hget].
  - fold r. rewrite Hrow. reflexivity.
  - fold r. rewrite Hrow. unfold DuckDB.job_row_fits. cbn.
    rewrite Hck, Ht0, Ht1, Hcode, Hts. reflexivity.
  - fold w3 r in Hget. rewrite Hget, Hrow. unfold job_dict.
    cbn [DuckDB.j_id DuckDB.j_status DuckDB.j_created_at
      DuckDB.j_started_at DuckDB.j_finished_at DuckDB.j_exit_code DuckDB.j_result_path
      DuckDB.j_error DuckDB.j_params DuckDB.j_last_updated].
    unfold read_params. destruct p as [|c0 p0]; [congruence|]. cbn [str_truthy].
    rewrite Hl. reflexivity.
Qed.

Lemma finished_job_reaches_table_witness :
  let d := [(lit "mode", JStr (lit "http")); (lit "concurrency", JInt 5)] in
  let job_id := lit "0b5f-11" in
  let env := {| simulator_worker.child :=
                  simulator_worker.Exited [lit "warming up"; lit "done"] 3 false;
                simulator_worker.t_start := 1700000001;
                simulator_worker.t_end := 1700000031 |} in
  let w := fresh_world 1700000000 in
  let w1 := (bench_runner.start_job Sample.rt job_id (JDict d) w).2 in
  let w2 := worked Sample.rt (fun _ => lit "error")
                   (JDict [(lit "id", JStr job_id); (lit "params", JDict d)]) env w1 in
  let w3 := (_sync_jobs_and_logs_once Sample.rt 1000 (at_time 1700000032 w2)).2 in
  (get_job_by_id Sample.rt job_id w3).1
  = Ok (Some {| s_id := job_id; s_status := Some (lit "failed");
                s_created_at := Some 1700000000; s_started_at := Some 1700000001;
                s_finished_at := Some 1700000031; s_exit_code := Some 3;
                s_result_path := Some []; s_error := Some [];
                s_params := JDict d; s_last_updated := Some 1699971232 |}).
Proof.
  intros d job_id env w.
  pose proof (finished_job_reaches_table Sample.rt (fun _ => lit "error") 1000 job_id d w
                (sample_text (JDict d))
                (sample_text (JDict [(lit "id", JStr job_id); (lit "params", JDict d)]))
                [] env [lit "warming up"; lit "done"] 3 false 1700000032) as H.
  specialize (H eq_refl eq_refl eq_refl).
  specialize (H ltac:(vm_compute; reflexivity)).
  specialize (H ltac:(vm_compute; discriminate)).
  specialize (H ltac:(vm_compute; reflexivity)).
  specialize (H ltac:(vm_compute; reflexivity)).
  specialize (H ltac:(vm_compute; intros Hin; repeat (apply elem_of_cons in Hin as [Hin|Hin];
                        [discriminate Hin|]); inversion Hin)).
  specialize (H ltac:(intros k [v Hk]; vm_compute in Hk; discriminate Hk)).
  specialize (H eq_refl eq_refl eq_refl).
  specialize (H ltac:(cbn; lia)).
  specialize (H ltac:(vm_compute; reflexivity)).
  specialize (H ltac:(vm_compute; reflexivity)).
  specialize (H ltac:(vm_compute; reflexivity)).
  specialize (H ltac:(vm_compute; reflexivity)).
  specialize (H ltac:(vm_compute; reflexivity)).
  exact H.
Defined.

(** ** What [process_job] records *)

Section WorkerCrash.
Import simulator_worker.
Context (rt : runtime).

(** A job whose process cannot be started or read, handled without
    fault. *)
Lemma process_job_crash exn_text job_item env job d lines e s0 meta w :
  py_get job_item (lit "id") = Ok (JStr job) ->
  py_get_default job_item (lit "params") (JDict []) = Ok (JDict d) ->
  child env = Crashed lines e ->
  handling job s0 meta [] w ->
  (length lines < 2000)%nat ->
  let m := <[lit "finished_at" := str_of_int (t_end env)]>
             (<[lit "error" := exn_text e]>
                (<[lit "status" := lit "failed"]>
                   (<[lit "started_at" := str_of_int (t_start env)]>
                      (<[lit "status" := lit "running"]> meta)))) in
  exists w', process_job rt exn_text job_item env w = (Ok tt, w') /\
             handling job s0 m (lines ++ [lit "Worker error: " ++ exn_text e]) w'.
Proof.
  intros Hid Hp Hc Hw Hlen m.
  unfold process_job. rewrite Hid, Hp, Hc.
  unfold bind at 1. unfold lift at 1. unfold bind at 1. unfold lift at 1.
  unfold bind at 1. unfold lift at 1.
  destruct (set_job_field_step job s0 meta [] (lit "status") (lit "running") w Hw)
    as (w1 & E1 & H1).
  unfold bind at 1. rewrite E1.
  destruct (set_job_field_step job s0 _ [] (lit "started_at") (str_of_int (t_start env)) w1 H1)
    as (w2 & E2 & H2).
  unfold bind at 1. rewrite E2.
  unfold bind at 1. unfold lift at 1.
  unfold try_except.
  destruct (log_lines_step rt job s0 _ lines [] w2 H2 ltac:(cbn; lia)) as (w3 & E3 & H3).
  cbn [app] in H3.
  unfold bind at 1. rewrite E3. unfold raise.
  destruct (set_job_field_step job s0 _ lines (lit "status") (lit "failed") w3 H3)
    as (w4 & E4 & H4).
  unfold bind at 1. rewrite E4.
  destruct (set_job_field_step job s0 _ lines (lit "error") (exn_text e) w4 H4)
    as (w5 & E5 & H5).
  unfold bind at 1. rewrite E5.
  destruct (set_job_field_step job s0 _ lines (lit "finished_at") (str_of_int (t_end env)) w5 H5)
    as (w6 & E6 & H6).
  unfold bind at 1. rewrite E6.
  destruct (log_line_step rt job s0 _ lines (lit "Worker error: " ++ exn_text e) w6 H6)
    as (w7 & E7 & H7).
  rewrite last_2000_short in H7 by (rewrite length_app; cbn; lia).
  rewrite E7. eauto.
Qed.

End WorkerCrash.

(** X21. What [process_job] records of a process that ran to its end.  An
    item with a string id and a dictionary of parameters, handled without
    fault for a job that has a hash and no log yet; the process prints
    fewer than 2000 lines and returns [returncode].  Then [process_job]
    returns; in the hash it has set [started_at], [exit_code], [finished_at],
    the status [completed] for the code 0 and [failed] for any other, and
    [result_path] when the result file was written, and it has left the
    other fields as they were; the log list holds the lines printed, in
    order, followed for a code other than 0 by the line that tells the code;
    no other key has changed. *)
Theorem process_job_records_exit (rt : runtime) (exn_text : exn -> pystr) (job_item : json)
    (env : simulator_worker.run) (job_id : pystr) (d : list (pystr * json))
    (lines : list pystr) (returncode : Z) (result_written : bool)
    (s0 : Redis.server) (meta : gmap pystr pystr) (w : simulator_worker.worker) :
  py_get job_item (lit "id") = Ok (JStr job_id) ->
  simulator_worker.py_get_default job_item (lit "params") (JDict []) = Ok (JDict d) ->
  simulator_worker.child env = simulator_worker.Exited lines returncode result_written ->
  handling job_id s0 meta [] w ->
  (length lines < 2000)%nat ->
  let out := simulator_worker.process_job rt exn_text job_item env w in
  let final := if returncode =? 0 then lit "completed" else lit "failed" in
  let m1 := <[lit "exit_code" := str_of_int returncode]>
              (<[lit "started_at" := str_of_int (simulator_worker.t_start env)]>
                 (<[lit "status" := lit "running"]> meta)) in
  let m2 := <[lit "finished_at" := str_of_int (simulator_worker.t_end env)]>
              (<[lit "status" := final]> m1) in
  let m3 := if result_written
            then <[lit "result_path" :=
                     simulator_worker.RESULTS_DIR ++ lit "/bench_result_" ++ job_id
                     ++ lit ".json"]> m2
            else m2 in
  let logs := lines ++ (if returncode =? 0 then []
                        else [lit "Process exited with code " ++ str_of_int returncode]) in
  out.1 = Ok tt /\ handling job_id s0 m3 logs out.2.
Proof.
  intros Hid Hp Hc Hw Hlen out final m1 m2 m3 logs.
  destruct (process_job_clean rt exn_text job_item env job_id d lines returncode
              result_written s0 meta w Hid Hp Hc Hw Hlen) as (w' & E & H).
  unfold out. rewrite E. split; [reflexivity|exact H].
Qed.

Lemma process_job_records_exit_witness :
  let job_item := JDict [(lit "id", JStr (lit "j1")); (lit "params", JDict [])] in
  let env := {| simulator_worker.child := simulator_worker.Exited [lit "hello"] 2 true;
                simulator_worker.t_start := 1700000001;
                simulator_worker.t_end := 1700000031 |} in
  let meta : gmap pystr pystr := {[ lit "status" := lit "queued" ]} in
  let s0 := {| Redis.keyspace := {[ lit "bench_job:j1" := Redis.RHash meta ]};
               Redis.published := [] |} in
  let w := {| simulator_worker.server := s0; simulator_worker.faults := [] |} in
  let out := simulator_worker.process_job Sample.rt (fun _ => lit "error") job_item env w in
  out.1 = Ok tt /\
  handling (lit "j1") s0
    (<[lit "result_path" := lit "/simulator/bench_results/bench_result_j1.json"]>
       (<[lit "finished_at" := lit "1700000031"]>
          (<[lit "status" := lit "failed"]>
             (<[lit "exit_code" := lit "2"]>
                (<[lit "started_at" := lit "1700000001"]>
                   (<[lit "status" := lit "running"]> meta))))))
    [lit "hello"; lit "Process exited with code 2"] out.2.
Proof.
  intros job_item env meta s0 w.
  apply (process_job_records_exit Sample.rt (fun _ => lit "error") job_item env (lit "j1") []
           [lit "hello"] 2 true s0 meta w).
  - reflexivity.
  - vm_compute. reflexivity.
  - reflexivity.
  - split; [reflexivity|]. split; [vm_compute; reflexivity|].
    split; [vm_compute; reflexivity|]. intros k _ _. reflexivity.
  - cbn. lia.
Defined.

(** X22. What [process_job] records of a process that could not be
    started or read.  With the same item, handled without fault, when
    starting the process or reading its output raises after fewer than 2000
    lines: [process_job] returns, the exception does not leave it; the hash
    has the status [failed], the text of the exception as [error] and a
    finish time, no exit code is written; the log list holds the lines read
    before, followed by one line with the text of the exception. *)
Theorem process_job_records_crash (rt : runtime) (exn_text : exn -> pystr) (job_item : json)
    (env : simulator_worker.run) (job_id : pystr) (d : list (pystr * json))
    (lines : list pystr) (e : exn)
    (s0 : Redis.server) (meta : gmap pystr pystr) (w : simulator_worker.worker) :
  py_get job_item (lit "id") = Ok (JStr job_id) ->
  simulator_worker.py_get_default job_item (lit "params") (JDict []) = Ok (JDict d) ->
  simulator_worker.child env = simulator_worker.Crashed lines e ->
  handling job_id s0 meta [] w ->
  (length lines < 2000)%nat ->
  let out := simulator_worker.process_job rt exn_text job_item env w in
  let m := <[lit "finished_at" := str_of_int (simulator_worker.t_end env)]>
             (<[lit "error" := exn_text e]>
                (<[lit "status" := lit "failed"]>
                   (<[lit "started_at" := str_of_int (simulator_worker.t_start env)]>
                      (<[lit "status" := lit "running"]> meta)))) in
  out.1 = Ok tt /\
  handling job_id s0 m (lines ++ [lit "Worker error: " ++ exn_text e]) out.2.
Proof.
  intros Hid Hp Hc Hw Hlen out m.
  destruct (process_job_crash rt exn_text job_item env job_id d lines e s0 meta w
              Hid Hp Hc Hw Hlen) as (w' & E & H).
  unfold out. rewrite E. split; [reflexivity|exact H].
Qed.

Lemma process_job_records_crash_witness :
  let job_item := JDict [(lit "id", JStr (lit "j1"))] in
  let env := {| simulator_worker.child := simulator_worker.Crashed [] ValueError;
                simulator_worker.t_start := 1700000001;
                simulator_worker.t_end := 1700000002 |} in
  let meta : gmap pystr pystr := {[ lit "status" := lit "queued" ]} in
  let s0 := {| Redis.keyspace := {[ lit "bench_job:j1" := Redis.RHash meta ]};
               Redis.published := [] |} in
  let w := {| simulator_worker.server := s0; simulator_worker.faults := [] |} in
  let out := simulator_worker.process_job Sample.rt (fun _ => lit "embedded null byte")
               job_item env w in
  out.1 = Ok tt /\
  handling (lit "j1") s0
    (<[lit "finished_at" := lit "1700000002"]>
       (<[lit "error" := lit "embedded null byte"]>
          (<[lit "status" := lit "failed"]>
             (<[lit "started_at" := lit "1700000001"]>
                (<[lit "status" := lit "running"]> meta)))))
    [lit "Worker error: embedded null byte"] out.2.
Proof.
  intros job_item env meta s0 w.
  apply (process_job_records_crash Sample.rt (fun _ => lit "embedded null byte") job_item env
           (lit "j1") [] [] ValueError s0 meta w).
  - reflexivity.
  - vm_compute. reflexivity.
  - reflexivity.
  - split; [reflexivity|]. split; [vm_compute; reflexivity|].
    split; [vm_compute; reflexivity|]. intros k _ _. reflexivity.
  - cbn. lia.
Defined.

(** ** The output of a job, from the process to the reader *)

Lemma sync_key_not_job_key job : JOB_LOG_SYNC_PREFIX ++ job <> JOB_HASH_PREFIX ++ job.
Proof.
  intros H. apply (f_equal (fun l => l !! 9%nat)) in H. vm_compute in H. discriminate H.
Qed.

(** X23. The output of the simulator process is what [get_job_logs]
    returns.  A job with a hash, no log list, no watermark and no row from 0
    on; the worker handles its item without fault, the process prints fewer
    than 2000 lines and returns [returncode]; then the log sync runs often
    enough without fault.  [get_job_logs(job_id, offset, limit)] then
    returns, from the line numbered [offset] on and at most [limit] of
    them, the lines the process printed, in order and numbered from 0,
    followed for a code other than 0 by the line that tells the code. *)
Theorem process_output_read_back (rt : runtime) (exn_text : exn -> pystr)
    (LOG_BATCH_LIMIT : Z) (job_item : json) (env : simulator_worker.run) (job_id : pystr)
    (d : list (pystr * json)) (lines : list pystr) (returncode : Z) (result_written : bool)
    (meta : gmap pystr pystr) (n : nat) (w : world) (offset : Z) (limit : N) :
  0 < LOG_BATCH_LIMIT ->
  redis_faults w = [] -> duck_faults w = [] -> DuckDB.txn (duck w) = None ->
  py_get job_item (lit "id") = Ok (JStr job_id) ->
  simulator_worker.py_get_default job_item (lit "params") (JDict []) = Ok (JDict d) ->
  simulator_worker.child env = simulator_worker.Exited lines returncode result_written ->
  Redis.keyspace (redis w) !! (JOB_HASH_PREFIX ++ job_id) = Some (Redis.RHash meta) ->
  Redis.keyspace (redis w) !! (JOB_LOG_PREFIX ++ job_id) = None ->
  Redis.keyspace (redis w) !! (JOB_LOG_SYNC_PREFIX ++ job_id) = None ->
  rows_below job_id 0 (DuckDB.committed (duck w)) ->
  (length lines < 2000)%nat -> DuckDB.fits_bigint (clock w) = true ->
  let logs := lines ++ (if returncode =? 0 then []
                        else [lit "Process exited with code " ++ str_of_int returncode]) in
  Z.of_nat (length logs) <= Z.of_nat n * LOG_BATCH_LIMIT ->
  0 <= offset ->
  let w1 := worked rt exn_text job_item env w in
  let w2 := sync_times rt LOG_BATCH_LIMIT job_id n w1 in
  (get_job_logs job_id offset limit w2).1
  = Ok (take (N.to_nat limit) (drop (Z.to_nat offset) (stored_lines (clock w) logs))).
Proof.
  intros HL Hrf Hdf Htx Hid Hp Hc Hk Hlog Hs Hb Hlen Hck logs Hn Ho w1 w2.
  set (ww := {| simulator_worker.server := redis w; simulator_worker.faults := [] |}).
  assert (Hh : handling job_id (redis w) meta [] ww).
  { unfold handling, ww. cbn [simulator_worker.server simulator_worker.faults].
    split; [reflexivity|]. split; [exact Hk|]. split; [unfold list_at; now rewrite Hlog|].
    intros k _ _. reflexivity. }
  destruct (process_job_clean rt exn_text job_item env job_id d lines returncode
              result_written (redis w) meta ww Hid Hp Hc Hh Hlen) as (ww' & E & H).
  cbv zeta in H. fold logs in H. destruct H as (_ & _ & Hl1 & Hframe).
  assert (Hr1 : redis w1 = simulator_worker.server ww').
  { unfold w1, worked. cbn [redis]. fold ww. now rewrite E. }
  rewrite <- Hr1 in Hl1, Hframe.
  assert (Hw1 : watermark rt (redis w1) job_id = Ok 0).
  { unfold watermark, Redis.GET.
    rewrite Hframe, Hs; [reflexivity|apply sync_key_not_job_key|].
    apply not_eq_sym, log_key_not_sync_key. }
  apply (sync_then_get_job_logs rt LOG_BATCH_LIMIT job_id logs n w1 offset limit);
    try assumption.
  unfold logs. rewrite length_app.
  destruct (returncode =? 0); cbn [length]; change (2 ^ 63) with 9223372036854775808; lia.
Qed.

Lemma process_output_read_back_witness :
  let job_item := JDict [(lit "id", JStr (lit "j1")); (lit "params", JDict [])] in
  let env := {| simulator_worker.child :=
                  simulator_worker.Exited [lit "warming up"; lit "boom"] 2 false;
                simulator_worker.t_start := 1700000001;
                simulator_worker.t_end := 1700000031 |} in
  let w := with_hash (lit "bench_job:j1") [(lit "status", lit "queued")]
             (fresh_world 1700000040) in
  let w1 := worked Sample.rt (fun _ => lit "error") job_item env w in
  let w2 := sync_times Sample.rt 2 (lit "j1") 2 w1 in
  (get_job_logs (lit "j1") 1 10 w2).1
  = Ok [ {| s_seq := 1; s_ts := Some 1700000040; s_line := Some (lit "boom") |};
         {| s_seq := 2; s_ts := Some 1700000040;
            s_line := Some (lit "Process exited with code 2") |} ].
Proof.
  intros job_item env w.
  pose proof (process_output_read_back Sample.rt (fun _ => lit "error") 2 job_item env
                (lit "j1") [] [lit "warming up"; lit "boom"] 2 false
                (list_to_map [(lit "status", lit "queued")]) 2 w 1 10) as H.
  specialize (H ltac:(lia) eq_refl eq_refl eq_refl eq_refl).
  specialize (H ltac:(vm_compute; reflexivity)).
  specialize (H eq_refl).
  specialize (H ltac:(vm_compute; reflexivity)).
  specialize (H ltac:(vm_compute; reflexivity)).
  specialize (H ltac:(vm_compute; reflexivity)).
  specialize (H ltac:(intros r Hr; vm_compute in Hr; inversion Hr)).
  specialize (H ltac:(cbn; lia)).
  specialize (H ltac:(vm_compute; reflexivity)).
  specialize (H ltac:(vm_compute; discriminate)).
  specialize (H ltac:(lia)).
  vm_compute in H. vm_compute. exact H.
Defined.

(** ** The status of a job as [get_job] reads it from Redis *)

Lemma range_whole {A} (l : list A) : Redis.range l 0 (-1) = l.
Proof.
  destruct l as [|a l]; [reflexivity|].
  unfold Redis.range, Redis.norm_range. cbv zeta.
  set (n := Z.of_nat (length (a :: l))).
  assert (Hn : 0 < n) by (unfold n; cbn [length]; lia).
  change (0 <? 0) with false. change (-1 <? 0) with true. cbv iota.
  assert (E1 : (n + -1 <? 0) = false) by (apply Z.ltb_ge; lia).
  assert (E2 : (n <=? 0) = false) by (apply Z.leb_gt; lia).
  assert (E3 : (n <=? n + -1) = false) by (apply Z.leb_gt; lia).
  change (0 <? 0) with false. cbv iota.
  rewrite E1, E2, E3. cbn [orb].
  replace (Z.to_nat (n + -1 - 0 + 1)) with (length (a :: l)) by lia.
  change (Z.to_nat 0) with 0%nat. cbn [drop]. apply firstn_all.
Qed.

Lemma EXISTS_state k s : (Redis.EXISTS k s).2 = s.
Proof. reflexivity. Qed.

Section GetJob.
Context (rt : runtime) (load : pystr -> option json).

(** [get_job] on a job with a hash, without fault: what each key of the
    dictionary holds. *)
Lemma get_job_fields job_id w hash l :
  redis_faults w = [] ->
  Redis.keyspace (redis w) !! (JOB_HASH_PREFIX ++ job_id) = Some (Redis.RHash hash) ->
  list_at (redis w) (JOB_LOG_PREFIX ++ job_id) = Some l ->
  exists g,
    bench_runner.get_job rt load job_id w = (Ok (Some g), w) /\
    g !! lit "log" = Some (bench_runner.Lines l) /\
    (forall fld, fld <> lit "params" -> fld <> lit "log" -> fld <> lit "result" ->
                 g !! fld = bench_runner.Text <$> hash !! fld) /\
    (forall p v, hash !! lit "params" = Some p -> p <> [] -> json_loads rt p = Some v ->
                 g !! lit "params" = Some (bench_runner.Parsed v)) /\
    (forall path, hash !! lit "result_path" = Some path -> hash !! lit "result" = None ->
                  g !! lit "result"
                  = match path with
                    | [] => None
                    | _ => match load path with
                           | Some JNull | None => None
                           | Some v => Some (bench_runner.Parsed v)
                           end
                    end).
Proof.
  intros Hf Hk Hl.
  destruct w as [rd rf dk df ck]. cbn [redis redis_faults] in *. subst rf.
  set (w := {| redis := rd; redis_faults := []; duck := dk; duck_faults := df; clock := ck |}).
  assert (Hlogs : (found_log <- redis_call (Redis.EXISTS (JOB_LOG_PREFIX ++ job_id)) ;;
                   (if found_log =? 0 then ret []
                    else redis_call (Redis.LRANGE (JOB_LOG_PREFIX ++ job_id) 0 (-1)))) w
                  = (Ok l, w)).
  { unfold bind at 1. rewrite redis_call_ok by reflexivity.
    cbn [redis redis_faults duck duck_faults clock w]. unfold Redis.EXISTS. cbn [fst snd].
    unfold list_at in Hl.
    destruct (Redis.keyspace rd !! (JOB_LOG_PREFIX ++ job_id)) as [[v|l0|h]|] eqn:E;
      try discriminate.
    - change (1 =? 0) with false. cbv iota. rewrite redis_call_ok by reflexivity.
      cbn [redis redis_faults duck duck_faults clock]. unfold Redis.LRANGE. rewrite E.
      cbn [fst snd]. rewrite range_whole. now simplify_eq.
    - change (0 =? 0) with true. cbv iota. unfold ret. now simplify_eq. }
  eexists. split.
  { unfold bench_runner.get_job.
    unfold bind at 1. rewrite redis_call_ok by reflexivity.
    cbn [redis redis_faults duck duck_faults clock fst snd w].
    rewrite EXISTS_state. unfold Redis.EXISTS at 1.
    cbn [fst snd]. rewrite Hk. change (1 =? 0) with false. cbv iota.
    unfold bind at 1. rewrite redis_call_ok by reflexivity.
    cbn [redis redis_faults duck duck_faults clock w]. unfold Redis.HGETALL. rewrite Hk.
    cbn [fst snd]. fold w.
    revert Hlogs. unfold bind. intros Hlogs.
    change db_sync.JOB_LOG_PREFIX with JOB_LOG_PREFIX.
    destruct (redis_call (Redis.EXISTS (JOB_LOG_PREFIX ++ job_id)) w)
      as [[found_log|e] w1] eqn:E1; [|discriminate Hlogs].
    rewrite Hlogs. unfold ret. reflexivity. }
  set (meta1 := match hash !! lit "params" with
                | Some p => if str_truthy p
                            then match json_loads rt p with
                                 | Some v => <[lit "params" := bench_runner.Parsed v]>
                                               (bench_runner.Text <$> hash)
                                 | None => bench_runner.Text <$> hash
                                 end
                            else bench_runner.Text <$> hash
                | None => bench_runner.Text <$> hash
                end).
  assert (Hother : forall fld, fld <> lit "params" ->
                               meta1 !! fld = bench_runner.Text <$> hash !! fld).
  { intros fld Hne. unfold meta1.
    destruct (hash !! lit "params") as [p|]; [|apply lookup_fmap].
    destruct (str_truthy p); [|apply lookup_fmap].
    destruct (json_loads rt p); [|apply lookup_fmap].
    rewrite lookup_insert_ne by (intros E; apply Hne; symmetry; exact E). apply lookup_fmap. }
  set (res := match hash !! lit "result_path" with
              | Some path => if str_truthy path then load path else None
              | None => None
              end).
  set (meta2 := <[lit "log" := bench_runner.Lines l]> meta1).
  assert (Hm2 : forall fld, fld <> lit "log" -> meta2 !! fld = meta1 !! fld).
  { intros fld Hne. unfold meta2.
    now rewrite lookup_insert_ne by (intros E; apply Hne; symmetry; exact E). }
  assert (Hfinal : forall fld, fld <> lit "result" ->
            match res with
            | Some JNull | None => meta2
            | Some v => <[lit "result" := bench_runner.Parsed v]> meta2
            end !! fld = meta2 !! fld).
  { intros fld Hne. destruct res as [[]|]; try reflexivity;
      now rewrite lookup_insert_ne by (intros E; apply Hne; symmetry; exact E). }
  split; [|split; [|split]].
  - rewrite Hfinal by discriminate. unfold meta2. apply lookup_insert_eq.
  - intros fld H1 H2 H3. rewrite Hfinal, Hm2 by assumption. now apply Hother.
  - intros p v Hp Hne Hv. rewrite Hfinal, Hm2 by discriminate.
    unfold meta1. rewrite Hp. destruct p as [|c0 p0]; [congruence|]. cbn [str_truthy].
    rewrite Hv. apply lookup_insert_eq.
  - intros path Hp Hr. unfold res. rewrite Hp.
    assert (Hnone : meta2 !! lit "result" = None).
    { rewrite Hm2, Hother by discriminate. now rewrite Hr. }
    destruct path as [|c0 p0]; cbn [str_truthy]; [exact Hnone|].
    destruct (load (c0 :: p0)) as [[]|]; try exact Hnone; apply lookup_insert_eq.
Qed.

End GetJob.

Lemma finished_job_other_fields job_id now p t0 t1 code (res : bool) out_path :
  let final := if code =? 0 then lit "completed" else lit "failed" in
  let m1 := <[lit "exit_code" := str_of_int code]>
              (<[lit "started_at" := str_of_int t0]>
                 (<[lit "status" := lit "running"]> (job_meta job_id now p))) in
  let m2 := <[lit "finished_at" := str_of_int t1]> (<[lit "status" := final]> m1) in
  let m3 := if res then <[lit "result_path" := out_path]> m2 else m2 in
  m3 !! lit "id" = Some job_id /\ m3 !! lit "result" = None.
Proof.
  intros final m1 m2 m3. subst m3 m2 m1. generalize final. intros st.
  destruct res; repeat split; vm_compute; reflexivity.
Qed.

(** X25. The status of a finished job as the web application reads it from
    Redis.  A job is started by [start_job] with parameters that are a
    dictionary, then the worker handles the queued item: the simulator
    process prints fewer than 2000 lines and returns [returncode]; Redis
    answers throughout and the id is new.  [get_job] then returns a
    dictionary in which the fields of the hash are texts: the id, the status
    [completed] when the code is 0 and [failed] otherwise, the times and the
    code in decimal, the path of the result file when the worker found it
    (the empty text otherwise) and an empty error; [params] is the dictionary
    of the request again, not its text; [log] is the list of the lines the
    process printed, followed for a code other than 0 by the line that tells
    the code; and [result] is there exactly when the worker found the file
    and the web process can load from it a value other than [null]. *)
Theorem job_status_read_back (rt : runtime) (exn_text : exn -> pystr)
    (load : pystr -> option json) (job_id : pystr) (d : list (pystr * json)) (w : world)
    (p item : pystr) (queue : list pystr) (env : simulator_worker.run)
    (lines : list pystr) (returncode : Z) (result_written : bool) :
  redis_faults w = [] ->
  json_dumps rt (JDict d) = Some p -> p <> [] -> json_loads rt p = Some (JDict d) ->
  json_dumps rt (JDict [(lit "id", JStr job_id); (lit "params", JDict d)]) = Some item ->
  Redis.keyspace (redis w) !! (JOB_HASH_PREFIX ++ job_id) = None ->
  list_at (redis w) bench_runner.JOB_QUEUE_KEY = Some queue ->
  Redis.keyspace (redis w) !! (JOB_LOG_PREFIX ++ job_id) = None ->
  simulator_worker.child env = simulator_worker.Exited lines returncode result_written ->
  (length lines < 2000)%nat ->
  let w1 := (bench_runner.start_job rt job_id (JDict d) w).2 in
  let w2 := worked rt exn_text (JDict [(lit "id", JStr job_id); (lit "params", JDict d)])
                   env w1 in
  let out_path := simulator_worker.RESULTS_DIR ++ lit "/bench_result_" ++ job_id
                  ++ lit ".json" in
  exists g,
    (bench_runner.get_job rt load job_id w2).1 = Ok (Some g) /\
    g !! lit "id" = Some (bench_runner.Text job_id) /\
    g !! lit "status"
    = Some (bench_runner.Text (if returncode =? 0 then lit "completed" else lit "failed")) /\
    g !! lit "created_at" = Some (bench_runner.Text (str_of_int (clock w))) /\
    g !! lit "started_at"
    = Some (bench_runner.Text (str_of_int (simulator_worker.t_start env))) /\
    g !! lit "finished_at"
    = Some (bench_runner.Text (str_of_int (simulator_worker.t_end env))) /\
    g !! lit "exit_code" = Some (bench_runner.Text (str_of_int returncode)) /\
    g !! lit "result_path"
    = Some (bench_runner.Text (if result_written then out_path else [])) /\
    g !! lit "error" = Some (bench_runner.Text []) /\
    g !! lit "params" = Some (bench_runner.Parsed (JDict d)) /\
    g !! lit "log"
    = Some (bench_runner.Lines
              (lines ++ (if returncode =? 0 then []
                         else [lit "Process exited with code " ++ str_of_int returncode]))) /\
    g !! lit "result"
    = (if result_written
       then match load out_path with
            | Some JNull | None => None
            | Some v => Some (bench_runner.Parsed v)
            end
       else None).
Proof.
  intros Hrf Hp Hne Hl Hi Hk Hq Hlog Hc Hlen w1 w2 out_path.
  assert (Hw1 : w1 = started job_id p item queue w).
  { unfold w1. now rewrite (start_job_effect rt job_id (JDict d) w p item queue Hrf Hp Hi Hk Hq). }
  set (key := JOB_HASH_PREFIX ++ job_id) in *.
  set (logkey := JOB_LOG_PREFIX ++ job_id) in *.
  set (ww := {| simulator_worker.server := redis w1; simulator_worker.faults := [] |}).
  assert (Hh : handling job_id (redis w1) (job_meta job_id (clock w) p) [] ww).
  { unfold handling, ww. cbn [simulator_worker.server simulator_worker.faults].
    split; [reflexivity|]. rewrite Hw1. unfold started.
    cbn [redis Redis.with_keyspace Redis.keyspace]. split; [|split].
    - rewrite lookup_insert_ne by (apply not_eq_sym, job_key_not_queue_key).
      apply lookup_insert_eq.
    - unfold list_at. cbn [Redis.keyspace Redis.with_keyspace].
      rewrite lookup_insert_ne by (apply not_eq_sym, log_key_not_queue_key).
      rewrite lookup_insert_ne by apply job_key_not_log_key.
      fold logkey. now rewrite Hlog.
    - intros k _ _. reflexivity. }
  destruct (process_job_clean rt exn_text
              (JDict [(lit "id", JStr job_id); (lit "params", JDict d)]) env job_id d
              lines returncode result_written (redis w1) _ ww eq_refl eq_refl Hc Hh Hlen)
    as (ww' & Eww & Hh').
  cbv zeta in Hh'. fold out_path in Hh'.
  destruct (finished_job_fields job_id (clock w) p (simulator_worker.t_start env)
              (simulator_worker.t_end env) returncode result_written out_path)
    as (Fst & Fc & Fs & Ff & Fx & Fr & Fe & Fp).
  destruct (finished_job_other_fields job_id (clock w) p (simulator_worker.t_start env)
              (simulator_worker.t_end env) returncode result_written out_path)
    as (Fid & Fres).
  cbv zeta in Fst, Fc, Fs, Ff, Fx, Fr, Fe, Fp, Fid, Fres.
  match type of Hh' with handling _ _ ?m _ _ => set (meta := m) in * end.
  destruct Hh' as (_ & Hmeta & Hlogs & _).
  assert (Hw2 : redis w2 = simulator_worker.server ww').
  { unfold w2, worked. cbn [redis]. fold ww. now rewrite Eww. }
  assert (Hrf2 : redis_faults w2 = []) by (unfold w2, worked; cbn; rewrite Hw1; exact Hrf).
  rewrite <- Hw2 in Hmeta, Hlogs.
  destruct (get_job_fields rt load job_id w2 meta _ Hrf2 Hmeta Hlogs)
    as (g & Eg & Glog & Gfld & Gpar & Gres).
  exists g. rewrite Eg. split; [reflexivity|].
  repeat (split; [rewrite Gfld by discriminate;
                  first [rewrite Fid | rewrite Fst | rewrite Fc | rewrite Fs | rewrite Ff
                        | rewrite Fx | rewrite Fr | rewrite Fe]; reflexivity|]).
  split; [exact (Gpar p (JDict d) Fp Hne Hl)|].
  split; [exact Glog|].
  rewrite (Gres _ Fr Fres). destruct result_written; reflexivity.
Qed.

Lemma job_status_read_back_witness :
  let d := [(lit "mode", JStr (lit "http")); (lit "concurrency", JInt 5)] in
  let job_id := lit "0b5f-11" in
  let env := {| simulator_worker.child :=
                  simulator_worker.Exited [lit "warming up"; lit "done"] 3 true;
                simulator_worker.t_start := 1700000001;
                simulator_worker.t_end := 1700000031 |} in
  let load := fun _ : pystr => Some (JInt 7) in
  let w := fresh_world 1700000000 in
  let w1 := (bench_runner.start_job Sample.rt job_id (JDict d) w).2 in
  let w2 := worked Sample.rt (fun _ => lit "error")
                   (JDict [(lit "id", JStr job_id); (lit "params", JDict d)]) env w1 in
  exists g,
    (bench_runner.get_job Sample.rt load job_id w2).1 = Ok (Some g) /\
    g !! lit "status" = Some (bench_runner.Text (lit "failed")) /\
    g !! lit "exit_code" = Some (bench_runner.Text (lit "3")) /\
    g !! lit "params" = Some (bench_runner.Parsed (JDict d)) /\
    g !! lit "log"
    = Some (bench_runner.Lines [lit "warming up"; lit "done";
                                lit "Process exited with code 3"]) /\
    g !! lit "result" = Some (bench_runner.Parsed (JInt 7)).
Proof.
  intros d job_id env load w.
  pose proof (job_status_read_back Sample.rt (fun _ => lit "error") load job_id d w
                (sample_text (JDict d))
                (sample_text (JDict [(lit "id", JStr job_id); (lit "params", JDict d)]))
                [] env [lit "warming up"; lit "done"] 3 true) as H.
  specialize (H eq_refl).
  specialize (H ltac:(vm_compute; reflexivity)).
  specialize (H ltac:(vm_compute; discriminate)).
  specialize (H ltac:(vm_compute; reflexivity)).
  specialize (H ltac:(vm_compute; reflexivity)).
  specialize (H eq_refl eq_refl eq_refl eq_refl).
  specialize (H ltac:(cbn; lia)).
  cbv zeta in H.
  destruct H as (g & H0 & _ & H2 & _ & _ & _ & H6 & _ & _ & H9 & H10 & H11).
  exists g. repeat split; assumption.
Defined.

Lemma HGETALL_state k s : (Redis.HGETALL k s).2 = s.
Proof. unfold Redis.HGETALL. destruct (Redis.keyspace s !! k) as [[]|]; reflexivity. Qed.

Lemma preserves_stores_read {A} s0 d0 (cmd : Redis.server -> result A * Redis.server) :
  (forall s, (cmd s).2 = s) ->
  preserves (fun w => redis w = s0 /\ duck w = d0) (redis_call cmd).
Proof.
  intros Hc w [H1 H2]. destruct (redis_call cmd w) as [r w'] eqn:E. cbn [snd].
  pose proof (redis_call_read cmd w Hc) as Hr. rewrite E in Hr. cbn [snd] in Hr.
  apply redis_call_inv in E as (Hd & _). split; congruence.
Qed.

(** X26. The status reads of the web application only read.  Whatever the
    keys hold and whenever Redis fails, [get_job] and [list_jobs] leave the
    keys and the published messages of Redis and the database as they
    were. *)
Theorem status_reads_change_nothing (rt : runtime) (load : pystr -> option json)
    (job_id : pystr) (w : world) :
  let w1 := (bench_runner.get_job rt load job_id w).2 in
  let w2 := (bench_runner.list_jobs w).2 in
  redis w1 = redis w /\ duck w1 = duck w /\ redis w2 = redis w /\ duck w2 = duck w.
Proof.
  intros w1 w2.
  assert (H1 : preserves (fun w' => redis w' = redis w /\ duck w' = duck w)
                 (bench_runner.get_job rt load job_id)).
  { unfold bench_runner.get_job.
    apply preserves_bind; [apply preserves_stores_read, EXISTS_state|intros found].
    destruct (found =? 0); [apply preserves_ret|].
    apply preserves_bind; [apply preserves_stores_read, HGETALL_state|intros hash].
    apply preserves_bind; [apply preserves_stores_read, EXISTS_state|intros found_log].
    apply preserves_bind; [|intros logs; apply preserves_ret].
    destruct (found_log =? 0); [apply preserves_ret|].
    apply preserves_stores_read. intros s. apply LRANGE_state. }
  assert (H2 : preserves (fun w' => redis w' = redis w /\ duck w' = duck w)
                 bench_runner.list_jobs).
  { unfold bench_runner.list_jobs.
    apply preserves_bind; [apply preserves_stores_read; reflexivity|intros keys].
    apply preserves_ret. }
  destruct (H1 w (conj eq_refl eq_refl)) as [A1 A2].
  destruct (H2 w (conj eq_refl eq_refl)) as [B1 B2].
  auto.
Qed.

(** ** The loop of the reconciler for one job *)

Lemma keys_single_inv (s : Redis.server) (key : pystr) :
  Redis.KEYS_prefix JOB_HASH_PREFIX s = (Ok [key], s) ->
  forall k, k <> key -> is_Some (Redis.keyspace s !! k) -> is_prefix JOB_HASH_PREFIX k = false.
Proof.
  unfold Redis.KEYS_prefix. intros H k Hne [v Hk].
  destruct (is_prefix JOB_HASH_PREFIX k) eqn:Hp; [|reflexivity].
  exfalso. apply Hne.
  assert (Hin : k ∈ List.filter (is_prefix JOB_HASH_PREFIX) (map_to_list (Redis.keyspace s)).*1).
  { apply list_elem_of_In, filter_In. split; [|exact Hp].
    apply list_elem_of_In, list_elem_of_fmap. exists (k, v). split; [reflexivity|].
    now apply elem_of_map_to_list. }
  injection H as H. rewrite H in Hin. apply elem_of_cons in Hin as [Hin|Hin]; [exact Hin|].
  inversion Hin.
Qed.

Lemma sync_key_no_prefix job : is_prefix JOB_HASH_PREFIX (JOB_LOG_SYNC_PREFIX ++ job) = false.
Proof. reflexivity. Qed.

Lemma cycle_times_length t naps : length (cycle_times t naps) = length naps.
Proof. revert t. induction naps as [|d r IH]; intros t; cbn; [reflexivity|]. now rewrite IH. Qed.

(** What the cycles copy, apart from the times: the entries of the list
    from the watermark on, in order, each under its index. *)
Lemma cycle_rows_lines LIMIT job_id (l : list pystr) (times : list Z) : forall wm,
  0 < LIMIT -> 0 <= wm ->
  Z.of_nat (length l) <= wm + Z.of_nat (length times) * LIMIT ->
  (fun r => (DuckDB.l_job_id r, DuckDB.l_seq r, DuckDB.l_line r))
    <$> cycle_rows LIMIT job_id l wm times
  = imap (fun i line => (job_id, wm + Z.of_nat i, Some line)) (drop (Z.to_nat wm) l).
Proof.
  induction times as [|t rest IH]; intros wm HL H0 Hn; cbn [cycle_rows length] in *.
  - rewrite drop_ge by lia. reflexivity.
  - set (k := batch_length LIMIT (Z.of_nat (length l)) wm).
    assert (Hk : Z.of_nat k = Z.max 0 (Z.min (Z.of_nat (length l)) (wm + LIMIT) - wm))
      by (unfold k, batch_length; lia).
    rewrite fmap_app, IH by nia.
    replace (Z.to_nat (wm + Z.of_nat k)) with (Z.to_nat wm + k)%nat by lia.
    rewrite <- drop_drop.
    set (xs := drop (Z.to_nat wm) l).
    rewrite <- (take_drop k xs) at 3. rewrite imap_app. f_equal.
    + unfold list_rows. rewrite fmap_imap. apply imap_ext. intros i x _. reflexivity.
    + apply imap_ext. intros i x _. cbn.
      assert (Hlen : length (take k xs) = k).
      { rewrite length_take. unfold xs. rewrite length_drop. lia. }
      rewrite Hlen. do 2 f_equal. lia.
Qed.

(** Each row carries the second of one of the cycles. *)
Lemma cycle_rows_times LIMIT job_id (l : list pystr) (times : list Z) : forall wm r,
  r ∈ cycle_rows LIMIT job_id l wm times ->
  exists t, t ∈ times /\ DuckDB.l_ts r = Some t.
Proof.
  induction times as [|t rest IH]; intros wm r Hr; cbn [cycle_rows] in Hr.
  - inversion Hr.
  - apply elem_of_app in Hr as [Hr | Hr].
    + exists t. split; [left|]. unfold list_rows in Hr.
      apply list_elem_of_lookup in Hr as [i Hi]. rewrite list_lookup_imap in Hi.
      destruct (take _ _ !! i); [|discriminate]. cbn in Hi. now simplify_eq.
    + destruct (IH _ _ Hr) as (t' & Ht' & Hts). exists t'. split; [now right|exact Hts].
Qed.

Section Cycles.
Context (rt : runtime) (LIMIT : Z).
Context (job_id : pystr) (meta : gmap pystr pystr) (l : list pystr).
Context (c s f x : option Z).
Hypothesis (HL : 0 < LIMIT).
Hypothesis (Hid : 58%N ∉ job_id).
Hypothesis (Hmne : meta <> ∅).
Hypothesis (Hc : int_field rt meta (lit "created_at") = Ok c).
Hypothesis (Hs : int_field rt meta (lit "started_at") = Ok s).
Hypothesis (Hf : int_field rt meta (lit "finished_at") = Ok f).
Hypothesis (Hx : int_field rt meta (lit "exit_code") = Ok x).
Hypothesis (Hlen : Z.of_nat (length l) < 2 ^ 63).

Let key := JOB_HASH_PREFIX ++ job_id.
Let row (t : Z) := job_values rt (job_record rt key meta c s f x) (utc_as_local rt t).

Lemma one_job_put t w :
  one_job job_id meta l w -> one_job job_id meta l (put_job (row t) w).
Proof. intros (H1 & H2 & H3 & H4 & H5 & H6). repeat split; assumption. Qed.

Lemma one_job_at_time t w :
  one_job job_id meta l w -> one_job job_id meta l (at_time t w).
Proof. intros (H1 & H2 & H3 & H4 & H5 & H6). repeat split; assumption. Qed.

Lemma one_job_set_watermark z rows w :
  one_job job_id meta l w ->
  one_job job_id meta l (set_watermark job_id z (add_logs rows w)).
Proof.
  intros (H1 & H2 & H3 & H4 & H5 & H6). unfold one_job.
  split; [exact H1|]. split; [exact H2|]. split; [exact H3|].
  assert (H4' : Redis.keyspace (redis (set_watermark job_id z (add_logs rows w)))
                !! (JOB_HASH_PREFIX ++ job_id) = Some (Redis.RHash meta)).
  { unfold set_watermark, add_logs. cbn [redis Redis.with_keyspace Redis.keyspace].
    rewrite lookup_insert_ne by apply sync_key_not_job_key. exact H4. }
  split; [exact H4'|]. split.
  - apply (keys_single _ _ _ H4' (job_key_prefix job_id)).
    pose proof (keys_single_inv _ _ H5) as H5'.
    intros k Hk Hsome. unfold set_watermark, add_logs in Hsome.
    cbn [redis Redis.with_keyspace Redis.keyspace] in Hsome.
    destruct (decide (k = JOB_LOG_SYNC_PREFIX ++ job_id)) as [-> | Hne];
      [apply sync_key_no_prefix|].
    rewrite lookup_insert_ne in Hsome by (intros E; apply Hne; symmetry; exact E).
    now apply H5'.
  - rewrite list_at_set_watermark. exact H6.
Qed.

(** One cycle: the row of the job is replaced, then the log sync runs. *)
Lemma cycle_is_upsert_then_sync w :
  one_job job_id meta l w ->
  DuckDB.job_row_fits (row (clock w)) = true ->
  (_sync_jobs_and_logs_once rt LIMIT w).2
  = (_sync_logs_for_job rt LIMIT job_id (put_job (row (clock w)) w)).2.
Proof.
  intros (H1 & H2 & H3 & H4 & H5 & H6) Hfit.
  rewrite (sync_once_single rt LIMIT key w H1) by exact H5.
  rewrite (sync_one_job_upserts rt LIMIT key w meta c s f x H1 H4 Hmne Hc Hs Hf Hx).
  unfold bind. rewrite (upsert_job_replaces rt _ w H2 H3) by exact Hfit.
  fold (row (clock w)). unfold key. rewrite (job_id_of_key job_id Hid). reflexivity.
Qed.

Lemma jobs_with_put t w :
  jobs_with job_id (DuckDB.committed (duck (put_job (row t) w))) = [row t].
Proof.
  unfold put_job. cbn [duck DuckDB.committed].
  pose proof (jobs_with_replace (row t) (DuckDB.committed (duck w))) as H.
  assert (Hj : DuckDB.j_id (row t) = job_id).
  { unfold row, job_values, job_record. cbn [DuckDB.j_id id]. unfold key.
    apply job_id_of_key, Hid. }
  now rewrite Hj in H.
Qed.

(** The state after one cycle. *)
Lemma cycle_step w wm :
  one_job job_id meta l w ->
  DuckDB.fits_bigint (clock w) = true ->
  DuckDB.job_row_fits (row (clock w)) = true ->
  watermark rt (redis w) job_id = Ok wm ->
  rows_below job_id wm (DuckDB.committed (duck w)) ->
  let k := batch_length LIMIT (Z.of_nat (length l)) wm in
  let w1 := (_sync_jobs_and_logs_once rt LIMIT w).2 in
  one_job job_id meta l w1 /\ clock w1 = clock w /\
  watermark rt (redis w1) job_id = Ok (wm + Z.of_nat k) /\
  rows_below job_id (wm + Z.of_nat k) (DuckDB.committed (duck w1)) /\
  DuckDB.job_logs (DuckDB.committed (duck w1))
  = DuckDB.job_logs (DuckDB.committed (duck w))
    ++ list_rows job_id (clock w) wm (take k (drop (Z.to_nat wm) l)) /\
  jobs_with job_id (DuckDB.committed (duck w1)) = [row (clock w)].
Proof.
  intros Hone Hck Hfit Hw Hb k w1.
  pose proof (watermark_nonneg rt _ _ _ Hw) as H0.
  unfold w1. rewrite (cycle_is_upsert_then_sync w Hone Hfit).
  pose proof (one_job_put (clock w) w Hone) as Hp.
  pose proof (jobs_with_put (clock w) w) as Hjp.
  set (wp := put_job (row (clock w)) w) in *.
  assert (Hckp : clock wp = clock w) by reflexivity.
  assert (Hwp : watermark rt (redis wp) job_id = Ok wm) by exact Hw.
  assert (Hbp : rows_below job_id wm (DuckDB.committed (duck wp))) by exact Hb.
  assert (Hlogs : DuckDB.job_logs (DuckDB.committed (duck wp))
                  = DuckDB.job_logs (DuckDB.committed (duck w))) by reflexivity.
  destruct Hp as (P1 & P2 & P3 & P4 & P5 & P6).
  destruct (Z.le_gt_cases (Z.of_nat (length l)) wm) as [Hle | Hgt].
  - assert (Hk0 : k = 0%nat) by (unfold k, batch_length; lia).
    rewrite (sync_noop rt LIMIT job_id wp l wm P1 P6 Hwp Hle). cbn [snd].
    rewrite Hk0. cbn [take list_rows imap]. rewrite app_nil_r, Z.add_0_r.
    split; [repeat split; assumption|]. repeat split; assumption.
  - assert (Hlt : wm < Z.of_nat (length l)) by lia.
    rewrite (sync_step_copies rt LIMIT job_id wp l wm HL P1 P2 P3 P6 Hwp Hlt Hbp Hlen)
      by (rewrite Hckp; exact Hck).
    rewrite Hckp. fold k.
    assert (Hk : Z.of_nat k = Z.min (Z.of_nat (length l)) (wm + LIMIT) - wm)
      by (unfold k, batch_length; lia).
    set (batch := take k (drop (Z.to_nat wm) l)).
    assert (Hbl : length batch = k).
    { unfold batch. rewrite length_take, length_drop. lia. }
    split; [|split; [|split; [|split; [|split]]]].
    + apply one_job_set_watermark. repeat split; assumption.
    + reflexivity.
    + apply watermark_set. lia.
    + unfold set_watermark, add_logs. cbn [duck DuckDB.committed].
      apply (rows_below_app job_id wm); [exact Hbp|lia|].
      intros r0 Hr0. apply list_rows_seq_lt in Hr0. lia.
    + unfold set_watermark, add_logs. cbn [duck DuckDB.committed DuckDB.job_logs].
      now rewrite Hlogs.
    + unfold set_watermark, add_logs. cbn [duck DuckDB.committed].
      unfold jobs_with in *. cbn [DuckDB.jobs]. exact Hjp.
Qed.

Lemma scan_unfold d rest w :
  _scan_and_sync rt LIMIT (d :: rest) w
  = _scan_and_sync rt LIMIT rest
      (at_time (clock (_sync_jobs_and_logs_once rt LIMIT w).2 + d)
               (_sync_jobs_and_logs_once rt LIMIT w).2).
Proof.
  cbn [_scan_and_sync]. unfold bind at 1. unfold try_except.
  pose proof (sync_once_returns rt LIMIT w) as H.
  destruct (_sync_jobs_and_logs_once rt LIMIT w) as [r w1]. cbn [fst snd] in *. subst r.
  unfold bind, sleep, modify. reflexivity.
Qed.

Lemma scan_copies (naps : list Z) : forall w wm,
  one_job job_id meta l w ->
  Forall (fun t => DuckDB.fits_bigint t = true /\ DuckDB.job_row_fits (row t) = true)
         (cycle_times (clock w) naps) ->
  watermark rt (redis w) job_id = Ok wm ->
  rows_below job_id wm (DuckDB.committed (duck w)) ->
  Z.of_nat (length l) <= wm + Z.of_nat (length naps) * LIMIT ->
  let w' := (_scan_and_sync rt LIMIT naps w).2 in
  (naps <> [] ->
   jobs_with job_id (DuckDB.committed (duck w'))
   = [row (List.last (cycle_times (clock w) naps) 0)]) /\
  DuckDB.job_logs (DuckDB.committed (duck w'))
  = DuckDB.job_logs (DuckDB.committed (duck w))
    ++ cycle_rows LIMIT job_id l wm (cycle_times (clock w) naps) /\
  watermark rt (redis w') job_id = Ok (Z.max wm (Z.of_nat (length l))) /\
  clock w' = clock w + foldr Z.add 0 naps.
Proof.
  induction naps as [|d rest IH]; intros w wm Hone Hfits Hw Hb Hn w';
    pose proof (watermark_nonneg rt _ _ _ Hw) as H0.
  { subst w'. cbn [_scan_and_sync cycle_times cycle_rows foldr length] in *. unfold ret.
    cbn [snd]. rewrite app_nil_r, Z.add_0_r.
    replace (Z.max wm (Z.of_nat (length l))) with wm by lia.
    split; [congruence|]. auto. }
  subst w'. rewrite scan_unfold. cbn [cycle_times cycle_rows foldr length] in *.
  apply Forall_cons in Hfits as [[Hck Hfit] Hfits].
  destruct (cycle_step w wm Hone Hck Hfit Hw Hb) as (S1 & S2 & S3 & S4 & S5 & S6).
  set (k := batch_length LIMIT (Z.of_nat (length l)) wm) in *.
  set (w1 := (_sync_jobs_and_logs_once rt LIMIT w).2) in *.
  assert (Hk : Z.of_nat k = Z.max 0 (Z.min (Z.of_nat (length l)) (wm + LIMIT) - wm))
    by (unfold k, batch_length; lia).
  set (wt := at_time (clock w1 + d) w1).
  assert (Hckt : clock wt = clock w + d) by (unfold wt, at_time; cbn [clock]; lia).
  destruct (IH wt (wm + Z.of_nat k)) as (I1 & I2 & I3 & I4).
  - apply one_job_at_time. exact S1.
  - rewrite Hckt. exact Hfits.
  - exact S3.
  - exact S4.
  - nia.
  - rewrite Hckt in I1, I2, I4.
    split; [|split; [|split]].
    + intros _. destruct rest as [|d' rest'].
      * cbn [_scan_and_sync cycle_times List.last]. unfold ret. cbn [snd]. exact S6.
      * rewrite I1 by discriminate. cbn [cycle_times List.last]. reflexivity.
    + rewrite I2. unfold wt, at_time. cbn [duck]. rewrite S5, <- app_assoc. reflexivity.
    + rewrite I3. f_equal. lia.
    + rewrite I4. lia.
Qed.

End Cycles.

(** X24. The loop of the reconciler brings one job to the tables.  One job
    has a hash, with fields that can be read and fit their columns, and a
    log list [l] that is not changed meanwhile; the watermark is [wm] and
    the table has no row of the job from [wm] on.  [_scan_and_sync] makes
    one iteration for each entry of [naps], a cycle and a sleep that returns
    after that many seconds, without fault; there are enough iterations for
    the list: [length l <= wm + length naps * LOG_BATCH_LIMIT].  Then the
    [jobs] table has exactly one row of the job, made of the hash, with
    what [datetime.utcnow().timestamp()] gives at the last cycle as
    [last_updated]; the [job_logs] table has gained exactly the entries of
    indices [wm], [wm + 1], ... of the list, in the order of the list and
    once each, although every cycle reads the hash and the list again, each
    entry under its index and with the second of the cycle that copied it;
    the watermark is at the length of the list; and the clock has moved by
    the sum of the sleeps. *)
Theorem reconcile_loop_copies_job (rt : runtime) (LOG_BATCH_LIMIT : Z) (job_id : pystr)
    (meta : gmap pystr pystr) (l : list pystr) (c s f x : option Z) (naps : list Z)
    (w : world) (wm : Z) :
  let times := cycle_times (clock w) naps in
  let row := fun t : Z =>
    {| DuckDB.j_id := job_id;
       DuckDB.j_status := meta !! lit "status";
       DuckDB.j_created_at := Some (default 0 c);
       DuckDB.j_started_at := Some (default 0 s);
       DuckDB.j_finished_at := Some (default 0 f);
       DuckDB.j_exit_code := x;
       DuckDB.j_result_path := meta !! lit "result_path";
       DuckDB.j_error := meta !! lit "error";
       DuckDB.j_params := match params_field rt meta with
                          | JNull => None
                          | JStr text => Some text
                          | v => Some (default (py_str rt v) (json_dumps rt v))
                          end;
       DuckDB.j_last_updated := Some (utc_as_local rt t) |} in
  0 < LOG_BATCH_LIMIT -> 58%N ∉ job_id -> meta <> ∅ ->
  int_field rt meta (lit "created_at") = Ok c ->
  int_field rt meta (lit "started_at") = Ok s ->
  int_field rt meta (lit "finished_at") = Ok f ->
  int_field rt meta (lit "exit_code") = Ok x ->
  Z.of_nat (length l) < 2 ^ 63 ->
  Forall (fun t => DuckDB.fits_bigint t = true /\ DuckDB.job_row_fits (row t) = true) times ->
  one_job job_id meta l w ->
  watermark rt (redis w) job_id = Ok wm ->
  rows_below job_id wm (DuckDB.committed (duck w)) ->
  naps <> [] -> Z.of_nat (length l) <= wm + Z.of_nat (length naps) * LOG_BATCH_LIMIT ->
  let w' := (_scan_and_sync rt LOG_BATCH_LIMIT naps w).2 in
  let new := cycle_rows LOG_BATCH_LIMIT job_id l wm times in
  jobs_with job_id (DuckDB.committed (duck w')) = [row (List.last times 0)] /\
  DuckDB.job_logs (DuckDB.committed (duck w'))
  = DuckDB.job_logs (DuckDB.committed (duck w)) ++ new /\
  (fun r => (DuckDB.l_job_id r, DuckDB.l_seq r, DuckDB.l_line r)) <$> new
  = imap (fun i line => (job_id, wm + Z.of_nat i, Some line)) (drop (Z.to_nat wm) l) /\
  Forall (fun r => exists t, t ∈ times /\ DuckDB.l_ts r = Some t) new /\
  watermark rt (redis w') job_id = Ok (Z.max wm (Z.of_nat (length l))) /\
  clock w' = clock w + foldr Z.add 0 naps.
Proof.
  intros times row HL Hid Hmne Hc Hs Hf Hx Hlen Hfits Hone Hw Hb Hne Hle w' new.
  assert (Hrow : forall t, job_values rt (job_record rt (JOB_HASH_PREFIX ++ job_id) meta c s f x)
                             (utc_as_local rt t) = row t).
  { intros t. unfold job_values, row, job_record, params_column, int_or_0.
    cbn [id status created_at started_at finished_at exit_code result_path error params].
    rewrite (job_id_of_key job_id Hid).
    destruct (params_field rt meta), c, s, f; reflexivity. }
  assert (Hfits' : Forall (fun t => DuckDB.fits_bigint t = true /\
                     DuckDB.job_row_fits
                       (job_values rt (job_record rt (JOB_HASH_PREFIX ++ job_id) meta c s f x)
                          (utc_as_local rt t)) = true) times).
  { eapply Forall_impl; [exact Hfits|]. intros t [H1 H2]. rewrite Hrow. auto. }
  destruct (scan_copies rt LOG_BATCH_LIMIT job_id meta l c s f x HL Hid Hmne Hc Hs Hf Hx Hlen
              naps w wm Hone Hfits' Hw Hb Hle) as (H1 & H2 & H3 & H4).
  pose proof (watermark_nonneg rt _ _ _ Hw) as H0.
  split; [rewrite <- Hrow; apply H1, Hne|].
  split; [exact H2|].
  split; [apply cycle_rows_lines; [exact HL|exact H0|]; unfold times;
          now rewrite cycle_times_length|].
  split; [apply Forall_forall; intros r Hr; now apply cycle_rows_times in Hr|].
  split; assumption.
Qed.

Lemma reconcile_loop_copies_job_witness :
  let d := [(lit "mode", JStr (lit "http")); (lit "concurrency", JInt 5)] in
  let job_id := lit "0b5f-11" in
  let l := [lit "a"; lit "b"; lit "c"] in
  let w := at_time 1700000003
             (appended job_id l
                (bench_runner.start_job Sample.rt job_id (JDict d)
                   (fresh_world 1700000000)).2) in
  let w' := (_scan_and_sync Sample.rt 2 [1; 2] w).2 in
  jobs_with job_id (DuckDB.committed (duck w'))
  = [{| DuckDB.j_id := job_id; DuckDB.j_status := Some (lit "queued");
        DuckDB.j_created_at := Some 1700000000; DuckDB.j_started_at := Some 0;
        DuckDB.j_finished_at := Some 0; DuckDB.j_exit_code := None;
        DuckDB.j_result_path := Some []; DuckDB.j_error := Some [];
        DuckDB.j_params := Some (sample_text (JDict d));
        DuckDB.j_last_updated := Some 1699971204 |}] /\
  DuckDB.job_logs (DuckDB.committed (duck w'))
  = [log_row job_id 0 1700000003 (lit "a"); log_row job_id 1 1700000003 (lit "b");
     log_row job_id 2 1700000004 (lit "c")] /\
  watermark Sample.rt (redis w') job_id = Ok 3 /\
  clock w' = 1700000006.
Proof.
  intros d job_id l w.
  pose proof (reconcile_loop_copies_job Sample.rt 2 job_id
                (job_meta job_id 1700000000 (sample_text (JDict d))) l
                (Some 1700000000) None None None [1; 2] w 0) as H.
  cbv zeta in H.
  specialize (H ltac:(lia)).
  specialize (H ltac:(vm_compute; intros Hin; repeat (apply elem_of_cons in Hin as [Hin|Hin];
                        [discriminate Hin|]); inversion Hin)).
  specialize (H ltac:(intros E; apply (f_equal (fun m => m !! lit "id")) in E;
                      vm_compute in E; discriminate E)).
  specialize (H ltac:(vm_compute; reflexivity)).
  specialize (H ltac:(vm_compute; reflexivity)).
  specialize (H ltac:(vm_compute; reflexivity)).
  specialize (H ltac:(vm_compute; reflexivity)).
  specialize (H ltac:(vm_compute; reflexivity)).
  specialize (H ltac:(repeat (apply List.Forall_cons; [split; vm_compute; reflexivity|]);
                      constructor)).
  specialize (H ltac:(repeat split; vm_compute; reflexivity)).
  specialize (H ltac:(vm_compute; reflexivity)).
  specialize (H ltac:(intros r Hr; vm_compute in Hr; inversion Hr)).
  specialize (H ltac:(discriminate)).
  specialize (H ltac:(vm_compute; discriminate)).
  destruct H as (H1 & H2 & _ & _ & H5 & H6).
  vm_compute in H1, H2, H5, H6. vm_compute.
  repeat split; assumption.
Defined.
